(* ===== verification/_CoqProject ===== *)
-Q . S2P
Prelude.v
Hash.v
QuicInitial.v
Probe.v
SessionKey.v
SessionTable.v
SessionSafety.v
FlowTable.v
QuicFrames.v
Hostname.v
TlsClientHello.v
RouteTable.v
CidCodec.v
Config.v
LogText.v
QuicCrypto.v
Runtime.v
Sender.v
Process.v
Pending.v
Upstream.v
Routing.v
Dataplane.v
DataplaneSafety.v
Connections.v
EventLoop.v
Startup.v
LogSafety.v
Portable.v
Main.v
