(* ===== verification/Prelude.v ===== *)
(** * A verified model of quic-sni-router

    quic-sni-router is a UDP router for QUIC: it reads the server name in the
    ClientHello of a new connection, picks the backend configured for it, and
    relays all further datagrams of the connection between client and backend.
    This library models its C sources ([src/] and [include/qsr/]) as Rocq
    functions and proves what they compute.

    ** Parts and files

    - [Prelude]: machine integers with their wrap-around, the status codes and
      limits of [include/qsr/common.h], bounds-checked pointers, the [outcome]
      monad ([Ok], [Fail] for a returned status, [Fault] for an access out of
      bounds), and shared tactics and lemmas.
    - [Hash] ([hash.c]): SipHash-2-4, the lazily seeded key; class [KeyedHash].
      Module [SipHash] is the published algorithm, written down on its own.
    - [QuicInitial] ([quic_initial.c]): varints, long and Initial headers.
    - [Probe]: the theory of open addressing that three tables share.
    - [SessionKey], [SessionTable] ([session_table.c]): keys, and the bounded
      table from client tuples and connection IDs to backend addresses.
    - [FlowTable] ([flow_table.c]): one upstream socket per client.
    - [QuicFrames] ([quic_frames.c]): frames and CRYPTO reassembly.
    - [Hostname], [TlsClientHello] ([tls_client_hello.c]): the hostname grammar
      and the extraction of the server name.
    - [RouteTable] ([route_table.c]): server names and ids to backends.
    - [CidCodec] ([cid_codec.c]): server ids encoded in connection IDs.
    - [Config] ([config.c]): the YAML configuration.
    - [QuicCrypto] ([quic_crypto.c]): Initial keys and packet decryption.
    - [LogText]: the printed form of addresses in [udp.c] and [runtime.c], and
      the line of the packet debugging.
    - [Runtime] ([runtime.c]): configuration, tables, hot reload and its lines.
    - [Process]: the process around [udp.c] - signals, the clock, descriptor
      flags and limits, socket options, the buffers [recvmmsg] fills - and
      [metrics.c].
    - The parts of [udp.c]: [Sender] (the send queue), [Pending] (ClientHellos
      that are not complete yet), [Upstream] (opening and reusing flows, the
      connection log), [Routing] (finding the backend of a packet, learning
      aliases), [Dataplane] (the two packet handlers and the sweeps),
      [EventLoop] (draining a socket, the epoll loop), [Startup] (start-up and
      shut-down around it), [Portable] (the [poll] and [sendto] path of other
      platforms).
    - [SessionSafety], [DataplaneSafety]: the weaker invariant of the session
      table and of the handlers that holds under any load.
    - [Connections]: a connection over several datagrams.
    - [LogSafety]: what clients can put into the connection log.
    - [Main] ([main.c]): the program.

    ** How state and effects are represented

    A C struct is a record and a function that changes it returns the new one;
    a fixed-size array is a list of that length; C integers are [Z], with [u8],
    [u16], [u32], [u64], [uadd] and [usub] where the code can wrap; a C string
    is the list of its bytes before the terminator; a socket address is 128
    bytes. A slot pointer is the index of the slot. Where the code hands out a
    pointer into a table and then changes the table, the model does too:
    [AddrSlot] is an address that is read when [put] copies it, a queued payload
    ([RecvBuffer], [PendingPacket]) is read when the queue is flushed.

    Operations return [None] or [Fault] for an access out of bounds, an [abort]
    or a loop that exceeds its fuel, and the theorems state that they return.
    What the code closes, prints and sends, and each descriptor that [socket]
    returns to it, is a list of events in order ([flow_event], [event]), so that
    the theorems on descriptors ([accounts]) compare what was really opened
    with what was closed and what is held. Sections take as parameters what is outside of
    [src/]: [calloc], [getrandom], the OpenSSL operations (class [Crypto]),
    AES-128-CTR, [getaddrinfo], libyaml (class [Yaml]), and the answers of the
    kernel ([kernel], [recv_result], [wait_result], [os]). Their laws are
    separate: [CryptoOutput] and [YamlLaws] (lengths), [kernel_fresh] (a new
    descriptor is not one that is open), [calloc] refusing what does not fit the
    address space, and well-formed receive results ([received_ok]).

    ** Interfaces

    [KeyedHash] is all the tables know of [Hash]; [siphash_keyed] implements it
    and [Main] instantiates it with the key that was drawn. [Probe] is generic
    in the slot type. [InetNtop] is the notation of IPv6 addresses. The abstract state of a table is the finite map of its
    contents ([contents], [flows_of]); clients of a table use its refinement
    lemmas, never its array.

    There are two invariants of the dataplane. [dp_ok] is the full one: both
    tables well formed, everything in them pointing at configured backends, the
    pending table and the queue well formed, and no borrowed pending packet in
    the queue between datagrams; [handled] says what one datagram may change.
    [dp_safe] leaves out where sessions point, and [confined] is its [handled].
    Both allow what the code does under pressure: one flow of another client
    is evicted when the flow table is full or descriptors have run out
    ([spares]). The event loop is proved once, against
    the class [Regime] (an invariant, when the kernel's answers and a datagram are fit for it, what
    a step may change) with [RegimeLaws] (what the handlers, the
    sweeps and a reload promise). [full_laws] and [weak_laws] are its instances
    for the two invariants; [Startup], [Portable] and [Main] use the weak one.
    A third, [log_laws], adds what the text in the tables may be and what the
    events of a run may be.

    ** What the theorems show

    - Whole program: [main_exits] (exit status, every descriptor closed once),
      [main_loop_safe] (any load), [main_loop_invariant] (with room for
      aliases), [log_lines_clean] (no client can forge a line of the log),
      [portable_turn_simulated] (the portable loop does what the epoll loop
      does with the same datagrams, one an event).
    - One connection: [fresh_connection_opened], [established_connection_transparent],
      [migration_followed], [encoded_connection_routed].
    - One datagram: [client_datagram_handled], [client_datagram_confined],
      [fast_path_exact], [unknown_datagram_dropped], [backend_datagram_relayed],
      [segments_exact], [recv_batch_separate].
    - Time: [sweep_keeps_active], [idle_flows_collected],
      [session_keepalive_exact].
    - Routing: [initial_datagram_routed], [short_header_lookup_longest],
      [configured_routes_found], [route_resolve_refines], [cid_decode_exact].
    - Parsing and cryptography: [parse_initial_roundtrip],
      [decrypt_initial_roundtrip], [reassemble_client_hello],
      [client_hello_roundtrip], [client_hello_name_valid], [siphash24_spec].
    - Tables: [session_put_refines], [flow_put_refines], [flow_fds_conserved],
      [pending_get_refines], [pending_append_collects], [sender_fifo],
      [flow_acquire_refines], and two places where the code and its comments
      differ ([session_pressure_put_shrinks] and, as an example on one table,
      [alias_of_moved_slot_is_zero]).
    - Configuration and logs: [config_load_ok], [config_roundtrip],
      [config_numbers_exact], [reload_all_or_nothing],
      [poll_keeps_backends_configured], [route_diff_exact],
      [runtime_init_refines], [conn_text_exact], [log_routes_exact].
    - Further theorems of the same files (safety of each parser, expiry and
      eviction of each table, equivalence with the list grammars) support these.

    ** Bounds and fuel

    Each loop that is not structural has the measure of the C loop as fuel: the
    length of the payload for frames and segments (each round consumes a byte),
    the capacity for table walks (the probe visits each slot once), the length
    of the queue for runs. [session_table_put_internal] and
    [session_table_delete_at] call each other through eviction; the recursion is
    closed with a depth, and [put_spec] shows that any depth above 0 is enough.
    [send_run] runs over the kernel's answers, whose number
    [send_run_terminates] bounds; the event loop runs over a list of turns,
    which stands for the signal that ends it.

    Theorems on learned aliases assume room in the session table ([roomy]):
    under pressure an insertion evicts other entries, and
    [alias_of_moved_slot_is_zero] shows what can then go wrong in
    [learn_client_long_header_cids]. [main_loop_invariant] asks accordingly that
    each turn finds room for its own datagrams ([turns_fit]), not that the whole
    run does. The theorems on any load ([main_loop_safe], [main_exits],
    [log_lines_clean], [portable_turn_simulated]) ask of the number of datagrams
    only that the 64-bit flow ids do not wrap around, which at a million new
    clients a second takes half a million years.

    ** Not modelled

    - The names [handle_client_packet] gives its decisions for the packet
      debugging, which is compiled out by default.
    - [qsr_flow_table_slot_of]: the difference of two pointers; slots are
      indices here.
    - Messages on stderr around a failed system call whose text is [strerror]'s.
    - Null checks on arguments that the callers in [src/] never leave out.

    ** Plan

    Next: the addresses of the lines logged ([log_lines_clean] says nothing of
    them; the ones in the session table would have to be followed from
    [getaddrinfo] on), and a connection followed over a reload. *)

From Stdlib Require Import ZArith Lia.
From stdpp Require Export base tactics numbers list option.
#[global] Open Scope Z_scope.

(** ** Machine integers

    A C unsigned integer of [w] bits is a [Z]; [wrap] is the reduction that
    unsigned arithmetic performs. *)

Definition wrap (w x : Z) : Z := x mod 2 ^ w.

Abbreviation u8 := (wrap 8).
Abbreviation u16 := (wrap 16).
Abbreviation u32 := (wrap 32).
Abbreviation u64 := (wrap 64).

(** [size_t] addition and subtraction (64-bit targets). *)
Definition uadd (a b : Z) : Z := u64 (a + b).
Definition usub (a b : Z) : Z := u64 (a - b).

(** [qsr_status_t] of include/qsr/common.h. *)
Inductive qsr_status :=
  | QSR_OK
  | QSR_ERR_INVALID
  | QSR_ERR_TRUNCATED
  | QSR_ERR_UNSUPPORTED
  | QSR_ERR_NOT_FOUND
  | QSR_ERR_FULL.

#[global] Instance qsr_status_eq_dec : EqDecision qsr_status.
Proof. solve_decision. Defined.

(** The numeric value the enumerator has in C. *)
Definition status_code (s : qsr_status) : Z :=
  match s with
  | QSR_OK => 0
  | QSR_ERR_INVALID => -1
  | QSR_ERR_TRUNCATED => -2
  | QSR_ERR_UNSUPPORTED => -3
  | QSR_ERR_NOT_FOUND => -4
  | QSR_ERR_FULL => -5
  end.

(** Size limits of include/qsr/common.h. *)
Definition QSR_MAX_DATAGRAM_SIZE : Z := 1500.
Definition QSR_MAX_CLIENT_HELLO_SIZE : Z := 8192.
Definition QSR_MAX_ROUTES : Z := 1024.
Definition QSR_ROUTE_BUCKETS : Z := 2048.
Definition QSR_MAX_SESSIONS_DEFAULT : Z := 100000.
Definition QSR_MAX_HOSTNAME_LEN : Z := 255.
Definition QSR_MAX_ADDR_LEN : Z := 255.
Definition QSR_MAX_LISTEN_ADDR_LEN : Z := 64.
Definition QSR_MAX_QUIC_CID_LEN : Z := 20.
Definition QSR_MIN_LEARNED_CID_LEN : Z := 8.
Definition QSR_QUIC_V1 : Z := 0x00000001.
Definition QSR_QUIC_V2 : Z := 0x6b3343cf.
Definition QSR_MIN_INITIAL_DATAGRAM_SIZE : Z := 1200.
Definition QSR_MIN_INITIAL_PAYLOAD_LEN : Z := 36.

(** ** Outcomes of fallible code

    [Ok a]: the C function returns [QSR_OK] and has written [a];
    [Fail s]: it returns the error status [s];
    [Fault]: the run performed an out-of-bounds access (undefined behaviour)
    or exhausted the fuel of a loop. Safety theorems say [Fault] is never
    reached. *)
Inductive outcome (A : Type) :=
  | Ok (a : A)
  | Fail (s : qsr_status)
  | Fault.
Arguments Ok {A} _.
Arguments Fail {A} _.
Arguments Fault {A}.

#[global] Instance outcome_eq_dec {A} `{EqDecision A} : EqDecision (outcome A).
Proof. solve_decision. Defined.

#[global] Instance outcome_ret : MRet outcome := fun A a => Ok a.
#[global] Instance outcome_bind : MBind outcome := fun A B f m =>
  match m with
  | Ok a => f a
  | Fail s => Fail s
  | Fault => Fault
  end.

(** A C call whose only failure check is [if (f(...) != QSR_OK) return s;]. *)
Definition or_fail {A} (s : qsr_status) (m : outcome A) : outcome A :=
  match m with
  | Ok a => Ok a
  | Fail _ => Fail s
  | Fault => Fault
  end.

(** The status a caller sees. *)
Definition outcome_status {A} (m : outcome A) : option qsr_status :=
  match m with
  | Ok _ => Some QSR_OK
  | Fail s => Some s
  | Fault => None
  end.

Definition no_fault {A} (m : outcome A) : Prop := m <> Fault.

(** ** Bytes and pointers *)

Definition is_byte (b : Z) : Prop := 0 <= b < 256.
Definition bytes_ok (l : list Z) : Prop := Forall is_byte l.
Definition Zlen {A} (l : list A) : Z := Z.of_nat (length l).

(** A decision procedure for [bytes_ok], used on concrete packets. *)
Definition bytes_okb (l : list Z) : bool := forallb (fun b => (0 <=? b) && (b <? 256)) l.

(** A [const uint8_t *]: a buffer and an offset into it. Reading through it
    is checked against the buffer. *)
Record ptr := Ptr { p_buf : list Z; p_off : Z }.

Definition ptr_add (p : ptr) (n : Z) : ptr := Ptr (p_buf p) (p_off p + n).

Definition load (p : ptr) (i : Z) : outcome Z :=
  let a := p_off p + i in
  if (0 <=? a) && (a <? Zlen (p_buf p)) then Ok (nth (Z.to_nat a) (p_buf p) 0) else Fault.

(** The source side of [memcpy(dst, p, n)]. *)
Definition load_bytes (p : ptr) (n : Z) : outcome (list Z) :=
  if (0 <=? p_off p) && (0 <=? n) && (p_off p + n <=? Zlen (p_buf p))
  then Ok (take (Z.to_nat n) (drop (Z.to_nat (p_off p)) (p_buf p)))
  else Fault.

(** [p] points at [len] readable bytes. *)
Definition readable (p : ptr) (len : Z) : Prop :=
  0 <= p_off p /\ 0 <= len < 2 ^ 32 /\ p_off p + len <= Zlen (p_buf p).

(** The bytes a readable range holds. *)
Definition range (p : ptr) (len : Z) : list Z :=
  take (Z.to_nat len) (drop (Z.to_nat (p_off p)) (p_buf p)).

(** [memcpy(dst + off, src, |src|)] into an array. *)
Definition memcpy_at (dst : list Z) (off : nat) (src : list Z) : list Z :=
  take off dst ++ src ++ drop (off + length src) dst.

(** [memset(p, 0, n)]: a zeroed array. *)
Definition zeros (n : Z) : list Z := replicate (Z.to_nat n) 0.

(** [memcmp(a, b, n) == 0] on byte arrays. *)
Definition mem_eq (a b : list Z) (n : Z) : bool :=
  bool_decide (take (Z.to_nat n) a = take (Z.to_nat n) b).

(** ** Bounded loops

    [while_pos p step s] runs [step] from [s] at most [p] times, stopping at
    the first [inr]. The fuel is binary, so a large bound costs nothing when
    the loop exits early. *)
Fixpoint while_pos {S R} (step : S -> S + R) (p : positive) (s : S) : S + R :=
  match p with
  | xH => step s
  | xO q =>
      match while_pos step q s with
      | inl s' => while_pos step q s'
      | inr r => inr r
      end
  | xI q =>
      match step s with
      | inl s0 =>
          match while_pos step q s0 with
          | inl s' => while_pos step q s'
          | inr r => inr r
          end
      | inr r => inr r
      end
  end.

Fixpoint while_nat {S R} (step : S -> S + R) (n : nat) (s : S) : S + R :=
  match n with
  | O => inl s
  | Datatypes.S n =>
      match step s with
      | inl s' => while_nat step n s'
      | inr r => inr r
      end
  end.

(** ** Looking for the oldest entry

    [for (i = 0; i < scans; i++)] over the slots [slot i], as both tables do it:
    the used entry with the least [seen], the first of equals, with that value. *)
Definition scan_oldest {A} (l : list A) (used : A -> bool) (seen : A -> Z) (slot : nat -> nat) (scans : nat) :
    option (nat * Z) :=
  foldl (fun victim i =>
    match l !! slot i with
    | Some a =>
        if used a && match victim with None => true | Some (_, oldest) => seen a <? oldest end
        then Some (slot i, seen a) else victim
    | None => victim
    end) None (seq 0 scans).

(** ** Tactics *)

Create HintDb qsr.
Create Rewrite HintDb qsr.
Create Rewrite HintDb bytes.

(** Turn boolean tests in the context into propositions. *)
Ltac bool_to_prop :=
  repeat match goal with
  | H : _ && _ = true |- _ => apply andb_true_iff in H; destruct H
  | H : _ && _ = false |- _ => apply andb_false_iff in H
  | H : _ || _ = false |- _ => apply orb_false_iff in H; destruct H
  | H : _ || _ = true |- _ => apply orb_true_iff in H
  | H : negb _ = true |- _ => apply negb_true_iff in H
  | H : negb _ = false |- _ => apply negb_false_iff in H
  | H : (_ <? _) = true |- _ => apply Z.ltb_lt in H
  | H : (_ <? _) = false |- _ => apply Z.ltb_ge in H
  | H : (_ <=? _) = true |- _ => apply Z.leb_le in H
  | H : (_ <=? _) = false |- _ => apply Z.leb_gt in H
  | H : (_ =? _) = true |- _ => apply Z.eqb_eq in H
  | H : (_ =? _) = false |- _ => apply Z.eqb_neq in H
  | H : bool_decide _ = true |- _ => apply bool_decide_eq_true in H
  | H : bool_decide _ = false |- _ => apply bool_decide_eq_false in H
  end.

(** Split the first [if] or [match] of the goal or of a hypothesis. *)
Ltac split_if :=
  match goal with
  | |- context [if ?b then _ else _] => destruct b eqn:?
  | H : context [if ?b then _ else _] |- _ => destruct b eqn:?
  end.

(** [lia] with division and modulo by constants. *)
Ltac dlia := Z.to_euclidean_division_equations; lia.

(** Boolean goals to propositions, then [lia]. *)
Ltac zbool :=
  repeat match goal with
  | |- _ && _ = true => apply andb_true_iff; split
  | |- _ || _ = false => apply orb_false_iff; split
  | |- negb _ = true => apply negb_true_iff
  | |- (_ <? _) = true => apply Z.ltb_lt
  | |- (_ <? _) = false => apply Z.ltb_ge
  | |- (_ <=? _) = true => apply Z.leb_le
  | |- (_ <=? _) = false => apply Z.leb_gt
  | |- (_ =? _) = true => apply Z.eqb_eq
  | |- (_ =? _) = false => apply Z.eqb_neq
  end;
  try lia.

(** Invert successful runs of the error monad. *)
Ltac inv_ok :=
  repeat match goal with
  | H : Ok _ = Ok _ |- _ => injection H as H; subst
  | H : Fail _ = Ok _ |- _ => discriminate H
  | H : Fault = Ok _ |- _ => discriminate H
  | H : Ok _ = Fail _ |- _ => discriminate H
  | H : mbind _ ?m = Ok _ |- _ =>
      let E := fresh "E" in destruct m as [?|?|] eqn:E; cbn [mbind outcome_bind] in H;
      [ | discriminate H | discriminate H ]
  | H : or_fail _ ?m = Ok _ |- _ =>
      let E := fresh "E" in destruct m as [?|?|] eqn:E; cbn [or_fail] in H;
      [ | discriminate H | discriminate H ]
  | H : match ?x with pair _ _ => _ end = Ok _ |- _ => destruct x
  | H : (if ?b then Fail _ else _) = Ok _ |- _ =>
      let E := fresh "E" in destruct b eqn:E; [ discriminate H | ]
  | H : (if ?b then _ else Fail _) = Ok _ |- _ =>
      let E := fresh "E" in destruct b eqn:E; [ | discriminate H ]
  end.

(** ** Lemmas: integers *)

Lemma wrap_small (w x : Z) : 0 <= x < 2 ^ w -> wrap w x = x.
Proof. intros. by apply Z.mod_small. Qed.

Lemma wrap_range (w x : Z) : 0 <= w -> 0 <= wrap w x < 2 ^ w.
Proof. intros. apply Z.mod_pos_bound, Z.pow_pos_nonneg; lia. Qed.

Lemma uadd_small (a b : Z) : 0 <= a + b < 2 ^ 64 -> uadd a b = a + b.
Proof. apply wrap_small. Qed.

Lemma usub_small (a b : Z) : 0 <= a - b < 2 ^ 64 -> usub a b = a - b.
Proof. apply wrap_small. Qed.

Lemma lor_shiftl_add (hi lo n : Z) :
  0 <= n -> 0 <= lo < 2 ^ n -> Z.lor (Z.shiftl hi n) lo = hi * 2 ^ n + lo.
Proof.
  intros Hn Hlo. rewrite <- Z.shiftl_mul_pow2 by done.
  symmetry. apply Z.add_nocarry_lor, Z.bits_inj_0. intros m.
  rewrite Z.land_spec.
  destruct (decide (m < n)) as [Hm|Hm].
  - rewrite Z.shiftl_spec_low by done. done.
  - destruct (decide (0 <= m)) as [Hm0|Hm0]; [|rewrite (Z.testbit_neg_r lo) by lia; apply andb_false_r].
    rewrite <- (Z.mod_small lo (2 ^ n)), Z.mod_pow2_bits_high, andb_false_r by lia. done.
Qed.

Lemma lor_disjoint_add (a b n : Z) :
  0 <= n -> a mod 2 ^ n = 0 -> 0 <= b < 2 ^ n -> Z.lor a b = a + b.
Proof.
  intros Hn Ha Hb. rewrite (Z.div_mod a (2 ^ n)) by (apply Z.pow_nonzero; lia).
  rewrite Ha, Z.add_0_r, (Z.mul_comm (2 ^ n)), <- Z.shiftl_mul_pow2 by done.
  rewrite lor_shiftl_add by done. by rewrite Z.shiftl_mul_pow2.
Qed.

Lemma land_ones_mod (x n : Z) : 0 <= n -> Z.land x (2 ^ n - 1) = x mod 2 ^ n.
Proof.
  intros. rewrite <- Z.land_ones by done. f_equal. rewrite Z.ones_equiv. lia.
Qed.

(** ** Lemmas: lists *)

Lemma list_alter_at {A} (f : A -> A) (l : list A) i x : l !! i = Some x -> alter f i l = <[i := f x]> l.
Proof.
  intros Hx. apply list_eq. intros j. destruct (decide (i = j)) as [<-|].
  - rewrite list_lookup_alter_eq, list_lookup_insert_eq, Hx; [done|by apply lookup_lt_Some in Hx].
  - by rewrite list_lookup_alter_ne, list_lookup_insert_ne.
Qed.

Lemma scan_oldest_spec {A} (l : list A) used seen slot n :
  match scan_oldest l used seen slot n with
  | None => forall j a, (j < n)%nat -> l !! slot j = Some a -> used a = false
  | Some (v, o) => exists i a, (i < n)%nat /\ v = slot i /\ l !! slot i = Some a /\ used a = true /\ o = seen a /\
      forall j a', (j < n)%nat -> l !! slot j = Some a' -> used a' = true -> seen a <= seen a'
  end.
Proof.
  unfold scan_oldest. induction n as [|n IH]; [cbn; intros; lia|].
  rewrite seq_S, foldl_app. cbn [foldl Nat.add]. revert IH. destruct (foldl _ _ _) as [[v o]|].
  - intros (i & a & Hi & -> & Ha & Hu & -> & Hmin). destruct (l !! slot n) as [b|] eqn:En.
    + destruct (used b && (seen b <? seen a)) eqn:Eb; bool_to_prop.
      * exists n, b. split_and!; [lia|done..|]. intros j a' Hj Ha' Hu'.
        destruct (decide (j = n)) as [->|]; [simplify_eq; lia|]. specialize (Hmin j a' ltac:(lia) Ha' Hu'). lia.
      * exists i, a. split_and!; [lia|done..|]. intros j a' Hj Ha' Hu'.
        destruct (decide (j = n)) as [->|]; [|apply (Hmin j); [lia|done..]]. simplify_eq.
        destruct Eb; bool_to_prop; [congruence|done].
    + exists i, a. split_and!; [lia|done..|]. intros j a' Hj Ha' Hu'.
      apply (Hmin j); [|done..]. destruct (decide (j = n)) as [->|]; [congruence|lia].
  - intros Hnone. destruct (l !! slot n) as [b|] eqn:En.
    + rewrite andb_true_r. destruct (used b) eqn:Eu.
      * exists n, b. split_and!; [lia|done..|]. intros j a' Hj Ha' Hu'.
        destruct (decide (j = n)) as [->|]; [simplify_eq; lia|].
        rewrite (Hnone j a') in Hu' by (done || lia). done.
      * intros j a' Hj Ha'. destruct (decide (j = n)) as [->|]; [congruence|]. apply (Hnone j); [lia|done].
    + intros j a' Hj Ha'. apply (Hnone j); [|done]. destruct (decide (j = n)) as [->|]; [congruence|lia].
Qed.

(** ** Lemmas: loops *)

Section while.
Context {S R : Type} (step : S -> S + R).

Lemma while_nat_add n m s :
  while_nat step (n + m) s =
  match while_nat step n s with inl s' => while_nat step m s' | inr r => inr r end.
Proof.
  revert s. induction n as [|n IH]; intros s; [done|].
  cbn. destruct (step s); [apply IH|done].
Qed.

Lemma while_pos_nat p s : while_pos step p s = while_nat step (Pos.to_nat p) s.
Proof.
  revert s. induction p as [p IH|p IH|]; intros s; cbn [while_pos].
  - rewrite Pos2Nat.inj_xI. cbn [while_nat].
    destruct (step s) as [s0|]; [|done].
    replace (2 * Pos.to_nat p)%nat with (Pos.to_nat p + Pos.to_nat p)%nat by lia.
    rewrite while_nat_add, !IH. destruct (while_nat step (Pos.to_nat p) s0); [apply IH|done].
  - rewrite Pos2Nat.inj_xO.
    replace (2 * Pos.to_nat p)%nat with (Pos.to_nat p + Pos.to_nat p)%nat by lia.
    rewrite while_nat_add, !IH. destruct (while_nat step (Pos.to_nat p) s); [apply IH|done].
  - change (Pos.to_nat 1) with 1%nat. cbn. by destruct (step s).
Qed.

(** Total correctness of a loop: an invariant [I], a measure [m] that every
    continuing step decreases, and a postcondition of the exit. *)
Lemma while_pos_total (I : S -> Prop) (m : S -> nat) (Q : R -> Prop) p s :
  (forall s, I s ->
    match step s with
    | inl s' => I s' /\ (m s' < m s)%nat
    | inr r => Q r
    end) ->
  I s -> (m s < Pos.to_nat p)%nat ->
  exists r, while_pos step p s = inr r /\ Q r.
Proof.
  rewrite while_pos_nat. intros Hstep. generalize (Pos.to_nat p) as n. intros n.
  revert s. induction n as [|n IH]; intros s Hs Hm; [lia|].
  cbn. specialize (Hstep s Hs). destruct (step s) as [s'|r]; [|by exists r].
  destruct Hstep. apply IH; [done|lia].
Qed.
End while.

(** The least index at which a decidable property holds. *)
Lemma least_nat (P : nat -> Prop) `{forall i, Decision (P i)} (n : nat) :
  P n -> exists m, (m <= n)%nat /\ P m /\ forall i, (i < m)%nat -> ~ P i.
Proof.
  intros Hn.
  assert (Hor : forall n, (forall i, (i < n)%nat -> ~ P i) \/
      exists m, (m < n)%nat /\ P m /\ forall i, (i < m)%nat -> ~ P i).
  { clear n Hn. induction n as [|n [IH|(m & ? & ? & ?)]]; [left; lia| |right; exists m; auto with lia].
    destruct (decide (P n)); [right; by exists n; auto with lia|].
    left. intros i Hi. destruct (decide (i = n)) as [->|]; [done|]. apply IH. lia. }
  destruct (Hor n) as [Ha|(m & ? & ? & ?)]; [exists n|exists m]; auto with lia.
Qed.

(** Sums over a list with positions. *)
Lemma sum_list_imap_insert {A} (f : nat -> A -> nat) (l : list A) i a b :
  l !! i = Some a ->
  (sum_list (imap f (<[i := b]> l)) + f i a = sum_list (imap f l) + f i b)%nat.
Proof.
  revert f i. induction l as [|x l IH]; intros f [|i] Hi; simplify_eq/=; [lia|].
  specialize (IH (fun n => f (S n)) i Hi). unfold compose in *. lia.
Qed.

Lemma sum_list_imap_le {A} (f : nat -> A -> nat) (l : list A) n :
  (forall i a, f i a <= n)%nat -> (sum_list (imap f l) <= length l * n)%nat.
Proof.
  revert f. induction l as [|x l IH]; intros f Hf; cbn; [lia|].
  specialize (IH (fun n => f (S n)) (fun i => Hf (S i))). specialize (Hf 0%nat x). unfold compose in *. lia.
Qed.

(** ** Lemmas: outcomes *)

Lemma no_fault_ok {A} (a : A) : no_fault (Ok a).
Proof. done. Qed.

Lemma no_fault_fail {A} (s : qsr_status) : no_fault (A := A) (Fail s).
Proof. done. Qed.

Lemma no_fault_bind {A B} (m : outcome A) (f : A -> outcome B) :
  no_fault m -> (forall a, m = Ok a -> no_fault (f a)) -> no_fault (m ≫= f).
Proof. destruct m; unfold no_fault; cbn; eauto. Qed.

Lemma no_fault_or_fail {A} s (m : outcome A) : no_fault m -> no_fault (or_fail s m).
Proof. destruct m; unfold no_fault; cbn; congruence. Qed.

(** Two runs that agree on the status and whose results are related; neither faults. *)
Definition osim {A B} (R : A -> B -> Prop) (m : outcome A) (n : outcome B) : Prop :=
  match m, n with
  | Ok a, Ok b => R a b
  | Fail s, Fail s' => s = s'
  | _, _ => False
  end.

Lemma osim_bind {A B A' B'} (R : A -> B -> Prop) (R' : A' -> B' -> Prop) m n f g :
  osim R m n -> (forall a b, R a b -> osim R' (f a) (g b)) -> osim R' (m ≫= f) (n ≫= g).
Proof. destruct m, n; cbn; auto; done. Qed.

Lemma osim_or_fail {A B} (R : A -> B -> Prop) s m n : osim R m n -> osim R (or_fail s m) (or_fail s n).
Proof. by destruct m, n. Qed.

Lemma osim_eq {A} (m n : outcome A) : osim eq m n -> m = n /\ no_fault m.
Proof. destruct m, n; cbn; intros; simplify_eq; done. Qed.

#[export] Hint Resolve no_fault_ok no_fault_fail no_fault_or_fail : qsr.

(** ** Lemmas: pointers *)

Lemma Zlen_nonneg {A} (l : list A) : 0 <= Zlen l.
Proof. unfold Zlen. lia. Qed.

Lemma Zlen_app {A} (l k : list A) : Zlen (l ++ k) = Zlen l + Zlen k.
Proof. unfold Zlen. rewrite length_app. lia. Qed.

Lemma Zlen_cons {A} (x : A) l : Zlen (x :: l) = 1 + Zlen l.
Proof. unfold Zlen. cbn [length]. lia. Qed.

Lemma Zlen_nil {A} : Zlen (@nil A) = 0.
Proof. done. Qed.

#[export] Hint Rewrite @Zlen_app @Zlen_cons @Zlen_nil : qsr.

Lemma load_no_fault p len i : readable p len -> 0 <= i < len -> no_fault (load p i).
Proof.
  intros (?&?&?) ?. unfold load. replace (_ && _) with true; [done|].
  symmetry. zbool.
Qed.

Lemma load_bytes_no_fault p len n : readable p len -> 0 <= n <= len -> no_fault (load_bytes p n).
Proof.
  intros (?&?&?) ?. unfold load_bytes. replace (_ && _) with true; [done|].
  symmetry. zbool.
Qed.

Lemma readable_add p len n :
  readable p len -> 0 <= n <= len -> readable (ptr_add p n) (len - n).
Proof. unfold readable. intros (?&?&?) ?. cbn. lia. Qed.

Lemma readable_sub p len n : readable p len -> 0 <= n <= len -> readable p n.
Proof. unfold readable. lia. Qed.

Lemma Forall_nth_Z (P : Z -> Prop) l i : Forall P l -> (i < length l)%nat -> P (nth i l 0).
Proof. intros H. apply Forall_nth, H. Qed.

Lemma load_byte p i v : bytes_ok (p_buf p) -> load p i = Ok v -> is_byte v.
Proof.
  unfold load, Zlen. intros Hok ?. split_if; [|done]. inv_ok. bool_to_prop.
  apply Forall_nth_Z; [done|lia].
Qed.

Lemma load_range p i v : load p i = Ok v -> 0 <= p_off p + i < Zlen (p_buf p).
Proof. unfold load. split_if; [|done]. bool_to_prop. lia. Qed.

Lemma load_bytes_length p n l : load_bytes p n = Ok l -> Zlen l = n.
Proof.
  unfold load_bytes, Zlen. intros. split_if; [|done]. inv_ok. bool_to_prop.
  rewrite length_take, length_drop. lia.
Qed.

Lemma load_bytes_ok p n l : bytes_ok (p_buf p) -> load_bytes p n = Ok l -> bytes_ok l.
Proof.
  unfold load_bytes. intros. split_if; [|done]. inv_ok.
  by apply Forall_take, Forall_drop.
Qed.

Lemma load_lookup p i x :
  0 <= p_off p + i -> p_buf p !! Z.to_nat (p_off p + i) = Some x -> load p i = Ok x.
Proof.
  intros Hi Hx. unfold load, Zlen.
  pose proof (lookup_lt_Some _ _ _ Hx). replace (_ && _) with true by (symmetry; zbool).
  by rewrite (nth_lookup_Some _ _ _ _ Hx).
Qed.

(** Reading inside a buffer that is laid out as [pre ++ bs ++ post]. *)
Lemma load_app pre b post i :
  i = Zlen pre -> load (Ptr (pre ++ b :: post) 0) i = Ok b.
Proof.
  intros ->. apply load_lookup; cbn; unfold Zlen; [lia|].
  rewrite lookup_app_r by lia. by replace (_ - _)%nat with 0%nat by lia.
Qed.

Lemma load_bytes_app pre bs post o n :
  o = Zlen pre -> n = Zlen bs -> load_bytes (Ptr (pre ++ bs ++ post) o) n = Ok bs.
Proof.
  intros -> ->. unfold load_bytes. cbn [p_off p_buf]. rewrite !Zlen_app.
  pose proof (Zlen_nonneg pre). pose proof (Zlen_nonneg bs). pose proof (Zlen_nonneg post).
  replace (_ && _) with true by (symmetry; zbool).
  unfold Zlen. rewrite !Nat2Z.id, drop_app_length, take_app_length. done.
Qed.

Lemma length_memcpy_at dst off src :
  (off + length src <= length dst)%nat -> length (memcpy_at dst off src) = length dst.
Proof. intros. unfold memcpy_at. rewrite !length_app, length_take, length_drop. lia. Qed.

Lemma lookup_memcpy_at dst off src i : (off + length src <= length dst)%nat ->
  memcpy_at dst off src !! i =
    if decide (off <= i < off + length src)%nat then src !! (i - off)%nat else dst !! i.
Proof.
  intros Hl. unfold memcpy_at. case_decide as Hi.
  - rewrite lookup_app_r, length_take by (rewrite length_take; lia). rewrite lookup_app_l by lia. f_equal. lia.
  - destruct (decide (i < off)%nat).
    + rewrite lookup_app_l by (rewrite length_take; lia). by apply lookup_take_lt.
    + rewrite lookup_app_r, length_take by (rewrite length_take; lia).
      rewrite lookup_app_r by lia. rewrite lookup_drop. f_equal. lia.
Qed.

(** A separator that does not occur in front of it splits a text uniquely. *)
Lemma sep_inj {A} (c : A) x y r s : ~ c ∈ x -> ~ c ∈ y -> x ++ c :: r = y ++ c :: s -> x = y /\ r = s.
Proof.
  revert y. induction x as [|a x IH]; intros [|b y] Hx Hy He; cbn in He; simplify_eq; rewrite ?elem_of_cons in *; try tauto.
  destruct (IH y) as [-> ->]; tauto.
Qed.

Lemma length_zeros n : length (zeros n) = Z.to_nat n.
Proof. apply length_replicate. Qed.

Lemma memcpy_at_0_take dst src : take (length src) (memcpy_at dst 0 src) = src.
Proof. unfold memcpy_at. rewrite take_0, app_nil_l. apply take_app_length. Qed.

#[export] Hint Rewrite length_zeros : qsr.

(** Step through the monadic text of a parser, leaving one goal per memory access. *)
Ltac no_fault_steps :=
  repeat (cbv zeta; cbn [fst snd] in *;
  match goal with
  | |- no_fault (mbind _ _) => apply no_fault_bind; [ | intros ? ? ]
  | |- no_fault (if ?b then _ else _) => destruct b eqn:?
  | |- no_fault (Ok _) => apply no_fault_ok
  | |- no_fault (Fail _) => apply no_fault_fail
  | |- no_fault (mret _) => apply no_fault_ok
  | |- no_fault (match ?x with pair _ _ => _ end) => destruct x
  end).

Lemma bytes_okb_ok l : bytes_okb l = true -> bytes_ok l.
Proof.
  unfold bytes_okb, bytes_ok, is_byte. induction l as [|b l IH]; cbn; intros; bool_to_prop; constructor; auto.
Qed.

Lemma bytes_ok_app l k : bytes_ok (l ++ k) <-> bytes_ok l /\ bytes_ok k.
Proof. apply Forall_app. Qed.

Lemma bytes_ok_cons b l : bytes_ok (b :: l) <-> is_byte b /\ bytes_ok l.
Proof. apply list.Forall_cons. Qed.

Lemma bytes_ok_zeros n : bytes_ok (zeros n).
Proof. apply Forall_replicate. unfold is_byte. lia. Qed.

#[export] Hint Rewrite bytes_ok_app bytes_ok_cons : bytes.
#[export] Hint Resolve bytes_ok_zeros : qsr.

(** Close a readability goal on a concrete buffer. *)
Ltac z_concrete :=
  unfold readable, is_byte; repeat match goal with |- _ /\ _ => split end; vm_compute; congruence.
Ltac bytes_concrete := apply bytes_okb_ok; vm_compute; reflexivity.
