(* ===== verification/Hash.v ===== *)
(** * The keyed hash

    [src/hash.c]: SipHash-2-4, the process-wide random key and its lazy
    seeding. The tables only depend on the class [KeyedHash]: some function
    from byte strings to 64-bit words. *)

From Stdlib Require Import Ascii String.
From S2P Require Import Prelude.
#[local] Open Scope Z_scope.

(** ** SipHash-2-4 *)

(** [ROTL] *)
Definition rotl (x b : Z) : Z := u64 (Z.lor (Z.shiftl x b) (Z.shiftr x (64 - b))).

Definition byte_at (p : list Z) (i : nat) : Z := default 0 (p !! i).

(** [U8TO64_LE] *)
Definition u8to64_le (p : list Z) : Z :=
  Z.lor (Z.lor (Z.lor (Z.lor (Z.lor (Z.lor (Z.lor
    (byte_at p 0)
    (Z.shiftl (byte_at p 1) 8))
    (Z.shiftl (byte_at p 2) 16))
    (Z.shiftl (byte_at p 3) 24))
    (Z.shiftl (byte_at p 4) 32))
    (Z.shiftl (byte_at p 5) 40))
    (Z.shiftl (byte_at p 6) 48))
    (Z.shiftl (byte_at p 7) 56).

Record sip_state := { sv0 : Z; sv1 : Z; sv2 : Z; sv3 : Z }.

(** [SIPROUND] *)
Definition sipround (s : sip_state) : sip_state :=
  let '{| sv0 := v0; sv1 := v1; sv2 := v2; sv3 := v3 |} := s in
  let v0 := u64 (v0 + v1) in
  let v1 := rotl v1 13 in
  let v1 := Z.lxor v1 v0 in
  let v0 := rotl v0 32 in
  let v2 := u64 (v2 + v3) in
  let v3 := rotl v3 16 in
  let v3 := Z.lxor v3 v2 in
  let v0 := u64 (v0 + v3) in
  let v3 := rotl v3 21 in
  let v3 := Z.lxor v3 v0 in
  let v2 := u64 (v2 + v1) in
  let v1 := rotl v1 17 in
  let v1 := Z.lxor v1 v2 in
  let v2 := rotl v2 32 in
  {| sv0 := v0; sv1 := v1; sv2 := v2; sv3 := v3 |}.

Definition sip_init (key : list Z) : sip_state :=
  let k0 := u8to64_le key in
  let k1 := u8to64_le (drop 8 key) in
  {| sv0 := Z.lxor 0x736f6d6570736575 k0;
     sv1 := Z.lxor 0x646f72616e646f6d k1;
     sv2 := Z.lxor 0x6c7967656e657261 k0;
     sv3 := Z.lxor 0x7465646279746573 k1 |}.

(** Absorb one 64-bit word: [v3 ^= m; SIPROUND; SIPROUND; v0 ^= m;]. *)
Definition sip_absorb (s : sip_state) (m : Z) : sip_state :=
  let s := {| sv0 := sv0 s; sv1 := sv1 s; sv2 := sv2 s; sv3 := Z.lxor (sv3 s) m |} in
  let s := sipround (sipround s) in
  {| sv0 := Z.lxor (sv0 s) m; sv1 := sv1 s; sv2 := sv2 s; sv3 := sv3 s |}.

(** [for (; data != end; data += 8)]: the state after the whole blocks and the rest of the data. *)
Fixpoint sip_blocks (s : sip_state) (data : list Z) (blocks : nat) : sip_state * list Z :=
  match blocks with
  | O => (s, data)
  | S blocks => sip_blocks (sip_absorb s (u8to64_le data)) (drop 8 data) blocks
  end.

(** The trailing-byte [switch] with its fall-through: bytes [left - 1] down to [0]. *)
Fixpoint sip_tail (b : Z) (data : list Z) (left : nat) : Z :=
  match left with
  | O => b
  | S i => sip_tail (Z.lor b (Z.shiftl (byte_at data i) (8 * Z.of_nat i))) data i
  end.

Definition sip_finish (s : sip_state) : Z :=
  let s := {| sv0 := sv0 s; sv1 := sv1 s; sv2 := Z.lxor (sv2 s) 0xff; sv3 := sv3 s |} in
  let s := sipround (sipround (sipround (sipround s))) in
  Z.lxor (Z.lxor (Z.lxor (sv0 s) (sv1 s)) (sv2 s)) (sv3 s).

Definition qsr_siphash24 (data key : list Z) : Z :=
  let left := (length data mod 8)%nat in
  let b := u64 (Z.shiftl (Zlen data) 56) in
  let '(s, rest) := sip_blocks (sip_init key) data (length data / 8)%nat in
  sip_finish (sip_absorb s (sip_tail b rest left)).

(** ** The process-wide key *)

Record hash_state := { g_hash_key : list Z; g_hash_key_seeded : bool }.

Definition hash_state0 : hash_state := {| g_hash_key := zeros 16; g_hash_key_seeded := false |}.

(** What one call of [getrandom] does; the calls of a run are given as a list. *)
Inductive getrandom_result := Got (bytes : list Z) | Interrupted | Failed.

(** [qsr_hash_init]; [None] when the listed calls are used up before the loop ends. *)
Fixpoint hash_init_loop (calls : list getrandom_result) (buf : list Z) :
    option (option (list Z) * list getrandom_result) :=
  if (16 <=? length buf)%nat then Some (Some buf, calls)
  else
    match calls with
    | [] => None
    | Got bytes :: calls => hash_init_loop calls (buf ++ bytes)
    | Interrupted :: calls => hash_init_loop calls buf
    | Failed :: calls => Some (None, calls)
    end.

Definition qsr_hash_init (st : hash_state) (calls : list getrandom_result) :
    option (hash_state * qsr_status * list getrandom_result) :=
  match hash_init_loop calls [] with
  | None => None
  | Some (None, calls) => Some (st, QSR_ERR_INVALID, calls)
  | Some (Some buf, calls) =>
      Some ({| g_hash_key := take 16 buf; g_hash_key_seeded := true |}, QSR_OK, calls)
  end.

(** A hash value, or the [abort()] of a process that cannot seed its key. *)
Inductive hash_result := Hashed (h : Z) | Aborted.

Definition qsr_hash_bytes (st : hash_state) (calls : list getrandom_result) (data : list Z) :
    option (hash_state * hash_result * list getrandom_result) :=
  if g_hash_key_seeded st then Some (st, Hashed (qsr_siphash24 data (g_hash_key st)), calls)
  else
    match qsr_hash_init st calls with
    | None => None
    | Some (st, QSR_OK, calls) => Some (st, Hashed (qsr_siphash24 data (g_hash_key st)), calls)
    | Some (st, _, calls) => Some (st, Aborted, calls)
    end.

(** ** What the tables use *)

Class KeyedHash := {
  hash_bytes : list Z -> Z;
  hash_bytes_range : forall d, 0 <= hash_bytes d < 2 ^ 64;
}.

(** A keyed hash for small examples: the sum of the bytes. *)
Definition sum_hash : KeyedHash :=
  {| hash_bytes d := u64 (foldr Z.add 0 d); hash_bytes_range d := wrap_range 64 _ ltac:(lia) |}.

(** The slot of a hash: [(size_t)(qsr_hash_bytes(...) % capacity)]. *)
Definition hash_slot `{KeyedHash} (d : list Z) (capacity : nat) : nat :=
  Z.to_nat (hash_bytes d mod Z.of_nat capacity).

Lemma hash_slot_lt `{KeyedHash} d capacity : (0 < capacity)%nat -> (hash_slot d capacity < capacity)%nat.
Proof.
  intros. unfold hash_slot. pose proof (Z.mod_pos_bound (hash_bytes d) (Z.of_nat capacity)). lia.
Qed.

(** ** SipHash as published

    The message is padded with zeros to seven bytes modulo eight and with its
    length modulo 256, and cut into little-endian words. *)

Fixpoint le_val (l : list Z) : Z :=
  match l with [] => 0 | b :: l => b + 256 * le_val l end.

Definition sip_pad (m : list Z) : list Z :=
  m ++ replicate (7 - length m mod 8)%nat 0 ++ [Zlen m mod 256].

Fixpoint le_words (blocks : nat) (l : list Z) : list Z :=
  match blocks with
  | O => []
  | S blocks => le_val (take 8 l) :: le_words blocks (drop 8 l)
  end.

Definition ascii_bytes (s : string) : list Z := (fun c => Z.of_nat (nat_of_ascii c)) <$> list_ascii_of_string s.

Module SipHash.
(** The four words of the internal state. *)
Definition words : Type := Z * Z * Z * Z.

(** Rotation of a 64-bit word to the left. *)
Definition rot (x b : Z) : Z := x * 2 ^ b mod 2 ^ 64 + x / 2 ^ (64 - b).

(** Half of the network of additions, rotations and xors. *)
Definition mix (v : words) (s t : Z) : words :=
  let '(a, b, c, d) := v in
  let a' := (a + b) mod 2 ^ 64 in
  let c' := (c + d) mod 2 ^ 64 in
  (rot a' 32, Z.lxor (rot b s) a', c', Z.lxor (rot d t) c').

Definition sip_round (v : words) : words :=
  let '(v0, v1, v2, v3) := mix v 13 16 in
  let '(v2, v1, v0, v3) := mix (v2, v1, v0, v3) 17 21 in
  (v0, v1, v2, v3).

Definition compress (c : nat) (v : words) (m : Z) : words :=
  let '(v0, v1, v2, v3) := v in
  let '(v0, v1, v2, v3) := Nat.iter c sip_round (v0, v1, v2, Z.lxor v3 m) in
  (Z.lxor v0 m, v1, v2, v3).

(** The constants are the characters of a sentence. *)
Definition nothing_up : list Z := ascii_bytes "somepseudorandomlygeneratedbytes".

Definition start (key : list Z) : words :=
  let k0 := le_val (take 8 key) in
  let k1 := le_val (drop 8 key) in
  let word i := foldl (fun a c => a * 256 + c) 0 (take 8 (drop (8 * i) nothing_up)) in
  (Z.lxor k0 (word 0%nat), Z.lxor k1 (word 1%nat), Z.lxor k0 (word 2%nat), Z.lxor k1 (word 3%nat)).

Definition finish (d : nat) (v : words) : Z :=
  let '(v0, v1, v2, v3) := v in
  let '(v0, v1, v2, v3) := Nat.iter d sip_round (v0, v1, Z.lxor v2 255, v3) in
  Z.lxor (Z.lxor v0 v1) (Z.lxor v2 v3).

(** SipHash with [c] rounds a word and [d] rounds at the end. *)
Definition siphash (c d : nat) (m key : list Z) : Z :=
  finish d (foldl (compress c) (start key) (le_words (length m / 8 + 1)%nat (sip_pad m))).
End SipHash.

(** ** Lemmas *)

Lemma le_val_range l : bytes_ok l -> 0 <= le_val l < 2 ^ (8 * Zlen l).
Proof.
  induction 1 as [|b l Hb _ IH]; [done|]. cbn [le_val]. unfold is_byte in Hb.
  unfold Zlen in *. cbn [length]. rewrite Nat2Z.inj_succ, Z.mul_succ_r, Z.pow_add_r by lia. lia.
Qed.

Lemma le_val_app l1 l2 : le_val (l1 ++ l2) = le_val l1 + 2 ^ (8 * Zlen l1) * le_val l2.
Proof.
  induction l1 as [|b l IH]; cbn [le_val app]; [unfold Zlen; cbn; lia|].
  rewrite IH. unfold Zlen. cbn [length]. rewrite Nat2Z.inj_succ, Z.mul_succ_r, Z.pow_add_r by lia. lia.
Qed.

Lemma le_val_zeros n : le_val (replicate n 0) = 0.
Proof. induction n as [|n IH]; [done|]. cbn. rewrite IH. lia. Qed.

Lemma lor_add_shiftl (lo hi n : Z) : 0 <= n -> 0 <= lo < 2 ^ n -> Z.lor lo (Z.shiftl hi n) = lo + hi * 2 ^ n.
Proof. intros. rewrite Z.lor_comm, lor_shiftl_add by done. lia. Qed.

Lemma u8to64_le_val p : bytes_ok p -> (8 <= length p)%nat -> u8to64_le p = le_val (take 8 p).
Proof.
  intros Hb Hl. do 8 (destruct p as [|? p]; [cbn in Hl; lia|]). unfold u8to64_le, byte_at. cbn.
  autorewrite with bytes in Hb. unfold is_byte in Hb. destruct_and?. rewrite take_0. cbn [le_val].
  rewrite (lor_add_shiftl _ _ 8), (lor_add_shiftl _ _ 16), (lor_add_shiftl _ _ 24), (lor_add_shiftl _ _ 32),
    (lor_add_shiftl _ _ 40), (lor_add_shiftl _ _ 48), (lor_add_shiftl _ _ 56) by lia. lia.
Qed.

Lemma byte_at_take_S data i : (i < length data)%nat -> take (S i) data = take i data ++ [byte_at data i].
Proof.
  intros Hi. apply lookup_lt_is_Some in Hi as [b Hb]. unfold byte_at. rewrite Hb.
  by apply take_S_r.
Qed.

Lemma sip_tail_add data n : forall b, bytes_ok data -> (n <= length data)%nat ->
  0 <= b -> b mod 2 ^ (8 * Z.of_nat n) = 0 -> sip_tail b data n = b + le_val (take n data).
Proof.
  induction n as [|i IH]; intros b Hb Hn H0 Hm; cbn [sip_tail]; [rewrite take_0; cbn [le_val]; lia|].
  assert (is_byte (byte_at data i)) as Hby.
  { destruct (lookup_lt_is_Some_2 data i) as [x Hx]; [lia|]. unfold byte_at. rewrite Hx.
    unfold bytes_ok in Hb. by eapply Forall_lookup_1 in Hb. }
  assert (Hpow : 2 ^ (8 * Z.of_nat (S i)) = 256 * 2 ^ (8 * Z.of_nat i)).
  { rewrite Nat2Z.inj_succ, Z.mul_succ_r, Z.pow_add_r by lia. lia. }
  pose proof (Z.pow_pos_nonneg 2 (8 * Z.of_nat i)) as Hp. unfold is_byte in Hby.
  rewrite Z.shiftl_mul_pow2 by lia.
  rewrite (lor_disjoint_add _ _ (8 * Z.of_nat (S i))) by (nia || done).
  rewrite IH; [|done|lia|nia|].
  - rewrite byte_at_take_S by lia. rewrite le_val_app. cbn [le_val].
    replace (Zlen (take i data)) with (Z.of_nat i); [lia|].
    unfold Zlen. rewrite length_take. lia.
  - rewrite Z.mod_add by lia. apply Z.mod_divide in Hm; [|lia]. destruct Hm as [q ->].
    rewrite Hpow, Z.mul_assoc. by apply Z.mod_mul; lia.
Qed.

Lemma sip_blocks_words n : forall s data tail, bytes_ok data -> (8 * n <= length data)%nat ->
  sip_blocks s data n = (foldl sip_absorb s (le_words n (data ++ tail)), drop (8 * n) data).
Proof.
  induction n as [|n IH]; intros s data tail Hb Hl; [done|]. cbn [sip_blocks le_words foldl].
  rewrite (IH _ _ tail); [|by apply Forall_drop|rewrite length_drop; lia].
  rewrite u8to64_le_val by (done || lia). rewrite take_app_le, drop_app_le by lia.
  f_equal. rewrite drop_drop. f_equal. lia.
Qed.

Lemma le_words_add n m l : le_words (n + m) l = le_words n l ++ le_words m (drop (8 * n) l).
Proof.
  revert l. induction n as [|n IH]; intros l; [done|]. cbn [le_words Nat.add app]. rewrite IH, drop_drop.
  by replace (8 + 8 * n)%nat with (8 * S n)%nat by lia.
Qed.

Lemma lxor_range a b : 0 <= a < 2 ^ 64 -> 0 <= b < 2 ^ 64 -> 0 <= Z.lxor a b < 2 ^ 64.
Proof.
  intros Ha Hb. assert (0 <= Z.lxor a b) by (apply Z.lxor_nonneg; lia). split; [done|].
  apply Z.bounded_iff_bits_nonneg; [lia|done|]. intros l Hl. rewrite Z.lxor_spec.
  rewrite (proj1 (Z.bounded_iff_bits_nonneg 64 a ltac:(lia) ltac:(lia)) ltac:(lia) l Hl).
  by rewrite (proj1 (Z.bounded_iff_bits_nonneg 64 b ltac:(lia) ltac:(lia)) ltac:(lia) l Hl).
Qed.

Definition sip_ok (s : sip_state) : Prop :=
  0 <= sv0 s < 2 ^ 64 /\ 0 <= sv1 s < 2 ^ 64 /\ 0 <= sv2 s < 2 ^ 64 /\ 0 <= sv3 s < 2 ^ 64.

Lemma sipround_ok s : sip_ok (sipround s).
Proof.
  destruct s. unfold sip_ok, sipround, rotl. cbn [sv0 sv1 sv2 sv3].
  split_and!; repeat first [apply lxor_range | apply (wrap_range 64); lia];
    first [lia | apply (wrap_range 64); lia | idtac].
Qed.

Lemma sip_split (m key : list Z) : bytes_ok m ->
  qsr_siphash24 m key = sip_finish (foldl sip_absorb (sip_init key) (le_words (length m / 8 + 1)%nat (sip_pad m))).
Proof.
  intros Hb. unfold qsr_siphash24. set (n := (length m / 8)%nat). set (r := (length m mod 8)%nat).
  pose proof (Nat.div_mod_eq (length m) 8) as Hdm. fold n r in Hdm.
  assert (Hr : (r < 8)%nat) by (by apply Nat.mod_upper_bound).
  rewrite (sip_blocks_words n _ m (replicate (7 - r) 0 ++ [Zlen m mod 256])) by (done || lia).
  unfold sip_pad. fold r. rewrite le_words_add, foldl_app. cbn [le_words foldl]. do 2 f_equal.
  assert (Hld : length (drop (8 * n) m) = r) by (rewrite length_drop; lia).
  rewrite drop_app_le by lia. rewrite take_ge by (rewrite !length_app, Hld, length_replicate; cbn [length]; lia).
  assert (Hb56 : u64 (Z.shiftl (Zlen m) 56) = (Zlen m mod 256) * 2 ^ 56).
  { rewrite Z.shiftl_mul_pow2 by lia. unfold u64, wrap. dlia. }
  rewrite Hb56, sip_tail_add; [|by apply Forall_drop|lia|dlia|].
  - rewrite take_ge by lia. rewrite !le_val_app, le_val_zeros. cbn [le_val].
    assert (Hz1 : Zlen (drop (8 * n) m) = Z.of_nat r) by (unfold Zlen; by rewrite Hld).
    assert (Hz2 : Zlen (replicate (7 - r) 0) = 7 - Z.of_nat r) by (unfold Zlen; rewrite length_replicate; lia).
    rewrite Hz1, Hz2, Z.mul_0_r, Z.add_0_l, Z.add_0_r, Z.mul_assoc, <- Z.pow_add_r by lia.
    replace (8 * Z.of_nat r + 8 * (7 - Z.of_nat r)) with 56 by lia. lia.
  - rewrite <- (Z.sub_add (8 * Z.of_nat r) 56), Z.pow_add_r, Z.mul_assoc by lia.
    apply Z.mod_mul. apply Z.pow_nonzero; lia.
Qed.

(** *** The rounds *)

Definition sip_words (s : sip_state) : SipHash.words := (sv0 s, sv1 s, sv2 s, sv3 s).

Lemma rotl_rot x b : 0 <= x < 2 ^ 64 -> 0 < b < 64 -> rotl x b = SipHash.rot x b.
Proof.
  intros Hx Hb. unfold rotl, SipHash.rot, u64, wrap. rewrite Z.lor_comm, Z.shiftr_div_pow2 by lia.
  assert (Hq : 0 <= x / 2 ^ (64 - b) < 2 ^ b).
  { assert (Hp : 2 ^ 64 = 2 ^ (64 - b) * 2 ^ b) by (rewrite <- Z.pow_add_r by lia; f_equal; lia).
    split; [apply Z.div_pos; lia|]. apply Z.div_lt_upper_bound; lia. }
  rewrite lor_add_shiftl by lia. rewrite Z.add_mod, Z.add_comm by lia.
  assert (Hlt : 2 ^ b < 2 ^ 64) by (apply Z.pow_lt_mono_r; lia).
  rewrite (Z.mod_small (x / 2 ^ (64 - b))) by lia. rewrite Z.mod_small; [done|].
  pose proof (Z.mod_pos_bound (x * 2 ^ b) (2 ^ 64) ltac:(lia)). split; [lia|].
  replace (2 ^ 64) with (2 ^ (64 - b) * 2 ^ b) in * by (rewrite <- Z.pow_add_r by lia; f_equal; lia).
  rewrite Z.mul_mod_distr_r by lia. pose proof (Z.mod_pos_bound x (2 ^ (64 - b)) ltac:(lia)). nia.
Qed.

Lemma rot_range x b : 0 <= x < 2 ^ 64 -> 0 < b < 64 -> 0 <= SipHash.rot x b < 2 ^ 64.
Proof. intros Hx Hb. rewrite <- rotl_rot by done. apply (wrap_range 64). lia. Qed.

Lemma sipround_spec s : sip_ok s -> sip_words (sipround s) = SipHash.sip_round (sip_words s).
Proof.
  destruct s as [v0 v1 v2 v3]. unfold sip_ok. cbn [sv0 sv1 sv2 sv3]. intros (H0 & H1 & H2 & H3).
  unfold sip_words, sipround, SipHash.sip_round, SipHash.mix. cbn [sv0 sv1 sv2 sv3]. unfold u64, wrap.
  pose proof (fun a b => Z.mod_pos_bound (a + b) (2 ^ 64) ltac:(lia)) as Hm.
  pose proof (rot_range v1 13 H1 ltac:(lia)) as Hr1. pose proof (rot_range v3 16 H3 ltac:(lia)) as Hr3.
  rewrite (rotl_rot v1 13), (rotl_rot v3 16) by (done || lia).
  rewrite !rotl_rot; [done|first [apply Hm|by apply lxor_range|lia]..].
Qed.

Lemma sipround_iter n s : sip_ok s -> sip_words (Nat.iter n sipround s) = Nat.iter n SipHash.sip_round (sip_words s) /\ sip_ok (Nat.iter n sipround s).
Proof.
  intros Hs. induction n as [|n [IH Hok]]; [done|]. rewrite !Nat.iter_succ, <- IH.
  split; [by apply sipround_spec|apply sipround_ok].
Qed.

(** The words of a state are 64 bits wide. *)
Ltac sip_range := unfold sip_ok; cbn [sv0 sv1 sv2 sv3]; split; [|split; [|split]]; first [assumption|apply lxor_range; first [assumption|lia]].

Lemma absorb_spec s m : sip_ok s -> 0 <= m < 2 ^ 64 ->
  sip_words (sip_absorb s m) = SipHash.compress 2 (sip_words s) m /\ sip_ok (sip_absorb s m).
Proof.
  intros (H0 & H1 & H2 & H3) Hm. unfold sip_absorb. cbv zeta. set (s1 := {| sv0 := sv0 s; sv1 := sv1 s; sv2 := sv2 s; sv3 := Z.lxor (sv3 s) m |}).
  assert (Hs1 : sip_ok s1) by sip_range. destruct (sipround_iter 2 s1 Hs1) as [Hw Hok].
  change (Nat.iter 2 sipround s1) with (sipround (sipround s1)) in Hw, Hok. destruct (sipround (sipround s1)) as [a b c d]. destruct Hok as (? & ? & ? & ?). cbn [sv0 sv1 sv2 sv3] in *.
  split; [|sip_range].
  unfold SipHash.compress, sip_words at 2. change (sv0 s, sv1 s, sv2 s, Z.lxor (sv3 s) m) with (sip_words s1). by rewrite <- Hw.
Qed.

Lemma absorb_all ms : Forall (fun m => 0 <= m < 2 ^ 64) ms -> forall s, sip_ok s ->
  sip_words (foldl sip_absorb s ms) = foldl (SipHash.compress 2) (sip_words s) ms /\ sip_ok (foldl sip_absorb s ms).
Proof.
  induction 1 as [|m ms Hm _ IH]; intros s Hs; [done|]. cbn [foldl]. destruct (absorb_spec s m Hs Hm) as [<- Hok]. by apply IH.
Qed.

Lemma finish_spec s : sip_ok s -> sip_finish s = SipHash.finish 4 (sip_words s).
Proof.
  intros (H0 & H1 & H2 & H3). unfold sip_finish. cbv zeta. set (s1 := {| sv0 := sv0 s; sv1 := sv1 s; sv2 := Z.lxor (sv2 s) 0xff; sv3 := sv3 s |}).
  assert (Hs1 : sip_ok s1) by sip_range. destruct (sipround_iter 4 s1 Hs1) as [Hw _].
  unfold SipHash.finish, sip_words. change (sv0 s, sv1 s, Z.lxor (sv2 s) 255, sv3 s) with (sip_words s1). rewrite <- Hw.
  change (Nat.iter 4 sipround s1) with (sipround (sipround (sipround (sipround s1)))).
  destruct (sipround (sipround (sipround (sipround s1)))) as [a b c d]. cbn. by rewrite <- !Z.lxor_assoc.
Qed.

Lemma le_words_range n : forall l, bytes_ok l -> Forall (fun m => 0 <= m < 2 ^ 64) (le_words n l).
Proof.
  induction n as [|n IH]; intros l Hl; [constructor|]. cbn [le_words]. constructor; [|by apply IH, Forall_drop].
  pose proof (le_val_range (take 8 l) (Forall_take _ 8 _ Hl)) as Hr. split; [apply Hr|]. eapply Z.lt_le_trans; [apply Hr|].
  apply Z.pow_le_mono_r; [lia|]. unfold Zlen. rewrite length_take. lia.
Qed.

Lemma sip_pad_bytes m : bytes_ok m -> bytes_ok (sip_pad m).
Proof.
  intros Hm. unfold sip_pad. repeat (apply Forall_app; split); [done|apply Forall_replicate; unfold is_byte; lia|]. constructor; [|constructor]. unfold is_byte. dlia.
Qed.

Lemma init_spec_words key : bytes_ok key -> length key = 16%nat ->
  sip_words (sip_init key) = SipHash.start key /\ sip_ok (sip_init key).
Proof.
  intros Hb Hl. unfold sip_init. rewrite !u8to64_le_val by (first [done|by apply Forall_drop|rewrite ?length_drop; lia]).
  assert (Hr : forall l, bytes_ok l -> length l = 8%nat -> 0 <= le_val l < 2 ^ 64).
  { intros l Hlb Hll. pose proof (le_val_range l Hlb) as Hr. unfold Zlen in Hr. by rewrite Hll in Hr. }
  rewrite (take_ge (drop 8 key)) by (rewrite length_drop; lia).
  pose proof (Hr (take 8 key) (Forall_take _ 8 _ Hb) ltac:(rewrite length_take; lia)) as H0.
  pose proof (Hr (drop 8 key) (Forall_drop _ 8 _ Hb) ltac:(rewrite length_drop; lia)) as H1.
  split; [|sip_range].
  unfold sip_words, SipHash.start. cbn [sv0 sv1 sv2 sv3].
  rewrite (Z.lxor_comm 0x736f6d6570736575), (Z.lxor_comm 0x646f72616e646f6d), (Z.lxor_comm 0x6c7967656e657261), (Z.lxor_comm 0x7465646279746573).
  reflexivity.
Qed.

Lemma siphash24_range m key : 0 <= qsr_siphash24 m key < 2 ^ 64.
Proof.
  unfold qsr_siphash24. destruct (sip_blocks _ _ _) as [s rest]. unfold sip_finish.
  match goal with |- context [sipround ?x] =>
    destruct (sipround_ok x) as (? & ? & ? & ?); generalize dependent (sipround x) end.
  intros [v0 v1 v2 v3]; cbn [sv0 sv1 sv2 sv3]; intros. by repeat apply lxor_range.
Qed.

(** The instance the program runs with: SipHash under the seeded key. *)
#[export] Instance siphash_keyed (key : list Z) : KeyedHash :=
  {| hash_bytes d := qsr_siphash24 d key; hash_bytes_range d := siphash24_range d key |}.

(** The bytes that successful calls of [getrandom] delivered. *)
Definition random_bytes (calls : list getrandom_result) : list Z :=
  calls ≫= fun r => if r is Got bytes then bytes else [].

Lemma hash_init_loop_bytes calls buf out rest :
  hash_init_loop calls buf = Some (Some out, rest) ->
  exists used, calls = used ++ rest /\ (Failed ∉ used) /\ out = buf ++ random_bytes used /\ (16 <= length out)%nat.
Proof.
  revert buf. induction calls as [|r calls IH]; intros buf; cbn [hash_init_loop].
  - destruct (16 <=? length buf)%nat eqn:E; [|done]. intros [= <- <-]. exists [].
    apply Nat.leb_le in E. split_and!; [done|by apply not_elem_of_nil|by rewrite app_nil_r|done].
  - destruct (16 <=? length buf)%nat eqn:E.
    { intros [= <- <-]. exists []. apply Nat.leb_le in E.
      split_and!; [done|by apply not_elem_of_nil|by rewrite app_nil_r|done]. }
    destruct r as [bytes| |]; [| |done]; intros H; apply IH in H as (used & -> & ? & -> & ?).
    + exists (Got bytes :: used). split_and!; [done|by apply not_elem_of_cons| |done].
      cbn. by rewrite app_assoc.
    + exists (Interrupted :: used). split_and!; [done|by apply not_elem_of_cons|done|done].
Qed.

(** ** Properties *)

(** C34: [qsr_siphash24] is SipHash-2-4 as published: for every message and
    key of bytes it is the value of [SipHash.siphash] with two rounds a word
    and four at the end, which is defined from the description of the
    algorithm alone - padding, the constants as the sentence they come from,
    the ARX network with arithmetic rotation. *)
Theorem siphash24_spec (m key : list Z) : bytes_ok m -> bytes_ok key -> length key = 16%nat ->
  qsr_siphash24 m key = SipHash.siphash 2 4 m key.
Proof.
  intros Hb Hk Hl. destruct (init_spec_words key Hk Hl) as [Hi Hok]. unfold SipHash.siphash. rewrite <- Hi.
  destruct (absorb_all _ (le_words_range (length m / 8 + 1) _ (sip_pad_bytes m Hb)) _ Hok) as [<- Hf]. rewrite <- finish_spec by done.
  by apply sip_split.
Qed.

(** The published test vectors of SipHash-2-4 (key [00 .. 0f], messages
    [00 .. len-1]) that [tests/unit/test_hash.c] pins. *)
Example siphash24_vectors :
  let key := map Z.of_nat (seq 0 16) in
  map (fun n => qsr_siphash24 (map Z.of_nat (seq 0 n)) key) [0; 1; 2; 3; 4; 5; 6; 7; 8; 15]%nat =
    [0x726fdb47dd0e0e31; 0x74f839c593dc67fd; 0x0d6c8009d9a94f5a; 0x85676696d7fb7e2d; 0xcf2794e0277187b7;
     0x18765564cd99a68d; 0xcbc9466e58fee3ce; 0xab0200f58b01d137; 0x93f5f5799a932462; 0xa129ca6149be45e5].
Proof. vm_compute. reflexivity. Qed.

(** A hash is never computed under the initial all-zero key: whenever
    [qsr_hash_bytes] returns a value, the key is one that [getrandom] delivered
    (its first sixteen bytes, across short reads and interrupts), it stays fixed
    from then on, and a process that cannot obtain it aborts. *)
Theorem hash_bytes_keyed st calls data st' r calls' :
  qsr_hash_bytes st calls data = Some (st', r, calls') ->
  match r with
  | Hashed h => g_hash_key_seeded st' = true /\ h = qsr_siphash24 data (g_hash_key st') /\
      (if g_hash_key_seeded st then st' = st /\ calls' = calls
       else exists used, calls = used ++ calls' /\ (Failed ∉ used) /\ length (g_hash_key st') = 16%nat /\
         g_hash_key st' = take 16 (random_bytes used))
  | Aborted => g_hash_key_seeded st = false /\ st' = st
  end.
Proof.
  unfold qsr_hash_bytes, qsr_hash_init. destruct (g_hash_key_seeded st) eqn:Es; [by intros [= <- <- <-]|].
  destruct (hash_init_loop calls []) as [[[buf|] rest]|] eqn:Ei; [|by intros [= <- <- <-]|done].
  intros [= <- <- <-]. cbn [g_hash_key g_hash_key_seeded]. apply hash_init_loop_bytes in Ei as (used & -> & ? & -> & ?).
  split_and!; [done..|]. exists used. split_and!; [done..| |done]. rewrite length_take. rewrite app_nil_l in *. lia.
Qed.

Example hash_bytes_keyed_witness :
  let calls := [Got [1; 2; 3]; Interrupted; Got (map Z.of_nat (seq 0 13))] in
  exists st' h, qsr_hash_bytes hash_state0 calls [7] = Some (st', Hashed h, []) /\
    h = qsr_siphash24 [7] (g_hash_key st') /\ g_hash_key_seeded st' = true.
Proof.
  intros calls. eexists _, _. split; [vm_compute; reflexivity|].
  pose proof (hash_bytes_keyed hash_state0 calls [7] _ _ [] eq_refl) as (? & ? & _). by split.
Defined.

(** The vector of the paper's appendix, through the specification. *)
Example siphash24_spec_witness : SipHash.siphash 2 4 (map Z.of_nat (seq 0 15)) (map Z.of_nat (seq 0 16)) = 0xa129ca6149be45e5.
Proof. rewrite <- siphash24_spec; [vm_compute; reflexivity|bytes_concrete|bytes_concrete|reflexivity]. Defined.
