(* ===== verification/QuicInitial.v ===== *)
(** * QUIC header parsing (src/quic_initial.c, include/qsr/quic_initial.h)

    Variable-length integers, the version-independent long header and the
    Initial header of QUIC v1 and v2. Every read goes through a checked
    pointer, so [Fault] would be an out-of-bounds access. *)

From S2P Require Import Prelude.

(** ** Data *)

(** [qsr_quic_initial_t]; the CID arrays keep their 20 bytes. *)
Record qsr_quic_initial := mk_initial {
  i_version : Z;
  i_dcid : list Z;
  i_dcid_len : Z;
  i_scid : list Z;
  i_scid_len : Z;
  i_token_offset : Z;
  i_token_len : Z;
  i_payload_offset : Z;
  i_payload_len : Z;
  i_packet_number_offset : Z;
}.

(** [qsr_quic_long_header_t]. *)
Record qsr_quic_long_header := mk_long_header {
  h_version : Z;
  h_type_bits : Z;
  h_dcid : list Z;
  h_dcid_len : Z;
  h_scid : list Z;
  h_scid_len : Z;
  h_remainder_offset : Z;
}.

(** ** Operations *)

(** The loop [for (i = 1; i < width; i++) result = (result << 8) | data[i];]. *)
Fixpoint varint_loop (data : ptr) (n : nat) (i result : Z) : outcome Z :=
  match n with
  | O => Ok result
  | S n =>
      b ← load data i;
      varint_loop data n (i + 1) (Z.lor (u64 (Z.shiftl result 8)) b)
  end.

(** Returns the value and the number of bytes consumed. *)
Definition qsr_quic_parse_varint (data : ptr) (len : Z) : outcome (Z * Z) :=
  if len =? 0 then Fail QSR_ERR_INVALID else
  b0 ← load data 0;
  let prefix := Z.shiftr b0 6 in
  let width := Z.shiftl 1 prefix in
  if len <? width then Fail QSR_ERR_TRUNCATED else
  result ← varint_loop data (Z.to_nat (width - 1)) 1 (Z.land b0 0x3f);
  Ok (result, width).

Definition be32 (b1 b2 b3 b4 : Z) : Z :=
  Z.lor (Z.lor (Z.lor (Z.shiftl b1 24) (Z.shiftl b2 16)) (Z.shiftl b3 8)) b4.

(** [memcpy] of a CID, guarded by [if (len > 0)] as in the source. *)
Definition load_cid (p : ptr) (n : Z) : outcome (list Z) :=
  if 0 <? n then bs ← load_bytes p n; Ok (memcpy_at (zeros QSR_MAX_QUIC_CID_LEN) 0 bs)
  else Ok (zeros QSR_MAX_QUIC_CID_LEN).

Definition qsr_quic_parse_long_header (data : ptr) (len : Z) : outcome qsr_quic_long_header :=
  if len <? 7 then Fail QSR_ERR_TRUNCATED else
  b0 ← load data 0;
  if (Z.land b0 0x80 =? 0) || (Z.land b0 0x40 =? 0) then Fail QSR_ERR_INVALID else
  b1 ← load data 1;
  b2 ← load data 2;
  b3 ← load data 3;
  b4 ← load data 4;
  let version := be32 b1 b2 b3 b4 in
  if negb (version =? QSR_QUIC_V1) && negb (version =? QSR_QUIC_V2)
  then Fail QSR_ERR_UNSUPPORTED else
  let type_bits := Z.land b0 0x30 in
  dcid_len ← load data 5;
  let offset := 6 in
  if (QSR_MAX_QUIC_CID_LEN <? dcid_len) || (usub len offset <? dcid_len)
  then Fail QSR_ERR_INVALID else
  dcid ← load_cid (ptr_add data offset) dcid_len;
  let offset := uadd offset dcid_len in
  if len <=? offset then Fail QSR_ERR_TRUNCATED else
  scid_len ← load data offset;
  let offset := uadd offset 1 in
  if (QSR_MAX_QUIC_CID_LEN <? scid_len) || (usub len offset <? scid_len)
  then Fail QSR_ERR_INVALID else
  scid ← load_cid (ptr_add data offset) scid_len;
  let offset := uadd offset scid_len in
  Ok (mk_long_header version type_bits dcid dcid_len scid scid_len offset).

Definition expected_initial_type_bits (version : Z) : Z :=
  if version =? QSR_QUIC_V1 then 0x00
  else if version =? QSR_QUIC_V2 then 0x10
  else 0xff.

Definition qsr_quic_parse_initial (data : ptr) (len : Z) : outcome qsr_quic_initial :=
  header ← qsr_quic_parse_long_header data len;
  if negb (h_type_bits header =? expected_initial_type_bits (h_version header))
  then Fail QSR_ERR_INVALID else
  let dcid := memcpy_at (zeros QSR_MAX_QUIC_CID_LEN) 0
                (take (Z.to_nat (h_dcid_len header)) (h_dcid header)) in
  let scid := memcpy_at (zeros QSR_MAX_QUIC_CID_LEN) 0
                (take (Z.to_nat (h_scid_len header)) (h_scid header)) in
  if h_dcid_len header <? 8 then Fail QSR_ERR_INVALID else
  let offset := h_remainder_offset header in
  '(token_len, consumed) ← qsr_quic_parse_varint (ptr_add data offset) (usub len offset);
  let offset := uadd offset consumed in
  if usub len offset <? token_len then Fail QSR_ERR_TRUNCATED else
  let token_offset := offset in
  let offset := uadd offset token_len in
  '(payload_len, consumed) ← qsr_quic_parse_varint (ptr_add data offset) (usub len offset);
  let offset := uadd offset consumed in
  if usub len offset <? payload_len then Fail QSR_ERR_TRUNCATED else
  if payload_len <? QSR_MIN_INITIAL_PAYLOAD_LEN then Fail QSR_ERR_INVALID else
  Ok (mk_initial (h_version header) dcid (h_dcid_len header) scid (h_scid_len header)
        token_offset token_len offset payload_len offset).

(** ** Specification: the wire encoding *)

(** Big-endian bytes of [v]. *)
Fixpoint be_bytes (n : nat) (v : Z) : list Z :=
  match n with
  | O => []
  | S n => (v / 256 ^ Z.of_nat n) mod 256 :: be_bytes n v
  end.

(** The value of big-endian bytes, starting from an accumulator. *)
Definition be_val (acc : Z) (l : list Z) : Z := foldl (fun a b => a * 256 + b) acc l.

(** RFC 9000 §16: two prefix bits [k] select a width of [2^k] bytes. *)
Definition encode_varint (k v : Z) : list Z :=
  let n := Z.to_nat (2 ^ k) in be_bytes n (k * 2 ^ (8 * 2 ^ k - 2) + v).

(** A first byte with the long-header and fixed bits and the given type bits. *)
Definition long_first_byte (b0 type_bits : Z) : Prop :=
  is_byte b0 /\ Z.testbit b0 7 = true /\ Z.testbit b0 6 = true /\ Z.land b0 0x30 = type_bits.

Definition varint_fits (k v : Z) : Prop := 0 <= k <= 3 /\ 0 <= v < 2 ^ (8 * 2 ^ k - 2).

(** First byte [b0], version, DCID and SCID of a long header. *)
Definition encode_long_header (b0 version : Z) (dcid scid : list Z) : list Z :=
  b0 :: be_bytes 4 version ++ Zlen dcid :: dcid ++ Zlen scid :: scid.

(** ** Lemmas *)

Lemma be_val_bytes n acc v :
  be_val acc (be_bytes n v) = acc * 256 ^ Z.of_nat n + v mod 256 ^ Z.of_nat n.
Proof.
  unfold be_val. revert acc. induction n as [|n IH]; intros acc.
  - cbn. rewrite Z.mod_1_r. lia.
  - cbn [be_bytes foldl]. rewrite IH.
    rewrite Nat2Z.inj_succ, Z.pow_succ_r by lia.
    assert (0 < 256 ^ Z.of_nat n) by (apply Z.pow_pos_nonneg; lia).
    rewrite (Z.mul_comm 256 (256 ^ Z.of_nat n)), (Z.rem_mul_r v) by lia. lia.
Qed.

Lemma length_be_bytes n v : length (be_bytes n v) = n.
Proof. induction n; cbn; lia. Qed.

Lemma be_bytes_ok n v : bytes_ok (be_bytes n v).
Proof.
  induction n; constructor; [|done]. apply Z.mod_pos_bound. lia.
Qed.

#[export] Hint Resolve be_bytes_ok : qsr.
#[export] Hint Rewrite length_be_bytes : qsr.

Lemma be_val_bound l acc n :
  0 <= acc < 2 ^ n -> bytes_ok l -> 0 <= n -> 0 <= be_val acc l < 2 ^ (n + 8 * Zlen l).
Proof.
  unfold be_val, Zlen. intros Hacc Hl Hn. revert acc n Hacc Hn.
  induction Hl as [|b l Hb Hl IH]; intros acc n Hacc Hn; cbn [foldl length].
  - by replace (n + _) with n by lia.
  - replace (n + 8 * Z.of_nat (S (length l))) with ((n + 8) + 8 * Z.of_nat (length l)) by lia.
    apply IH; [|lia]. rewrite Z.pow_add_r by lia. unfold is_byte in Hb. nia.
Qed.

Lemma varint_loop_val p len n i acc m :
  readable p len -> bytes_ok (p_buf p) -> 0 <= i -> i + Z.of_nat n <= len ->
  0 <= acc < 2 ^ m -> 0 <= m -> m + 8 * Z.of_nat n <= 64 ->
  varint_loop p n i acc = Ok (be_val acc (take n (drop (Z.to_nat (p_off p + i)) (p_buf p)))).
Proof.
  intros (?&?&?) Hok. revert i acc m. induction n as [|n IH]; intros i acc m Hi Hn Hacc Hm Hw; [done|].
  unfold Zlen in *.
  destruct (lookup_lt_is_Some_2 (p_buf p) (Z.to_nat (p_off p + i))) as [b Hb]; [lia|].
  cbn [varint_loop]. rewrite (load_lookup p i b) by (done || lia). cbn [mbind outcome_bind].
  rewrite (drop_S _ _ _ Hb). cbn [take].
  assert (Hbb : is_byte b) by (eapply Forall_lookup_1; [apply Hok|done]). unfold is_byte in Hbb.
  assert (2 ^ (m + 8) <= 2 ^ 64) by (apply Z.pow_le_mono_r; lia).
  assert (2 ^ (m + 8) = 2 ^ m * 256) by (rewrite Z.pow_add_r; lia).
  rewrite wrap_small by (rewrite Z.shiftl_mul_pow2; lia).
  rewrite lor_shiftl_add by lia.
  rewrite (IH (i + 1) (acc * 2 ^ 8 + b) (m + 8)) by lia.
  unfold be_val. cbn [foldl]. by replace (Z.to_nat (p_off p + (i + 1))) with (S (Z.to_nat (p_off p + i))) by lia.
Qed.

(** The prefix bits of a byte, and the mask that removes them. *)
Lemma varint_prefix b : is_byte b -> 0 <= Z.shiftr b 6 <= 3 /\ Z.land b 0x3f = b mod 64.
Proof.
  unfold is_byte. intros. rewrite Z.shiftr_div_pow2 by lia. change (2 ^ 6) with 64.
  split; [dlia|]. apply (land_ones_mod b 6). lia.
Qed.

Lemma pow2_small k : 0 <= k <= 3 -> 2 ^ k = 1 \/ 2 ^ k = 2 \/ 2 ^ k = 4 \/ 2 ^ k = 8.
Proof. intros. assert (k = 0 \/ k = 1 \/ k = 2 \/ k = 3) as [->|[->|[->| ->]]] by lia; cbn; lia. Qed.

(** Functional behaviour of the varint parser on every readable input. *)
Lemma parse_varint_spec p len b :
  readable p len -> bytes_ok (p_buf p) -> 0 < len ->
  p_buf p !! Z.to_nat (p_off p) = Some b ->
  qsr_quic_parse_varint p len =
    if len <? 2 ^ (b / 64) then Fail QSR_ERR_TRUNCATED
    else Ok (be_val (b mod 64)
               (take (Z.to_nat (2 ^ (b / 64) - 1)) (drop (S (Z.to_nat (p_off p))) (p_buf p))),
             2 ^ (b / 64)).
Proof.
  intros Hr Hok Hlen Hb. pose proof Hr as (?&?&?).
  assert (Hbb : is_byte b) by (eapply Forall_lookup_1; [apply Hok|done]).
  unfold qsr_quic_parse_varint. rewrite (proj2 (Z.eqb_neq len 0)) by lia.
  rewrite (load_lookup p 0 b) by (rewrite ?Z.add_0_r; done || lia). cbn [mbind outcome_bind].
  destruct (varint_prefix b Hbb) as [Hp ->]. rewrite Z.shiftr_div_pow2 in * by lia.
  change (2 ^ 6) with 64 in *. rewrite Z.shiftl_1_l.
  destruct (len <? 2 ^ (b / 64)) eqn:E; [done|]. bool_to_prop.
  pose proof (pow2_small _ Hp). assert (0 <= b mod 64 < 2 ^ 6) by (apply Z.mod_pos_bound; lia).
  rewrite (varint_loop_val p len _ _ _ 6) by (done || lia). cbn [mbind outcome_bind].
  by replace (Z.to_nat (p_off p + 1)) with (S (Z.to_nat (p_off p))) by lia.
Qed.

Lemma readable_head p len :
  readable p len -> 0 < len -> is_Some (p_buf p !! Z.to_nat (p_off p)).
Proof. unfold readable, Zlen. intros. apply lookup_lt_is_Some_2. lia. Qed.

Lemma parse_varint_no_fault p len :
  readable p len -> bytes_ok (p_buf p) -> no_fault (qsr_quic_parse_varint p len).
Proof.
  intros Hr Hok. destruct (decide (len = 0)) as [->|]; [done|].
  assert (0 < len) by (unfold readable in Hr; lia).
  destruct (readable_head p len) as [b Hb]; [done..|].
  rewrite (parse_varint_spec _ _ b) by done. by destruct (_ <? _).
Qed.

Lemma parse_varint_bounds p len v c :
  readable p len -> bytes_ok (p_buf p) -> qsr_quic_parse_varint p len = Ok (v, c) ->
  0 <= v < 2 ^ 62 /\ 1 <= c <= 8 /\ c <= len.
Proof.
  intros Hr Hok H. destruct (decide (len = 0)) as [->|]; [done|].
  assert (0 < len) by (unfold readable in Hr; lia).
  destruct (readable_head p len) as [b Hb]; [done..|].
  assert (Hbb : is_byte b) by (eapply Forall_lookup_1; [apply Hok|done]). unfold is_byte in Hbb.
  rewrite (parse_varint_spec _ _ b) in H by done. inv_ok. bool_to_prop. simplify_eq.
  assert (Hw : 1 <= 2 ^ (b / 64) <= 8) by (pose proof (pow2_small (b / 64)); dlia).
  set (l := take _ _). assert (Hl : Zlen l <= 2 ^ (b / 64) - 1).
  { unfold l, Zlen. rewrite length_take. lia. }
  pose proof (Zlen_nonneg l). assert (bytes_ok l) by (by apply Forall_take, Forall_drop).
  assert (0 <= be_val (b mod 64) l < 2 ^ (6 + 8 * Zlen l)).
  { apply be_val_bound; [apply Z.mod_pos_bound|done|]; lia. }
  assert (2 ^ (6 + 8 * Zlen l) <= 2 ^ 62) by (apply Z.pow_le_mono_r; lia). lia.
Qed.

(** *** Long header *)

Lemma land_bit b k : 0 <= k -> (Z.land b (2 ^ k) =? 0) = negb (Z.testbit b k).
Proof.
  intros Hk. destruct (Z.testbit b k) eqn:E; cbn.
  - apply Z.eqb_neq. intros H. apply (f_equal (fun z => Z.testbit z k)) in H.
    rewrite Z.land_spec, E, Z.pow2_bits_true, Z.bits_0 in H by done. done.
  - apply Z.eqb_eq, Z.bits_inj_0. intros m. rewrite Z.land_spec, Z.pow2_bits_eqb by done.
    destruct (Z.eqb_spec k m) as [->|]; [by rewrite E|apply andb_false_r].
Qed.

Lemma load_cid_length p n l : n <= 20 -> load_cid p n = Ok l -> Zlen l = 20.
Proof.
  unfold load_cid. intros ? H. split_if; inv_ok; [|done].
  match goal with E : load_bytes _ _ = _ |- _ => apply load_bytes_length in E end.
  unfold Zlen in *. rewrite length_memcpy_at; rewrite length_zeros; unfold QSR_MAX_QUIC_CID_LEN; lia.
Qed.

Lemma load_cid_no_fault p len n : readable p len -> n <= len -> no_fault (load_cid p n).
Proof.
  intros. unfold load_cid. no_fault_steps. bool_to_prop.
  eapply load_bytes_no_fault; [done|lia].
Qed.

(** Discharge the side conditions of parser safety: checked reads inside the
    datagram, with [size_t] arithmetic that does not wrap. *)
Ltac sizes :=
  repeat match goal with
  | |- context [usub ?a ?b] => rewrite (usub_small a b) by lia
  | |- context [uadd ?a ?b] => rewrite (uadd_small a b) by lia
  | H : context [usub ?a ?b] |- _ => rewrite (usub_small a b) in H by lia
  | H : context [uadd ?a ?b] |- _ => rewrite (uadd_small a b) in H by lia
  end.

Ltac byte_of_load :=
  repeat match goal with
  | E : load ?p ?i = Ok ?b, Hok : bytes_ok (p_buf ?p) |- _ =>
      lazymatch goal with
      | _ : is_byte b |- _ => fail
      | _ => pose proof (load_byte p i b Hok E)
      end
  end.

Lemma parse_long_header_no_fault data len :
  readable data len -> bytes_ok (p_buf data) -> no_fault (qsr_quic_parse_long_header data len).
Proof.
  intros Hr Hok. pose proof Hr as (?&?&?). unfold qsr_quic_parse_long_header, QSR_MAX_QUIC_CID_LEN.
  no_fault_steps; bool_to_prop; byte_of_load; unfold is_byte in *; sizes;
    first [ eapply load_no_fault; [done|lia]
          | eapply load_cid_no_fault; [apply (readable_add data len); [done|lia]|lia] ].
Qed.

(** What a successfully parsed long header guarantees. *)
Record long_header_ok (len : Z) (h : qsr_quic_long_header) : Prop := {
  lh_version : h_version h = QSR_QUIC_V1 \/ h_version h = QSR_QUIC_V2;
  lh_dcid : Zlen (h_dcid h) = 20;
  lh_scid : Zlen (h_scid h) = 20;
  lh_dcid_len : 0 <= h_dcid_len h <= 20;
  lh_scid_len : 0 <= h_scid_len h <= 20;
  lh_remainder : h_remainder_offset h = 7 + h_dcid_len h + h_scid_len h;
  lh_inside : h_remainder_offset h <= len;
}.

Lemma parse_long_header_ok data len h :
  readable data len -> bytes_ok (p_buf data) ->
  qsr_quic_parse_long_header data len = Ok h -> long_header_ok len h.
Proof.
  intros Hr Hok H. pose proof Hr as (?&?&?). unfold qsr_quic_parse_long_header in H.
  cbv zeta in H. inv_ok. bool_to_prop. byte_of_load. unfold is_byte, QSR_MAX_QUIC_CID_LEN in *. sizes.
  split; cbn; try (eapply load_cid_length; [|eassumption]; lia); try lia.
Qed.

Lemma parse_long_header_first data len h :
  bytes_ok (p_buf data) -> qsr_quic_parse_long_header data len = Ok h ->
  exists b0, load data 0 = Ok b0 /\ long_first_byte b0 (h_type_bits h).
Proof.
  intros Hok H. unfold qsr_quic_parse_long_header in H. cbv zeta in H. inv_ok. byte_of_load.
  exists a. split; [done|].
  change 0x80 with (2 ^ 7) in *. change 0x40 with (2 ^ 6) in *.
  rewrite !land_bit in * by lia. bool_to_prop. by split_and!.
Qed.

Lemma parse_initial_no_fault data len :
  readable data len -> bytes_ok (p_buf data) -> no_fault (qsr_quic_parse_initial data len).
Proof.
  intros Hr Hok. pose proof Hr as (?&?&?). unfold qsr_quic_parse_initial, QSR_MIN_INITIAL_PAYLOAD_LEN.
  apply no_fault_bind; [by apply parse_long_header_no_fault|]. intros h Hh.
  destruct (parse_long_header_ok _ _ _ Hr Hok Hh).
  assert (Hr1 : readable (ptr_add data (h_remainder_offset h)) (len - h_remainder_offset h))
    by (apply readable_add; [done|lia]).
  no_fault_steps; bool_to_prop; sizes; [by apply parse_varint_no_fault|].
  match goal with E : qsr_quic_parse_varint _ _ = Ok (?v, ?c) |- _ =>
    apply parse_varint_bounds in E; [|done..] end.
  sizes. apply parse_varint_no_fault; [|done]. apply readable_add; [done|lia].
Qed.

(** What a successfully parsed Initial guarantees to the decryption path. *)
Record initial_ok (len : Z) (i : qsr_quic_initial) : Prop := {
  in_version : i_version i = QSR_QUIC_V1 \/ i_version i = QSR_QUIC_V2;
  in_dcid : Zlen (i_dcid i) = 20;
  in_scid : Zlen (i_scid i) = 20;
  in_dcid_len : 8 <= i_dcid_len i <= 20;
  in_scid_len : 0 <= i_scid_len i <= 20;
  in_token : 7 + i_dcid_len i + i_scid_len i < i_token_offset i /\ 0 <= i_token_len i;
  in_pn : i_token_offset i + i_token_len i < i_packet_number_offset i;
  in_payload : i_payload_offset i = i_packet_number_offset i;
  in_payload_len : 36 <= i_payload_len i /\ i_payload_offset i + i_payload_len i <= len;
}.

Lemma take_cid_length n l : Zlen l = 20 -> 0 <= n <= 20 ->
  Zlen (memcpy_at (zeros QSR_MAX_QUIC_CID_LEN) 0 (take (Z.to_nat n) l)) = 20.
Proof.
  unfold Zlen, QSR_MAX_QUIC_CID_LEN. intros.
  rewrite length_memcpy_at; rewrite length_zeros; [lia|]. rewrite length_take. lia.
Qed.

(** *** Round trips *)

Lemma varint_width k : 0 <= k <= 3 ->
  1 <= 2 ^ k <= 8 /\ 64 * 256 ^ (2 ^ k - 1) = 2 ^ (8 * 2 ^ k - 2) /\
  k * 2 ^ (8 * 2 ^ k - 2) = k * 64 * 256 ^ (2 ^ k - 1).
Proof. intros. assert (k = 0 \/ k = 1 \/ k = 2 \/ k = 3) as [->|[->|[->| ->]]] by lia; cbn; lia. Qed.

Lemma be_bytes_high n a v : be_bytes n (v + a * 256 ^ Z.of_nat n) = be_bytes n v.
Proof.
  revert a. induction n as [|n IH]; intros a; [done|]. cbn [be_bytes].
  rewrite Nat2Z.inj_succ, Z.pow_succ_r, Z.mul_assoc by lia. rewrite IH. f_equal.
  rewrite Z.div_add by (apply Z.pow_nonzero; lia). rewrite Z.mod_add by lia. done.
Qed.

Lemma encode_varint_cons k v : varint_fits k v ->
  exists b, encode_varint k v = b :: be_bytes (Z.to_nat (2 ^ k - 1)) v /\
    b / 64 = k /\ b mod 64 = v / 256 ^ (2 ^ k - 1) /\ is_byte b.
Proof.
  intros [Hk Hv]. destruct (varint_width k Hk) as (Hw & H64 & Hkw). unfold encode_varint.
  replace (Z.to_nat (2 ^ k)) with (S (Z.to_nat (2 ^ k - 1))) by lia. cbn [be_bytes].
  replace (Z.of_nat (Z.to_nat (2 ^ k - 1))) with (2 ^ k - 1) by lia.
  set (P := 256 ^ (2 ^ k - 1)) in *. assert (0 < P) by (apply Z.pow_pos_nonneg; lia).
  rewrite Hkw, <- H64 in *. rewrite (Z.add_comm (_ * P)), Z.div_add by lia.
  assert (0 <= v / P < 64) by (split; [apply Z.div_pos; lia|apply Z.div_lt_upper_bound; lia]).
  rewrite Z.mod_small by lia. eexists. split; [f_equal|unfold is_byte; repeat split; dlia].
  rewrite <- (be_bytes_high _ (k * 64) v), Z2Nat.id by lia. done.
Qed.

Lemma encode_varint_length k v : 0 <= k <= 3 -> Zlen (encode_varint k v) = 2 ^ k.
Proof.
  intros. destruct (varint_width k); [done|]. unfold encode_varint, Zlen. rewrite length_be_bytes. lia.
Qed.

Lemma encode_varint_ok k v : bytes_ok (encode_varint k v).
Proof. apply be_bytes_ok. Qed.

#[export] Hint Resolve encode_varint_ok : qsr.

(** Parsing an encoded varint anywhere in a buffer. *)
Lemma parse_encode_varint pre k v post len :
  varint_fits k v -> bytes_ok pre -> bytes_ok post ->
  2 ^ k <= len -> len <= 2 ^ k + Zlen post -> len < 2 ^ 32 ->
  qsr_quic_parse_varint (Ptr (pre ++ encode_varint k v ++ post) (Zlen pre)) len = Ok (v, 2 ^ k).
Proof.
  intros Hf Hpre Hpost Hl1 Hl2 Hl3. pose proof Hf as [Hk Hv].
  destruct (varint_width k Hk) as (Hw & H64 & _).
  pose proof (encode_varint_length k v Hk) as Hlen.
  destruct (encode_varint_cons k v Hf) as (b & He & Hb1 & Hb2 & Hb).
  assert (Hok : bytes_ok (pre ++ encode_varint k v ++ post)).
  { apply Forall_app. split; [done|]. apply Forall_app. split; [apply encode_varint_ok|done]. }
  rewrite (parse_varint_spec _ _ b).
  - rewrite Hb1, Hb2. rewrite (proj2 (Z.ltb_ge _ _)) by done. cbn [p_off p_buf].
    replace (S (Z.to_nat (Zlen pre))) with (length (pre ++ [b])) by (rewrite length_app; unfold Zlen; cbn; lia).
    rewrite He. replace (pre ++ (b :: be_bytes (Z.to_nat (2 ^ k - 1)) v) ++ post)
      with ((pre ++ [b]) ++ be_bytes (Z.to_nat (2 ^ k - 1)) v ++ post) by (by rewrite <- !app_assoc).
    rewrite drop_app_length, take_app_length' by (by rewrite length_be_bytes).
    rewrite be_val_bytes, Z2Nat.id by lia.
    rewrite (Z.mul_comm (v / _)), <- Z.div_mod by (apply Z.pow_nonzero; lia). done.
  - unfold readable. cbn. pose proof (Zlen_nonneg pre). rewrite !Zlen_app. lia.
  - done.
  - lia.
  - cbn. unfold Zlen. rewrite Nat2Z.id, He, lookup_app_r by lia. by rewrite Nat.sub_diag.
Qed.

Lemma be32_bytes v : 0 <= v < 2 ^ 32 ->
  exists b1 b2 b3 b4, be_bytes 4 v = [b1; b2; b3; b4] /\ be32 b1 b2 b3 b4 = v.
Proof.
  intros Hv. cbn [be_bytes]. do 4 eexists. split; [done|]. unfold be32.
  change (256 ^ Z.of_nat 3) with (2 ^ 24). change (256 ^ Z.of_nat 2) with (2 ^ 16).
  change (256 ^ Z.of_nat 1) with (2 ^ 8). change (256 ^ Z.of_nat 0) with 1.
  set (b1 := _ mod 256). set (b2 := _ mod 256) at 1. set (b3 := _ mod 256) at 1. set (b4 := _ mod 256) at 1.
  assert (is_byte b1 /\ is_byte b2 /\ is_byte b3 /\ is_byte b4) as (H1&H2&H3&H4).
  { unfold is_byte. repeat split; apply Z.mod_pos_bound; lia. }
  unfold is_byte in *.
  rewrite !Z.shiftl_mul_pow2 by lia.
  rewrite (lor_disjoint_add (b1 * 2 ^ 24) _ 24), (lor_disjoint_add (_ + b2 * 2 ^ 16) _ 16),
    (lor_disjoint_add (_ + b3 * 2 ^ 8) _ 8) by dlia.
  subst b1 b2 b3 b4. dlia.
Qed.

(** A CID read from the wire sits at the front of its zeroed array. *)
Definition cid_array (cid : list Z) : list Z := memcpy_at (zeros QSR_MAX_QUIC_CID_LEN) 0 cid.

Lemma load_cid_app pre cid post o n :
  o = Zlen pre -> n = Zlen cid -> load_cid (Ptr (pre ++ cid ++ post) o) n = Ok (cid_array cid).
Proof.
  intros -> ->. unfold load_cid. destruct (0 <? Zlen cid) eqn:E; bool_to_prop.
  - by rewrite load_bytes_app.
  - destruct cid; [done|]. rewrite Zlen_cons in E. pose proof (Zlen_nonneg cid). lia.
Qed.

Lemma parse_encode_long_header b0 t version dcid scid rest :
  long_first_byte b0 t -> version = QSR_QUIC_V1 \/ version = QSR_QUIC_V2 ->
  Zlen dcid <= 20 -> Zlen scid <= 20 ->
  Zlen (encode_long_header b0 version dcid scid ++ rest) < 2 ^ 32 ->
  qsr_quic_parse_long_header (Ptr (encode_long_header b0 version dcid scid ++ rest) 0)
    (Zlen (encode_long_header b0 version dcid scid ++ rest)) =
  Ok (mk_long_header version t (cid_array dcid) (Zlen dcid) (cid_array scid) (Zlen scid)
        (7 + Zlen dcid + Zlen scid)).
Proof.
  intros (Hb & H7 & H6 & Ht) Hv Hd Hs Hlen.
  destruct (be32_bytes version) as (b1 & b2 & b3 & b4 & Hbe & H32).
  { destruct Hv as [->| ->]; unfold QSR_QUIC_V1, QSR_QUIC_V2; lia. }
  unfold encode_long_header in *. rewrite Hbe in *.
  set (buf := (b0 :: _) ++ rest) in *.
  pose proof (Zlen_nonneg dcid). pose proof (Zlen_nonneg scid). pose proof (Zlen_nonneg rest).
  assert (HL : Zlen buf = 7 + Zlen dcid + Zlen scid + Zlen rest).
  { unfold buf. repeat (rewrite Zlen_app || rewrite Zlen_cons). rewrite Zlen_nil. lia. }
  assert (Hd0 : load_cid (ptr_add (Ptr buf 0) 6) (Zlen dcid) = Ok (cid_array dcid)).
  { unfold buf, ptr_add. cbn [p_buf p_off].
    rewrite <- (load_cid_app [b0; b1; b2; b3; b4; Zlen dcid] dcid ((Zlen scid :: scid) ++ rest) 6 _ eq_refl eq_refl).
    f_equal. cbn. f_equal. by rewrite <- !app_assoc. }
  assert (Hsl : load (Ptr buf 0) (6 + Zlen dcid) = Ok (Zlen scid)).
  { rewrite <- (load_app ([b0; b1; b2; b3; b4; Zlen dcid] ++ dcid) (Zlen scid) (scid ++ rest) (6 + Zlen dcid)).
    - f_equal. unfold buf. cbn. f_equal. by rewrite <- !app_assoc.
    - rewrite Zlen_app. done. }
  assert (Hs0 : load_cid (ptr_add (Ptr buf 0) (7 + Zlen dcid)) (Zlen scid) = Ok (cid_array scid)).
  { unfold buf, ptr_add. cbn [p_buf p_off].
    rewrite <- (load_cid_app (([b0; b1; b2; b3; b4; Zlen dcid] ++ dcid) ++ [Zlen scid]) scid rest (7 + Zlen dcid) (Zlen scid));
      [|autorewrite with qsr; lia|done].
    f_equal. cbn. f_equal. by rewrite <- !app_assoc. }
  unfold qsr_quic_parse_long_header, QSR_MAX_QUIC_CID_LEN. rewrite HL.
  rewrite (proj2 (Z.ltb_ge _ _)) by lia.
  rewrite (load_lookup (Ptr buf 0) 0 b0), (load_lookup (Ptr buf 0) 1 b1),
    (load_lookup (Ptr buf 0) 2 b2), (load_lookup (Ptr buf 0) 3 b3), (load_lookup (Ptr buf 0) 4 b4),
    (load_lookup (Ptr buf 0) 5 (Zlen dcid)) by done.
  cbn [mbind outcome_bind]. rewrite H32.
  change 0x80 with (2 ^ 7). change 0x40 with (2 ^ 6). rewrite !land_bit, H7, H6 by lia. cbn [negb orb].
  replace (_ && _) with false by (destruct Hv as [->| ->]; reflexivity). cbv zeta. sizes.
  replace (_ || _) with false by (symmetry; zbool). rewrite Hd0. cbn [mbind outcome_bind].
  rewrite (proj2 (Z.leb_gt _ _)) by lia. rewrite Hsl. cbn [mbind outcome_bind]. sizes.
  replace (_ || _) with false by (symmetry; zbool).
  replace (6 + Zlen dcid + 1) with (7 + Zlen dcid) by lia. rewrite Hs0. cbn [mbind outcome_bind].
  sizes. by rewrite Ht.
Qed.

(** A whole Initial packet: header, length-prefixed token, length-prefixed payload. *)
Definition encode_initial (b0 version : Z) (dcid scid : list Z) (kt : Z) (token : list Z)
    (kp : Z) (payload : list Z) : list Z :=
  encode_long_header b0 version dcid scid ++
  encode_varint kt (Zlen token) ++ token ++ encode_varint kp (Zlen payload) ++ payload.

Lemma take_cid_array cid : take (Z.to_nat (Zlen cid)) (cid_array cid) = cid.
Proof. unfold Zlen. rewrite Nat2Z.id. apply memcpy_at_0_take. Qed.

Lemma encode_long_header_length b0 version dcid scid :
  Zlen (encode_long_header b0 version dcid scid) = 7 + Zlen dcid + Zlen scid.
Proof.
  unfold encode_long_header. repeat (rewrite Zlen_app || rewrite Zlen_cons).
  unfold Zlen at 1. rewrite length_be_bytes. lia.
Qed.

Lemma encode_long_header_ok b0 version dcid scid :
  is_byte b0 -> bytes_ok dcid -> bytes_ok scid -> Zlen dcid <= 20 -> Zlen scid <= 20 ->
  bytes_ok (encode_long_header b0 version dcid scid).
Proof.
  intros. unfold encode_long_header. pose proof (Zlen_nonneg dcid). pose proof (Zlen_nonneg scid).
  autorewrite with bytes. unfold is_byte in *. repeat split; try done; try lia. apply be_bytes_ok.
Qed.

Lemma parse_initial_spec data len i :
  readable data len -> bytes_ok (p_buf data) ->
  qsr_quic_parse_initial data len = Ok i ->
  initial_ok len i /\
  exists b0, load data 0 = Ok b0 /\
    long_first_byte b0 (expected_initial_type_bits (i_version i)).
Proof.
  intros Hr Hok H. pose proof Hr as (?&?&?).
  unfold qsr_quic_parse_initial, QSR_MIN_INITIAL_PAYLOAD_LEN in H. inv_ok.
  destruct (parse_long_header_ok _ _ _ Hr Hok E). bool_to_prop.
  assert (Hr1 : readable (ptr_add data (h_remainder_offset a)) (len - h_remainder_offset a))
    by (apply readable_add; [done|lia]).
  repeat match goal with E : qsr_quic_parse_varint (ptr_add _ ?o) _ = _ |- _ =>
    apply parse_varint_bounds in E; [sizes|sizes; apply readable_add; [done|lia]|done] end.
  split; [split; cbn; try (apply take_cid_length; lia); lia || done|].
  cbn. rewrite <- E0. by apply (parse_long_header_first data len).
Qed.

(** ** Properties *)

(** The varint, long-header and Initial parsers never read outside the
    datagram, whatever its bytes are. *)
Theorem quic_parsers_memory_safe data len :
  readable data len -> bytes_ok (p_buf data) ->
  no_fault (qsr_quic_parse_varint data len) /\
  no_fault (qsr_quic_parse_long_header data len) /\
  no_fault (qsr_quic_parse_initial data len).
Proof.
  intros. split; [by apply parse_varint_no_fault|].
  split; [by apply parse_long_header_no_fault|by apply parse_initial_no_fault].
Qed.

(** Every value that fits a varint of a given width is read back with
    that width, wherever it is in a buffer. *)
Theorem varint_roundtrip pre k v post len :
  varint_fits k v -> bytes_ok pre -> bytes_ok post ->
  2 ^ k <= len <= 2 ^ k + Zlen post -> len < 2 ^ 32 ->
  qsr_quic_parse_varint (Ptr (pre ++ encode_varint k v ++ post) (Zlen pre)) len = Ok (v, 2 ^ k).
Proof. intros ??? []. by apply parse_encode_varint. Qed.

(** An accepted Initial has the long and fixed bits, the Initial type of
    its version, a client DCID of 8 to 20 bytes, and a token and a payload of at
    least 36 bytes that lie one after the other inside the datagram. *)
Theorem parse_initial_sound data len i :
  readable data len -> bytes_ok (p_buf data) ->
  qsr_quic_parse_initial data len = Ok i ->
  initial_ok len i /\
  exists b0, load data 0 = Ok b0 /\
    long_first_byte b0 (expected_initial_type_bits (i_version i)).
Proof. apply parse_initial_spec. Qed.

(** C29: a client Initial written in the wire format of QUIC v1 or v2, followed
    by anything (coalesced packets), is parsed back: CIDs, token and payload
    positions. *)
Theorem parse_initial_roundtrip b0 version dcid scid kt token kp payload rest :
  version = QSR_QUIC_V1 \/ version = QSR_QUIC_V2 ->
  long_first_byte b0 (expected_initial_type_bits version) ->
  bytes_ok (dcid ++ scid ++ token ++ payload ++ rest) ->
  8 <= Zlen dcid <= 20 -> Zlen scid <= 20 -> 36 <= Zlen payload ->
  varint_fits kt (Zlen token) -> varint_fits kp (Zlen payload) ->
  let buf := encode_initial b0 version dcid scid kt token kp payload ++ rest in
  let toff := 7 + Zlen dcid + Zlen scid + 2 ^ kt in
  let poff := toff + Zlen token + 2 ^ kp in
  Zlen buf < 2 ^ 32 ->
  qsr_quic_parse_initial (Ptr buf 0) (Zlen buf) =
    Ok (mk_initial version (cid_array dcid) (Zlen dcid) (cid_array scid) (Zlen scid)
          toff (Zlen token) poff (Zlen payload) poff).
Proof.
  intros Hv Hb0 Hok Hd Hs Hp Hkt Hkp buf toff poff Hlen.
  autorewrite with bytes in Hok. destruct Hok as (Hok1 & Hok2 & Hok3 & Hok4 & Hok5).
  pose proof (encode_varint_length kt (Zlen token) (proj1 Hkt)).
  pose proof (encode_varint_length kp (Zlen payload) (proj1 Hkp)).
  pose proof (encode_long_header_length b0 version dcid scid).
  pose proof (Zlen_nonneg token). pose proof (Zlen_nonneg rest). pose proof (Zlen_nonneg scid).
  pose proof (pow2_small kt (proj1 Hkt)). pose proof (pow2_small kp (proj1 Hkp)).
  set (hdr := encode_long_header b0 version dcid scid) in *.
  assert (HL : Zlen buf = poff + Zlen payload + Zlen rest).
  { unfold buf, encode_initial. fold hdr. autorewrite with qsr. lia. }
  assert (Hhok : bytes_ok hdr) by (apply encode_long_header_ok; try done; [apply Hb0|lia]).
  unfold qsr_quic_parse_initial.
  assert (Hbuf : buf = hdr ++ (encode_varint kt (Zlen token) ++ token ++
      encode_varint kp (Zlen payload) ++ payload) ++ rest).
  { unfold buf, encode_initial. by rewrite <- app_assoc. }
  rewrite Hbuf at 1 2. unfold hdr at 1 2.
  rewrite (parse_encode_long_header b0 _ version dcid scid _ Hb0 Hv)
    by (fold hdr; rewrite <- ?Hbuf; lia).
  cbn [mbind outcome_bind h_type_bits h_version h_dcid h_dcid_len h_scid h_scid_len h_remainder_offset].
  rewrite Z.eqb_refl, !take_cid_array. cbn [negb]. rewrite (proj2 (Z.ltb_ge _ _)) by lia.
  assert (Hv1 : qsr_quic_parse_varint (ptr_add (Ptr buf 0) (7 + Zlen dcid + Zlen scid))
      (usub (Zlen buf) (7 + Zlen dcid + Zlen scid)) = Ok (Zlen token, 2 ^ kt)).
  { sizes. unfold ptr_add; cbn [p_buf p_off]. rewrite Hbuf at 1.
    replace (0 + _) with (Zlen hdr) by lia.
    rewrite <- !app_assoc. apply parse_encode_varint; autorewrite with bytes qsr; auto with qsr; lia. }
  rewrite Hv1. cbn [mbind outcome_bind]. sizes. rewrite (proj2 (Z.ltb_ge _ _)) by lia.
  assert (Hv2 : qsr_quic_parse_varint (ptr_add (Ptr buf 0) (toff + Zlen token))
      (Zlen buf - (toff + Zlen token)) = Ok (Zlen payload, 2 ^ kp)).
  { unfold ptr_add; cbn [p_buf p_off]. rewrite Hbuf at 1.
    replace (0 + _) with (Zlen (hdr ++ encode_varint kt (Zlen token) ++ token))
      by (autorewrite with qsr; lia).
    replace (hdr ++ _) with ((hdr ++ encode_varint kt (Zlen token) ++ token) ++
      encode_varint kp (Zlen payload) ++ payload ++ rest) by (by rewrite <- !app_assoc).
    apply parse_encode_varint; autorewrite with bytes qsr; split_and?; auto with qsr; lia. }
  fold toff. rewrite Hv2. cbn [mbind outcome_bind]. sizes.
  rewrite !(proj2 (Z.ltb_ge _ _)) by (unfold QSR_MIN_INITIAL_PAYLOAD_LEN; lia). done.
Qed.

(** ** Witnesses *)

Definition sample_dcid : list Z := [0x83; 0x94; 0xc8; 0xf0; 0x3e; 0x51; 0x57; 0x08].

Lemma quic_parsers_memory_safe_witness :
  no_fault (qsr_quic_parse_varint (Ptr [0xc0; 1] 0) 2) /\
  no_fault (qsr_quic_parse_long_header (Ptr [0xc0; 1] 0) 2) /\
  no_fault (qsr_quic_parse_initial (Ptr [0xc0; 1] 0) 2).
Proof. apply quic_parsers_memory_safe; [z_concrete|bytes_concrete]. Defined.

Lemma varint_roundtrip_witness :
  qsr_quic_parse_varint (Ptr ([7] ++ encode_varint 1 15293 ++ [9]) (Zlen [7])) 3 = Ok (15293, 2 ^ 1).
Proof.
  apply varint_roundtrip; [unfold varint_fits; z_concrete|bytes_concrete|bytes_concrete|z_concrete|z_concrete].
Defined.

Definition sample_initial : list Z :=
  encode_initial 0xc3 QSR_QUIC_V1 sample_dcid [] 0 [] 1 (replicate 40 7).

Lemma parse_initial_roundtrip_witness :
  qsr_quic_parse_initial (Ptr (sample_initial ++ [1; 2]) 0) (Zlen (sample_initial ++ [1; 2])) =
    Ok (mk_initial QSR_QUIC_V1 (cid_array sample_dcid) 8 (cid_array []) 0 16 0 18 40 18).
Proof.
  apply (parse_initial_roundtrip 0xc3 QSR_QUIC_V1 sample_dcid [] 0 [] 1 (replicate 40 7) [1; 2]);
    try (left; reflexivity); try bytes_concrete; try (z_concrete);
    try (unfold varint_fits; z_concrete).
  unfold long_first_byte, is_byte. z_concrete.
Defined.

Lemma parse_initial_sound_witness :
  let i := mk_initial QSR_QUIC_V1 (cid_array sample_dcid) 8 (cid_array []) 0 16 0 18 40 18 in
  initial_ok (Zlen sample_initial) i /\
  exists b0, load (Ptr sample_initial 0) 0 = Ok b0 /\
    long_first_byte b0 (expected_initial_type_bits (i_version i)).
Proof.
  apply (parse_initial_sound (Ptr sample_initial 0)); [z_concrete|bytes_concrete|reflexivity].
Defined.
