(* ===== verification/Probe.v ===== *)
(** * Open addressing with linear probing

    The session table, the flow-table index and the route-table buckets all
    store entries in an array of [c] slots, start at the hash of a key and walk
    forward cyclically. This file is the theory they share: the probe walk, the
    invariant that makes it correct, insertion, and deletion by reinsertion of
    the following cluster. [SessionTable] and [FlowTable] instantiate it and
    prove that their C-shaped loops are these operations. *)

From stdpp Require Import gmap.
From S2P Require Import Prelude.
#[local] Open Scope nat_scope.

(** ** The cyclic walk

    [for (probes = 0; probes < n; probes++) { ...body may return...; index = (index + 1) % c; }] *)
Fixpoint walk {R} (c : nat) (body : nat -> option R) (n index : nat) : option R :=
  match n with
  | O => None
  | S n =>
      match body index with
      | Some r => Some r
      | None => walk c body n ((index + 1) mod c)
      end
  end.

(** [j] steps forward from [x], and the number of steps from [x] to [y]. *)
Definition cstep (c x j : nat) : nat := (x + j) mod c.
Definition cdist (c x y : nat) : nat := (y + c - x) mod c.

Lemma cstep_cases c x j : x < c -> j < c ->
  cstep c x j = if decide (x + j < c) then x + j else x + j - c.
Proof.
  intros. unfold cstep. case_decide; [by apply Nat.mod_small|].
  rewrite <- (Nat.mod_small (x + j - c) c), <- (Nat.Div0.mod_add (x + j - c) 1) by lia. f_equal. lia.
Qed.

Lemma cdist_cases c x y : x < c -> y < c ->
  cdist c x y = if decide (x <= y) then y - x else y + c - x.
Proof.
  intros. unfold cdist. case_decide; [|by apply Nat.mod_small; lia].
  rewrite <- (Nat.mod_small (y - x) c), <- (Nat.Div0.mod_add (y - x) 1) by lia. f_equal. lia.
Qed.

Lemma cstep_lt c x j : 0 < c -> cstep c x j < c.
Proof. intros. apply Nat.mod_upper_bound. lia. Qed.

Lemma cdist_lt c x y : 0 < c -> cdist c x y < c.
Proof. intros. apply Nat.mod_upper_bound. lia. Qed.

Lemma cstep_0 c x : x < c -> cstep c x 0 = x.
Proof. intros. unfold cstep. rewrite Nat.add_0_r. by apply Nat.mod_small. Qed.

Lemma cstep_cstep c x i j : cstep c (cstep c x i) j = cstep c x (i + j).
Proof. unfold cstep. rewrite Nat.Div0.add_mod_idemp_l. f_equal. lia. Qed.

Lemma cstep_cdist c x y : x < c -> y < c -> cstep c x (cdist c x y) = y.
Proof.
  intros. pose proof (cdist_lt c x y). rewrite cstep_cases by lia.
  rewrite cdist_cases in * by lia. repeat case_decide; lia.
Qed.

Lemma cdist_cstep c x j : x < c -> j < c -> cdist c x (cstep c x j) = j.
Proof.
  intros. pose proof (cstep_lt c x j). rewrite cdist_cases by lia.
  rewrite cstep_cases in * by lia. repeat case_decide; lia.
Qed.

(** If [q] is met before [i] on the way from [h], the rest of the way is [cdist q i]. *)
Lemma cdist_sub c h q i : h < c -> q < c -> i < c ->
  cdist c h q < cdist c h i -> cdist c q i = cdist c h i - cdist c h q.
Proof. intros. rewrite !cdist_cases in * by lia. repeat case_decide; lia. Qed.

Lemma cdist_inj c x y z : x < c -> y < c -> z < c -> cdist c x y = cdist c x z -> y = z.
Proof. intros. rewrite !cdist_cases in * by lia. repeat case_decide; lia. Qed.

Lemma cdist_next c p q : p < c -> q < c -> cdist c p q + 1 < c ->
  cdist c p (cstep c q 1) = cdist c p q + 1.
Proof.
  intros. pose proof (cstep_lt c q 1). rewrite cdist_cases in * by lia.
  rewrite cdist_cases, cstep_cases in * by lia. repeat case_decide; lia.
Qed.

Section walk.
Context {R : Type} (c : nat) (body : nat -> option R).

Lemma walk_first n x j r :
  x < c -> j < n -> body (cstep c x j) = Some r -> (forall i, i < j -> body (cstep c x i) = None) ->
  walk c body n x = Some r.
Proof.
  revert x j. induction n as [|n IH]; intros x j Hx Hj Hr Hn; [lia|]. cbn.
  destruct j as [|j].
  - rewrite cstep_0 in Hr by done. by rewrite Hr.
  - rewrite <- (cstep_0 c x) at 1 by done. rewrite Hn by lia. change ((x + 1) mod c) with (cstep c x 1).
    apply (IH _ j); [apply cstep_lt; lia|lia|by rewrite cstep_cstep|].
    intros i Hi. rewrite cstep_cstep. apply Hn. lia.
Qed.

Lemma walk_ext body' n x : (forall i, body i = body' i) -> walk c body n x = walk c body' n x.
Proof. intros He. revert x. induction n as [|n IH]; intros x; cbn; [done|]. rewrite He. destruct (body' x); [done|apply IH]. Qed.

Lemma walk_fmap {R'} (f : R -> R') n x : walk c (fun i => f <$> body i) n x = f <$> walk c body n x.
Proof. revert x. induction n as [|n IH]; intros x; cbn; [done|]. destruct (body x); [done|apply IH]. Qed.

Lemma walk_none n x :
  x < c -> (forall i, i < n -> body (cstep c x i) = None) -> walk c body n x = None.
Proof.
  revert x. induction n as [|n IH]; intros x Hx Hn; [done|]. cbn.
  rewrite <- (cstep_0 c x) at 1 by done. rewrite Hn by lia. change ((x + 1) mod c) with (cstep c x 1).
  apply IH; [apply cstep_lt; lia|]. intros i Hi. rewrite cstep_cstep. apply Hn. lia.
Qed.

Lemma walk_inv n x r :
  x < c -> walk c body n x = Some r ->
  exists j, j < n /\ body (cstep c x j) = Some r /\ forall i, i < j -> body (cstep c x i) = None.
Proof.
  revert x. induction n as [|n IH]; intros x Hx Hw; [done|]. cbn in Hw.
  destruct (body x) as [r'|] eqn:Hb.
  - simplify_eq. exists 0. rewrite cstep_0 by done. split_and!; [lia|done|lia].
  - destruct (IH (cstep c x 1)) as (j & Hj & Hr & Hn); [apply cstep_lt; lia|done|].
    rewrite cstep_cstep in Hr. exists (1 + j). split_and!; [lia|done|].
    intros [|i] Hi; [by rewrite cstep_0|].
    rewrite <- (Hn i), cstep_cstep by lia. done.
Qed.
End walk.

(** ** Tables *)

Lemma list_Exists_lookup {A} (P : A -> Prop) l : Exists P l <-> exists i a, l !! i = Some a /\ P a.
Proof.
  induction l as [|b l IH].
  - rewrite Exists_nil. by split; [|intros (i & a & Ha & _)].
  - rewrite Exists_cons, IH. split.
    + intros [Hb|(i & a & Ha & HP)]; [by exists 0, b|by exists (S i), a].
    + intros ([|i] & a & Ha & HP); [left; by simplify_eq/=|right; eauto].
Qed.

Lemma length_omap_le {A B} (f : A -> option B) l : length (omap f l) <= length l.
Proof. induction l as [|a l IH]; cbn; [done|]. destruct (f a); cbn; lia. Qed.

Lemma omap_lt {A B} (f : A -> option B) l : length (omap f l) < length l <-> Exists (fun a => f a = None) l.
Proof.
  induction l as [|a l IH]; cbn.
  - split; [lia|]. intros He. by apply Exists_nil in He.
  - rewrite Exists_cons. pose proof (length_omap_le f l). destruct (f a) eqn:E; cbn.
    + rewrite <- IH. split; [right; lia|]. intros [|]; [congruence|lia].
    + split; [by left|lia].
Qed.

Section probe.
Context {A K : Type} `{Countable K}.
Context (key_of : A -> option K) (empty : A) (c : nat) (home : K -> nat).
Hypothesis key_of_empty : key_of empty = None.
Hypothesis home_lt : forall k, home k < c.

(** The key in slot [i], if the slot is in use. *)
Definition view (s : list A) (i : nat) : option K := s !! i ≫= key_of.

(** One probe for [k]: stop at the first empty slot or at [k] itself. *)
Definition probe_body (s : list A) (k : K) (i : nat) : option (nat * bool) :=
  match view s i with
  | None => Some (i, false)
  | Some k' => if decide (k' = k) then Some (i, true) else None
  end.

Definition probe (s : list A) (k : K) : option (nat * bool) := walk c (probe_body s k) c (home k).

(** [good s i k]: every slot from the home of [k] up to [i] is in use. *)
Definition good (s : list A) (i : nat) (k : K) : Prop :=
  forall j, j < cdist c (home k) i -> is_Some (view s (cstep c (home k) j)).

(** No walk to an entry other than the one in slot [e] crosses [e]. In a table
    with an empty slot that slot is such an [e]; in a full one, the slot that
    was filled last. *)
Definition sealed_at (s : list A) (e : nat) : Prop :=
  forall i k j, i <> e -> view s i = Some k -> j < cdist c (home k) i -> cstep c (home k) j <> e.

Record table_inv (s : list A) : Prop := {
  ti_length : length s = c;
  ti_good : forall i k, view s i = Some k -> good s i k;
  ti_uniq : forall i j k, view s i = Some k -> view s j = Some k -> i = j;
  ti_sealed : exists e, e < c /\ sealed_at s e;
}.

(** The finite map a table represents. *)
Definition abs (s : list A) : gmap K A :=
  list_to_map (omap (fun a => (fun k => (k, a)) <$> key_of a) s).

(** One iteration of the reinsertion loop of a deletion; [inr] when the cluster ends. *)
Definition del_step (st : list A * nat) : (list A * nat) + list A :=
  let '(s, q) := st in
  match s !! q with
  | None => inr s
  | Some a =>
      match key_of a with
      | None => inr s
      | Some k =>
          let s1 := <[q := empty]> s in
          match probe s1 k with
          | Some (r, _) => inl (<[r := a]> s1, (q + 1) mod c)
          | None => inr s1
          end
      end
  end.

(** Enough iterations for every table of [c] slots (see [delete_loop]). *)
Definition del_fuel (c : nat) : positive := Z.to_pos ((Z.of_nat c + 1) ^ 3).

(** *** Elementary facts *)

Lemma c_pos (k : K) : 0 < c.
Proof. pose proof (home_lt k). lia. Qed.

Lemma view_lt s i k : length s = c -> view s i = Some k -> i < c.
Proof using Type.
  unfold view. intros Hl Hv. destruct (s !! i) eqn:E; [|done]. apply lookup_lt_Some in E. lia.
Qed.

Lemma view_lookup s i k : view s i = Some k <-> exists a, s !! i = Some a /\ key_of a = Some k.
Proof using Type.
  unfold view. destruct (s !! i) as [a|]; cbn; split; [by eauto|by intros (? & [= ->] & ?)|done|by intros (? & ? & ?)].
Qed.

Lemma view_insert s i a : i < length s -> view (<[i := a]> s) i = key_of a.
Proof using Type. intros. unfold view. by rewrite list_lookup_insert_eq. Qed.

Lemma view_insert_ne s i j a : i <> j -> view (<[i := a]> s) j = view s j.
Proof using Type. intros. unfold view. by rewrite list_lookup_insert_ne. Qed.

Definition has_empty (s : list A) : Prop := exists e, e < c /\ view s e = None.
Definition absent (s : list A) (k : K) : Prop := forall i, view s i <> Some k.
Definition uniq (s : list A) : Prop :=
  forall i j k, view s i = Some k -> view s j = Some k -> i = j.

Lemma probe_found s i k : table_inv s -> view s i = Some k -> probe s k = Some (i, true).
Proof.
  intros [Hl Hg Hu Hs] Hv. pose proof (view_lt _ _ _ Hl Hv). pose proof (home_lt k).
  unfold probe. apply (walk_first _ _ _ _ (cdist c (home k) i)); [done|apply cdist_lt; lia|..].
  - rewrite cstep_cdist by done. unfold probe_body. rewrite Hv. by rewrite decide_True.
  - intros j Hj. destruct (Hg _ _ Hv j Hj) as [k' Hk']. unfold probe_body. rewrite Hk'.
    rewrite decide_False; [done|]. intros ->.
    pose proof (cdist_lt c (home k) i (c_pos k)). assert (Hji : cstep c (home k) j = i) by eauto.
    pose proof (cdist_cstep c (home k) j) as Hd. rewrite Hji in Hd. lia.
Qed.

Lemma probe_true s i k : probe s k = Some (i, true) -> i < c /\ view s i = Some k.
Proof.
  intros Hp. apply walk_inv in Hp as (j & Hj & Hb & _); [|apply home_lt].
  unfold probe_body in Hb. destruct (view s _) eqn:E; [|done].
  case_decide; [|done]. injection Hb as <-. subst. split; [apply cstep_lt; lia|done].
Qed.

Lemma probe_false s i k : probe s k = Some (i, false) ->
  i < c /\ view s i = None /\ good s i k /\
  forall j, j < cdist c (home k) i -> view s (cstep c (home k) j) <> Some k.
Proof.
  intros Hp. pose proof (home_lt k). apply walk_inv in Hp as (j & Hj & Hb & Hn); [|done].
  unfold probe_body in Hb. destruct (view s _) eqn:E; [case_decide; simplify_eq|]. simplify_eq.
  assert (Hall : forall i, i < j -> exists k', view s (cstep c (home k) i) = Some k' /\ k' <> k).
  { intros i Hi. specialize (Hn i Hi). unfold probe_body in Hn.
    destruct (view s (cstep c (home k) i)) as [k'|]; [|done]. case_decide; [done|eauto]. }
  split_and!; [apply cstep_lt; lia|done|..]; [intros i Hi|intros i Hi];
    rewrite cdist_cstep in Hi by lia; destruct (Hall i Hi) as (k' & -> & ?); [eauto|congruence].
Qed.

Lemma probe_false_absent s i k : table_inv s -> probe s k = Some (i, false) -> absent s k.
Proof. intros Hi Hp j Hj. rewrite (probe_found s j k) in Hp by done. done. Qed.

(** Two tables that agree up to some distance give the same probe prefix: the
    walk for an absent key stops at the first empty slot. *)
Lemma probe_absent s k : absent s k -> has_empty s ->
  exists i, probe s k = Some (i, false).
Proof.
  intros Ha (e & He & Hv). destruct (probe s k) as [[i []]|] eqn:Hp; [|by eauto|].
  - apply walk_inv in Hp as (j & ? & Hb & _); [|apply home_lt]. unfold probe_body in Hb.
    destruct (view s (cstep c (home k) j)) eqn:E; [|done]. case_decide; simplify_eq. by destruct (Ha _ E).
  - exfalso. unfold probe in Hp. pose proof (home_lt k).
    assert (Hj : cdist c (home k) e < c) by (apply cdist_lt; lia).
    rewrite <- (cstep_cdist c (home k) e) in Hv by done.
    destruct (least_nat (fun j => view s (cstep c (home k) j) = None) _ Hv) as (j & Hjc & Hjv & Hjn).
    rewrite (walk_first c (probe_body s k) c (home k) j (cstep c (home k) j, false)) in Hp; [done|done|lia|..].
    + unfold probe_body. by rewrite Hjv.
    + intros i Hi. unfold probe_body. specialize (Hjn i Hi).
      destruct (view s (cstep c (home k) i)) eqn:E; [|done].
      rewrite decide_False; [done|]. intros ->. by destruct (Ha _ E).
Qed.

Lemma probe_full s k : absent s k -> (forall i, i < c -> view s i <> None) -> probe s k = None.
Proof.
  intros Ha Hf. unfold probe. apply walk_none; [apply home_lt|]. intros i Hi. unfold probe_body.
  pose proof (Hf (cstep c (home k) i)) as Hn. destruct (view s _) eqn:E.
  - rewrite decide_False; [done|]. intros ->. by destruct (Ha _ E).
  - destruct Hn; [|done]. apply cstep_lt, (c_pos k).
Qed.
(** *** Contents *)

Lemma abs_lookup s k a : uniq s ->
  abs s !! k = Some a <-> exists i, s !! i = Some a /\ key_of a = Some k.
Proof using Type.
  intros Hu. unfold abs.
  assert (Hin : forall a, (k, a) ∈ omap (fun a => (fun k => (k, a)) <$> key_of a) s <->
      exists i, s !! i = Some a /\ key_of a = Some k).
  { intros b. rewrite list_elem_of_omap. split.
    - intros (x & Hx & Hk). apply list_elem_of_lookup in Hx as [i Hi].
      destruct (key_of x) eqn:E; simplify_eq/=. eauto.
    - intros (i & Hi & Hk). exists b. split; [by eapply list_elem_of_lookup_2|]. by rewrite Hk. }
  rewrite <- Hin. symmetry. apply elem_of_list_to_map'. intros b Hb.
  rewrite Hin in Hb. destruct Hb as (i & Hi & Hk). rewrite Hin. intros (j & Hj & Hk').
  assert (i = j) by (apply (Hu _ _ k); apply view_lookup; eauto). congruence.
Qed.

Lemma abs_lookup_view s k : uniq s ->
  abs s !! k = None <-> absent s k.
Proof using Type.
  intros Hu. split.
  - intros Hn i Hv. apply view_lookup in Hv as (a & Hi & Hk).
    assert (abs s !! k = Some a) by (apply abs_lookup; eauto). congruence.
  - intros Ha. destruct (abs s !! k) as [a|] eqn:E; [|done].
    apply abs_lookup in E as (i & Hi & Hk); [|done]. destruct (Ha i). apply view_lookup. eauto.
Qed.

Lemma view_insert_case s i a j k : view (<[i := a]> s) j = Some k ->
  (j = i /\ key_of a = Some k) \/ view s j = Some k.
Proof using Type.
  destruct (decide (i = j)) as [<-|]; [|rewrite view_insert_ne by done; by right].
  destruct (decide (i < length s)); [rewrite view_insert by done; by left|].
  rewrite list_insert_ge by lia. by right.
Qed.

Lemma uniq_insert s i a k : uniq s -> key_of a = Some k ->
  (forall j, view s j = Some k -> j = i) -> uniq (<[i := a]> s).
Proof using Type.
  intros Hu Hk Ho j j' k' Hj Hj'.
  apply view_insert_case in Hj as [[-> ?]|Hj], Hj' as [[-> ?]|Hj']; simplify_eq; eauto.
  symmetry. eauto.
Qed.

Lemma uniq_clear s i : uniq s -> uniq (<[i := empty]> s).
Proof using key_of_empty.
  intros Hu j j' k' Hj Hj'.
  apply view_insert_case in Hj as [[-> ?]|Hj], Hj' as [[-> ?]|Hj']; eauto; congruence.
Qed.

Lemma abs_insert s i a k : uniq s -> i < length s -> key_of a = Some k ->
  (view s i = None \/ view s i = Some k) -> (forall j, view s j = Some k -> j = i) ->
  abs (<[i := a]> s) = <[k := a]> (abs s).
Proof using Type.
  intros Hu Hl Hk Hi Ho. pose proof (uniq_insert s i a k Hu Hk Ho) as Hu'.
  apply map_eq. intros k'. apply option_eq. intros b. rewrite abs_lookup, lookup_insert_Some by done.
  rewrite abs_lookup by done. split.
  - intros (j & Hj & Hkb). destruct (decide (i = j)) as [<-|Hne].
    + rewrite list_lookup_insert_eq in Hj by done. simplify_eq. left. split; congruence.
    + rewrite list_lookup_insert_ne in Hj by done. right. split; [|by eauto]. intros ->.
      destruct Hne. symmetry. apply Ho. apply view_lookup. eauto.
  - intros [[-> ->]|(Hne & j & Hj & Hkb)].
    + exists i. by rewrite list_lookup_insert_eq.
    + exists j. rewrite list_lookup_insert_ne; [by split|]. intros ->.
      assert (view s j = Some k') by (apply view_lookup; eauto). destruct Hi; congruence.
Qed.

Lemma abs_clear s i k : uniq s -> view s i = Some k ->
  abs (<[i := empty]> s) = delete k (abs s).
Proof using key_of_empty.
  intros Hu Hv. pose proof (uniq_clear s i Hu) as Hu'.
  assert (Hl : i < length s) by (apply view_lookup in Hv as (a & Ha & _); by apply lookup_lt_Some in Ha).
  apply map_eq. intros k'. apply option_eq. intros b. rewrite abs_lookup, lookup_delete_Some by done.
  rewrite abs_lookup by done. split.
  - intros (j & Hj & Hkb). destruct (decide (i = j)) as [<-|Hne].
    + rewrite list_lookup_insert_eq in Hj by done. simplify_eq.
    + rewrite list_lookup_insert_ne in Hj by done. split; [|by eauto]. intros ->.
      destruct Hne. apply (Hu _ _ k'); [done|]. apply view_lookup; eauto.
  - intros (Hne & j & Hj & Hkb). exists j. rewrite list_lookup_insert_ne; [by split|]. intros ->.
    assert (view s j = Some k') by (apply view_lookup; eauto). congruence.
Qed.

(** *** The number of entries *)

Lemma nodup_keys s : uniq s -> NoDup (omap key_of s).
Proof using Type.
  induction s as [|a s IH]; intros Hu; cbn; [constructor|].
  assert (Hs : uniq s).
  { intros i j k Hi Hj. assert (S i = S j) as [= ->]; [|done]. apply (Hu _ _ k); done. }
  destruct (key_of a) as [k|] eqn:Hk; [|by apply IH]. constructor; [|by apply IH].
  rewrite list_elem_of_omap. intros (b & Hb & Hkb). apply list_elem_of_lookup in Hb as [j Hj].
  assert (0 = S j); [|done]. apply (Hu _ _ k); [done|]. change (view s j = Some k). unfold view. by rewrite Hj.
Qed.

Lemma size_abs s : uniq s -> size (abs s) = length (omap key_of s).
Proof using Type.
  intros Hu. pose proof (nodup_keys s Hu) as Hn. unfold abs.
  assert (Hf : (omap (fun a => (fun k => (k, a)) <$> key_of a) s).*1 = omap key_of s).
  { clear. induction s as [|a s IH]; cbn; [done|]. destruct (key_of a); cbn; by rewrite IH. }
  rewrite map_size_list_to_map by (by rewrite Hf). by rewrite <- Hf, length_fmap.
Qed.

Lemma size_abs_le s : uniq s -> size (abs s) <= length s.
Proof using Type. intros. rewrite size_abs by done. apply length_omap_le. Qed.

Lemma has_empty_size s : uniq s -> length s = c -> has_empty s <-> size (abs s) < c.
Proof using Type.
  intros Hu Hl. rewrite size_abs by done. rewrite <- Hl at 1. rewrite omap_lt, list_Exists_lookup. unfold has_empty. split.
  - intros (e & He & Hv). rewrite <- Hl in He. apply lookup_lt_is_Some in He as [a Ha]. exists e, a. split; [done|].
    unfold view in Hv. by rewrite Ha in Hv.
  - intros (e & a & Ha & Hk). exists e. split; [apply lookup_lt_Some in Ha; lia|]. unfold view. by rewrite Ha.
Qed.

(** *** Insertion *)

(** Filling the slot at which the walk stopped keeps the table well formed. *)
Lemma probe_insert_inv s i a k b :
  table_inv s -> key_of a = Some k -> probe s k = Some (i, b) -> table_inv (<[i := a]> s).
Proof using home_lt.
  intros Hinv Hk Hp. pose proof Hinv as [Hl Hg Hu Hs].
  assert (Hi : i < c /\ good s i k /\ forall j, view s j = Some k -> j = i).
  { destruct b.
    - apply probe_true in Hp as [? Hv]. eauto.
    - pose proof (probe_false_absent _ _ _ Hinv Hp) as Ha. apply probe_false in Hp as (? & ? & ? & _).
      split_and!; [done..|]. intros j Hj. by destruct (Ha j). }
  destruct Hi as (Hic & Hgi & Ho).
  assert (Hocc : forall x, is_Some (view s x) -> is_Some (view (<[i := a]> s) x)).
  { intros x Hx. destruct (decide (i = x)) as [<-|];
      [rewrite view_insert by lia; by eauto|by rewrite view_insert_ne]. }
  split; [by rewrite length_insert| |by eapply uniq_insert|].
  2: { destruct b.
    - apply probe_true in Hp as [_ Hv]. destruct Hs as (e & He & Hse). exists e. split; [done|].
      intros j k' x Hje Hj. apply Hse; [done|]. apply view_insert_case in Hj as [[-> Hj]|Hj]; [by rewrite Hv, <- Hk, Hj|done].
    - apply probe_false in Hp as (_ & Hv & _). exists i. split; [done|]. intros j k' x Hji Hj Hx Hxi.
      rewrite view_insert_ne in Hj by done. destruct (Hg j k' Hj x Hx) as [? Hx'].
      rewrite Hxi, Hv in Hx'. discriminate. }
  intros j k' Hj x Hx. apply Hocc. destruct (decide (i = j)) as [<-|].
  - rewrite view_insert in Hj by lia. rewrite Hk in Hj. injection Hj as <-. by apply Hgi.
  - rewrite view_insert_ne in Hj by done. by eapply Hg.
Qed.

Lemma probe_insert_abs s i a k b :
  table_inv s -> key_of a = Some k -> probe s k = Some (i, b) ->
  abs (<[i := a]> s) = <[k := a]> (abs s).
Proof.
  intros Hinv Hk Hp. pose proof Hinv as [Hl Hg Hu Hs]. destruct b.
  - apply probe_true in Hp as [? Hv]. apply abs_insert; [done|lia|done|by right|by eauto].
  - pose proof (probe_false_absent _ _ _ Hinv Hp) as Ha. apply probe_false in Hp as (? & ? & ? & _).
    apply abs_insert; [done|lia|done|by left|]. intros j Hj. by destruct (Ha j).
Qed.

(** Lookup in the table is lookup in the map. *)
Lemma probe_abs s k : table_inv s ->
  match probe s k with
  | Some (i, true) => exists a, s !! i = Some a /\ abs s !! k = Some a
  | _ => abs s !! k = None
  end.
Proof.
  intros Hinv. pose proof Hinv as [Hl Hg Hu Hs]. destruct (probe s k) as [[i []]|] eqn:Hp.
  - apply probe_true in Hp as [? Hv]. apply view_lookup in Hv as (a & ? & ?).
    exists a. split; [done|]. apply abs_lookup; eauto.
  - apply abs_lookup_view; [done|]. by eapply probe_false_absent.
  - apply abs_lookup_view; [done|]. intros i Hi. by rewrite (probe_found s i k) in Hp.
Qed.
(** *** Deletion

    The loop of a deletion takes each entry of the cluster after the deleted
    slot out and puts it back where its probe walk now stops. Its invariant:
    every entry is either reachable ([good]) or lies in the run of used slots
    that starts at the cursor and is still to be processed. *)

Definition run (s : list A) (q i : nat) : Prop :=
  forall j, j <= cdist c q i -> is_Some (view s (cstep c q j)).

Record del_inv (m : gmap K A) (st : list A * nat) : Prop := {
  di_len : length (fst st) = c;
  di_cur : snd st < c;
  di_empty : has_empty (fst st);
  di_uniq : uniq (fst st);
  di_abs : abs (fst st) = m;
  di_good : forall i k, view (fst st) i = Some k -> good (fst st) i k \/ run (fst st) (snd st) i;
}.

(** Every entry of [s] was in [s0], at the same or a later slot counting from [p]. *)
Definition from_ahead (s0 : list A) (p : nat) (s : list A) : Prop :=
  forall i a, s !! i = Some a -> is_Some (key_of a) ->
    exists i0, s0 !! i0 = Some a /\ cdist c p i <= cdist c p i0.

(** Entries only move towards the deleted slot [p]. With [e] sealed: until the
    cursor passes [e] the holes on any entry's way are behind the cursor; from
    then on every entry is reachable and nothing moves. *)
Inductive del_phase (s0 : list A) (p e : nat) (s : list A) (q : nat) : Prop :=
  | phase_before :
      1 <= cdist c p q <= cdist c p e ->
      sealed_at s e ->
      (forall i k j, view s i = Some k -> j < cdist c (home k) i -> view s (cstep c (home k) j) = None ->
        cdist c p (cstep c (home k) j) < cdist c p q) ->
      from_ahead s0 p s -> del_phase s0 p e s q
  | phase_after :
      (forall i k, view s i = Some k -> good s i k) ->
      from_ahead s0 p s -> del_phase s0 p e s q.

Definition slot_disp (i : nat) (a : A) : nat :=
  match key_of a with Some k => cdist c (home k) i | None => 0 end.

(** Total displacement of the entries from their homes. *)
Definition tdisp (s : list A) : nat := sum_list (imap slot_disp s).

(** Length of the run of used slots from [q]. *)
Fixpoint runlen (s : list A) (n q : nat) : nat :=
  match n with
  | O => O
  | S n => if view s q is Some _ then S (runlen s n (cstep c q 1)) else O
  end.

Definition del_measure (st : list A * nat) : nat :=
  (c + 1) * tdisp (fst st) + runlen (fst st) c (snd st).

Lemma runlen_eq s n m q :
  q < c -> m <= n -> (m < n -> view s (cstep c q m) = None) ->
  (forall j, j < m -> is_Some (view s (cstep c q j))) -> runlen s n q = m.
Proof.
  revert q m. induction n as [|n IH]; intros q m Hq Hm He Ho; cbn; [lia|].
  destruct m as [|m].
  - rewrite cstep_0 in He by done. by rewrite He by lia.
  - destruct (Ho 0) as [k Hk]; [lia|]. rewrite cstep_0 in Hk by done. rewrite Hk. f_equal.
    apply IH; [apply cstep_lt; lia|lia|..].
    + rewrite cstep_cstep. intros. apply He. lia.
    + intros j Hj. rewrite cstep_cstep. apply Ho. lia.
Qed.

Lemma runlen_le s n q : runlen s n q <= n.
Proof. revert q. induction n; intros q; cbn; [done|]. destruct (view s q); [|lia]. specialize (IHn (cstep c q 1)). lia. Qed.

(** What one reinsertion does: the entry of slot [q] goes to a slot [r] at most
    as far from its home, which is [q] itself or was empty. *)
Lemma reinsert_facts s q a k :
  length s = c -> q < c -> uniq s -> s !! q = Some a -> key_of a = Some k ->
  exists r, probe (<[q := empty]> s) k = Some (r, false) /\ r < c /\
    good (<[q := empty]> s) r k /\
    (r = q \/ r <> q /\ view s r = None /\ cdist c (home k) r < cdist c (home k) q).
Proof.
  intros Hl Hq Hu Ha Hk. set (s1 := <[q := empty]> s).
  assert (Hv1 : view s1 q = None) by (unfold s1; rewrite view_insert by lia; done).
  assert (Hvq : view s q = Some k) by (apply view_lookup; eauto).
  assert (Habs : absent s1 k).
  { intros i Hi. destruct (decide (q = i)) as [<-|]; [congruence|].
    unfold s1 in Hi. rewrite view_insert_ne in Hi by done. by assert (q = i) by eauto. }
  destruct (probe_absent s1 k Habs) as [r Hr]; [by exists q|].
  exists r. pose proof (probe_false _ _ _ Hr) as (Hrc & Hrv & Hrg & _). split_and!; [done..|].
  destruct (decide (r = q)) as [|Hne]; [by left|]. right. split; [done|].
  split; [unfold s1 in Hrv; by rewrite view_insert_ne in Hrv by done|].
  pose proof (home_lt k). destruct (decide (cdist c (home k) r < cdist c (home k) q)); [done|].
  assert (cdist c (home k) q < cdist c (home k) r).
  { destruct (decide (cdist c (home k) q = cdist c (home k) r)) as [He|]; [|lia].
    by apply cdist_inj in He. }
  specialize (Hrg (cdist c (home k) q)). rewrite cstep_cdist, Hv1 in Hrg by done.
  destruct Hrg as [? [=]]. done.
Qed.

(** The table after moving the entry [a] from slot [q] to slot [r]. *)
Definition move (s : list A) (q r : nat) (a : A) : list A := <[r := a]> (<[q := empty]> s).

Lemma length_move s q r a : length (move s q r a) = length s.
Proof. unfold move. by rewrite !length_insert. Qed.

Lemma view_move s q r a x : length s = c -> q < c -> r < c ->
  view (move s q r a) x =
    if decide (x = r) then key_of a else if decide (x = q) then None else view s x.
Proof.
  intros Hl Hq Hr. unfold move. case_decide as Hxr.
  - subst. rewrite view_insert; [done|]. rewrite length_insert. lia.
  - rewrite view_insert_ne by done. case_decide as Hxq; [|by rewrite view_insert_ne].
    subst. rewrite view_insert by lia. done.
Qed.

(** An entry whose path crosses [q] and is fully in use lies in the run from [q]. *)
Lemma good_through_run s q i k :
  q < c -> i < c -> view s i = Some k -> good s i k ->
  cdist c (home k) q < cdist c (home k) i -> run s q i.
Proof.
  intros Hq Hi Hv Hg Hlt j Hj. pose proof (home_lt k).
  pose proof (cdist_sub c (home k) q i) as Hs.
  rewrite <- (cstep_cdist c (home k) q), cstep_cstep by done.
  destruct (decide (cdist c (home k) q + j = cdist c (home k) i)) as [->|].
  - rewrite cstep_cdist by done. eauto.
  - apply Hg. lia.
Qed.

Lemma run_step s s' q i :
  q < c -> i < c -> i <> q ->
  (forall x, x <> q -> is_Some (view s x) -> is_Some (view s' x)) ->
  run s q i -> run s' (cstep c q 1) i.
Proof using Type.
  intros Hq Hi Hiq Hvs Hrun j Hj. pose proof (cdist_lt c q i).
  assert (Hd : cdist c (cstep c q 1) i = cdist c q i - 1).
  { pose proof (cstep_lt c q 1). rewrite !cdist_cases in * by lia.
    rewrite cstep_cases in * by lia. repeat case_decide; lia. }
  assert (0 < cdist c q i) by (rewrite cdist_cases by lia; case_decide; lia).
  rewrite cstep_cstep. apply Hvs; [|apply Hrun; lia]. intros Hback.
  assert (cdist c q (cstep c q (1 + j)) = 1 + j) as Hc by (apply cdist_cstep; lia).
  rewrite Hback, cdist_cases in Hc by lia. case_decide; lia.
Qed.

Lemma reinsert_good s q r a k i k' :
  length s = c -> q < c -> r < c -> key_of a = Some k -> s !! q = Some a ->
  good (<[q := empty]> s) r k ->
  (forall i k, view s i = Some k -> good s i k \/ run s q i) ->
  view (move s q r a) i = Some k' ->
  good (move s q r a) i k' \/ run (move s q r a) (cstep c q 1) i.
Proof.
  intros Hl Hq Hr Hk Ha Hrg HJ Hv.
  assert (Hic : i < c) by (eapply view_lt; [|done]; by rewrite length_move).
  rewrite view_move in Hv by done. case_decide as Hir.
  - subst r. left. rewrite Hk in Hv. injection Hv as <-. intros j Hj. specialize (Hrg j Hj).
    rewrite view_move by done. case_decide; [by rewrite Hk|].
    case_decide as Hq'; [|rewrite view_insert_ne in Hrg by done; done].
    rewrite Hq', view_insert, key_of_empty in Hrg by lia. by destruct Hrg.
  - case_decide as Hiq; [done|]. pose proof (cdist_lt c (home k') i (c_pos k)).
    assert (Hrun : run s q i -> run (move s q r a) (cstep c q 1) i).
    { apply run_step; [done..|]. intros x Hx ?. rewrite view_move by done.
      case_decide; [by eauto|by rewrite decide_False]. }
    destruct (HJ i k' Hv) as [Hg|]; [|by auto].
    destruct (decide (cdist c (home k') q < cdist c (home k') i)) as [Hlt|Hge];
      [right; apply Hrun; by eapply good_through_run|].
    left. intros j Hj. rewrite view_move by done. case_decide; [by rewrite Hk|].
    case_decide as Hq'; [|by apply Hg]. destruct Hge. rewrite <- Hq', cdist_cstep; [done|apply home_lt|lia].
Qed.

Lemma reinsert_abs s q r a k :
  length s = c -> q < c -> r < c -> uniq s -> s !! q = Some a -> key_of a = Some k ->
  (r = q \/ r <> q /\ view s r = None) ->
  uniq (move s q r a) /\ abs (move s q r a) = abs s.
Proof.
  intros Hl Hq Hr Hu Ha Hk Hrq. assert (Hvq : view s q = Some k) by (apply view_lookup; eauto).
  assert (Ho : forall j, view (<[q := empty]> s) j = Some k -> j = r).
  { intros j Hj. destruct (decide (q = j)) as [<-|Hne]; [rewrite view_insert in Hj by lia; congruence|].
    rewrite view_insert_ne in Hj by done. by destruct Hne; eapply Hu. }
  pose proof (uniq_clear s q Hu) as Hu1. split; [by eapply uniq_insert|]. unfold move.
  rewrite (abs_insert _ r a k), (abs_clear _ q k); [|done|done|done|by rewrite length_insert; lia|done| |done].
  - rewrite insert_delete_eq, insert_id; [done|]. apply abs_lookup; eauto.
  - left. destruct Hrq as [->|[? ?]]; [by rewrite view_insert by lia|by rewrite view_insert_ne].
Qed.
(** The measure of the loop. *)

Lemma tdisp_insert s i a b : s !! i = Some a ->
  tdisp (<[i := b]> s) + slot_disp i a = tdisp s + slot_disp i b.
Proof. intros. unfold tdisp. by apply sum_list_imap_insert. Qed.

Lemma tdisp_move s q r a k :
  length s = c -> r < c -> s !! q = Some a -> key_of a = Some k -> r <> q -> view s r = None ->
  tdisp (move s q r a) + cdist c (home k) q = tdisp s + cdist c (home k) r.
Proof.
  intros Hl Hr Ha Hk Hne Hvr. destruct (lookup_lt_is_Some_2 s r) as [b Hb]; [lia|].
  assert (Hkb : key_of b = None) by (unfold view in Hvr; by rewrite Hb in Hvr).
  pose proof (tdisp_insert s q a empty Ha) as H1.
  pose proof (tdisp_insert (<[q := empty]> s) r b a) as H2.
  rewrite list_lookup_insert_ne in H2 by done. specialize (H2 Hb).
  unfold slot_disp in *. rewrite ?Hk, ?Hkb, ?key_of_empty in *. unfold move. lia.
Qed.

Lemma tdisp_le s : length s = c -> tdisp s <= c * c.
Proof.
  intros Hl. unfold tdisp. rewrite <- Hl at 1. apply sum_list_imap_le. intros i a. unfold slot_disp.
  destruct (key_of a) as [k|]; [|lia]. pose proof (cdist_lt c (home k) i (c_pos k)). lia.
Qed.

Lemma least_empty s q : q < c -> has_empty s ->
  exists m, m < c /\ view s (cstep c q m) = None /\ forall j, j < m -> is_Some (view s (cstep c q j)).
Proof.
  intros Hq (e & He & Hv). rewrite <- (cstep_cdist c q e) in Hv by done.
  destruct (least_nat (fun j => view s (cstep c q j) = None) _ Hv) as (m & Hm & Hvm & Hn).
  pose proof (cdist_lt c q e). exists m. split_and!; [lia|done|]. intros j Hj.
  specialize (Hn j Hj). destruct (view s (cstep c q j)); [eauto|done].
Qed.

Lemma runlen_next s q : q < c -> has_empty s -> is_Some (view s q) ->
  runlen s c (cstep c q 1) < runlen s c q.
Proof.
  intros Hq He [k Hk]. destruct (least_empty s q Hq He) as (m & Hm & Hv & Ho).
  destruct m as [|m]; [rewrite cstep_0 in Hv by done; congruence|].
  rewrite (runlen_eq s c (S m) q) by (done || lia).
  rewrite (runlen_eq s c m); [lia|apply cstep_lt; lia|lia|intros; by rewrite cstep_cstep|].
  intros j Hj. rewrite cstep_cstep. apply Ho. lia.
Qed.

Lemma del_measure_dec s q r a k :
  length s = c -> q < c -> r < c -> has_empty s -> s !! q = Some a -> key_of a = Some k ->
  (r = q \/ r <> q /\ view s r = None /\ cdist c (home k) r < cdist c (home k) q) ->
  del_measure (move s q r a, cstep c q 1) < del_measure (s, q).
Proof.
  intros Hl Hq Hr He Ha Hk [->|(Hne & Hvr & Hlt)]; unfold del_measure; cbn [fst snd].
  - unfold move. rewrite list_insert_insert_eq, list_insert_id by done.
    assert (runlen s c (cstep c q 1) < runlen s c q); [|lia].
    apply runlen_next; [done..|]. exists k. apply view_lookup. eauto.
  - pose proof (tdisp_move s q r a k Hl Hr Ha Hk Hne Hvr).
    pose proof (runlen_le (move s q r a) c (cstep c q 1)). nia.
Qed.

Lemma del_fuel_nat : Pos.to_nat (del_fuel c) = (c + 1) * (c + 1) * (c + 1).
Proof.
  unfold del_fuel. rewrite <- Z2Nat.inj_pos, Z2Pos.id by (apply Z.pow_pos_nonneg; lia). lia.
Qed.

Lemma del_inv_step m s q : del_inv m (s, q) ->
  match del_step (s, q) with
  | inl st' => del_inv m st' /\ del_measure st' < del_measure (s, q)
  | inr s' => table_inv s' /\ abs s' = m
  end.
Proof.
  intros [Hl Hq He Hu Habs HJ]. cbn [fst snd] in *. unfold del_step.
  assert (Hstop : view s q = None -> table_inv s).
  { intros Hv. assert (Hg : forall i k, view s i = Some k -> good s i k).
    { intros i k Hi. destruct (HJ i k Hi) as [|Hr]; [done|].
      destruct (Hr 0); [lia|]. rewrite cstep_0 in * by done. congruence. }
    split; [done..|]. exists q. split; [done|]. intros i k j _ Hi Hj Hq'.
    destruct (Hg i k Hi j Hj). congruence. }
  destruct (s !! q) as [a|] eqn:Ha; [|by apply lookup_ge_None in Ha; lia].
  destruct (key_of a) as [k|] eqn:Hk.
  2: { split; [|done]. apply Hstop. unfold view. by rewrite Ha. }
  destruct (reinsert_facts s q a k) as (r & Hp & Hr & Hg & Hrq); [done..|]. rewrite Hp.
  change ((q + 1) mod c) with (cstep c q 1). fold (move s q r a).
  destruct (reinsert_abs s q r a k) as [Hu' Habs']; [done..|tauto|].
  split; [|by eapply del_measure_dec].
  split; cbn [fst snd]; [by rewrite length_move|apply cstep_lt; lia| |done|congruence|].
  - destruct Hrq as [->|(Hne & _)].
    + unfold move. by rewrite list_insert_insert_eq, list_insert_id.
    + exists q. split; [done|]. rewrite view_move by done. by rewrite decide_False, decide_True.
  - intros i k' Hi. by eapply reinsert_good.
Qed.

Lemma del_inv_init s p k : table_inv s -> view s p = Some k ->
  del_inv (delete k (abs s)) (<[p := empty]> s, cstep c p 1).
Proof.
  intros [Hl Hg Hu Hs] Hv. assert (Hp : p < c) by (by eapply view_lt).
  assert (Hvp : view (<[p := empty]> s) p = None) by (rewrite view_insert by lia; done).
  split; cbn [fst snd]; [by rewrite length_insert|apply cstep_lt; lia|by exists p|by apply uniq_clear|by apply abs_clear|].
  intros i k' Hi. destruct (decide (p = i)) as [<-|Hne]; [congruence|].
  rewrite view_insert_ne in Hi by done. assert (Hic : i < c) by (by eapply view_lt).
  destruct (decide (cdist c (home k') p < cdist c (home k') i)) as [Hlt|Hge].
  - right. pose proof (good_through_run s p i k' Hp Hic Hi (Hg _ _ Hi) Hlt) as Hrun.
    revert Hrun. apply run_step; [done..|]. intros x Hx ?. by rewrite view_insert_ne.
  - left. intros j Hj. specialize (Hg _ _ Hi j Hj).
    destruct (decide (p = cstep c (home k') j)) as [->|]; [|by rewrite view_insert_ne].
    destruct Hge. rewrite cdist_cstep; [done|apply home_lt|]. pose proof (cdist_lt c (home k') i (c_pos k')). lia.
Qed.

(** One iteration in terms of the probe walk. *)
Lemma del_step_move m s q a k : del_inv m (s, q) -> s !! q = Some a -> key_of a = Some k ->
  exists r, probe (<[q := empty]> s) k = Some (r, false) /\ r < c /\
    view (<[q := empty]> s) r = None /\
    del_step (s, q) = inl (move s q r a, (q + 1) mod c).
Proof.
  intros [Hl Hq He Hu _ _] Ha Hk. cbn [fst snd] in *.
  destruct (reinsert_facts s q a k) as (r & Hp & Hr & Hg & _); [done..|].
  exists r. split_and!; [done..| |]; [by apply probe_false in Hp as (_ & ? & _)|].
  unfold del_step. by rewrite Ha, Hk, Hp.
Qed.

Lemma from_ahead_move s0 p s q r a : from_ahead s0 p s -> s !! q = Some a ->
  (r = q \/ cdist c p r < cdist c p q) -> from_ahead s0 p (move s q r a).
Proof.
  intros Ho Ha Hr i b Hi Hkb. unfold move in Hi.
  apply list_lookup_insert_Some in Hi as [(<- & <- & _)|[Hne Hi]].
  - destruct (Ho q a Ha Hkb) as (i0 & ? & ?). exists i0. split; [done|]. destruct Hr as [->|?]; lia.
  - apply list_lookup_insert_Some in Hi as [(_ & <- & _)|[_ Hi]]; [|by apply Ho].
    rewrite key_of_empty in Hkb. by destruct Hkb.
Qed.

(** Before [e] is passed, an entry [i] with a hole on its way lies between that hole and [e]. *)
Lemma hole_before s p e i k j :
  p < c -> e < c -> i < c -> sealed_at s e -> i <> e -> view s i = Some k -> j < cdist c (home k) i ->
  cdist c p (cstep c (home k) j) < cdist c p e ->
  cdist c p (cstep c (home k) j) < cdist c p i < cdist c p e.
Proof.
  intros Hp He Hi Hs Hne Hv Hj Hh. pose proof (home_lt k).
  destruct (decide (cdist c p (cstep c (home k) j) < cdist c p i < cdist c p e)); [done|exfalso].
  set (h := cstep c (home k) j) in *. assert (Hhc : h < c) by (apply cstep_lt; lia).
  pose proof (cdist_lt c (home k) i ltac:(lia)). pose proof (cdist_lt c h e ltac:(lia)).
  assert (Hjd : cdist c (home k) h = j) by (apply cdist_cstep; lia).
  apply (Hs i k (j + cdist c h e) Hne Hv).
  - pose proof (cdist_sub c (home k) h i) as Hsub. rewrite Hjd in Hsub. specialize (Hsub ltac:(lia) Hhc Hi Hj).
    assert (cdist c h e < cdist c h i); [|lia].
    destruct (decide (h = i)) as [->|]; [lia|].
    clear Hjd Hsub Hs Hv. clearbody h. rewrite !cdist_cases in * by lia. repeat case_decide; lia.
  - rewrite <- cstep_cstep. fold h. by apply cstep_cdist.
Qed.

(** The move that passes [e] leaves every entry reachable. *)
Lemma phase_pass s p e r a k :
  p < c -> e < c -> r < c -> e <> p -> length s = c -> s !! e = Some a -> key_of a = Some k ->
  (forall i k, view s i = Some k -> good s i k \/ run s e i) -> good (<[e := empty]> s) r k ->
  sealed_at s e ->
  (forall i k j, view s i = Some k -> j < cdist c (home k) i -> view s (cstep c (home k) j) = None ->
    cdist c p (cstep c (home k) j) < cdist c p e) ->
  forall i k, view (move s e r a) i = Some k -> good (move s e r a) i k.
Proof.
  intros Hp He Hr Hep Hl Ha Hk HJ Hrg Hs Hh i k' Hi.
  assert (Hic : i < c) by (eapply view_lt; [|done]; by rewrite length_move).
  destruct (reinsert_good s e r a k i k') as [|Hrun]; [done..|].
  rewrite view_move in Hi by done. case_decide as Hir.
  { subst i. rewrite Hk in Hi. injection Hi as <-. intros j Hj. specialize (Hrg j Hj).
    rewrite view_move by done. case_decide; [by rewrite Hk|].
    case_decide as Hq'; [|by rewrite view_insert_ne in Hrg by done].
    rewrite Hq', view_insert, key_of_empty in Hrg by lia. by destruct Hrg. }
  case_decide as Hie; [done|]. intros j Hj.
  destruct (view (move s e r a) (cstep c (home k') j)) eqn:Ev; [by eexists|exfalso].
  pose proof (Hs i k' j Hie Hi Hj) as Hne. assert (Ev' := Ev). rewrite view_move in Ev by done.
  case_decide; [congruence|]. rewrite decide_False in Ev by done.
  pose proof (Hh i k' j Hi Hj Ev) as Hhe.
  pose proof (hole_before s p e i k' j Hp He Hic Hs Hie Hi Hj Hhe) as Hhi.
  pose proof (home_lt k'). set (h := cstep c (home k') j) in *. assert (Hhc : h < c) by (apply cstep_lt; lia).
  pose proof (cstep_lt c e 1 ltac:(lia)) as He1.
  destruct (Hrun (cdist c (cstep c e 1) h)) as [? Hx]; [|by rewrite cstep_cdist, Ev' in Hx by done].
  clear Hrun Ev Ev' Hne. clearbody h. destruct (decide (e + 1 < c)).
  - replace (cstep c e 1) with (e + 1) in * by (rewrite cstep_cases by lia; by rewrite decide_True).
    rewrite !cdist_cases in * by lia. repeat case_decide; lia.
  - replace (cstep c e 1) with 0 in * by (rewrite cstep_cases by lia; rewrite decide_False; lia).
    rewrite !cdist_cases in * by lia. repeat case_decide; lia.
Qed.

(** The move of the entry under the cursor before [e] is passed. *)
Lemma phase_keep s0 p e s q r a k :
  p < c -> e < c -> q < c -> r < c -> q <> e -> length s = c -> s !! q = Some a -> key_of a = Some k ->
  1 <= cdist c p q <= cdist c p e -> sealed_at s e ->
  (forall i k j, view s i = Some k -> j < cdist c (home k) i -> view s (cstep c (home k) j) = None ->
    cdist c p (cstep c (home k) j) < cdist c p q) ->
  from_ahead s0 p s ->
  (r = q \/ r <> q /\ view s r = None /\ cdist c (home k) r < cdist c (home k) q) ->
  del_phase s0 p e (move s q r a) (cstep c q 1).
Proof.
  intros Hp He Hq Hr Hqe Hl Ha Hk Hcur Hs Hh Ho Hrq.
  assert (Hvq : view s q = Some k) by (apply view_lookup; eauto).
  assert (Hlt : cdist c p q < cdist c p e).
  { destruct (decide (cdist c p q = cdist c p e)) as [Heq|]; [|lia]. by apply cdist_inj in Heq. }
  pose proof (cdist_lt c p e). pose proof (cdist_next c p q) as Hnext. pose proof (home_lt k).
  assert (Hrd : r = q \/ cdist c p r < cdist c p q).
  { destruct Hrq as [|(Hne & Hvr & Hlt')]; [by left|right].
    rewrite <- (cstep_cdist c (home k) r) by done. eapply Hh; [done|done|]. by rewrite cstep_cdist by done. }
  apply phase_before; [lia| | |by apply from_ahead_move].
  - intros i k' j Hie Hvi Hj. rewrite view_move in Hvi by done. case_decide as Hir.
    + rewrite Hk in Hvi. injection Hvi as <-. apply (Hs q k j Hqe Hvq). rewrite Hir in Hj.
      destruct Hrq as [->|(_ & _ & ?)]; lia.
    + case_decide; [done|]. by apply (Hs i k' j).
  - intros i k' j Hvi Hj Hx. rewrite view_move in Hvi, Hx by done.
    rewrite Hnext by lia. case_decide as Hxr; [congruence|]. case_decide as Hxq; [rewrite Hxq; lia|].
    case_decide as Hir.
    + rewrite Hk in Hvi. injection Hvi as <-. rewrite Hir in Hj.
      assert (cdist c p (cstep c (home k) j) < cdist c p q); [|lia].
      eapply Hh; [exact Hvq| |done]. destruct Hrq as [->|(_ & _ & ?)]; lia.
    + case_decide; [done|]. specialize (Hh i k' j Hvi Hj Hx). lia.
Qed.

Lemma del_phase_step m s0 p e s q : p < c -> e < c ->
  del_inv m (s, q) -> del_phase s0 p e s q ->
  match del_step (s, q) with
  | inl (s', q') => del_phase s0 p e s' q'
  | inr s' => from_ahead s0 p s'
  end.
Proof.
  intros Hp Hec [Hl Hq He Hu _ HJ] Hph. cbn [fst snd] in *. unfold del_step.
  assert (Ho : from_ahead s0 p s) by (by destruct Hph).
  destruct (s !! q) as [a|] eqn:Ha; [|done]. destruct (key_of a) as [k|] eqn:Hk; [|done].
  destruct (reinsert_facts s q a k) as (r & Hpr & Hr & Hg & Hrq); [done..|]. rewrite Hpr.
  change ((q + 1) mod c) with (cstep c q 1). fold (move s q r a).
  destruct Hph as [Hcur Hs Hh _|Hall _].
  - destruct (decide (q = e)) as [->|]; [|by eapply phase_keep].
    assert (e <> p) by (intros ->; rewrite cdist_cases in Hcur by lia; case_decide; lia).
    apply phase_after; [by apply (phase_pass s p e r a k)|].
    apply from_ahead_move; [done..|]. destruct Hrq as [->|(Hne & Hvr & Hlt)]; [by left|right].
    assert (Hvq : view s e = Some k) by (apply view_lookup; eauto). pose proof (home_lt k).
    rewrite <- (cstep_cdist c (home k) r) by done. eapply Hh; [done|done|]. by rewrite cstep_cdist by done.
  - assert (r = q) as ->.
    { destruct Hrq as [|(_ & Hvr & Hlt)]; [done|]. assert (Hvq : view s q = Some k) by (apply view_lookup; eauto).
      pose proof (home_lt k). destruct (Hall q k Hvq _ Hlt) as [? Hx]. rewrite cstep_cdist in Hx by done. congruence. }
    unfold move. rewrite list_insert_insert_eq, list_insert_id by done. by apply phase_after.
Qed.

Lemma del_phase_init s p e : table_inv s -> p < c -> e < c -> sealed_at s e ->
  del_phase s p e (<[p := empty]> s) (cstep c p 1).
Proof.
  intros [Hl Hg Hu _] Hp He Hs.
  assert (Hv : forall i k, view (<[p := empty]> s) i = Some k -> view s i = Some k /\ i <> p).
  { intros i k Hi. destruct (decide (i = p)) as [->|]; [rewrite view_insert in Hi by lia; congruence|].
    by rewrite view_insert_ne in Hi. }
  assert (Ho : from_ahead s p (<[p := empty]> s)).
  { intros i a Hi Hk. apply list_lookup_insert_Some in Hi as [(_ & <- & _)|[_ Hi]]; [|by eauto].
    rewrite key_of_empty in Hk. by destruct Hk. }
  destruct (decide (e = p)) as [->|Hne].
  - apply phase_after; [|done]. intros i k Hi j Hj. apply Hv in Hi as [Hi Hip].
    rewrite view_insert_ne; [by eapply Hg|]. intros Heq. by apply (Hs i k j Hip Hi Hj).
  - assert (Hd : 1 <= cdist c p e) by (rewrite cdist_cases by lia; case_decide; lia).
    pose proof (cdist_lt c p e). apply phase_before; [rewrite cdist_cstep by lia; lia| | |done].
    + intros i k j Hie Hi. apply Hv in Hi as [Hi _]. by apply Hs.
    + intros i k j Hvi Hj Hx. rewrite cdist_cstep by lia. apply Hv in Hvi as [Hvi _].
      destruct (decide (p = cstep c (home k) j)) as [<-|Hpx]; [rewrite cdist_cases by lia; case_decide; lia|].
      rewrite view_insert_ne in Hx by done. destruct (Hg _ _ Hvi j Hj). congruence.
Qed.

(** The rule for a deletion loop written over a larger state: if each iteration
    acts on the array ([proj]) as [del_step] does, the loop ends with a well
    formed table from which exactly the key of slot [p] is gone. *)
Lemma delete_loop {S R} (step : S -> S + R) (proj : S -> list A * nat) (rep : R -> list A)
    (I : S -> Prop) (J : R -> Prop) s p k st :
  table_inv s -> view s p = Some k -> proj st = (<[p := empty]> s, (p + 1) mod c) -> I st ->
  (forall st, I st -> del_inv (delete k (abs s)) (proj st) ->
    match del_step (proj st) with
    | inl pr => exists st', step st = inl st' /\ proj st' = pr /\ I st'
    | inr s' => exists r, step st = inr r /\ rep r = s' /\ J r
    end) ->
  exists r, while_pos step (del_fuel c) st = inr r /\ J r /\ table_inv (rep r) /\
    abs (rep r) = delete k (abs s) /\ from_ahead s p (rep r).
Proof.
  intros Hinv Hv Hpr HI Hstep. assert (Hp : p < c) by (destruct Hinv; by eapply view_lt).
  destruct (ti_sealed s Hinv) as (e & He & Hs).
  apply (while_pos_total _
    (fun st => I st /\ del_inv (delete k (abs s)) (proj st) /\ del_phase s p e (proj st).1 (proj st).2)
    (fun st => del_measure (proj st))).
  - intros st1 (HI1 & Hd & Hph). specialize (Hstep st1 HI1 Hd).
    destruct (proj st1) as [s1 q1] eqn:Hpr1. pose proof (del_inv_step _ _ _ Hd) as Hnext.
    pose proof (del_phase_step _ s p e s1 q1 Hp He Hd Hph) as Hph'.
    destruct (del_step (s1, q1)) as [[s2 q2]|s2].
    + destruct Hstep as (st' & -> & Hpr' & HI'). rewrite Hpr'. by destruct Hnext.
    + destruct Hstep as (r & -> & Hrep & HJ). rewrite Hrep. by destruct Hnext.
  - rewrite Hpr. split_and!; [done|by apply del_inv_init|by apply del_phase_init].
  - rewrite del_fuel_nat, Hpr. unfold del_measure. cbn [fst snd].
    pose proof (tdisp_le (<[p := empty]> s)) as Ht. rewrite length_insert in Ht.
    specialize (Ht (ti_length _ Hinv)).
    pose proof (runlen_le (<[p := empty]> s) c ((p + 1) mod c)). nia.
Qed.

(** *** Deletion that may drop entries

    The same loop when an iteration may also leave the entry of slot [q] out. *)
Definition del_drop (st : list A * nat) : list A * nat := (<[snd st := empty]> (fst st), (snd st + 1) mod c).

(** Taking an entry out: who reached past it is in the run behind it. *)
Lemma clear_good s q i k : length s = c -> q < c -> i <> q -> view s i = Some k ->
  good s i k \/ run s q i -> good (<[q := empty]> s) i k \/ run (<[q := empty]> s) (cstep c q 1) i.
Proof.
  intros Hl Hq Hne Hi HJ. assert (Hic : i < c) by (by eapply view_lt).
  assert (Hrun : run s q i -> run (<[q := empty]> s) (cstep c q 1) i).
  { apply run_step; [done..|]. intros x Hx ?. by rewrite view_insert_ne. }
  destruct HJ as [Hg|Hr]; [|by auto].
  destruct (decide (cdist c (home k) q < cdist c (home k) i)) as [Hlt|Hge];
    [right; apply Hrun; by apply (good_through_run s q i k)|].
  left. intros j Hj. specialize (Hg j Hj). destruct (decide (q = cstep c (home k) j)) as [->|]; [|by rewrite view_insert_ne].
  destruct Hge. rewrite cdist_cstep; [done|apply home_lt|]. pose proof (cdist_lt c (home k) i (c_pos k)). lia.
Qed.

Lemma runlen_clear s q k : length s = c -> q < c -> has_empty s -> view s q = Some k ->
  runlen (<[q := empty]> s) c (cstep c q 1) < runlen s c q.
Proof.
  intros Hl Hq He Hk. destruct (least_empty s q Hq He) as (m & Hm & Hv & Ho).
  destruct m as [|m]; [rewrite cstep_0 in Hv by done; congruence|].
  assert (Hne : forall j, 0 < j < c -> q <> cstep c q j).
  { intros j Hj Heq. pose proof (cdist_cstep c q j Hq ltac:(lia)) as Hd. rewrite <- Heq, cdist_cases in Hd by lia. case_decide; lia. }
  rewrite (runlen_eq s c (S m) q) by (done || lia).
  rewrite (runlen_eq _ c m); [lia|apply cstep_lt; lia|lia|intros; rewrite cstep_cstep, view_insert_ne by (apply Hne; lia); done|].
  intros j Hj. rewrite cstep_cstep, view_insert_ne by (apply Hne; lia). apply Ho. lia.
Qed.

Lemma del_drop_spec m s q a k : del_inv m (s, q) -> s !! q = Some a -> key_of a = Some k ->
  del_inv (delete k m) (del_drop (s, q)) /\ del_measure (del_drop (s, q)) < del_measure (s, q).
Proof.
  intros [Hl Hq He Hu Habs HJ] Ha Hk. unfold del_drop. cbn [fst snd] in *. assert (Hv : view s q = Some k) by (apply view_lookup; eauto).
  change ((q + 1) mod c) with (cstep c q 1). split.
  - split; cbn [fst snd]; [by rewrite length_insert|apply cstep_lt; lia| |by apply uniq_clear|by rewrite (abs_clear s q k), Habs|].
    + exists q. split; [done|]. rewrite view_insert by lia. done.
    + intros i k' Hi. destruct (decide (i = q)) as [->|Hne]; [rewrite view_insert in Hi by lia; congruence|].
      rewrite view_insert_ne in Hi by done. apply clear_good; [done..|by apply HJ].
  - unfold del_measure. cbn [fst snd]. pose proof (runlen_clear s q k Hl Hq He Hv).
    pose proof (tdisp_insert s q a empty Ha) as Ht. unfold slot_disp at 2 in Ht. rewrite key_of_empty in Ht. nia.
Qed.

Lemma delete_loop_drop {S R} (step : S -> S + R) (proj : S -> list A * nat) (rep : R -> list A)
    (I : S -> Prop) (J : R -> Prop) s p k st :
  table_inv s -> view s p = Some k -> proj st = (<[p := empty]> s, (p + 1) mod c) -> I st ->
  (forall m st, I st -> del_inv m (proj st) ->
    match del_step (proj st) with
    | inl pr => exists st', step st = inl st' /\ (proj st' = pr \/ proj st' = del_drop (proj st)) /\ I st'
    | inr s' => exists r, step st = inr r /\ rep r = s' /\ J r
    end) ->
  exists r, while_pos step (del_fuel c) st = inr r /\ J r /\ table_inv (rep r) /\ abs (rep r) ⊆ delete k (abs s).
Proof.
  intros Hinv Hv Hpr HI Hstep. assert (Hp : p < c) by (destruct Hinv; by eapply view_lt).
  apply (while_pos_total _ (fun st => I st /\ exists m, m ⊆ delete k (abs s) /\ del_inv m (proj st)) (fun st => del_measure (proj st))).
  - intros st1 (HI1 & m & Hm & Hd). specialize (Hstep m st1 HI1 Hd).
    destruct (proj st1) as [s1 q1] eqn:Hpr1. pose proof (del_inv_step _ _ _ Hd) as Hnext.
    destruct (del_step (s1, q1)) as [pr|s2] eqn:Eds.
    + destruct Hstep as (st' & -> & [Hpr'|Hpr'] & HI'); rewrite Hpr'.
      * destruct Hnext as [Hd' Hlt]. split; [|done]. split; [done|]. by exists m.
      * unfold del_step in Eds. destruct (s1 !! q1) as [a|] eqn:Ea; [|done]. destruct (key_of a) as [k1|] eqn:Ek; [|done].
        destruct (del_drop_spec m s1 q1 a k1 Hd Ea Ek) as [Hd' Hlt]. split; [|done]. split; [done|].
        exists (delete k1 m). split; [|done]. etrans; [apply delete_subseteq|done].
    + destruct Hstep as (r & -> & <- & HJ). destruct Hnext as [? ->]. by split_and!.
  - rewrite Hpr. split; [done|]. exists (delete k (abs s)). split; [done|by apply del_inv_init].
  - rewrite del_fuel_nat, Hpr. unfold del_measure. cbn [fst snd].
    pose proof (tdisp_le (<[p := empty]> s)) as Ht. rewrite length_insert in Ht.
    specialize (Ht (ti_length _ Hinv)).
    pose proof (runlen_le (<[p := empty]> s) c ((p + 1) mod c)). nia.
Qed.

(** An ascending sweep that deletes at [p] keeps what it knows of the slots below [p]. *)
Lemma from_ahead_below s p s' (Q : A -> Prop) :
  p < c -> from_ahead s p s' -> length s = c -> length s' = c ->
  (forall i a, i < p -> s !! i = Some a -> is_Some (key_of a) -> Q a) ->
  forall i a, i < p -> s' !! i = Some a -> is_Some (key_of a) -> Q a.
Proof using Type.
  intros Hp Ho Hl Hl' HQ i a Hi Ha Hk. destruct (Ho i a Ha Hk) as (i0 & Ha0 & Hd).
  apply (HQ i0 a); [|done..]. apply lookup_lt_Some in Ha0.
  rewrite !cdist_cases in Hd by lia. repeat case_decide; lia.
Qed.

(** A table of empty slots. *)
Lemma table_inv_empty : 0 < c -> table_inv (replicate c empty) /\ abs (replicate c empty) = ∅.
Proof.
  intros Hc. assert (Hv : forall i k, view (replicate c empty) i <> Some k).
  { intros i k Hi. apply view_lookup in Hi as (a & Ha & Hk). apply lookup_replicate in Ha as [-> _]. congruence. }
  assert (Hi : table_inv (replicate c empty)).
  { split; [apply length_replicate|intros i k Hi; by destruct (Hv i k)|intros i j k Hi; by destruct (Hv i k)|].
    exists 0. split; [done|]. intros i k j _ Hi. by destruct (Hv i k). }
  split; [done|]. apply map_eq. intros k. rewrite lookup_empty. apply abs_lookup_view; [by destruct Hi|].
  intros i. apply Hv.
Qed.
End probe.

(** ** Changing how keys are read

    An index whose entries refer to another array reads its keys through that
    array; an update of the array that no entry refers to changes nothing. *)
Section ext.
Context {A K : Type} `{Countable K}.
Context (key_of key_of' : A -> option K) (c : nat) (home : K -> nat) (s : list A).
Hypothesis same_keys : forall i a, s !! i = Some a -> key_of a = key_of' a.

Lemma view_ext i : view key_of s i = view key_of' s i.
Proof. unfold view. destruct (s !! i) eqn:E; [|done]. by apply (same_keys i). Qed.

Lemma table_inv_ext : table_inv key_of c home s -> table_inv key_of' c home s.
Proof.
  intros [Hl Hg Hu (e & He & Hs)]. unfold good, sealed_at in *.
  split; [done|intros i k; rewrite <- view_ext; intros ? j ?; rewrite <- view_ext; by eapply Hg
    |intros i j k; rewrite <- !view_ext; apply Hu|].
  exists e. split; [done|]. intros i k j. rewrite <- view_ext. apply Hs.
Qed.

Lemma abs_ext : abs key_of s = abs key_of' s.
Proof.
  unfold abs. f_equal. revert same_keys. clear. induction s as [|a l IH]; intros Hs; cbn; [done|].
  rewrite (Hs 0 a) by done. rewrite IH; [done|]. intros i b Hb. by apply (Hs (S i)).
Qed.

Lemma probe_ext k : probe key_of c home s k = probe key_of' c home s k.
Proof. apply walk_ext. intros i. unfold probe_body. by rewrite view_ext. Qed.
End ext.
