(* ===== verification/SessionKey.v ===== *)
(** * Socket addresses and session keys

    [struct sockaddr_storage] as the code uses it, and the keys of
    [src/session_table.c]: their construction, validity, comparison and
    serialization for hashing. [key_view] is what the comparison sees; two keys
    with the same view are interchangeable in every table operation. *)

From stdpp Require Import gmap.
From S2P Require Import Prelude Hash.
#[local] Open Scope Z_scope.

(** ** Socket addresses *)

(** [sizeof(struct sockaddr_storage)] and the address families (Linux). *)
Definition SOCKADDR_SIZE : Z := 128.
Definition AF_INET : Z := 2.
Definition AF_INET6 : Z := 10.

(** [ss_family], the first two bytes (little-endian host). *)
Definition ss_family (a : list Z) : Z := byte_at a 0 + 256 * byte_at a 1.

Definition ip_family (a : list Z) : bool := (ss_family a =? AF_INET) || (ss_family a =? AF_INET6).

(** 192.0.2.[host]:443 as a [sockaddr_storage]. *)
Definition demo_addr (host : Z) : list Z := memcpy_at (zeros SOCKADDR_SIZE) 0 [2; 0; 1; 187; 192; 0; 2; host].

(** [backend_valid] of session_table.c; [client_valid] of flow_table.c is the same test. *)
Definition backend_valid (addr : list Z) (addr_len : Z) : bool :=
  if (addr_len =? 0) || (SOCKADDR_SIZE <? addr_len) then false else ip_family addr.

(** ** Keys *)

Record qsr_session_key := {
  k_dcid_len : Z;
  k_scid_len : Z;
  k_client_addr : list Z;
  k_client_addr_len : Z;
  k_has_tuple : bool;
  k_has_cids : bool;
  k_dcid : list Z;
  k_scid : list Z;
}.

(** [(qsr_session_key_t){0}] *)
Definition session_key0 : qsr_session_key := {|
  k_dcid_len := 0; k_scid_len := 0;
  k_client_addr := zeros SOCKADDR_SIZE; k_client_addr_len := 0;
  k_has_tuple := false; k_has_cids := false;
  k_dcid := zeros QSR_MAX_QUIC_CID_LEN; k_scid := zeros QSR_MAX_QUIC_CID_LEN;
|}.

Definition key_valid (key : qsr_session_key) : bool :=
  if (negb (k_has_tuple key) && negb (k_has_cids key)) ||
     (QSR_MAX_QUIC_CID_LEN <? k_dcid_len key) || (QSR_MAX_QUIC_CID_LEN <? k_scid_len key) then false
  else if k_has_tuple key &&
     ((k_client_addr_len key =? 0) || (SOCKADDR_SIZE <? k_client_addr_len key) ||
      negb (ip_family (k_client_addr key))) then false
  else negb (k_has_cids key) || (0 <? k_dcid_len key) || (0 <? k_scid_len key).

(** [memcpy(buf + n, src, len)]: the [len] bytes it appends. *)
Definition field (src : list Z) (len : Z) : list Z := take (Z.to_nat len) src.

(** The buffer [key_hash] builds: [buf[0 .. n-1]]. *)
Definition key_bytes (key : qsr_session_key) : list Z :=
  [if k_has_tuple key then 1 else 0; if k_has_cids key then 1 else 0] ++
  (if k_has_tuple key then u8 (k_client_addr_len key) :: field (k_client_addr key) (k_client_addr_len key)
   else []) ++
  (if k_has_cids key then
     (u8 (k_dcid_len key) :: field (k_dcid key) (k_dcid_len key)) ++
     (u8 (k_scid_len key) :: field (k_scid key) (k_scid_len key))
   else []).

Definition key_hash `{KeyedHash} (key : qsr_session_key) (capacity : nat) : nat :=
  hash_slot (key_bytes key) capacity.

Definition key_equals (a b : qsr_session_key) : bool :=
  if negb (eqb (k_has_tuple a) (k_has_tuple b)) || negb (eqb (k_has_cids a) (k_has_cids b)) ||
     negb (k_client_addr_len a =? k_client_addr_len b) || negb (k_dcid_len a =? k_dcid_len b) ||
     negb (k_scid_len a =? k_scid_len b) then false
  else if k_has_tuple a && negb (mem_eq (k_client_addr a) (k_client_addr b) (k_client_addr_len a)) then false
  else if k_has_cids a &&
     (negb (mem_eq (k_dcid a) (k_dcid b) (k_dcid_len a)) || negb (mem_eq (k_scid a) (k_scid b) (k_scid_len a)))
    then false
  else true.

(** [addr] is [None] for a null pointer, otherwise a [sockaddr_storage]. *)
Definition qsr_session_tuple_key (addr : option (list Z)) (addr_len : Z) : qsr_session_key :=
  match addr with
  | Some a =>
      if addr_len <=? SOCKADDR_SIZE then {|
        k_dcid_len := 0; k_scid_len := 0;
        k_client_addr := memcpy_at (zeros SOCKADDR_SIZE) 0 (field a addr_len);
        k_client_addr_len := addr_len;
        k_has_tuple := true; k_has_cids := false;
        k_dcid := zeros QSR_MAX_QUIC_CID_LEN; k_scid := zeros QSR_MAX_QUIC_CID_LEN |}
      else session_key0
  | None => session_key0
  end.

Definition is_none_ptr {A} (p : option A) : bool := if p is None then true else false.

Definition qsr_session_cid_key (dcid : option (list Z)) (dcid_len : Z) (scid : option (list Z)) (scid_len : Z) :
    qsr_session_key :=
  if (dcid_len <=? QSR_MAX_QUIC_CID_LEN) && (scid_len <=? QSR_MAX_QUIC_CID_LEN) &&
     ((0 <? dcid_len) || (0 <? scid_len)) &&
     ((dcid_len =? 0) || negb (is_none_ptr dcid)) && ((scid_len =? 0) || negb (is_none_ptr scid))
  then {|
    k_dcid_len := dcid_len; k_scid_len := scid_len;
    k_client_addr := zeros SOCKADDR_SIZE; k_client_addr_len := 0;
    k_has_tuple := false; k_has_cids := true;
    k_dcid := if 0 <? dcid_len then memcpy_at (zeros QSR_MAX_QUIC_CID_LEN) 0 (field (default [] dcid) dcid_len)
              else zeros QSR_MAX_QUIC_CID_LEN;
    k_scid := if 0 <? scid_len then memcpy_at (zeros QSR_MAX_QUIC_CID_LEN) 0 (field (default [] scid) scid_len)
              else zeros QSR_MAX_QUIC_CID_LEN |}
  else session_key0.

Definition qsr_session_single_cid_key (cid : list Z) (cid_len : Z) : qsr_session_key :=
  if cid_len <? QSR_MIN_LEARNED_CID_LEN then session_key0
  else qsr_session_cid_key (Some cid) cid_len None 0.

(** ** What the comparison sees *)

(** Flags, lengths and the bytes that are compared; equality of views is [key_equals]. *)
Abbreviation key_view_t := (bool * bool * Z * Z * Z * list Z * list Z * list Z)%type.

Definition key_view (key : qsr_session_key) : key_view_t :=
  (k_has_tuple key, k_has_cids key, k_client_addr_len key, k_dcid_len key, k_scid_len key,
   if k_has_tuple key then field (k_client_addr key) (k_client_addr_len key) else [],
   if k_has_cids key then field (k_dcid key) (k_dcid_len key) else [],
   if k_has_cids key then field (k_scid key) (k_scid_len key) else []).

(** The serialization as a function of the view. *)
Definition view_bytes (v : key_view_t) : list Z :=
  let '(has_tuple, has_cids, addr_len, dcid_len, scid_len, addr, dcid, scid) := v in
  [if has_tuple then 1 else 0; if has_cids then 1 else 0] ++
  (if has_tuple then u8 addr_len :: addr else []) ++
  (if has_cids then (u8 dcid_len :: dcid) ++ (u8 scid_len :: scid) else []).

Definition key_equiv (a b : qsr_session_key) : Prop := key_view a = key_view b.

#[export] Instance key_equiv_equivalence : Equivalence key_equiv.
Proof. unfold key_equiv. split; red; congruence. Qed.

Lemma key_bytes_view key : key_bytes key = view_bytes (key_view key).
Proof. unfold key_bytes, view_bytes, key_view. destruct (k_has_tuple key), (k_has_cids key); done. Qed.

#[export] Instance key_bytes_proper : Proper (key_equiv ==> eq) key_bytes.
Proof. intros a b Hab. rewrite !key_bytes_view. by rewrite Hab. Qed.

#[export] Instance key_hash_proper `{KeyedHash} : Proper (key_equiv ==> eq ==> eq) key_hash.
Proof. intros a b Hab c ? <-. unfold key_hash. by rewrite Hab. Qed.

Lemma key_equals_view a b : key_equals a b = true <-> key_view a = key_view b.
Proof.
  unfold key_equals, key_view, mem_eq, field. split.
  - destruct (k_has_tuple a), (k_has_tuple b), (k_has_cids a), (k_has_cids b); cbn [eqb negb orb andb]; try done;
      repeat (match goal with |- context [?x =? ?y] => destruct (Z.eqb_spec x y) end; cbn [negb orb andb]; try done);
      repeat (case_bool_decide; cbn [negb orb andb]; try done); congruence.
  - intros [= Ht Hc Ha Hd Hs Hfa Hfd Hfs]. rewrite <- ?Ht, <- ?Hc, <- ?Ha, <- ?Hd, <- ?Hs in *.
    rewrite !eqb_reflx, !Z.eqb_refl. cbn.
    destruct (k_has_tuple a), (k_has_cids a); cbn; rewrite ?bool_decide_true by done; done.
Qed.

Lemma field_all l : field l (Zlen l) = l.
Proof. unfold field, Zlen. apply take_ge. lia. Qed.

Lemma field_memcpy dst src n : 0 <= n <= Zlen src -> field (memcpy_at dst 0 (field src n)) n = field src n.
Proof.
  unfold memcpy_at, field, Zlen. intros. rewrite take_0, app_nil_l, take_app_le by (rewrite length_take; lia).
  rewrite take_take. f_equal. lia.
Qed.

(** ** Well-formed keys *)

(** What the three constructors produce: lengths of absent parts are zero and
    the arrays have their declared sizes. *)
Record key_canonical (k : qsr_session_key) : Prop := {
  kc_nonneg : 0 <= k_client_addr_len k /\ 0 <= k_dcid_len k /\ 0 <= k_scid_len k;
  kc_addr : Zlen (k_client_addr k) = SOCKADDR_SIZE;
  kc_dcid : Zlen (k_dcid k) = QSR_MAX_QUIC_CID_LEN;
  kc_scid : Zlen (k_scid k) = QSR_MAX_QUIC_CID_LEN;
  kc_no_tuple : k_has_tuple k = false -> k_client_addr_len k = 0;
  kc_no_cids : k_has_cids k = false -> k_dcid_len k = 0 /\ k_scid_len k = 0;
}.

Lemma Zlen_field l n : 0 <= n <= Zlen l -> Zlen (field l n) = n.
Proof. unfold field, Zlen. intros. rewrite length_take. lia. Qed.

Lemma Zlen_memcpy_field dst src n : 0 <= n <= Zlen dst -> n <= Zlen src ->
  Zlen (memcpy_at dst 0 (field src n)) = Zlen dst.
Proof.
  intros Hd Hs. unfold memcpy_at, Zlen in *. rewrite take_0, app_nil_l, length_app, length_drop.
  unfold field. rewrite length_take. lia.
Qed.

Lemma key_valid_lens k : key_valid k = true ->
  k_dcid_len k <= 20 /\ k_scid_len k <= 20 /\ (k_has_tuple k = true -> k_client_addr_len k <= 128).
Proof.
  unfold key_valid, QSR_MAX_QUIC_CID_LEN, SOCKADDR_SIZE. intros Hv. repeat split_if; try done; bool_to_prop.
  all: repeat match goal with H : _ \/ _ |- _ => destruct H end; bool_to_prop;
    split_and!; try lia; intros; congruence.
Qed.

(** A length byte followed by that many bytes splits uniquely. *)
Lemma prefixed_inj n1 n2 l1 l2 r1 r2 :
  0 <= n1 < 256 -> 0 <= n2 < 256 -> Zlen l1 = n1 -> Zlen l2 = n2 ->
  (u8 n1 :: l1) ++ r1 = (u8 n2 :: l2) ++ r2 -> n1 = n2 /\ l1 = l2 /\ r1 = r2.
Proof.
  intros H1 H2 Hl1 Hl2 [= Hn Hl]. rewrite !wrap_small in Hn by (cbn; lia). split; [done|].
  apply app_inj_1 in Hl; [done|]. unfold Zlen in *. lia.
Qed.

Lemma key_fields_len k : key_valid k = true -> key_canonical k ->
  (k_has_tuple k = true -> 0 <= k_client_addr_len k <= 128 /\ Zlen (field (k_client_addr k) (k_client_addr_len k)) = k_client_addr_len k) /\
  0 <= k_dcid_len k <= 20 /\ Zlen (field (k_dcid k) (k_dcid_len k)) = k_dcid_len k /\
  0 <= k_scid_len k <= 20 /\ Zlen (field (k_scid k) (k_scid_len k)) = k_scid_len k.
Proof.
  intros Hv [(? & ? & ?) Ha Hd Hs _ _]. apply key_valid_lens in Hv as (? & ? & Ht).
  unfold SOCKADDR_SIZE, QSR_MAX_QUIC_CID_LEN in *.
  split_and!; try lia; try (intros Hb; specialize (Ht Hb); split; [lia|]); apply Zlen_field; lia.
Qed.

Lemma session_key0_invalid : key_valid session_key0 = false.
Proof. done. Qed.

Lemma cid_key_canonical dcid dcid_len scid scid_len :
  0 <= dcid_len -> 0 <= scid_len ->
  (0 < dcid_len -> dcid_len <= Zlen (default [] dcid)) -> (0 < scid_len -> scid_len <= Zlen (default [] scid)) ->
  key_canonical (qsr_session_cid_key dcid dcid_len scid scid_len).
Proof.
  intros. unfold qsr_session_cid_key. destruct (_ && _) eqn:E; [|by split].
  bool_to_prop. unfold QSR_MAX_QUIC_CID_LEN in *.
  split; cbn; try done; repeat split_if; bool_to_prop; try done; rewrite ?Zlen_memcpy_field; try done; lia.
Qed.

Lemma tuple_key_canonical a n : 0 <= n -> n <= Zlen a -> key_canonical (qsr_session_tuple_key (Some a) n).
Proof.
  intros. cbn. destruct (n <=? SOCKADDR_SIZE) eqn:E; [|by split]. bool_to_prop. unfold SOCKADDR_SIZE in *.
  split; cbn; try done. rewrite Zlen_memcpy_field; done.
Qed.

(** ** Properties *)

(** The buffer that [key_hash] fills fits its 192 bytes, and the
    length-prefixed serialization is injective on valid keys: two keys hash the
    same bytes exactly when [key_equals] says they are equal. *)
Theorem key_bytes_injective a b :
  key_canonical a -> key_canonical b -> key_valid a = true -> key_valid b = true ->
  Zlen (key_bytes a) <= 192 /\ (key_bytes a = key_bytes b <-> key_equals a b = true).
Proof.
  intros Ca Cb Va Vb.
  destruct (key_fields_len a Va Ca) as (Hta & Hda & Hfda & Hsa & Hfsa).
  destruct (key_fields_len b Vb Cb) as (Htb & Hdb & Hfdb & Hsb & Hfsb). split.
  - unfold key_bytes. unfold Zlen in *. rewrite !length_app.
    destruct (k_has_tuple a), (k_has_cids a); rewrite ?length_app; cbn [length];
      try specialize (Hta eq_refl); lia.
  - rewrite key_equals_view, !key_bytes_view. split; [|congruence].
    destruct Ca as [_ _ _ _ Hnta Hnca], Cb as [_ _ _ _ Hntb Hncb].
    unfold view_bytes, key_view. cbv beta iota zeta.
    intros Heq. injection Heq as H1 H2 Heq.
    destruct (k_has_tuple a), (k_has_tuple b); try done; destruct (k_has_cids a), (k_has_cids b); try done;
      repeat match goal with H : true = true -> _ |- _ => specialize (H eq_refl); destruct H as [? H]
        | H : false = false -> _ |- _ => specialize (H eq_refl) end;
      try (apply prefixed_inj in Heq as (-> & -> & Heq); [|lia|lia|done|done]);
      repeat match goal with H : _ /\ _ |- _ => destruct H end;
      try (apply prefixed_inj in Heq as (-> & -> & Heq); [|lia|lia|done|done]);
      try (rewrite <- (app_nil_r (u8 (k_scid_len a) :: _)), <- (app_nil_r (u8 (k_scid_len b) :: _)) in Heq;
        apply prefixed_inj in Heq as (-> & -> & _); [|lia|lia|done|done]); congruence.
Qed.

Example key_bytes_injective_witness :
  let a := qsr_session_cid_key (Some [1; 2; 3]) 3 (Some [4]) 1 in
  let b := qsr_session_cid_key (Some [1; 2]) 2 (Some [3; 4]) 2 in
  Zlen (key_bytes a) <= 192 /\ key_bytes a <> key_bytes b.
Proof.
  intros a b. destruct (key_bytes_injective a b) as [Hl Hi];
    [apply cid_key_canonical; unfold Zlen; cbn; lia|apply cid_key_canonical; unfold Zlen; cbn; lia|reflexivity|reflexivity|].
  split; [exact Hl|]. intros He. apply Hi in He. discriminate He.
Defined.

(** A connection ID as the key of a learned alias. *)
Lemma single_cid_key_view cid : QSR_MIN_LEARNED_CID_LEN <= Zlen cid <= QSR_MAX_QUIC_CID_LEN ->
  key_view (qsr_session_single_cid_key cid (Zlen cid)) = (false, true, 0, Zlen cid, 0, [], cid, []).
Proof.
  unfold QSR_MIN_LEARNED_CID_LEN, QSR_MAX_QUIC_CID_LEN. intros Hl. unfold qsr_session_single_cid_key.
  unfold QSR_MIN_LEARNED_CID_LEN. rewrite (proj2 (Z.ltb_ge _ _)) by lia. unfold qsr_session_cid_key, QSR_MAX_QUIC_CID_LEN.
  rewrite (proj2 (Z.leb_le (Zlen cid) 20)), (proj2 (Z.ltb_lt 0 (Zlen cid))) by lia.
  cbn [is_none_ptr negb Z.leb Z.ltb Z.eqb Z.compare andb orb]. rewrite orb_true_r. cbn [andb].
  unfold key_view. cbn [k_has_tuple k_has_cids k_client_addr_len k_dcid_len k_scid_len k_dcid k_scid default].
  change (id cid) with cid. by rewrite field_memcpy, field_all by lia.
Qed.

(** Single-CID aliases: a connection ID gives a usable key exactly when it
    has 8 to 20 bytes (shorter ones would let short-header packets match by
    chance), and two such keys are equal exactly when the connection IDs are. *)
Theorem single_cid_key_spec cid cid' :
  (key_valid (qsr_session_single_cid_key cid (Zlen cid)) = true <->
    QSR_MIN_LEARNED_CID_LEN <= Zlen cid <= QSR_MAX_QUIC_CID_LEN) /\
  (QSR_MIN_LEARNED_CID_LEN <= Zlen cid <= QSR_MAX_QUIC_CID_LEN ->
   QSR_MIN_LEARNED_CID_LEN <= Zlen cid' <= QSR_MAX_QUIC_CID_LEN ->
   key_equals (qsr_session_single_cid_key cid (Zlen cid)) (qsr_session_single_cid_key cid' (Zlen cid')) = true <->
   cid = cid').
Proof.
  split; [split|].
  - unfold qsr_session_single_cid_key, qsr_session_cid_key. repeat split_if; bool_to_prop; done.
  - intros Hl. pose proof (single_cid_key_view cid Hl) as Hv. unfold QSR_MIN_LEARNED_CID_LEN, QSR_MAX_QUIC_CID_LEN in *.
    unfold key_view in Hv. unfold key_valid, QSR_MAX_QUIC_CID_LEN. injection Hv as -> -> -> -> -> _ _ _. cbn.
    rewrite (proj2 (Z.ltb_ge 20 _)) by lia. cbn. by rewrite (proj2 (Z.ltb_lt 0 _)) by lia.
  - intros H1 H2. rewrite key_equals_view, !single_cid_key_view by done. split; congruence.
Qed.

Example single_cid_key_spec_witness :
  let cid := map Z.of_nat (seq 1 8) in
  key_equals (qsr_session_single_cid_key cid (Zlen cid)) (qsr_session_single_cid_key cid (Zlen cid)) = true.
Proof.
  intros cid. apply (single_cid_key_spec cid cid); [vm_compute; split; discriminate..|reflexivity].
Defined.
