(* ===== verification/SessionTable.v ===== *)
(** * The session table

    [src/session_table.c]: a bounded open-addressed table from session keys to
    backend addresses. [put] walks once and updates or inserts; a full or
    pressured table evicts the oldest entry of a scan window; deletion
    reinserts the following cluster through [put] itself; sweeps expire idle
    entries and retire the connection-ID lengths no entry has any more.

    The table refines a finite map from key views to sessions ([contents]). *)

From stdpp Require Import gmap.
From S2P Require Import Prelude Hash SessionKey Probe.
#[local] Open Scope Z_scope.

(** ** Data *)

Record qsr_session := {
  s_used : bool;
  s_key : qsr_session_key;
  s_backend_addr : list Z;
  s_backend_addr_len : Z;
  s_last_seen : Z;
  s_owner_slot : Z;
  s_owner_flow_id : Z;
}.

(** A zero-filled slot ([calloc], [memset]). *)
Definition session0 : qsr_session := {|
  s_used := false; s_key := session_key0;
  s_backend_addr := zeros SOCKADDR_SIZE; s_backend_addr_len := 0;
  s_last_seen := 0; s_owner_slot := 0; s_owner_flow_id := 0;
|}.

(** [sessions = []] stands for a null array (a freed table). *)
Record qsr_session_table := {
  t_sessions : list qsr_session;
  t_capacity : nat;
  t_count : Z;
  t_expire_cursor : nat;
  t_evict_cursor : nat;
  t_cid_len_mask : Z;
  t_cid_len_mask_pending : Z;
}.

Definition QSR_EVICT_SCAN_BUDGET : Z := 4096.
Definition QSR_PRESSURE_EVICT_MIN_CAPACITY : Z := 1024.
Definition QSR_PRESSURE_EVICT_LOAD_PERCENT : Z := 90.

(** [sizeof(qsr_session_t)], which bounds the capacities [calloc] can grant. *)
Definition SESSION_SIZE : Z := 360.

(** Assignments to single fields of [*table]. *)
Definition set_sessions (t : qsr_session_table) (s : list qsr_session) : qsr_session_table := {|
  t_sessions := s; t_capacity := t_capacity t; t_count := t_count t; t_expire_cursor := t_expire_cursor t;
  t_evict_cursor := t_evict_cursor t; t_cid_len_mask := t_cid_len_mask t;
  t_cid_len_mask_pending := t_cid_len_mask_pending t |}.
Definition set_count (t : qsr_session_table) (n : Z) : qsr_session_table := {|
  t_sessions := t_sessions t; t_capacity := t_capacity t; t_count := n; t_expire_cursor := t_expire_cursor t;
  t_evict_cursor := t_evict_cursor t; t_cid_len_mask := t_cid_len_mask t;
  t_cid_len_mask_pending := t_cid_len_mask_pending t |}.
Definition set_expire_cursor (t : qsr_session_table) (n : nat) : qsr_session_table := {|
  t_sessions := t_sessions t; t_capacity := t_capacity t; t_count := t_count t; t_expire_cursor := n;
  t_evict_cursor := t_evict_cursor t; t_cid_len_mask := t_cid_len_mask t;
  t_cid_len_mask_pending := t_cid_len_mask_pending t |}.
Definition set_evict_cursor (t : qsr_session_table) (n : nat) : qsr_session_table := {|
  t_sessions := t_sessions t; t_capacity := t_capacity t; t_count := t_count t;
  t_expire_cursor := t_expire_cursor t; t_evict_cursor := n; t_cid_len_mask := t_cid_len_mask t;
  t_cid_len_mask_pending := t_cid_len_mask_pending t |}.
Definition set_masks (t : qsr_session_table) (mask pending : Z) : qsr_session_table := {|
  t_sessions := t_sessions t; t_capacity := t_capacity t; t_count := t_count t;
  t_expire_cursor := t_expire_cursor t; t_evict_cursor := t_evict_cursor t; t_cid_len_mask := mask;
  t_cid_len_mask_pending := pending |}.

(** [calloc] succeeds at the environment's discretion. *)
Definition qsr_session_table_init (calloc : Z -> Z -> bool) (capacity : nat) : qsr_session_table + qsr_status :=
  if (capacity =? 0)%nat then inr QSR_ERR_INVALID
  else if calloc (Z.of_nat capacity) SESSION_SIZE then inl {|
    t_sessions := replicate capacity session0; t_capacity := capacity; t_count := 0;
    t_expire_cursor := 0; t_evict_cursor := 0; t_cid_len_mask := 0; t_cid_len_mask_pending := 0 |}
  else inr QSR_ERR_FULL.

Definition qsr_session_table_free (t : qsr_session_table) : qsr_session_table := {|
  t_sessions := []; t_capacity := 0; t_count := 0; t_expire_cursor := 0; t_evict_cursor := 0;
  t_cid_len_mask := 0; t_cid_len_mask_pending := 0 |}.

Definition qsr_session_table_cid_len_mask (t : qsr_session_table) : Z := t_cid_len_mask t.

(** [dcid_len >= QSR_MIN_LEARNED_CID_LEN && dcid_len <= QSR_MAX_QUIC_CID_LEN] with [has_cids]:
    the entries whose length the mask records. *)
Definition mask_entry (k : qsr_session_key) : bool :=
  k_has_cids k && (QSR_MIN_LEARNED_CID_LEN <=? k_dcid_len k) && (k_dcid_len k <=? QSR_MAX_QUIC_CID_LEN).

(** [mask | 1U << key->dcid_len] *)
Definition mask_add (mask : Z) (k : qsr_session_key) : Z :=
  if mask_entry k then Z.lor mask (u32 (Z.shiftl 1 (k_dcid_len k))) else mask.

Section table.
Context `{KeyedHash}.

(** ** Lookup and the probe walk of [put]

    One probe: an empty slot, a slot with an equal key, or go on. *)
Definition session_probe (t : qsr_session_table) (key : qsr_session_key) : option (nat * bool) :=
  walk (t_capacity t)
    (fun index =>
      match t_sessions t !! index with
      | None => Some (index, false)
      | Some session =>
          if negb (s_used session) then Some (index, false)
          else if key_equals (s_key session) key then Some (index, true)
          else None
      end)
    (t_capacity t) (key_hash key (t_capacity t)).

(** The slot of the entry found, or null. *)
Definition qsr_session_table_get (t : qsr_session_table) (key : qsr_session_key) : option nat :=
  if (length (t_sessions t) =? 0)%nat || (t_capacity t =? 0)%nat || negb (key_valid key) then None
  else match session_probe t key with Some (i, true) => Some i | _ => None end.

(** The [backend_addr] argument of [put]: a caller's own [sockaddr_storage], or
    a pointer to the [backend_addr] field of a slot of this table, which is read
    when the code reads it. *)
Inductive addr_arg := AddrVal (a : list Z) | AddrSlot (i : nat).

Definition read_addr (t : qsr_session_table) (p : addr_arg) : list Z :=
  match p with
  | AddrVal a => a
  | AddrSlot i => default [] (s_backend_addr <$> t_sessions t !! i)
  end.

Definition pressure_evict_needed (t : qsr_session_table) : bool :=
  (QSR_PRESSURE_EVICT_MIN_CAPACITY <=? Z.of_nat (t_capacity t)) &&
  (u64 (Z.of_nat (t_capacity t) * QSR_PRESSURE_EVICT_LOAD_PERCENT) <=? u64 (t_count t * 100)).

(** The scan of [evict_oldest]: the used slot with the least [last_seen] among
    [scans] slots from the cursor, the first of equals. *)
Definition oldest_in (t : qsr_session_table) (scans : nat) : option (nat * Z) :=
  scan_oldest (t_sessions t) s_used s_last_seen (fun i => ((t_evict_cursor t + i) mod t_capacity t)%nat) scans.

Definition evict_scans (t : qsr_session_table) : nat :=
  if Z.of_nat (t_capacity t) <? QSR_EVICT_SCAN_BUDGET then t_capacity t else Z.to_nat QSR_EVICT_SCAN_BUDGET.

(** ** Update, insertion, deletion

    [put] calls [evict_oldest], which deletes, which calls [put] to reinsert.
    The operations are written over the inner call; [None] stands for a
    recursion deeper than allowed or a loop out of fuel. *)
Definition put_fn : Type :=
  qsr_session_table -> qsr_session_key -> addr_arg -> Z -> Z -> bool -> Z -> Z ->
  option (qsr_session_table * qsr_status).

(** One iteration of the reinsertion loop. *)
Definition reinsert_step (put : put_fn) (st : qsr_session_table * nat) :
    (qsr_session_table * nat) + option qsr_session_table :=
  let '(t, cursor) := st in
  match t_sessions t !! cursor with
  | None => inr (Some t)
  | Some saved =>
      if negb (s_used saved) then inr (Some t)
      else
        let t := set_sessions t (<[cursor := session0]> (t_sessions t)) in
        let t := set_count t (usub (t_count t) 1) in
        match put t (s_key saved) (AddrVal (s_backend_addr saved)) (s_backend_addr_len saved) (s_last_seen saved)
                false (s_owner_slot saved) (s_owner_flow_id saved) with
        | Some (t, _) => inl (t, ((cursor + 1) mod t_capacity t)%nat)
        | None => inr None
        end
  end.

Definition table_delete_at (put : put_fn) (t : qsr_session_table) (index : nat) : option qsr_session_table :=
  let t := set_sessions t (<[index := session0]> (t_sessions t)) in
  let t := set_count t (usub (t_count t) 1) in
  match while_pos (reinsert_step put) (del_fuel (t_capacity t)) (t, ((index + 1) mod t_capacity t)%nat) with
  | inr r => r
  | inl _ => None
  end.

Definition evict_oldest (put : put_fn) (t : qsr_session_table) : option qsr_session_table :=
  if t_count t =? 0 then Some t
  else
    let scans := evict_scans t in
    let victim := oldest_in t scans in
    let t := set_evict_cursor t ((t_evict_cursor t + scans) mod t_capacity t)%nat in
    match victim with
    | None => Some t
    | Some (victim, _) => table_delete_at put t victim
    end.

(** Fill the empty slot [index]. *)
Definition insert_at (t : qsr_session_table) (index : nat) (key : qsr_session_key) (backend_addr : addr_arg)
    (backend_addr_len now owner_slot owner_flow_id : Z) : qsr_session_table :=
  let session := {| s_used := true; s_key := key; s_backend_addr := read_addr t backend_addr;
    s_backend_addr_len := backend_addr_len; s_last_seen := now; s_owner_slot := owner_slot;
    s_owner_flow_id := owner_flow_id |} in
  let t := set_sessions t (<[index := session]> (t_sessions t)) in
  let t := set_count t (uadd (t_count t) 1) in
  set_masks t (mask_add (t_cid_len_mask t) key) (mask_add (t_cid_len_mask_pending t) key).

(** Refresh the entry in slot [index]. *)
Definition update_at (t : qsr_session_table) (index : nat) (backend_addr : addr_arg)
    (backend_addr_len now owner_slot owner_flow_id : Z) : qsr_session_table :=
  set_sessions t (alter (fun session => {|
    s_used := s_used session; s_key := s_key session; s_backend_addr := read_addr t backend_addr;
    s_backend_addr_len := backend_addr_len; s_last_seen := now;
    s_owner_slot := if negb (owner_flow_id =? 0) then owner_slot else s_owner_slot session;
    s_owner_flow_id := if negb (owner_flow_id =? 0) then owner_flow_id else s_owner_flow_id session |})
    index (t_sessions t)).

(** [for (attempt = 0; attempt < 2; attempt++)]: [attempts] is [2 - attempt]. *)
Fixpoint put_attempts (evict : qsr_session_table -> option qsr_session_table) (attempts : nat)
    (t : qsr_session_table) (key : qsr_session_key) (backend_addr : addr_arg) (backend_addr_len now : Z)
    (allow_pressure_evict : bool) (owner_slot owner_flow_id : Z) : option (qsr_session_table * qsr_status) :=
  match attempts with
  | O => Some (t, QSR_ERR_FULL)
  | S rest =>
      let first := (attempts =? 2)%nat in
      let retry t := put_attempts evict rest t key backend_addr backend_addr_len now allow_pressure_evict
                       owner_slot owner_flow_id in
      match session_probe t key with
      | Some (index, true) =>
          Some (update_at t index backend_addr backend_addr_len now owner_slot owner_flow_id, QSR_OK)
      | Some (index, false) =>
          if allow_pressure_evict && first && pressure_evict_needed t
          then t ← evict t; t ← evict t; retry t
          else Some (insert_at t index key backend_addr backend_addr_len now owner_slot owner_flow_id, QSR_OK)
      | None => if first then t ← evict t; retry t else retry t
      end
  end.

(** [session_table_put_internal], with [depth] nested calls through eviction allowed. *)
Fixpoint session_table_put_internal (depth : nat) : put_fn :=
  fun t key backend_addr backend_addr_len now allow_pressure_evict owner_slot owner_flow_id =>
  if (length (t_sessions t) =? 0)%nat || (t_capacity t =? 0)%nat || negb (key_valid key) ||
     negb (backend_valid (read_addr t backend_addr) backend_addr_len)
  then Some (t, QSR_ERR_INVALID)
  else
    put_attempts
      (match depth with O => fun _ => None | S depth => evict_oldest (session_table_put_internal depth) end)
      2 t key backend_addr backend_addr_len now allow_pressure_evict owner_slot owner_flow_id.

(** The calls made from outside: reinsertion never needs to evict, so one level is enough. *)
Definition qsr_session_table_put_owned (t : qsr_session_table) (key : qsr_session_key) (backend_addr : addr_arg)
    (backend_addr_len now owner_slot owner_flow_id : Z) : option (qsr_session_table * qsr_status) :=
  session_table_put_internal 1 t key backend_addr backend_addr_len now true owner_slot owner_flow_id.

Definition qsr_session_table_put (t : qsr_session_table) (key : qsr_session_key) (backend_addr : addr_arg)
    (backend_addr_len now : Z) : option (qsr_session_table * qsr_status) :=
  session_table_put_internal 1 t key backend_addr backend_addr_len now true 0 0.

Definition delete_at (t : qsr_session_table) (index : nat) : option qsr_session_table :=
  table_delete_at (session_table_put_internal 0) t index.

(** ** Sweeps *)

Definition rebuild_cid_len_mask (t : qsr_session_table) : qsr_session_table :=
  let mask := foldl (fun mask session => if s_used session then mask_add mask (s_key session) else mask)
                0 (t_sessions t) in
  set_masks t mask mask.

(** [while (i < capacity)]: delete and look at the same slot again, or go on.
    The state is the table, [i] and the number of deletions. *)
Definition sweep_step (doomed : qsr_session -> bool) (st : qsr_session_table * nat * Z) :
    (qsr_session_table * nat * Z) + option (qsr_session_table * Z) :=
  let '(t, i, removed) := st in
  if (i <? t_capacity t)%nat then
    match t_sessions t !! i with
    | Some session =>
        if s_used session && doomed session then
          match delete_at t i with
          | Some t => inl (t, i, uadd removed 1)
          | None => inr None
          end
        else inl (t, (i + 1)%nat, removed)
    | None => inr None
    end
  else inr (Some (t, removed)).

(** Each iteration advances or shrinks the table. *)
Definition sweep_fuel (t : qsr_session_table) : positive := Z.to_pos (2 * Z.of_nat (t_capacity t) + 1).

Definition sweep (doomed : qsr_session -> bool) (t : qsr_session_table) : option (qsr_session_table * Z) :=
  match while_pos (sweep_step doomed) (sweep_fuel t) (t, 0%nat, 0) with
  | inr r => r
  | inl _ => None
  end.

Definition idle (now idle_timeout_seconds : Z) (session : qsr_session) : bool :=
  idle_timeout_seconds <=? now - s_last_seen session.

Definition qsr_session_table_expire (t : qsr_session_table) (now idle_timeout_seconds : Z) :
    option (qsr_session_table * Z) :=
  if (length (t_sessions t) =? 0)%nat || (t_capacity t =? 0)%nat then Some (t, 0)
  else
    '(t, expired) ← sweep (idle now idle_timeout_seconds) t;
    Some (if 0 <? expired then rebuild_cid_len_mask t else t, expired).

(** [pred] is [None] for a null pointer. *)
Definition qsr_session_table_evict_if (t : qsr_session_table) (pred : option (qsr_session -> bool)) :
    option (qsr_session_table * Z) :=
  match pred with
  | Some pred =>
      if (length (t_sessions t) =? 0)%nat || (t_capacity t =? 0)%nat then Some (t, 0) else sweep pred t
  | None => Some (t, 0)
  end.

(** [session->last_seen = now] *)
Definition touched (now : Z) (s : qsr_session) : qsr_session := {|
  s_used := s_used s; s_key := s_key s; s_backend_addr := s_backend_addr s;
  s_backend_addr_len := s_backend_addr_len s; s_last_seen := now;
  s_owner_slot := s_owner_slot s; s_owner_flow_id := s_owner_flow_id s |}.

(** [if (advance)]: add the entry's length to the pending mask and move the
    cursor; at the end of a cycle the pending mask becomes the current one. *)
Definition advance (t : qsr_session_table) (session : qsr_session) : qsr_session_table :=
  let t := if s_used session
    then set_masks t (t_cid_len_mask t) (mask_add (t_cid_len_mask_pending t) (s_key session)) else t in
  let t := set_expire_cursor t ((t_expire_cursor t + 1) mod t_capacity t)%nat in
  if (t_expire_cursor t =? 0)%nat then set_masks t (t_cid_len_mask_pending t) 0 else t.

(** One iteration of the incremental sweep on the slot under the cursor: the
    table after it and whether the entry was deleted. [keep] is [None] for a
    null callback. *)
Definition expire_one (t : qsr_session_table) (now idle_timeout_seconds : Z)
    (keep : option (qsr_session -> bool)) : option (qsr_session_table * bool) :=
  let index := t_expire_cursor t in
  session ← t_sessions t !! index;
  let expired := s_used session && idle now idle_timeout_seconds session in
  let kept := match keep with Some keep => keep session | None => false end in
  if expired && negb kept then
    t ← delete_at t index; Some (t, true)
  else
    let t := if expired then
        set_sessions t (alter (touched now) index (t_sessions t))
      else t in
    Some (advance t session, false).

Fixpoint expire_loop (t : qsr_session_table) (now idle_timeout_seconds : Z)
    (keep : option (qsr_session -> bool)) (iterations : nat) (expired : Z) : option (qsr_session_table * Z) :=
  match iterations with
  | O => Some (t, expired)
  | S rest =>
      '(t, deleted) ← expire_one t now idle_timeout_seconds keep;
      expire_loop t now idle_timeout_seconds keep rest (if deleted : bool then uadd expired 1 else expired)
  end.

(** [while (scanned < scan_budget && scanned < capacity)] *)
Definition qsr_session_table_expire_incremental (t : qsr_session_table) (now idle_timeout_seconds : Z)
    (scan_budget : nat) (keep : option (qsr_session -> bool)) : option (qsr_session_table * Z) :=
  if (length (t_sessions t) =? 0)%nat || (t_capacity t =? 0)%nat || (scan_budget =? 0)%nat then Some (t, 0)
  else expire_loop t now idle_timeout_seconds keep (scan_budget `min` t_capacity t) 0.

End table.

(** ** The map a table represents *)

Section theory.
Context `{KeyedHash}.

Definition skey (s : qsr_session) : option key_view_t :=
  if s_used s then Some (key_view (s_key s)) else None.

Definition shome (c : nat) (v : key_view_t) : nat := hash_slot (view_bytes v) c.

Definition contents (t : qsr_session_table) : gmap key_view_t qsr_session := abs skey (t_sessions t).

(** The part of well-formedness that holds also in the middle of a deletion:
    stored entries pass the checks of [put], and the masks cover the
    connection-ID lengths: the current mask those of all entries, the pending
    one those of the entries the sweep has passed. *)
Record frame (t : qsr_session_table) : Prop := {
  fr_cap : (0 < t_capacity t)%nat;
  fr_size : Z.of_nat (t_capacity t) * SESSION_SIZE < 2 ^ 64;
  fr_len : length (t_sessions t) = t_capacity t;
  fr_expire : (t_expire_cursor t < t_capacity t)%nat;
  fr_entry : forall i s, t_sessions t !! i = Some s -> s_used s = true ->
    key_valid (s_key s) = true /\ backend_valid (s_backend_addr s) (s_backend_addr_len s) = true /\
    (mask_entry (s_key s) = true ->
      Z.testbit (t_cid_len_mask t) (k_dcid_len (s_key s)) = true /\
      ((i < t_expire_cursor t)%nat -> Z.testbit (t_cid_len_mask_pending t) (k_dcid_len (s_key s)) = true));
}.

Record table_wf (t : qsr_session_table) : Prop := {
  wf_frame : frame t;
  wf_inv : table_inv skey (t_capacity t) (shome (t_capacity t)) (t_sessions t);
  wf_count : t_count t = Z.of_nat (size (contents t));
}.

(** What deletions and reinsertions leave alone. *)
Definition same_shape (t t' : qsr_session_table) : Prop :=
  t_capacity t' = t_capacity t /\ t_expire_cursor t' = t_expire_cursor t /\ t_evict_cursor t' = t_evict_cursor t.

Lemma skey_session0 : skey session0 = None.
Proof. done. Qed.

Lemma shome_lt c : (0 < c)%nat -> forall v, (shome c v < c)%nat.
Proof. intros ? v. by apply hash_slot_lt. Qed.

Lemma uadd_usub n : 0 <= n < 2 ^ 64 -> uadd (usub n 1) 1 = n.
Proof. intros. unfold uadd, usub, wrap. rewrite Z.add_mod_idemp_l by done. rewrite Z.sub_add. by apply Z.mod_small. Qed.

(** *** The masks *)

Lemma mask_bit_range k : mask_entry k = true -> 8 <= k_dcid_len k <= 20.
Proof. unfold mask_entry, QSR_MIN_LEARNED_CID_LEN, QSR_MAX_QUIC_CID_LEN. intros. bool_to_prop. lia. Qed.

Lemma mask_add_self m k : mask_entry k = true -> Z.testbit (mask_add m k) (k_dcid_len k) = true.
Proof.
  intros Hk. pose proof (mask_bit_range k Hk). unfold mask_add. rewrite Hk.
  assert (2 ^ k_dcid_len k < 2 ^ 32) by (apply Z.pow_lt_mono_r; lia).
  rewrite Z.shiftl_1_l, wrap_small by lia. by rewrite Z.lor_spec, Z.pow2_bits_true, orb_true_r by lia.
Qed.

Lemma mask_add_grow m k n : Z.testbit m n = true -> Z.testbit (mask_add m k) n = true.
Proof. intros Hm. unfold mask_add. split_if; [|done]. by rewrite Z.lor_spec, Hm. Qed.

Hint Resolve mask_add_self mask_add_grow : qsr.

(** *** The probe walk is the one of the theory *)

Lemma session_probe_eq t key :
  session_probe t key = probe skey (t_capacity t) (shome (t_capacity t)) (t_sessions t) (key_view key).
Proof.
  unfold session_probe, probe, shome, key_hash. rewrite key_bytes_view. apply walk_ext. intros i.
  unfold probe_body, view, skey. destruct (t_sessions t !! i) as [s|]; [|done]. cbn.
  destruct (s_used s); [|done]. cbn. case_decide as Hd.
  - by rewrite (proj2 (key_equals_view _ _) Hd).
  - destruct (key_equals (s_key s) key) eqn:E; [|done]. by apply key_equals_view in E.
Qed.

(** *** Writing one slot *)

Lemma frame_clear t i n : frame t -> frame (set_count (set_sessions t (<[i := session0]> (t_sessions t))) n).
Proof.
  intros [? ? Hl ? He]. split; cbn; [done|done|by rewrite length_insert|done|].
  intros j s Hj Hu. apply list_lookup_insert_Some in Hj as [(_ & <- & _)|[_ Hj]]; [done|by eapply He].
Qed.

Lemma frame_insert t i key addr len now os oid :
  frame t -> key_valid key = true -> backend_valid (read_addr t addr) len = true ->
  frame (insert_at t i key addr len now os oid).
Proof.
  intros [? ? Hl ? He] Hk Hb. split; cbn; [done|done|by rewrite length_insert|done|].
  intros j s Hj Hu. apply list_lookup_insert_Some in Hj as [(_ & <- & _)|[_ Hj]]; cbn.
  - split_and!; [done..|]. auto with qsr.
  - destruct (He j s Hj Hu) as (? & ? & Hm). split_and!; [done..|]. intros Hme.
    destruct (Hm Hme). auto with qsr.
Qed.

(** The guard of [put] passes for valid arguments. *)
Lemma put_guard d t key addr len now allow os oid :
  frame t -> key_valid key = true -> backend_valid (read_addr t addr) len = true ->
  session_table_put_internal d t key addr len now allow os oid =
  put_attempts (match d with O => fun _ => None | S d => evict_oldest (session_table_put_internal d) end)
    2 t key addr len now allow os oid.
Proof.
  intros [? ? Hl ? ?] Hk Hb. destruct d; cbn [session_table_put_internal]; rewrite Hk, Hb, Hl;
    by rewrite (proj2 (Nat.eqb_neq _ 0)) by lia.
Qed.

(** *** Deletion *)

Lemma reinsert_refines d m t q :
  frame t -> 0 <= t_count t < 2 ^ 64 ->
  del_inv skey (t_capacity t) (shome (t_capacity t)) m (t_sessions t, q) ->
  match del_step skey session0 (t_capacity t) (shome (t_capacity t)) (t_sessions t, q) with
  | inl pr => exists t', reinsert_step (session_table_put_internal d) (t, q) = inl (t', snd pr) /\
      t_sessions t' = fst pr /\ frame t' /\ same_shape t t' /\ t_count t' = t_count t
  | inr s' => s' = t_sessions t /\ reinsert_step (session_table_put_internal d) (t, q) = inr (Some t)
  end.
Proof.
  intros Hf Hc Hd. pose proof (fr_cap t Hf) as Hcap. unfold reinsert_step.
  destruct (t_sessions t !! q) as [a|] eqn:Ha; [|unfold del_step; by rewrite Ha].
  destruct (s_used a) eqn:Hu; cbn [negb].
  2: { unfold del_step, skey. by rewrite Ha, Hu. }
  assert (Hk : skey a = Some (key_view (s_key a))) by (unfold skey; by rewrite Hu).
  destruct (del_step_move _ session0 _ _ skey_session0 (shome_lt _ Hcap) m (t_sessions t) q a _ Hd Ha Hk)
    as (r & Hp & Hr & _ & ->).
  set (t1 := set_count _ _). assert (Hf1 : frame t1) by (by apply frame_clear).
  destruct (fr_entry t Hf q a Ha Hu) as (Hkv & Hbv & _).
  rewrite put_guard by done. cbn [put_attempts]. rewrite session_probe_eq.
  change (t_capacity t1) with (t_capacity t). change (t_sessions t1) with (<[q:=session0]> (t_sessions t)).
  rewrite Hp. cbn [andb]. eexists. split; [reflexivity|]. cbn. split_and!.
  - unfold move. destruct a. cbn in *. by subst.
  - by apply frame_insert.
  - by split_and!.
  - by apply uadd_usub.
Qed.

Lemma count_small t : table_wf t -> 0 <= t_count t /\ t_count t <= Z.of_nat (t_capacity t) < 2 ^ 56.
Proof.
  intros [[] [] Hc]. rewrite Hc. unfold contents. pose proof (size_abs_le skey (t_sessions t)) as Hle.
  unfold SESSION_SIZE in *. specialize (Hle ltac:(done)). lia.
Qed.

(** Deleting the entry in slot [p] removes exactly its key; the remaining
    entries only move towards [p]. *)
Lemma delete_spec d t p k :
  table_wf t -> view skey (t_sessions t) p = Some k ->
  exists t', table_delete_at (session_table_put_internal d) t p = Some t' /\ table_wf t' /\
    contents t' = delete k (contents t) /\ same_shape t t' /\
    from_ahead skey (t_capacity t) (t_sessions t) p (t_sessions t').
Proof.
  intros Hwf Hv. pose proof (count_small t Hwf) as Hcs. destruct Hwf as [Hf Hinv Hcount].
  pose proof (fr_cap t Hf) as Hcap. unfold table_delete_at.
  set (t0 := set_count (set_sessions t _) _). assert (Hf0 : frame t0) by (by apply frame_clear).
  assert (Hsz : S (size (delete k (contents t))) = size (contents t)).
  { apply view_lookup in Hv as (a & Ha & Hk). assert (is_Some (contents t !! k)) as [b Hb].
    { exists a. apply abs_lookup; [by destruct Hinv|eauto]. }
    rewrite map_size_delete_Some by eauto. destruct (size (contents t)) eqn:E; [|lia].
    apply map_size_empty_inv in E. rewrite E in Hb. by rewrite lookup_empty in Hb. }
  assert (Hc0 : t_count t0 = Z.of_nat (size (delete k (contents t)))).
  { cbn. rewrite usub_small by lia. lia. }
  change (t_capacity t0) with (t_capacity t).
  destruct (delete_loop skey session0 (t_capacity t) (shome (t_capacity t)) skey_session0 (shome_lt _ Hcap)
    (reinsert_step (session_table_put_internal d)) (fun st => (t_sessions st.1, st.2))
    (fun r => default [] (t_sessions <$> r))
    (fun st => frame st.1 /\ same_shape t st.1 /\ t_count st.1 = t_count t0)
    (fun r => exists t', r = Some t' /\ frame t' /\ same_shape t t' /\ t_count t' = t_count t0)
    (t_sessions t) p k (t0, ((p + 1) mod t_capacity t)%nat)) as (r & -> & (t' & -> & Hf' & Hs' & Hc') & Hinv' & Habs & Hnear);
    [done|done|done|done| |].
  - intros [t1 q] (Hf1 & (Hcap1 & Hs1) & Hc1) Hd. cbn [fst snd] in *.
    assert (0 <= t_count t1 < 2 ^ 64) by (rewrite Hc1, Hc0; lia).
    rewrite <- Hcap1 in Hd |- *. pose proof (reinsert_refines d _ t1 q Hf1 ltac:(done) Hd) as Hr.
    destruct (del_step _ _ _ _ _) as [[s2 q2]|s2].
    + destruct Hr as (t2 & -> & Hs2 & Hf2 & (Hcap2 & He2) & Hc2). cbn [fst snd] in *. eexists. split; [done|].
      cbn [fst snd]. unfold same_shape in *. split_and!; congruence || done || intuition congruence.
    + destruct Hr as (-> & ->). eexists. split; [done|]. cbn. split; [done|]. eexists. by split_and!.
  - change (default [] (t_sessions <$> Some t')) with (t_sessions t') in *.
    change (contents t' = delete k (contents t)) in Habs. exists t'. split; [done|].
    destruct Hs' as (Hcap' & ?). split_and!; [|done..].
    split; [done|by rewrite Hcap'|by rewrite Hc', Hc0, Habs].
Qed.

(** *** Eviction *)

(** The entries that one call of [evict_oldest] looks at. *)
Definition in_window (t : qsr_session_table) (s : qsr_session) : Prop :=
  exists i, (i < evict_scans t)%nat /\
    t_sessions t !! ((t_evict_cursor t + i) mod t_capacity t)%nat = Some s /\ s_used s = true.

(** What an eviction does to the map: it removes an entry of the scan window
    that no entry of the window is older than; nothing when the window is empty. *)
Inductive evicts (t t' : qsr_session_table) : Prop :=
  | evicts_none : (forall s, ~ in_window t s) -> contents t' = contents t -> evicts t t'
  | evicts_one k s : contents t !! k = Some s -> in_window t s ->
      (forall s', in_window t s' -> s_last_seen s <= s_last_seen s') ->
      contents t' = delete k (contents t) -> evicts t t'.

Lemma contents_lookup t k s : table_wf t ->
  contents t !! k = Some s <-> exists i, t_sessions t !! i = Some s /\ skey s = Some k.
Proof. intros [_ [] _]. by apply abs_lookup. Qed.

Lemma skey_used s : s_used s = true -> skey s = Some (key_view (s_key s)).
Proof. unfold skey. by intros ->. Qed.

Lemma slot_contents t i s : table_wf t -> t_sessions t !! i = Some s -> s_used s = true ->
  view skey (t_sessions t) i = Some (key_view (s_key s)) /\ contents t !! key_view (s_key s) = Some s.
Proof.
  intros Hwf Hs Hu. apply skey_used in Hu. split.
  - apply view_lookup. eauto.
  - apply contents_lookup; eauto.
Qed.

Lemma contents_used t k s : table_wf t -> contents t !! k = Some s ->
  s_used s = true /\ k = key_view (s_key s).
Proof.
  intros Hwf Hk. apply contents_lookup in Hk as (i & _ & Hk); [|done]. unfold skey in Hk.
  destruct (s_used s); by simplify_eq.
Qed.

Lemma wf_set_evict_cursor t n : table_wf t -> table_wf (set_evict_cursor t n).
Proof. intros [[] ? ?]. by split. Qed.

Lemma evict_spec d t : table_wf t ->
  exists t', evict_oldest (session_table_put_internal d) t = Some t' /\ table_wf t' /\
    t_capacity t' = t_capacity t /\ t_expire_cursor t' = t_expire_cursor t /\ evicts t t'.
Proof.
  intros Hwf. unfold evict_oldest. destruct (t_count t =? 0) eqn:E0; bool_to_prop.
  { exists t. split_and!; [done..|]. apply evicts_none; [|done]. intros s (i & _ & Hs & Hu).
    destruct (slot_contents t _ s Hwf Hs Hu) as [_ Hl]. rewrite (wf_count t Hwf) in E0.
    assert (size (contents t) = 0%nat) as Hz by lia. apply map_size_empty_inv in Hz. rewrite Hz in Hl. done. }
  pose proof (scan_oldest_spec (t_sessions t) s_used s_last_seen
    (fun i => ((t_evict_cursor t + i) mod t_capacity t)%nat) (evict_scans t)) as Ho. fold (oldest_in t (evict_scans t)) in Ho.
  set (t1 := set_evict_cursor t _). assert (Hwf1 : table_wf t1) by (by apply wf_set_evict_cursor).
  destruct (oldest_in t (evict_scans t)) as [[v o]|].
  - destruct Ho as (i & s & Hi & -> & Hs & Hu & -> & Hmin).
    destruct (slot_contents t _ s Hwf Hs Hu) as [Hv Hl].
    destruct (delete_spec d t1 _ _ Hwf1 Hv) as (t' & -> & Hwf' & Hc & (Hcap & He & _) & _).
    exists t'. split_and!; [done..|]. eapply evicts_one; [done| | |done]; [by exists i|].
    intros s' (j & Hj & Hs' & Hu'). by apply (Hmin j).
  - exists t1. split_and!; [done..|]. apply evicts_none; [|done]. intros s (i & Hi & Hs & Hu).
    rewrite (Ho i s) in Hu by done. done.
Qed.

Lemma evicts_subset t t' : evicts t t' -> contents t' ⊆ contents t.
Proof. intros [_ ->|k s _ _ _ ->]; [done|apply delete_subseteq]. Qed.

Lemma evicts_victim t t' s : table_wf t -> evicts t t' -> in_window t s -> size (contents t) = S (size (contents t')).
Proof.
  intros Hwf He Hs. destruct He as [Hno _|k s' Hl _ _ ->]; [by destruct (Hno s)|].
  assert (size (contents t) <> 0%nat) by (intros Hz; apply map_size_empty_inv in Hz; by rewrite Hz, lookup_empty in Hl).
  rewrite map_size_delete_Some by eauto. lia.
Qed.

(** A scan window that covers the table finds a victim. *)
Lemma covered_window t : table_wf t -> Z.of_nat (t_capacity t) <= QSR_EVICT_SCAN_BUDGET ->
  size (contents t) <> 0%nat -> exists s, in_window t s.
Proof.
  intros Hwf Hle Hsz. apply map_size_non_empty_iff, map_choose in Hsz as (k & s & Hl).
  destruct (contents_used t k s Hwf Hl) as [Hu _]. apply contents_lookup in Hl as (i & Hi & _); [|done].
  pose proof (fr_cap t (wf_frame t Hwf)) as Hcap. assert (Hic : (i < t_capacity t)%nat).
  { rewrite <- (fr_len t (wf_frame t Hwf)). by apply lookup_lt_Some in Hi. }
  exists s. set (x := (t_evict_cursor t mod t_capacity t)%nat).
  assert (Hx : (x < t_capacity t)%nat) by (apply Nat.mod_upper_bound; lia).
  exists (cdist (t_capacity t) x i). split_and!; [| |done].
  - pose proof (cdist_lt (t_capacity t) x i). unfold evict_scans. split_if; bool_to_prop; lia.
  - rewrite <- Nat.Div0.add_mod_idemp_l. fold x. change (t_sessions t !! cstep (t_capacity t) x (cdist (t_capacity t) x i) = Some s).
    by rewrite cstep_cdist.
Qed.

Lemma evicts_size t t' : evicts t t' -> (size (contents t') <= size (contents t))%nat.
Proof. intros He. by apply map_subseteq_size, evicts_subset. Qed.

(** *** Insertion *)

(** The entry a [put] stores for an absent key, and what it makes of a present one. *)
Definition new_session (key : qsr_session_key) (addr : list Z) (len now os oid : Z) : qsr_session := {|
  s_used := true; s_key := key; s_backend_addr := addr; s_backend_addr_len := len; s_last_seen := now;
  s_owner_slot := os; s_owner_flow_id := oid |}.

Definition refreshed (s : qsr_session) (addr : list Z) (len now os oid : Z) : qsr_session := {|
  s_used := s_used s; s_key := s_key s; s_backend_addr := addr; s_backend_addr_len := len; s_last_seen := now;
  s_owner_slot := if oid =? 0 then s_owner_slot s else os;
  s_owner_flow_id := if oid =? 0 then s_owner_flow_id s else oid |}.

(** The room an insertion makes first: none, one eviction when every slot is
    used, or two under load pressure. *)
Inductive makes_room (t t' : qsr_session_table) : Prop :=
  | room_free : pressure_evict_needed t = false -> t_count t < Z.of_nat (t_capacity t) ->
      contents t' = contents t -> makes_room t t'
  | room_full : t_count t = Z.of_nat (t_capacity t) -> evicts t t' -> makes_room t t'
  | room_pressure t1 : pressure_evict_needed t = true -> t_count t < Z.of_nat (t_capacity t) ->
      evicts t t1 -> table_wf t1 -> t_capacity t1 = t_capacity t -> evicts t1 t' -> makes_room t t'.

Lemma makes_room_subset t t' : makes_room t t' -> contents t' ⊆ contents t.
Proof.
  intros [_ _ ->|_ He|t1 _ _ H1 _ _ H2]; [done|by apply evicts_subset|].
  transitivity (contents t1); by apply evicts_subset.
Qed.

Lemma insert_spec t i key addr len now os oid :
  table_wf t -> session_probe t key = Some (i, false) ->
  key_valid key = true -> backend_valid (read_addr t addr) len = true ->
  let t' := insert_at t i key addr len now os oid in
  table_wf t' /\ contents t' = <[key_view key := new_session key (read_addr t addr) len now os oid]> (contents t) /\
  contents t !! key_view key = None.
Proof.
  intros Hwf Hp Hk Hb t'. pose proof (count_small t Hwf) as Hcs. destruct Hwf as [Hf Hinv Hc].
  rewrite session_probe_eq in Hp. pose proof (fr_cap t Hf) as Hcap.
  pose proof (probe_insert_inv _ _ _ (shome_lt _ Hcap) _ _ (new_session key (read_addr t addr) len now os oid) _ _ Hinv eq_refl Hp).
  pose proof (probe_insert_abs _ _ _ (shome_lt _ Hcap) _ _ (new_session key (read_addr t addr) len now os oid) _ _ Hinv eq_refl Hp) as Habs.
  assert (Hnone : contents t !! key_view key = None).
  { pose proof (probe_abs _ _ _ (shome_lt _ Hcap) _ (key_view key) Hinv) as Hpa. by rewrite Hp in Hpa. }
  split_and!; [|exact Habs|done]. split; [by apply frame_insert|done|].
  change (contents t') with (abs skey (t_sessions t')). cbn [t_sessions t' insert_at set_sessions set_count set_masks].
  cbn [t_count t' insert_at set_masks set_count]. unfold new_session in Habs. rewrite Habs, map_size_insert_None by done.
  rewrite uadd_small by (change (t_count (set_sessions t _)) with (t_count t); lia).
  change (t_count (set_sessions t _)) with (t_count t). fold (contents t). lia.
Qed.

Lemma update_spec t i key addr len now os oid :
  table_wf t -> session_probe t key = Some (i, true) -> backend_valid (read_addr t addr) len = true ->
  let t' := update_at t i addr len now os oid in
  table_wf t' /\ exists s, contents t !! key_view key = Some s /\
    contents t' = <[key_view key := refreshed s (read_addr t addr) len now os oid]> (contents t).
Proof.
  intros Hwf Hp Hb t'. destruct Hwf as [Hf Hinv Hc]. rewrite session_probe_eq in Hp. pose proof (fr_cap t Hf) as Hcap.
  pose proof (probe_abs _ _ _ (shome_lt _ Hcap) _ (key_view key) Hinv) as Hpa. rewrite Hp in Hpa.
  destruct Hpa as (s & Hs & Hl). fold (contents t) in Hl.
  set (s' := refreshed s (read_addr t addr) len now os oid).
  assert (Hsess : t_sessions t' = <[i := s']> (t_sessions t)).
  { cbn. unfold s', refreshed. rewrite (list_alter_at _ _ _ s), !if_negb by done. done. }
  assert (Hk' : skey s' = Some (key_view key)).
  { apply probe_true in Hp as [_ Hv]; [|by apply shome_lt]. apply view_lookup in Hv as (a & Ha & Hka).
    rewrite Hs in Ha. by injection Ha as <-. }
  pose proof (probe_insert_inv _ _ _ (shome_lt _ Hcap) _ _ s' _ _ Hinv Hk' Hp) as Hinv'.
  pose proof (probe_insert_abs _ _ _ (shome_lt _ Hcap) _ _ s' _ _ Hinv Hk' Hp) as Habs.
  rewrite <- Hsess in *. change (abs skey (t_sessions t')) with (contents t') in Habs.
  split; [|by exists s]. split; [|done|].
  - destruct Hf as [? ? Hlen ? He]. split; [done|done|by rewrite Hsess, length_insert|done|].
    rewrite Hsess. intros j x Hj Hu. apply list_lookup_insert_Some in Hj as [(<- & <- & _)|[_ Hj]].
    + destruct (He i s Hs Hu) as (? & _ & ?). done.
    + by apply (He j x).
  - rewrite Habs, map_size_insert_Some by eauto. done.
Qed.

(** *** [put] and [get] over the map *)

Lemma probe_contents t key : table_wf t ->
  match session_probe t key with
  | Some (i, true) => exists s, t_sessions t !! i = Some s /\ contents t !! key_view key = Some s
  | Some (i, false) => contents t !! key_view key = None
  | None => contents t !! key_view key = None /\ size (contents t) = t_capacity t
  end.
Proof.
  intros [Hf Hinv _]. pose proof (fr_cap t Hf) as Hcap. rewrite session_probe_eq.
  pose proof (probe_abs _ _ _ (shome_lt _ Hcap) _ (key_view key) Hinv) as Hpa. fold (contents t) in Hpa.
  destruct (probe _ _ _ _ _) as [[i []]|] eqn:Hp; [done..|]. split; [done|].
  pose proof (size_abs_le skey (t_sessions t)) as Hle. destruct Hinv as [Hl _ Hu]. specialize (Hle Hu).
  destruct (decide (size (contents t) < t_capacity t)%nat) as [Hlt|]; [|unfold contents in *; lia].
  apply has_empty_size in Hlt; [|done..]. apply (abs_lookup_view skey) in Hpa; [|done].
  destruct (probe_absent _ _ _ (shome_lt _ Hcap) _ _ Hpa Hlt) as [i Hi]. congruence.
Qed.

Lemma probe_room t key : table_wf t -> contents t !! key_view key = None ->
  (size (contents t) < t_capacity t)%nat -> exists i, session_probe t key = Some (i, false).
Proof.
  intros Hwf Hn Hs. pose proof (probe_contents t key Hwf) as Hp.
  destruct (session_probe t key) as [[i []]|]; [|by eauto|by destruct Hp; lia].
  destruct Hp as (s & _ & Hl). congruence.
Qed.

(** The last attempt of a [put] for an absent key. *)
Lemma last_attempt evict t t1 key addr len now allow os oid :
  table_wf t1 -> makes_room t t1 -> contents t !! key_view key = None ->
  (size (contents t1) < t_capacity t1)%nat -> key_valid key = true -> backend_valid addr len = true ->
  exists t', put_attempts evict 1 t1 key (AddrVal addr) len now allow os oid = Some (t', QSR_OK) /\ table_wf t' /\
    t_capacity t' = t_capacity t1 /\
    contents t' = <[key_view key := new_session key addr len now os oid]> (contents t1).
Proof.
  intros Hwf Hroom Hn Hs Hk Hb. pose proof (makes_room_subset _ _ Hroom) as Hsub.
  destruct (probe_room t1 key Hwf) as [i Hi]; [by eapply lookup_weaken_None|done|].
  destruct (insert_spec t1 i key (AddrVal addr) len now os oid Hwf Hi Hk Hb) as (Hwf' & Hc' & _).
  cbn [put_attempts]. rewrite Hi, andb_false_r. cbn. eexists. by split_and!.
Qed.

(** The first attempt: update, insert, or make room and try once more. *)
Lemma first_attempt evict t key addr len now allow os oid :
  put_attempts evict 2 t key addr len now allow os oid =
  match session_probe t key with
  | Some (i, true) => Some (update_at t i addr len now os oid, QSR_OK)
  | Some (i, false) =>
      if allow && pressure_evict_needed t
      then t1 ← evict t; t2 ← evict t1; put_attempts evict 1 t2 key addr len now allow os oid
      else Some (insert_at t i key addr len now os oid, QSR_OK)
  | None => t1 ← evict t; put_attempts evict 1 t1 key addr len now allow os oid
  end.
Proof.
  change 2%nat with (S 1). unfold put_attempts at 1; fold put_attempts. cbn [Nat.eqb].
  by rewrite andb_true_r.
Qed.

(** Under pressure: two evictions, then the insertion. *)
Lemma pressure_put d t key addr len now os oid :
  table_wf t -> key_valid key = true -> backend_valid addr len = true ->
  contents t !! key_view key = None -> pressure_evict_needed t = true -> t_count t < Z.of_nat (t_capacity t) ->
  exists t1 t2 t', evict_oldest (session_table_put_internal d) t = Some t1 /\ table_wf t1 /\ t_capacity t1 = t_capacity t /\ evicts t t1 /\
    evict_oldest (session_table_put_internal d) t1 = Some t2 /\ evicts t1 t2 /\
    session_table_put_internal (S d) t key (AddrVal addr) len now true os oid = Some (t', QSR_OK) /\
    table_wf t' /\ t_capacity t' = t_capacity t /\
    contents t' = <[key_view key := new_session key addr len now os oid]> (contents t2).
Proof.
  intros Hwf Hk Hb Hn Hp Hc. rewrite put_guard, first_attempt by (done || apply Hwf). pose proof (wf_count t Hwf) as Hsz.
  destruct (probe_room t key Hwf Hn) as [i ->]; [lia|]. rewrite Hp. cbn [andb].
  destruct (evict_spec d t Hwf) as (t1 & E1 & Hwf1 & Hc1 & _ & He1). rewrite E1. cbn [mbind option_bind].
  destruct (evict_spec d t1 Hwf1) as (t2 & E2 & Hwf2 & Hc2 & _ & He2). rewrite E2. cbn [mbind option_bind].
  assert (Hroom : makes_room t t2) by by apply (room_pressure t t2 t1).
  pose proof (evicts_size t t1 He1). pose proof (evicts_size t1 t2 He2).
  destruct (last_attempt (evict_oldest (session_table_put_internal d)) t t2 key addr len now true os oid)
    as (t' & -> & ? & Hc3 & ?); [done..|lia|done|done|]. exists t1, t2, t'. split_and!; [done..|congruence|done].
Qed.

Lemma put_spec d t key addr len now os oid :
  table_wf t -> key_valid key = true -> backend_valid addr len = true ->
  exists t', session_table_put_internal (S d) t key (AddrVal addr) len now true os oid = Some (t', QSR_OK) /\
    table_wf t' /\ t_capacity t' = t_capacity t /\
    match contents t !! key_view key with
    | Some s => contents t' = <[key_view key := refreshed s addr len now os oid]> (contents t)
    | None => exists t1, makes_room t t1 /\
        contents t' = <[key_view key := new_session key addr len now os oid]> (contents t1)
    end.
Proof.
  intros Hwf Hk Hb. rewrite put_guard, first_attempt by (done || apply Hwf).
  pose proof (probe_contents t key Hwf) as Hp. pose proof (wf_count t Hwf) as Hc. pose proof (count_small t Hwf) as Hcs.
  destruct (session_probe t key) as [[i []]|] eqn:Ei.
  - destruct (update_spec t i key (AddrVal addr) len now os oid Hwf Ei Hb) as (Hwf' & s & Hl & Hc').
    rewrite Hl. eexists. by split_and!.
  - rewrite Hp. assert (Hlt : (size (contents t) < t_capacity t)%nat).
    { rewrite session_probe_eq in Ei. apply probe_false in Ei as (? & ? & _); [|by apply shome_lt, Hwf].
      destruct Hwf as [_ [] _]. apply (has_empty_size skey); [done..|]. by exists i. }
    destruct (pressure_evict_needed t) eqn:Epr; cbn [andb].
    + destruct (pressure_put d t key addr len now os oid Hwf Hk Hb Hp Epr ltac:(lia))
        as (t1 & t2 & t' & _ & Hwf1 & Hcap1 & He1 & _ & He2 & Ht' & Hwf' & Hcap & Hc').
      rewrite put_guard, first_attempt, Ei, Epr in Ht' by (done || apply Hwf). cbn [andb] in Ht'. rewrite Ht'.
      exists t'. split_and!; [done..|]. exists t2. split; [by apply (room_pressure t t2 t1); [|lia|..]|done].
    + destruct (insert_spec t i key (AddrVal addr) len now os oid Hwf Ei Hk Hb) as (Hwf' & Hc' & _).
      eexists. split_and!; [done..|]. exists t. split; [apply room_free; [done|lia|done]|done].
  - destruct Hp as [Hn Hfull]. rewrite Hn. destruct (evict_spec d t Hwf) as (t1 & -> & Hwf1 & Hc1 & _ & He1). cbn [mbind option_bind].
    assert (Hroom : makes_room t t1) by (apply room_full; [lia|done]).
    assert (Hlt : (size (contents t1) < t_capacity t1)%nat).
    { destruct He1 as [Hno _|k s Hl _ _ ->]; [|rewrite map_size_delete_Some, Hc1 by eauto; pose proof (fr_cap t (wf_frame t Hwf)); lia].
      exfalso. assert (Hne : ~ has_empty skey (t_capacity t) (t_sessions t)).
      { destruct Hwf as [_ [] _]. rewrite has_empty_size by done. unfold contents in Hfull. lia. }
      pose proof (fr_cap t (wf_frame t Hwf)) as Hcap. set (j := ((t_evict_cursor t + 0) mod t_capacity t)%nat).
      assert (Hj : (j < t_capacity t)%nat) by (apply Nat.mod_upper_bound; lia).
      destruct (view skey (t_sessions t) j) as [k|] eqn:Ev; [|by destruct Hne; exists j].
      apply view_lookup in Ev as (s & Hs & Hks). apply (Hno s). exists 0%nat. split_and!; [|done|].
      - unfold evict_scans, QSR_EVICT_SCAN_BUDGET. split_if; lia.
      - unfold skey in Hks. by destruct (s_used s). }
    destruct (last_attempt (evict_oldest (session_table_put_internal d)) t t1 key addr len now true os oid)
      as (t' & -> & ? & Hc3 & ?); [done..|]. exists t'. split_and!; [done..|congruence|by exists t1].
Qed.

(** *** Sweeps *)

(** What a sweep has done when it stands at slot [i] of [t]. *)
Record swept (doomed : qsr_session -> bool) (t0 t : qsr_session_table) (i : nat) (removed : Z) : Prop := {
  sw_wf0 : table_wf t0;
  sw_wf : table_wf t;
  sw_shape : same_shape t0 t;
  sw_pos : (i <= t_capacity t)%nat;
  sw_removed : removed = Z.of_nat (size (contents t0)) - Z.of_nat (size (contents t));
  sw_sub : contents t ⊆ contents t0;
  sw_keep : forall k s, contents t0 !! k = Some s -> doomed s = false -> contents t !! k = Some s;
  sw_done : forall j s, (j < i)%nat -> t_sessions t !! j = Some s -> is_Some (skey s) -> doomed s = false;
}.

Lemma swept_delete doomed t0 t i removed s :
  swept doomed t0 t i removed -> t_sessions t !! i = Some s -> s_used s = true -> doomed s = true ->
  exists t', delete_at t i = Some t' /\ swept doomed t0 t' i (uadd removed 1) /\
    (size (contents t') < size (contents t))%nat.
Proof.
  intros [Hwf0 Hwf (Hcap & Hsh) Hpos Hrem Hsub Hkeep Hdone] Hs Hu Hd.
  destruct (slot_contents t i s Hwf Hs Hu) as [Hv Hl].
  destruct (delete_spec 0 t i _ Hwf Hv) as (t' & Ht' & Hwf' & Hc' & (Hcap' & Hsh') & Hnear).
  assert (Hsz : S (size (contents t')) = size (contents t)).
  { rewrite Hc', map_size_delete_Some by eauto. destruct (size (contents t)) eqn:E; [|lia].
    apply map_size_empty_inv in E. rewrite E in Hl. done. }
  pose proof (map_subseteq_size _ _ Hsub). pose proof (count_small t Hwf) as Hcs. rewrite (wf_count t Hwf) in Hcs.
  exists t'. split_and!; [done| |lia]. split; [done|done| |by rewrite Hcap'| | | |].
  - unfold same_shape in *. split_and!; try congruence; intuition congruence.
  - pose proof (count_small t0 Hwf0) as Hcs0. rewrite (wf_count t0 Hwf0) in Hcs0.
    rewrite uadd_small; lia.
  - rewrite Hc'. etrans; [apply delete_subseteq|done].
  - intros k x Hk Hx. rewrite Hc', lookup_delete_ne; [by apply Hkeep|]. intros <-. 
    assert (contents t0 !! key_view (s_key s) = Some s) by (by eapply lookup_weaken). congruence.
  - assert (Hlen : length (t_sessions t) = t_capacity t) by apply Hwf.
    assert (Hlen' : length (t_sessions t') = t_capacity t) by (rewrite <- Hcap'; apply Hwf').
    apply (from_ahead_below skey (t_capacity t) (t_sessions t) i (t_sessions t') (fun x => doomed x = false)); [|done..].
    apply lookup_lt_Some in Hs. lia.
Qed.

Lemma swept_next doomed t0 t i removed s :
  swept doomed t0 t i removed -> (i < t_capacity t)%nat -> t_sessions t !! i = Some s ->
  s_used s && doomed s = false -> swept doomed t0 t (i + 1) removed.
Proof.
  intros [? ? ? ? ? ? ? Hdone] Hi Hs Hd. split; [done..|lia|done|done|done|].
  intros j x Hj Hx Hk. destruct (decide (j = i)) as [->|]; [|apply (Hdone j); [lia|done..]].
  rewrite Hs in Hx. injection Hx as <-. unfold skey in Hk. destruct (s_used s); [done|by destruct Hk].
Qed.

Lemma sweep_filter doomed t t' :
  contents t' ⊆ contents t ->
  (forall k s, contents t !! k = Some s -> doomed s = false -> contents t' !! k = Some s) ->
  (forall k s, contents t' !! k = Some s -> doomed s = false) ->
  contents t' = filter (fun ks => doomed ks.2 = false) (contents t).
Proof.
  intros Hsub Hkeep Hdone. apply map_eq. intros k. apply option_eq. intros s. rewrite map_lookup_filter_Some. cbn.
  split; [|by intros [? ?]; apply Hkeep]. intros Hs. split; [by eapply lookup_weaken|by eapply Hdone].
Qed.

(** A sweep ends and leaves exactly the entries that are not doomed. *)
Lemma sweep_spec doomed t : table_wf t ->
  exists t' n, sweep doomed t = Some (t', n) /\ table_wf t' /\ same_shape t t' /\
    n = Z.of_nat (size (contents t)) - Z.of_nat (size (contents t')) /\
    contents t' = filter (fun ks => doomed ks.2 = false) (contents t).
Proof.
  intros Hwf. unfold sweep.
  destruct (while_pos_total (sweep_step doomed) (fun '(t1, i, n) => swept doomed t t1 i n)
    (fun '(t1, i, n) => (t_capacity t - i) + size (contents t1))%nat
    (fun r => exists t' n, r = Some (t', n) /\ swept doomed t t' (t_capacity t') n) (sweep_fuel t) (t, 0%nat, 0))
    as (r & -> & t' & n & -> & Hsw).
  - intros [[t1 i] n] Hsw. unfold sweep_step. pose proof (sw_shape _ _ _ _ _ Hsw) as [Hcap _].
    destruct (i <? t_capacity t1)%nat eqn:Ei.
    + apply Nat.ltb_lt in Ei. destruct (t_sessions t1 !! i) as [s|] eqn:Es.
      2: { apply lookup_ge_None in Es. pose proof (fr_len t1 (wf_frame _ (sw_wf _ _ _ _ _ Hsw))). lia. }
      destruct (s_used s && doomed s) eqn:Ed.
      * apply andb_true_iff in Ed as [Hu Hd].
        destruct (swept_delete _ _ _ _ _ _ Hsw Es Hu Hd) as (t2 & -> & Hsw2 & Hlt). split; [done|lia].
      * split; [by eapply swept_next|lia].
    + apply Nat.ltb_ge in Ei. exists t1, n. split; [done|]. pose proof (sw_pos _ _ _ _ _ Hsw).
      by replace (t_capacity t1) with i by lia.
  - split; [done|done|by split_and!|lia|lia|done|done|intros; lia].
  - pose proof (count_small t Hwf) as Hcs. rewrite (wf_count t Hwf) in Hcs. unfold sweep_fuel.
    rewrite <- Z2Nat.inj_pos, Z2Pos.id by lia. lia.
  - destruct Hsw as [_ Hwf' Hsh _ Hn Hsub Hkeep Hdone]. exists t', n. split_and!; [done..|].
    apply sweep_filter; [done..|].
    intros k s Hs. apply contents_lookup in Hs as (j & Hj & Hk); [|done].
    apply (Hdone j); [|done|by eexists]. rewrite <- (fr_len t' (wf_frame t' Hwf')). by apply lookup_lt_Some in Hj.
Qed.

(** *** Rebuilding the mask *)

(** [n] is a connection-ID length that some entry of [t] carries. *)
Definition carries (t : qsr_session_table) (n : Z) : Prop :=
  exists k s, contents t !! k = Some s /\ mask_entry (s_key s) = true /\ k_dcid_len (s_key s) = n.

Lemma mask_add_testbit m k n :
  Z.testbit (mask_add m k) n = true <-> Z.testbit m n = true \/ mask_entry k = true /\ k_dcid_len k = n.
Proof.
  unfold mask_add. destruct (mask_entry k) eqn:Ek; [|intuition congruence].
  pose proof (mask_bit_range k Ek). assert (2 ^ k_dcid_len k < 2 ^ 32) by (apply Z.pow_lt_mono_r; lia).
  rewrite Z.shiftl_1_l, wrap_small, Z.lor_spec, orb_true_iff by lia.
  destruct (decide (k_dcid_len k = n)) as [<-|]; [rewrite Z.pow2_bits_true by lia; intuition|].
  rewrite Z.pow2_bits_false by done. intuition congruence.
Qed.

Lemma rebuild_fold l m n :
  Z.testbit (foldl (fun mask session => if s_used session then mask_add mask (s_key session) else mask) m l) n = true <->
  Z.testbit m n = true \/
    exists s, s ∈ l /\ s_used s = true /\ mask_entry (s_key s) = true /\ k_dcid_len (s_key s) = n.
Proof.
  revert m. induction l as [|s l IH]; intros m; cbn [foldl].
  - split; [by left|]. intros [|(s & Hs & _)]; [done|]. by apply not_elem_of_nil in Hs.
  - rewrite IH. assert (Hm : Z.testbit (if s_used s then mask_add m (s_key s) else m) n = true <->
      Z.testbit m n = true \/ s_used s = true /\ mask_entry (s_key s) = true /\ k_dcid_len (s_key s) = n).
    { destruct (s_used s); [rewrite mask_add_testbit|]; intuition congruence. }
    rewrite Hm. split.
    + intros [[|Hs]|(x & Hx & Hrest)]; [by left|right; exists s; split; [left|done]|].
      right. exists x. split; [by right|done].
    + intros [|(x & Hx & Hrest)]; [by left; left|]. apply elem_of_cons in Hx as [->|Hx]; [by left; right|].
      right. by exists x.
Qed.

Lemma rebuild_mask_spec t n : table_wf t ->
  Z.testbit (t_cid_len_mask (rebuild_cid_len_mask t)) n = true <-> carries t n.
Proof.
  intros Hwf. cbn. rewrite rebuild_fold. unfold carries. split.
  - intros [Hn|(s & Hs & Hu & Hm & Hn)]; [by rewrite Z.bits_0 in Hn|]. apply list_elem_of_lookup in Hs as [i Hi].
    destruct (slot_contents t i s Hwf Hi Hu) as [_ Hl]. eauto.
  - intros (k & s & Hl & Hm & Hn). right. exists s. destruct (contents_used t k s Hwf Hl) as [Hu _].
    apply contents_lookup in Hl as (i & Hi & _); [|done]. split_and!; [by eapply list_elem_of_lookup_2|done..].
Qed.

Lemma rebuild_wf t : table_wf t -> table_wf (rebuild_cid_len_mask t).
Proof.
  intros Hwf. split; [|apply Hwf|apply Hwf]. destruct (wf_frame t Hwf) as [? ? ? ? He]. split; [done..|].
  intros i s Hs Hu. destruct (He i s Hs Hu) as (? & ? & _). split_and!; [done..|]. intros Hm.
  assert (Hn : Z.testbit (t_cid_len_mask (rebuild_cid_len_mask t)) (k_dcid_len (s_key s)) = true).
  { apply rebuild_mask_spec; [done|]. destruct (slot_contents t i s Hwf Hs Hu) as [_ Hl]. eexists _, s. eauto. }
  split; [done|]. intros _. exact Hn.
Qed.
(** *** The incremental sweep *)

Definition kept (keep : option (qsr_session -> bool)) (s : qsr_session) : bool :=
  match keep with Some keep => keep s | None => false end.

(** What incremental sweeping at time [now] may have done to each entry: nothing,
    removed it if it was idle and not kept, touched it if idle and kept. *)
Definition aged (now timeout : Z) (keep : option (qsr_session -> bool)) (m m' : gmap key_view_t qsr_session) : Prop :=
  forall k, match m !! k, m' !! k with
  | None, None => True
  | Some s, Some s' => s' = s \/ idle now timeout s = true /\ kept keep s = true /\ s' = touched now s
  | Some s, None => idle now timeout s = true /\ kept keep s = false
  | None, Some _ => False
  end.

Lemma aged_refl now timeout keep m : aged now timeout keep m m.
Proof. intros k. destruct (m !! k); [by left|done]. Qed.

Lemma aged_trans now timeout keep m1 m2 m3 : 0 < timeout ->
  aged now timeout keep m1 m2 -> aged now timeout keep m2 m3 -> aged now timeout keep m1 m3.
Proof.
  intros Ht H1 H2 k. specialize (H1 k). specialize (H2 k).
  destruct (m1 !! k) as [s1|], (m2 !! k) as [s2|], (m3 !! k) as [s3|]; try done.
  - destruct H1 as [->|(Hi & Hk & ->)]; [done|]. right. split_and!; [done..|].
    destruct H2 as [->|(Hi2 & _)]; [done|]. unfold idle in Hi2. cbn in Hi2. bool_to_prop. lia.
  - destruct H1 as [->|(Hi & Hk & ->)]; [done|]. destruct H2 as [Hi2 _].
    unfold idle in Hi2. cbn in Hi2. bool_to_prop. lia.
Qed.

Lemma touch_spec t i s now : table_wf t -> t_sessions t !! i = Some s -> s_used s = true ->
  let t' := set_sessions t (alter (touched now) i (t_sessions t)) in
  table_wf t' /\ contents t' = <[key_view (s_key s) := touched now s]> (contents t).
Proof.
  intros Hwf Hs Hu t'. destruct (slot_contents t i s Hwf Hs Hu) as [Hv Hl].
  assert (Hp : session_probe t (s_key s) = Some (i, true)).
  { rewrite session_probe_eq. apply probe_found; [apply shome_lt, Hwf|apply Hwf|done]. }
  destruct (fr_entry t (wf_frame t Hwf) i s Hs Hu) as (_ & Hb & _).
  destruct (update_spec t i (s_key s) (AddrVal (s_backend_addr s)) (s_backend_addr_len s) now 0 0 Hwf Hp Hb)
    as (Hwf' & s' & Hl' & Hc'). rewrite Hl in Hl'. injection Hl' as <-.
  replace t' with (update_at t i (AddrVal (s_backend_addr s)) (s_backend_addr_len s) now 0 0); [by split|].
  unfold update_at, t'. f_equal. by rewrite !(list_alter_at _ _ _ s Hs).
Qed.

(** Advancing the cursor past slot [i] after adding its entry to the pending mask. *)
Lemma advance_spec t s : table_wf t -> t_sessions t !! t_expire_cursor t = Some s ->
  table_wf (advance t s) /\ contents (advance t s) = contents t /\ t_capacity (advance t s) = t_capacity t.
Proof.
  intros Hwf Hs. unfold advance.
  set (t1 := if s_used s then _ else _). set (t2 := set_expire_cursor t1 _). set (t3 := if (_ =? 0)%nat then _ else _).
  assert (Hsess : t_sessions t3 = t_sessions t) by (unfold t3, t2, t1; repeat split_if; done).
  assert (Hcap : t_capacity t3 = t_capacity t) by (unfold t3, t2, t1; repeat split_if; done).
  assert (Hcount : t_count t3 = t_count t) by (unfold t3, t2, t1; repeat split_if; done).
  assert (Hcont : contents t3 = contents t) by (unfold contents; by rewrite Hsess).
  split; [|done]. split; [|by rewrite Hcap, Hsess; apply Hwf|by rewrite Hcount, Hcont; apply Hwf].
  destruct (wf_frame t Hwf) as [Hcap0 Hsz Hlen Hcur He].
  assert (Hcur3 : t_expire_cursor t3 = ((t_expire_cursor t + 1) mod t_capacity t)%nat)
    by (unfold t3, t2, t1; repeat split_if; done).
  split; rewrite ?Hcap, ?Hsess, ?Hcur3; [done..|by apply Nat.mod_upper_bound; lia|].
  intros j x Hx Hu. destruct (He j x Hx Hu) as (? & ? & Hm). split_and!; [done..|]. intros Hme. specialize (Hm Hme).
  assert (Hpend : (j <= t_expire_cursor t)%nat -> Z.testbit (t_cid_len_mask_pending t1) (k_dcid_len (s_key x)) = true).
  { intros Hj. destruct (decide (j = t_expire_cursor t)) as [->|].
    - rewrite Hs in Hx. injection Hx as <-. unfold t1. rewrite Hu. cbn. by apply mask_add_self.
    - unfold t1. split_if; cbn; [apply mask_add_grow|]; apply Hm; lia. }
  assert (Hmask : t_cid_len_mask t1 = t_cid_len_mask t) by (unfold t1; by split_if).
  apply lookup_lt_Some in Hx. unfold t3. change (t_expire_cursor t2) with ((t_expire_cursor t1 + 1) mod t_capacity t1)%nat.
  replace (t_expire_cursor t1) with (t_expire_cursor t) by (unfold t1; by split_if).
  replace (t_capacity t1) with (t_capacity t) by (unfold t1; by split_if).
  destruct (decide (t_expire_cursor t + 1 = t_capacity t)%nat) as [Heq|].
  - rewrite Heq, Nat.Div0.mod_same. cbn. split; [apply Hpend; lia|lia].
  - rewrite Nat.mod_small by lia. rewrite (proj2 (Nat.eqb_neq _ 0)) by lia. cbn. rewrite Hmask.
    split; [by apply Hm|]. intros ?. apply Hpend. lia.
Qed.

Lemma expire_one_spec t now timeout keep : table_wf t ->
  exists t' deleted, expire_one t now timeout keep = Some (t', deleted) /\ table_wf t' /\
    t_capacity t' = t_capacity t /\ aged now timeout keep (contents t) (contents t') /\
    size (contents t) = (size (contents t') + if deleted then 1 else 0)%nat.
Proof.
  intros Hwf. pose proof (wf_frame t Hwf) as Hf. unfold expire_one.
  destruct (t_sessions t !! t_expire_cursor t) as [s|] eqn:Es.
  2: { apply lookup_ge_None in Es. pose proof (fr_len t Hf). pose proof (fr_expire t Hf). lia. }
  cbn [mbind option_bind]. fold (kept keep s).
  destruct (s_used s && idle now timeout s) eqn:Ex; cbn [andb].
  - apply andb_true_iff in Ex as [Hu Hi]. destruct (slot_contents t _ s Hwf Es Hu) as [Hv Hl].
    destruct (kept keep s) eqn:Ek; cbn [negb].
    + destruct (touch_spec t _ s now Hwf Es Hu) as [Hwf1 Hc1].
      set (t1 := set_sessions t (alter (touched now) (t_expire_cursor t) (t_sessions t))) in *.
      assert (Hs1 : t_sessions t1 !! t_expire_cursor t1 = Some (touched now s)).
      { cbn. by rewrite list_lookup_alter_eq, Es. }
      destruct (advance_spec t1 _ Hwf1 Hs1) as (Hwf3 & Hc3 & Hcap3). exists (advance t1 (touched now s)), false.
      split_and!; [done|done|done|rewrite Hc3, Hc1..].
      * intros k. destruct (decide (key_view (s_key s) = k)) as [<-|].
        { rewrite Hl, lookup_insert_eq. right. done. }
        rewrite lookup_insert_ne by done. by destruct (contents t !! k); [left|].
      * rewrite map_size_insert_Some by eauto. lia.
    + destruct (delete_spec 0 t _ _ Hwf Hv) as (t' & Ht' & Hwf' & Hc' & (Hcap' & _) & _).
      unfold delete_at. rewrite Ht'. cbn. exists t', true. split_and!; [done..| |].
      * intros k. rewrite Hc'. destruct (decide (key_view (s_key s) = k)) as [<-|].
        { by rewrite Hl, lookup_delete_eq. }
        rewrite lookup_delete_ne by done. by destruct (contents t !! k); [left|].
      * rewrite Hc', map_size_delete_Some by eauto. destruct (size (contents t)) eqn:E; [|lia].
        apply map_size_empty_inv in E. rewrite E in Hl. done.
  - destruct (advance_spec t _ Hwf Es) as (Hwf3 & Hc3 & Hcap3). eexists _, false. split; [reflexivity|].
    split_and!; [exact Hwf3|exact Hcap3|rewrite Hc3; apply aged_refl|rewrite Hc3; lia].
Qed.

Lemma expire_loop_spec now timeout keep n : 0 < timeout -> forall t expired, table_wf t ->
  0 <= expired -> expired + Z.of_nat (size (contents t)) < 2 ^ 64 ->
  exists t' e, expire_loop t now timeout keep n expired = Some (t', e) /\ table_wf t' /\
    t_capacity t' = t_capacity t /\ aged now timeout keep (contents t) (contents t') /\
    e = expired + Z.of_nat (size (contents t)) - Z.of_nat (size (contents t')) /\ e <= expired + Z.of_nat n.
Proof.
  intros Ht. induction n as [|n IH]; intros t expired Hwf H0 Hb; cbn [expire_loop].
  - exists t, expired. split_and!; [done..|apply aged_refl|lia|lia].
  - destruct (expire_one_spec t now timeout keep Hwf) as (t1 & del & -> & Hwf1 & Hcap1 & Hag1 & Hsz1).
    cbn [mbind option_bind]. set (e1 := if del then uadd expired 1 else expired).
    assert (He1 : e1 = expired + if del then 1 else 0).
    { unfold e1. destruct del; [rewrite uadd_small; lia|lia]. }
    destruct (IH t1 e1 Hwf1) as (t' & e & -> & Hwf' & Hcap' & Hag' & He & Hle); [destruct del; lia..|].
    exists t', e. split_and!; [done..|congruence|by eapply aged_trans|destruct del; lia|destruct del; lia].
Qed.
Lemma expire_loop_wf now timeout keep n : forall t expired, table_wf t ->
  exists t' e, expire_loop t now timeout keep n expired = Some (t', e) /\ table_wf t'.
Proof.
  induction n as [|n IH]; intros t expired Hwf; cbn [expire_loop]; [by exists t, expired|].
  destruct (expire_one_spec t now timeout keep Hwf) as (t1 & del & -> & Hwf1 & _).
  cbn [mbind option_bind]. by apply IH.
Qed.

(** The null and empty-table guards do not fire on a well-formed table. *)
Lemma live_guard t : table_wf t -> (length (t_sessions t) =? 0)%nat || (t_capacity t =? 0)%nat = false.
Proof.
  intros [[? ? Hl ? _] _ _]. rewrite Hl. by rewrite (proj2 (Nat.eqb_neq (t_capacity t) 0)) by lia.
Qed.

Lemma init_wf calloc capacity t :
  (forall n sz, calloc n sz = true -> n * sz < 2 ^ 64) ->
  qsr_session_table_init calloc capacity = inl t -> table_wf t /\ contents t = ∅.
Proof.
  intros Hcalloc. unfold qsr_session_table_init. destruct (capacity =? 0)%nat eqn:E0; [done|].
  destruct (calloc _ _) eqn:Ec; [|done]. intros [= <-]. apply Hcalloc in Ec. apply Nat.eqb_neq in E0.
  destruct (table_inv_empty skey session0 capacity (shome capacity) skey_session0) as [Hi Ha]; [lia|].
  set (t := {| t_sessions := _ |}). change (contents t = ∅) in Ha. split; [|exact Ha]. split; [|exact Hi|by rewrite Ha].
  split; cbn; [lia|done|by rewrite length_replicate|lia|].
  intros i s Hs Hu. apply lookup_replicate in Hs as [-> _]. done.
Qed.

Lemma session_put_guarded t key addr len now os oid : table_wf t ->
  exists t' st, qsr_session_table_put_owned t key (AddrVal addr) len now os oid = Some (t', st) /\ table_wf t'.
Proof.
  intros Hwf. destruct (key_valid key && backend_valid addr len) eqn:E.
  - apply andb_true_iff in E as [Hk Hb].
    destruct (put_spec 0 t key addr len now os oid Hwf Hk Hb) as (t' & ? & ? & _). by exists t', QSR_OK.
  - exists t, QSR_ERR_INVALID. split; [|done]. unfold qsr_session_table_put_owned.
    cbn [session_table_put_internal]. rewrite (live_guard t Hwf). cbn [orb read_addr].
    apply andb_false_iff in E as [->| ->]; [done|by rewrite orb_true_r].
Qed.

Lemma get_slot t key i : table_wf t -> qsr_session_table_get t key = Some i ->
  exists s, t_sessions t !! i = Some s /\ s_used s = true.
Proof.
  intros Hwf. unfold qsr_session_table_get. destruct (_ || _); [done|].
  pose proof (probe_contents t key Hwf) as Hp. destruct (session_probe t key) as [[j []]|]; [|done..].
  intros [= ->]. destruct Hp as (s & Hs & Hl). exists s. split; [done|]. by apply (contents_used t _ s Hwf Hl).
Qed.

Lemma get_spec t key :
  table_wf t ->
  if key_valid key then
    match qsr_session_table_get t key with
    | Some i => exists s, t_sessions t !! i = Some s /\ contents t !! key_view key = Some s
    | None => contents t !! key_view key = None
    end
  else qsr_session_table_get t key = None.
Proof.
  intros Hwf. unfold qsr_session_table_get. rewrite (live_guard t Hwf). cbn [orb].
  destruct (key_valid key); [|done]. cbn [negb]. pose proof (probe_contents t key Hwf) as Hp.
  destruct (session_probe t key) as [[i []]|]; [done..|by destruct Hp].
Qed.

Lemma expire_wf t now timeout t' n : table_wf t -> qsr_session_table_expire t now timeout = Some (t', n) -> table_wf t'.
Proof.
  intros Hwf. unfold qsr_session_table_expire. rewrite (live_guard t Hwf).
  destruct (sweep_spec (idle now timeout) t Hwf) as (t1 & m & -> & Hwf1 & _). cbn [mbind option_bind].
  intros [= <- <-]. split_if; [by apply rebuild_wf|done].
Qed.

Lemma expire_incremental_spec t now timeout budget keep :
  table_wf t -> 0 < timeout ->
  exists t' n, qsr_session_table_expire_incremental t now timeout budget keep = Some (t', n) /\ table_wf t' /\
    t_capacity t' = t_capacity t /\ aged now timeout keep (contents t) (contents t') /\
    n = Z.of_nat (size (contents t)) - Z.of_nat (size (contents t')) /\ n <= Z.of_nat budget.
Proof.
  intros Hwf Ht. unfold qsr_session_table_expire_incremental. rewrite (live_guard t Hwf). cbn [orb].
  destruct (budget =? 0)%nat eqn:Eb.
  - exists t, 0. split_and!; [done..|apply aged_refl|lia|lia].
  - pose proof (count_small t Hwf) as Hcs. rewrite (wf_count t Hwf) in Hcs.
    destruct (expire_loop_spec now timeout keep (budget `min` t_capacity t) Ht t 0 Hwf)
      as (t' & n & -> & Hwf' & ? & Hag & Hn & Hle); [lia..|]. exists t', n. split_and!; [done..|lia|lia].
Qed.

Lemma expire_incremental_wf t now timeout budget keep t' n : table_wf t ->
  qsr_session_table_expire_incremental t now timeout budget keep = Some (t', n) -> table_wf t'.
Proof.
  intros Hwf. unfold qsr_session_table_expire_incremental. split_if; [by intros [= <- _]|].
  edestruct (expire_loop_wf now timeout keep) as (t1 & e & -> & Hwf1); [done|]. by intros [= <- _].
Qed.

Lemma evict_if_wf t pred t' n : table_wf t -> qsr_session_table_evict_if t pred = Some (t', n) -> table_wf t'.
Proof.
  intros Hwf. unfold qsr_session_table_evict_if. destruct pred as [pred|]; [|by intros [= <- _]].
  split_if; [by intros [= <- _]|]. destruct (sweep_spec pred t Hwf) as (t1 & m & -> & Hwf1 & _). by intros [= <- _].
Qed.

Lemma evict_if_capacity t pred t' n : table_wf t -> qsr_session_table_evict_if t pred = Some (t', n) ->
  t_capacity t' = t_capacity t.
Proof.
  intros Hwf. unfold qsr_session_table_evict_if. destruct pred as [pred|]; [|by intros [= <- _]].
  split_if; [by intros [= <- _]|]. destruct (sweep_spec pred t Hwf) as (t1 & m & -> & _ & [Hcap _] & _). by intros [= <- _].
Qed.

Lemma pressure_count t : table_wf t -> pressure_evict_needed t = true -> 900 <= t_count t.
Proof.
  intros Hwf. pose proof (count_small t Hwf). unfold pressure_evict_needed, QSR_PRESSURE_EVICT_MIN_CAPACITY,
    QSR_PRESSURE_EVICT_LOAD_PERCENT. intros. bool_to_prop. rewrite !wrap_small in * by lia. lia.
Qed.

(** Everything the program does to a session table. *)
Inductive reachable (calloc : Z -> Z -> bool) : qsr_session_table -> Prop :=
  | reach_init capacity t :
      qsr_session_table_init calloc capacity = inl t -> reachable calloc t
  | reach_put t key addr len now os oid t' status :
      reachable calloc t -> qsr_session_table_put_owned t key (AddrVal addr) len now os oid = Some (t', status) ->
      reachable calloc t'
  | reach_touch t key i now :
      reachable calloc t -> qsr_session_table_get t key = Some i ->
      reachable calloc (set_sessions t (alter (touched now) i (t_sessions t)))
  | reach_expire t now timeout t' n :
      reachable calloc t -> qsr_session_table_expire t now timeout = Some (t', n) -> reachable calloc t'
  | reach_expire_incremental t now timeout budget keep t' n :
      reachable calloc t -> qsr_session_table_expire_incremental t now timeout budget keep = Some (t', n) ->
      reachable calloc t'
  | reach_evict_if t pred t' n :
      reachable calloc t -> qsr_session_table_evict_if t pred = Some (t', n) -> reachable calloc t'.
End theory.

(** ** Properties *)

Section properties.
Context `{KeyedHash}.

(** C30: [put] implements insertion into the map. An invalid key or backend
    address is refused and changes nothing. Otherwise the call always succeeds:
    a present key is refreshed in place (keeping its owner when the call names
    none), an absent key is added after [makes_room] - nothing when there is
    room, one eviction of an oldest entry of the scan window when every slot is
    used, two under load pressure - and the table stays well formed. *)
Theorem session_put_refines t key addr len now os oid :
  table_wf t ->
  if key_valid key && backend_valid addr len then
    exists t', qsr_session_table_put_owned t key (AddrVal addr) len now os oid = Some (t', QSR_OK) /\
      table_wf t' /\ t_capacity t' = t_capacity t /\
      match contents t !! key_view key with
      | Some s => contents t' = <[key_view key := refreshed s addr len now os oid]> (contents t)
      | None => exists t1, makes_room t t1 /\
          contents t' = <[key_view key := new_session key addr len now os oid]> (contents t1)
      end
  else qsr_session_table_put_owned t key (AddrVal addr) len now os oid = Some (t, QSR_ERR_INVALID).
Proof.
  intros Hwf. destruct (key_valid key && backend_valid addr len) eqn:E.
  - apply andb_true_iff in E as [Hk Hb]. by apply (put_spec 0).
  - unfold qsr_session_table_put_owned. cbn [session_table_put_internal]. rewrite (live_guard t Hwf).
    cbn [orb read_addr]. apply andb_false_iff in E as [->| ->]; [done|by rewrite orb_true_r].
Qed.

(** [get] implements lookup in the map: it returns the slot that holds the
    entry of an equal key, and null exactly when the map has none (or the key is
    not valid). *)
Theorem session_get_refines t key :
  table_wf t ->
  if key_valid key then
    match qsr_session_table_get t key with
    | Some i => exists s, t_sessions t !! i = Some s /\ contents t !! key_view key = Some s
    | None => contents t !! key_view key = None
    end
  else qsr_session_table_get t key = None.
Proof. apply get_spec. Qed.

(** Every table the program can reach - from [init] by puts, refreshes of
    found entries, full and incremental expiry and filtered eviction, in any
    order - is well formed: lookups see exactly the stored entries, [count] is
    their number, stored entries are valid, and the connection-ID length mask
    covers every stored entry. *)
Theorem session_reachable_wf (calloc : Z -> Z -> bool) t :
  (forall n sz, calloc n sz = true -> n * sz < 2 ^ 64) ->
  reachable calloc t -> table_wf t.
Proof.
  intros Hcalloc. induction 1 as [capacity t Hi|t key addr len now os oid t' status _ Hwf Hp|t key i now _ Hwf Hg
    |t now timeout t' n _ Hwf He|t now timeout budget keep t' n _ Hwf He|t pred t' n _ Hwf He].
  - by eapply init_wf.
  - pose proof (session_put_guarded t key addr len now os oid Hwf) as (t1 & st1 & Hp1 & Hwf1). congruence.
  - pose proof (get_slot t key i Hwf Hg) as (s & Hs & Hu). by apply (touch_spec t i s now Hwf Hs Hu).
  - by eapply expire_wf.
  - by eapply expire_incremental_wf.
  - by eapply evict_if_wf.
Qed.

(** [expire] removes exactly the entries idle for the timeout or longer,
    however full the table is, and returns their number. When it removed any,
    the connection-ID length mask is afterwards exactly the set of lengths still
    in use. *)
Theorem session_expire_refines t now timeout :
  table_wf t ->
  exists t' n, qsr_session_table_expire t now timeout = Some (t', n) /\ table_wf t' /\
    contents t' = filter (fun ks => idle now timeout ks.2 = false) (contents t) /\
    n = Z.of_nat (size (contents t)) - Z.of_nat (size (contents t')) /\
    (0 < n -> forall len, Z.testbit (qsr_session_table_cid_len_mask t') len = true <-> carries t' len).
Proof.
  intros Hwf. unfold qsr_session_table_expire. rewrite (live_guard t Hwf).
  destruct (sweep_spec (idle now timeout) t Hwf) as (t1 & n & -> & Hwf1 & _ & Hn & Hc). cbn [mbind option_bind].
  eexists _, n. split; [done|]. destruct (0 <? n) eqn:En; bool_to_prop.
  - split_and!; [by apply rebuild_wf|done|done|]. intros _ len. change (carries (rebuild_cid_len_mask t1) len) with (carries t1 len).
    by apply rebuild_mask_spec.
  - split_and!; [done..|lia].
Qed.

(** [evict_if] removes exactly the entries its filter selects and returns
    their number; a null filter removes nothing. *)
Theorem session_evict_if_refines t pred :
  table_wf t ->
  exists t' n, qsr_session_table_evict_if t pred = Some (t', n) /\ table_wf t' /\
    contents t' = filter (fun ks => default (fun _ => false) pred ks.2 = false) (contents t) /\
    n = Z.of_nat (size (contents t)) - Z.of_nat (size (contents t')).
Proof.
  intros Hwf. unfold qsr_session_table_evict_if. destruct pred as [pred|].
  - rewrite (live_guard t Hwf). destruct (sweep_spec pred t Hwf) as (t1 & n & -> & Hwf1 & _ & Hn & Hc). eauto 10.
  - exists t, 0. split_and!; [done..| |lia]. symmetry. by apply map_filter_id.
Qed.

(** The incremental sweep only ages entries: it removes nothing but idle
    entries that the [keep] callback does not keep, refreshes the idle entries
    it does keep, leaves all others as they are, keeps the table (with its
    length masks) well formed, and returns the number removed, at most its
    budget. *)
Theorem session_expire_incremental_refines t now timeout budget keep :
  table_wf t -> 0 < timeout ->
  exists t' n, qsr_session_table_expire_incremental t now timeout budget keep = Some (t', n) /\ table_wf t' /\
    aged now timeout keep (contents t) (contents t') /\
    n = Z.of_nat (size (contents t)) - Z.of_nat (size (contents t')) /\ n <= Z.of_nat budget.
Proof.
  intros Hwf Ht. destruct (expire_incremental_spec t now timeout budget keep Hwf Ht) as (t' & n & ? & ? & _ & ?). by exists t', n.
Qed.

(** C31: inserting a new key into a table under load pressure, of whatever
    capacity, evicts twice before the entry is stored: an oldest entry of the
    scan window goes, then an oldest of the window behind it. The table is
    smaller afterwards whenever both windows have an entry, and always when the
    window covers the table. A full table is not meant: it evicts once. *)
Theorem session_pressure_put_shrinks t key addr len now os oid :
  table_wf t -> key_valid key = true -> backend_valid addr len = true ->
  contents t !! key_view key = None -> pressure_evict_needed t = true -> t_count t < Z.of_nat (t_capacity t) ->
  exists t1 t2 t', qsr_session_table_put_owned t key (AddrVal addr) len now os oid = Some (t', QSR_OK) /\
    evict_oldest (session_table_put_internal 0) t = Some t1 /\ evicts t t1 /\
    evict_oldest (session_table_put_internal 0) t1 = Some t2 /\ evicts t1 t2 /\
    contents t' = <[key_view key := new_session key addr len now os oid]> (contents t2) /\
    ((exists s, in_window t s) -> (exists s, in_window t1 s) -> t_count t' = t_count t - 1) /\
    (Z.of_nat (t_capacity t) <= QSR_EVICT_SCAN_BUDGET -> t_count t' = t_count t - 1).
Proof.
  intros Hwf Hk Hb Hn Hp Hc.
  destruct (pressure_put 0 t key addr len now os oid Hwf Hk Hb Hn Hp Hc)
    as (t1 & t2 & t' & He1 & Hwf1 & Hcap1 & Hv1 & He2 & Hv2 & Ht' & Hwf' & _ & Hc').
  assert (Hcount : (exists s, in_window t s) -> (exists s, in_window t1 s) -> t_count t' = t_count t - 1).
  { intros [s Hs] [s1 Hs1]. pose proof (evicts_subset _ _ Hv1) as Hs01. pose proof (evicts_subset _ _ Hv2) as Hs12.
    rewrite (wf_count t' Hwf'), (wf_count t Hwf), Hc', (evicts_victim t t1 s), (evicts_victim t1 t2 s1) by done.
    rewrite map_size_insert_None by (eapply lookup_weaken_None; [|exact Hs12]; by eapply lookup_weaken_None). lia. }
  exists t1, t2, t'. split_and!; [done..|]. intros Hle. pose proof (pressure_count t Hwf Hp) as Hpc. rewrite (wf_count t Hwf) in Hpc.
  destruct (covered_window t Hwf Hle) as [s Hs]; [lia|]. pose proof (evicts_victim t t1 s Hwf Hv1 Hs).
  apply Hcount; [by exists s|]. apply covered_window; [done|by rewrite Hcap1|lia].
Qed.
End properties.

(** ** Concrete tables *)

Section examples.

Definition demo_key (n : Z) : qsr_session_key :=
  qsr_session_single_cid_key [n mod 256; n / 256; 0; 0; 0; 0; 0; 0] 8.

Definition demo_table (capacity : nat) : qsr_session_table :=
  default (qsr_session_table_free {| t_sessions := []; t_capacity := 0; t_count := 0; t_expire_cursor := 0;
    t_evict_cursor := 0; t_cid_len_mask := 0; t_cid_len_mask_pending := 0 |})
    (match qsr_session_table_init (fun n sz => n * sz <? 2 ^ 64) capacity with inl t => Some t | inr _ => None end).

(** Insert the keys [ns] at times [now], [now + 1], ... *)
Fixpoint demo_fill `{KeyedHash} (t : qsr_session_table) (ns : list Z) (now : Z) : qsr_session_table :=
  match ns with
  | [] => t
  | n :: ns =>
      let t := match qsr_session_table_put_owned t (demo_key n) (AddrVal (demo_addr n)) 16 now 0 n with
               | Some (t, _) => t | None => t end in
      demo_fill t ns (now + 1)
  end.

Lemma demo_table_init `{KeyedHash} capacity :
  (0 < capacity)%nat -> Z.of_nat capacity * SESSION_SIZE < 2 ^ 64 ->
  table_wf (demo_table capacity) /\ contents (demo_table capacity) = ∅ /\
  t_capacity (demo_table capacity) = capacity /\ t_count (demo_table capacity) = 0.
Proof.
  intros Hc Hs. unfold demo_table. destruct (qsr_session_table_init _ _) as [t|st] eqn:E.
  - destruct (init_wf _ _ _ (fun n sz Hb => proj1 (Z.ltb_lt _ _) Hb) E). cbn [default]. split_and!; [done..| |];
      unfold qsr_session_table_init in E; repeat split_if; by simplify_eq.
  - unfold qsr_session_table_init in E. rewrite (proj2 (Nat.eqb_neq _ 0)) in E by lia.
    by rewrite (proj2 (Z.ltb_lt _ _) Hs) in E.
Qed.

Lemma demo_table_wf `{KeyedHash} capacity :
  (0 < capacity)%nat -> Z.of_nat capacity * SESSION_SIZE < 2 ^ 64 -> table_wf (demo_table capacity).
Proof. intros. by apply demo_table_init. Qed.

Lemma demo_fill_wf `{KeyedHash} ns : forall t now, table_wf t -> table_wf (demo_fill t ns now).
Proof.
  induction ns as [|n ns IH]; intros t now Hwf; cbn [demo_fill]; [done|]. apply IH.
  destruct (session_put_guarded t (demo_key n) (demo_addr n) 16 now 0 n Hwf) as (t' & st & -> & Hwf'). done.
Qed.

Lemma demo_key_view n : key_view (demo_key n) = (false, true, 0, 8, 0, [], [n mod 256; n / 256; 0; 0; 0; 0; 0; 0], []).
Proof. apply (single_cid_key_view [n mod 256; n / 256; 0; 0; 0; 0; 0; 0]). cbv. split; discriminate. Qed.

Lemma demo_key_inj n m : key_view (demo_key n) = key_view (demo_key m) -> n = m.
Proof. rewrite !demo_key_view. intros [= H1 H2]. dlia. Qed.

(** Filling 922 slots of 1024 with distinct keys evicts nothing. *)
Lemma demo_fill_count `{KeyedHash} ns : forall t now, NoDup ns -> table_wf t -> t_capacity t = 1024%nat ->
  (forall n, n ∈ ns -> contents t !! key_view (demo_key n) = None) -> t_count t + Zlen ns <= 922 ->
  let t' := demo_fill t ns now in
  t_capacity t' = 1024%nat /\ t_count t' = t_count t + Zlen ns /\
  forall m, m ∉ ns -> contents t !! key_view (demo_key m) = None -> contents t' !! key_view (demo_key m) = None.
Proof.
  induction ns as [|n ns IH]; intros t now Hnd Hwf Hcap Hnew Hle; cbn [demo_fill].
  { unfold Zlen. cbn. split_and!; [done|lia|done]. }
  inversion_clear Hnd as [|? ? Hn Hnd']. rename Hnd' into Hnd. pose proof (count_small t Hwf).
  assert (Hlen : Zlen (n :: ns) = 1 + Zlen ns) by (unfold Zlen; cbn; lia). rewrite Hlen in *.
  assert (0 <= Zlen ns) by (unfold Zlen; lia).
  destruct (put_spec 0 t (demo_key n) (demo_addr n) 16 now 0 n Hwf) as (t1 & Hp & Hwf1 & Hc1 & Hm);
    [done..|].
  unfold qsr_session_table_put_owned. rewrite Hp. rewrite Hnew in Hm by left. destruct Hm as (t2 & Hroom & Hc).
  assert (Hc2 : contents t2 = contents t).
  { destruct Hroom as [_ _ ?|? _|t3 Hpr _ _ _ _ _]; [done|lia|].
    unfold pressure_evict_needed, QSR_PRESSURE_EVICT_LOAD_PERCENT in Hpr. bool_to_prop.
    rewrite !wrap_small in * by lia. lia. }
  rewrite Hc2 in Hc. assert (Hcnt : t_count t1 = t_count t + 1).
  { rewrite (wf_count t1 Hwf1), (wf_count t Hwf), Hc, map_size_insert_None by (apply Hnew; left). lia. }
  assert (Hne : forall m, m <> n -> contents t1 !! key_view (demo_key m) = contents t !! key_view (demo_key m)).
  { intros m Hmn. rewrite Hc, lookup_insert_ne; [done|]. intros Heq. by apply demo_key_inj in Heq. }
  destruct (IH t1 (now + 1) Hnd Hwf1) as (Hcap' & Hcnt' & Hm'); [congruence| |lia|].
  - intros m Hmn. rewrite Hne; [by apply Hnew; right|]. by intros ->.
  - split_and!; [done|lia|]. intros m Hmn Hm. apply not_elem_of_cons in Hmn as [? ?]. apply Hm'; [done|]. by rewrite Hne.
Qed.

Local Existing Instance sum_hash.

Definition demo3 : qsr_session_table := demo_fill (demo_table 3) [0; 3; 2] 10.

Lemma demo3_wf : table_wf demo3.
Proof. apply demo_fill_wf, demo_table_wf; [lia|unfold SESSION_SIZE; lia]. Qed.

#[local] Opaque demo3.

Example session_put_refines_witness :
  exists t', qsr_session_table_put_owned demo3 (demo_key 7) (AddrVal (demo_addr 9)) 16 20 1 5 = Some (t', QSR_OK) /\ table_wf t'.
Proof.
  pose proof (session_put_refines demo3 (demo_key 7) (demo_addr 9) 16 20 1 5 demo3_wf) as Hp.
  change (key_valid (demo_key 7) && backend_valid (demo_addr 9) 16) with true in Hp.
  destruct Hp as (t' & ? & ? & _). exists t'. split; assumption.
Defined.

Example session_get_refines_witness :
  exists i s, qsr_session_table_get demo3 (demo_key 3) = Some i /\ t_sessions demo3 !! i = Some s /\
    contents demo3 !! key_view (demo_key 3) = Some s.
Proof.
  pose proof (session_get_refines demo3 (demo_key 3) demo3_wf) as Hg.
  change (key_valid (demo_key 3)) with true in Hg.
  assert (E : qsr_session_table_get demo3 (demo_key 3) = Some 1%nat) by (vm_compute; reflexivity).
  rewrite E in Hg. destruct Hg as (s & ? & ?). exists 1%nat, s. split; [exact E|split; assumption].
Defined.

Example session_reachable_wf_witness : table_wf (demo_table 3).
Proof.
  apply (session_reachable_wf (fun n sz => n * sz <? 2 ^ 64)).
  - intros n sz Hb. by apply Z.ltb_lt.
  - by apply (reach_init _ 3).
Defined.

Example session_expire_refines_witness :
  exists t' n, qsr_session_table_expire demo3 20 9 = Some (t', n) /\
    contents t' = filter (fun ks => idle 20 9 ks.2 = false) (contents demo3).
Proof.
  destruct (session_expire_refines demo3 20 9 demo3_wf) as (t' & n & ? & _ & ? & _). exists t', n. split; assumption.
Defined.

Example session_evict_if_refines_witness :
  exists t' n, qsr_session_table_evict_if demo3 None = Some (t', n) /\ table_wf t'.
Proof.
  destruct (session_evict_if_refines demo3 None demo3_wf) as (t' & n & ? & ? & _). exists t', n. split; assumption.
Defined.

Example session_expire_incremental_refines_witness :
  exists t' n, qsr_session_table_expire_incremental demo3 20 9 2 None = Some (t', n) /\ n <= 2.
Proof.
  destruct (session_expire_incremental_refines demo3 20 9 2 None demo3_wf) as (t' & n & ? & _ & _ & _ & ?); [lia|].
  exists t', n. split; assumption.
Defined.

(** A [put] whose address argument points into the table: the full table
    [demo3] holds the key 3 in slot 1, displaced by the older key 0. Adding an
    alias with the address of slot 1 evicts key 0, which moves key 3 to slot 0
    and leaves slot 1 empty; the alias is then stored in slot 1 itself, with the
    zeroed address found there instead of the address of key 3. *)
Example alias_of_moved_slot_is_zero :
  qsr_session_table_get demo3 (demo_key 3) = Some 1%nat /\
  s_backend_addr <$> t_sessions demo3 !! 1%nat = Some (demo_addr 3) /\
  match qsr_session_table_put_owned demo3 (demo_key 7) (AddrSlot 1) 16 20 0 3 with
  | Some (t', status) =>
      status = QSR_OK /\ qsr_session_table_get t' (demo_key 3) = Some 0%nat /\
      qsr_session_table_get t' (demo_key 7) = Some 1%nat /\
      s_backend_addr <$> t_sessions t' !! 1%nat = Some (zeros SOCKADDR_SIZE)
  | None => False
  end.
Proof. vm_compute. repeat split. Qed.

Definition demo1024 : qsr_session_table := demo_fill (demo_table 1024) (seqZ 0 922) 10.

Lemma demo1024_wf : table_wf demo1024.
Proof. apply demo_fill_wf, demo_table_wf; [lia|unfold SESSION_SIZE; lia]. Qed.

Lemma demo1024_count : t_capacity demo1024 = 1024%nat /\ t_count demo1024 = 922 /\
  contents demo1024 !! key_view (demo_key 5000) = None.
Proof.
  destruct (demo_table_init 1024) as (Hwf & He & Hcap0 & Hcnt0); [lia|unfold SESSION_SIZE; lia|].
  assert (Hl : Zlen (seqZ 0 922) = 922) by (unfold Zlen; rewrite length_seqZ; lia).
  destruct (demo_fill_count (seqZ 0 922) (demo_table 1024) 10) as (? & Hc & Hm);
    [apply NoDup_seqZ|done|done|intros; by rewrite He|rewrite Hl, Hcnt0; lia|].
  split; [done|]. rewrite Hl, Hcnt0 in Hc. split; [done|]. apply Hm; [|by rewrite He].
  intros Hin. apply elem_of_seqZ in Hin. lia.
Qed.

#[local] Opaque demo1024.

Example session_pressure_put_shrinks_witness :
  exists t', qsr_session_table_put_owned demo1024 (demo_key 5000) (AddrVal (demo_addr 1)) 16 2000 0 1 = Some (t', QSR_OK) /\
    t_count t' = t_count demo1024 - 1.
Proof.
  destruct demo1024_count as (Hcap & Hcnt & Hnone).
  destruct (session_pressure_put_shrinks demo1024 (demo_key 5000) (demo_addr 1) 16 2000 0 1)
    as (t1 & t2 & t' & Ht' & _ & _ & _ & _ & _ & _ & Hshrink); [exact demo1024_wf|reflexivity|reflexivity|exact Hnone|..].
  - unfold pressure_evict_needed. rewrite Hcap, Hcnt. reflexivity.
  - rewrite Hcap, Hcnt. reflexivity.
  - exists t'. split; [exact Ht'|]. apply Hshrink. rewrite Hcap. cbv. discriminate.
Defined.
End examples.
