(* ===== verification/SessionSafety.v ===== *)
(** * The session table, whatever its entries hold

    An address that [put] reads through a stale pointer can be anything
    ([SessionTable.alias_of_moved_slot_is_zero]), and an entry with an invalid
    address is lost when a deletion reinserts it. This file shows what survives
    that: the invariant [table_safe] says nothing of the addresses, and every
    operation of the table returns and keeps it. *)

From stdpp Require Import gmap.
From S2P Require Import Prelude Hash SessionKey Probe SessionTable.
#[local] Open Scope Z_scope.

(** ** The invariant *)

Section safety.
Context `{KeyedHash}.

(** What no operation changes but the movement of the expiry cursor. *)
Record shape (t : qsr_session_table) : Prop := {
  sh_cap : (0 < t_capacity t)%nat;
  sh_size : Z.of_nat (t_capacity t) * SESSION_SIZE < 2 ^ 64;
  sh_len : length (t_sessions t) = t_capacity t;
  sh_expire : (t_expire_cursor t < t_capacity t)%nat;
}.

Record table_safe (t : qsr_session_table) : Prop := {
  sf_shape : shape t;
  sf_inv : table_inv skey (t_capacity t) (shome (t_capacity t)) (t_sessions t);
  sf_count : t_count t = Z.of_nat (size (contents t));
}.

Lemma wf_safe t : table_wf t -> table_safe t.
Proof. intros [[] ? ?]. by split. Qed.

Lemma safe_uniq t : table_safe t -> uniq skey (t_sessions t).
Proof. by intros [_ [] _]. Qed.

Lemma safe_count t : table_safe t -> 0 <= t_count t <= Z.of_nat (t_capacity t) /\ Z.of_nat (t_capacity t) < 2 ^ 56.
Proof.
  intros [[] [] Hc]. rewrite Hc. unfold contents. pose proof (size_abs_le skey (t_sessions t)) as Hle.
  unfold SESSION_SIZE in *. specialize (Hle ltac:(done)). lia.
Qed.

Lemma safe_guard t : table_safe t -> (length (t_sessions t) =? 0)%nat || (t_capacity t =? 0)%nat = false.
Proof. intros [[? ? Hl ?] _ _]. rewrite Hl. by rewrite (proj2 (Nat.eqb_neq (t_capacity t) 0)) by lia. Qed.

(** An entry counts. *)
Lemma size_drop l i k : uniq skey l -> view skey l i = Some k ->
  S (size (abs skey (<[i := session0]> l))) = size (abs skey l).
Proof.
  intros Hu Hv. rewrite (abs_clear skey session0 skey_session0 l i k Hu Hv). apply view_lookup in Hv as (a & Ha & Hk).
  assert (Hl : abs skey l !! k = Some a) by (apply abs_lookup; eauto).
  rewrite map_size_delete_Some by eauto. destruct (size (abs skey l)) eqn:E; [|lia].
  apply map_size_empty_inv in E. rewrite E in Hl. by rewrite lookup_empty in Hl.
Qed.

Lemma clear_shape t i n : shape t -> shape (set_count (set_sessions t (<[i := session0]> (t_sessions t))) n).
Proof. intros []. split; cbn; try done. by rewrite length_insert. Qed.

(** ** Deletion *)

(** One reinsertion moves the entry, or drops it when [put] refuses it. *)
Lemma reinsert_safe d m t q : shape t -> t_count t = Z.of_nat (size (contents t)) ->
  del_inv skey (t_capacity t) (shome (t_capacity t)) m (t_sessions t, q) ->
  match del_step skey session0 (t_capacity t) (shome (t_capacity t)) (t_sessions t, q) with
  | inl pr => exists t', reinsert_step (session_table_put_internal d) (t, q) = inl (t', (q + 1) mod t_capacity t)%nat /\
      snd pr = ((q + 1) mod t_capacity t)%nat /\
      (t_sessions t' = fst pr \/ t_sessions t' = <[q := session0]> (t_sessions t)) /\ shape t' /\ same_shape t t' /\
      t_count t' = Z.of_nat (size (contents t'))
  | inr s' => s' = t_sessions t /\ reinsert_step (session_table_put_internal d) (t, q) = inr (Some t)
  end.
Proof.
  intros Hsh Hc Hd. pose proof (sh_cap t Hsh) as Hcap. unfold reinsert_step.
  destruct (t_sessions t !! q) as [a|] eqn:Ha; [|unfold del_step; by rewrite Ha].
  destruct (s_used a) eqn:Hu; cbn [negb].
  2: { unfold del_step, skey. by rewrite Ha, Hu. }
  assert (Hk : skey a = Some (key_view (s_key a))) by (unfold skey; by rewrite Hu).
  destruct (del_step_move _ session0 _ _ skey_session0 (shome_lt _ Hcap) m (t_sessions t) q a _ Hd Ha Hk)
    as (r & Hp & Hr & Hvr & ->). pose proof Hd as [Hlen Hq _ Huq _ _]. cbn [fst snd] in *.
  assert (Hvq : view skey (t_sessions t) q = Some (key_view (s_key a))) by (apply view_lookup; eauto).
  pose proof (size_drop _ _ _ Huq Hvq) as Hsz. set (t1 := set_count _ _). assert (Hsh1 : shape t1) by (by apply clear_shape).
  assert (Hle : Z.of_nat (size (contents t)) < 2 ^ 63).
  { pose proof (size_abs_le skey (t_sessions t) Huq) as Hle. pose proof (sh_size t Hsh). unfold SESSION_SIZE, contents in *. lia. }
  assert (Hc1 : t_count t1 = Z.of_nat (size (contents t1))).
  { unfold t1. cbn [t_count set_count set_sessions]. rewrite Hc. unfold contents in *. cbn [t_sessions set_count set_sessions].
    rewrite usub_small by lia. lia. }
  pose proof (safe_guard t1) as Hg0. assert (Hg : (length (t_sessions t1) =? 0)%nat || (t_capacity t1 =? 0)%nat = false).
  { destruct Hsh1 as [? _ Hl1 _]. rewrite Hl1. by rewrite (proj2 (Nat.eqb_neq (t_capacity t1) 0)) by lia. }
  assert (Hput : session_table_put_internal d t1 (s_key a) (AddrVal (s_backend_addr a)) (s_backend_addr_len a) (s_last_seen a) false
      (s_owner_slot a) (s_owner_flow_id a) =
    if negb (key_valid (s_key a)) || negb (backend_valid (s_backend_addr a) (s_backend_addr_len a)) then Some (t1, QSR_ERR_INVALID)
    else Some (insert_at t1 r (s_key a) (AddrVal (s_backend_addr a)) (s_backend_addr_len a) (s_last_seen a) (s_owner_slot a)
      (s_owner_flow_id a), QSR_OK)).
  { assert (Hpr : session_probe t1 (s_key a) = Some (r, false)) by (rewrite session_probe_eq; exact Hp).
    destruct d; cbn [session_table_put_internal]; rewrite Hg; cbn [orb read_addr]; (destruct (_ || _); [done|]);
      cbn [put_attempts]; rewrite Hpr; done. }
  rewrite Hput. destruct (negb (key_valid (s_key a)) || _).
  - eexists. split; [reflexivity|]. split; [done|]. split; [by right|]. by split_and!.
  - eexists. split; [reflexivity|]. split; [done|]. split; [left|split; [|split]].
    + cbn. unfold move. f_equal. destruct a. cbn in *. by subst.
    + destruct Hsh1. split; cbn; try done. by rewrite length_insert.
    + done.
    + assert (Hrq : r = q \/ r <> q /\ view skey (t_sessions t) r = None).
      { destruct (decide (r = q)) as [|Hne]; [by left|right]. split; [done|]. by rewrite view_insert_ne in Hvr. }
      destruct (reinsert_abs skey session0 (t_capacity t) skey_session0 (t_sessions t) q r a _ Hlen Hq Hr Huq Ha Hk Hrq) as [_ Habs].
      unfold move in Habs. unfold contents. cbn [t_sessions insert_at set_masks set_count set_sessions t1].
      replace {| s_used := true; s_key := s_key a; s_backend_addr := read_addr t1 (AddrVal (s_backend_addr a));
        s_backend_addr_len := s_backend_addr_len a; s_last_seen := s_last_seen a; s_owner_slot := s_owner_slot a;
        s_owner_flow_id := s_owner_flow_id a |} with a by (destruct a; cbn in *; by subst).
      rewrite Habs. fold (contents t). rewrite <- Hc. cbn [t_count insert_at set_masks set_count].
      change (t_count (set_sessions t1 _)) with (t_count t1). unfold t1. cbn [t_count set_count set_sessions].
      apply uadd_usub. lia.
Qed.

(** Deleting an entry removes its key, and at most some others with it. *)
Lemma delete_safe d t p k : table_safe t -> view skey (t_sessions t) p = Some k ->
  exists t', table_delete_at (session_table_put_internal d) t p = Some t' /\ table_safe t' /\ same_shape t t' /\
    contents t' ⊆ delete k (contents t).
Proof.
  intros Hsf Hv. pose proof (safe_count t Hsf) as Hcs. pose proof (safe_uniq t Hsf) as Huq. destruct Hsf as [Hsh Hinv Hcount].
  pose proof (sh_cap t Hsh) as Hcap. unfold table_delete_at. pose proof (size_drop _ _ _ Huq Hv) as Hsz.
  set (t0 := set_count (set_sessions t _) _). assert (Hsh0 : shape t0) by (by apply clear_shape).
  assert (Hc0 : t_count t0 = Z.of_nat (size (contents t0))).
  { unfold t0. cbn [t_count set_count set_sessions]. rewrite Hcount. unfold contents in *. cbn [t_sessions set_count set_sessions].
    rewrite usub_small by lia. lia. }
  change (t_capacity t0) with (t_capacity t).
  destruct (delete_loop_drop skey session0 (t_capacity t) (shome (t_capacity t)) skey_session0 (shome_lt _ Hcap)
    (reinsert_step (session_table_put_internal d)) (fun st => (t_sessions st.1, st.2))
    (fun r => default [] (t_sessions <$> r))
    (fun st => shape st.1 /\ same_shape t st.1 /\ t_count st.1 = Z.of_nat (size (contents st.1)))
    (fun r => exists t', r = Some t' /\ shape t' /\ same_shape t t' /\ t_count t' = Z.of_nat (size (contents t')))
    (t_sessions t) p k (t0, ((p + 1) mod t_capacity t)%nat)) as (r & -> & (t' & -> & Hf' & Hs' & Hc') & Hinv' & Habs);
    [done|done|done|done| |].
  - intros m [t1 q] (Hf1 & (Hcap1 & Hs1) & Hc1) Hd. cbn [fst snd] in *.
    rewrite <- Hcap1 in Hd |- *. pose proof (reinsert_safe d m t1 q Hf1 Hc1 Hd) as Hr.
    destruct (del_step _ _ _ _ _) as [[s2 q2]|s2].
    + destruct Hr as (t2 & -> & Hq2 & Hs2 & Hf2 & (Hcap2 & He2) & Hc2). cbn [fst snd] in *. eexists. split; [done|].
      cbn [fst snd]. unfold same_shape, del_drop in *. cbn [fst snd]. split.
      * destruct Hs2 as [->| ->]; [left|right]; congruence.
      * split_and!; congruence || done || intuition congruence.
    + destruct Hr as (-> & ->). eexists. split; [done|]. cbn. split; [done|]. eexists. by split_and!.
  - change (default [] (t_sessions <$> Some t')) with (t_sessions t') in *. exists t'. split; [done|].
    destruct Hs' as (Hcap' & ?). split_and!; [|done..]. by split; [|rewrite Hcap'|].
Qed.

Lemma delete_shrinks (t t' : qsr_session_table) k s : contents t !! k = Some s -> contents t' ⊆ delete k (contents t) ->
  (size (contents t') < size (contents t))%nat.
Proof.
  intros Hk Hsub%map_subseteq_size. rewrite map_size_delete_Some in Hsub by eauto.
  destruct (size (contents t)) eqn:E; [|lia]. apply map_size_empty_inv in E. by rewrite E, lookup_empty in Hk.
Qed.

Lemma safe_lookup t k s : table_safe t -> contents t !! k = Some s <-> exists i, t_sessions t !! i = Some s /\ skey s = Some k.
Proof. intros Hsf. apply abs_lookup. by apply safe_uniq. Qed.

Lemma safe_slot t i s : table_safe t -> t_sessions t !! i = Some s -> s_used s = true ->
  view skey (t_sessions t) i = Some (key_view (s_key s)) /\ contents t !! key_view (s_key s) = Some s.
Proof.
  intros Hsf Hs Hu. apply skey_used in Hu. split; [apply view_lookup; eauto|]. apply safe_lookup; eauto.
Qed.

(** ** Eviction and insertion *)

Lemma evict_safe d t : table_safe t ->
  exists t', evict_oldest (session_table_put_internal d) t = Some t' /\ table_safe t' /\ t_capacity t' = t_capacity t /\
    contents t' ⊆ contents t.
Proof.
  intros Hsf. unfold evict_oldest. destruct (t_count t =? 0); [by exists t|].
  pose proof (scan_oldest_spec (t_sessions t) s_used s_last_seen
    (fun i => ((t_evict_cursor t + i) mod t_capacity t)%nat) (evict_scans t)) as Ho. fold (oldest_in t (evict_scans t)) in Ho.
  set (t1 := set_evict_cursor t _). assert (Hsf1 : table_safe t1) by (by destruct Hsf as [[] ? ?]).
  destruct (oldest_in t (evict_scans t)) as [[v o]|]; [|by exists t1].
  destruct Ho as (i & s & Hi & -> & Hs & Hu & _). destruct (safe_slot t1 _ s Hsf1 Hs Hu) as [Hv _].
  destruct (delete_safe d t1 _ _ Hsf1 Hv) as (t' & -> & Hsf' & (Hcap & _) & Hsub). exists t'. split_and!; [done..|].
  etrans; [exact Hsub|apply delete_subseteq].
Qed.

Lemma insert_safe t i key addr len now os oid : table_safe t -> session_probe t key = Some (i, false) ->
  table_safe (insert_at t i key addr len now os oid).
Proof.
  intros Hsf Hp. pose proof (safe_count t Hsf) as Hcs. destruct Hsf as [[Hcap ? ? ?] Hinv Hc]. rewrite session_probe_eq in Hp.
  pose proof (probe_insert_inv _ _ _ (shome_lt _ Hcap) _ _ (new_session key (read_addr t addr) len now os oid) _ _ Hinv eq_refl Hp) as Hi.
  pose proof (probe_insert_abs _ _ _ (shome_lt _ Hcap) _ _ (new_session key (read_addr t addr) len now os oid) _ _ Hinv eq_refl Hp) as Habs.
  assert (Hnone : contents t !! key_view key = None).
  { pose proof (probe_abs _ _ _ (shome_lt _ Hcap) _ (key_view key) Hinv) as Hpa. by rewrite Hp in Hpa. }
  split; [split; cbn; try done; by rewrite length_insert|exact Hi|].
  unfold contents. cbn [t_sessions insert_at set_sessions set_count set_masks t_count].
  change (t_count (set_sessions t _)) with (t_count t). unfold new_session in Habs. rewrite Habs, map_size_insert_None by done.
  fold (contents t). rewrite uadd_small by lia. lia.
Qed.

Lemma omap_same_key (l : list qsr_session) : forall i s s', l !! i = Some s -> skey s' = skey s -> omap skey (<[i := s']> l) = omap skey l.
Proof.
  induction l as [|x l IH]; intros [|i] s s' Hs Hk; [done|done| |]; cbn in Hs; unfold omap in *; cbn.
  - injection Hs as ->. by rewrite Hk.
  - destruct (skey x); [f_equal|]; exact (IH i s s' Hs Hk).
Qed.

(** Rewriting an entry under its own key. *)
Lemma rewrite_safe t i s s' : table_safe t -> t_sessions t !! i = Some s -> skey s' = skey s ->
  table_safe (set_sessions t (<[i := s']> (t_sessions t))).
Proof.
  intros Hsf Hs Hk. pose proof (safe_uniq t Hsf) as Huq. destruct Hsf as [[? ? Hl ?] Hinv Hc].
  assert (Hv : forall j, view skey (<[i := s']> (t_sessions t)) j = view skey (t_sessions t) j).
  { intros j. destruct (decide (i = j)) as [<-|]; [|by rewrite view_insert_ne].
    rewrite view_insert by (by apply lookup_lt_Some in Hs). unfold view. rewrite Hs. done. }
  assert (Hinv' : table_inv skey (t_capacity t) (shome (t_capacity t)) (<[i := s']> (t_sessions t))).
  { destruct Hinv as [? Hg Hu (e & He & Hse)]. split.
    - by rewrite length_insert.
    - intros j k Hj x Hx. rewrite Hv in Hj |- *. by apply (Hg j k).
    - intros x y k. rewrite !Hv. apply Hu.
    - exists e. split; [done|]. intros x k j Hne Hx. rewrite Hv in Hx. by apply (Hse x k). }
  split; [split; cbn; try done; by rewrite length_insert|exact Hinv'|]. cbn [t_count set_sessions]. rewrite Hc. f_equal.
  unfold contents. cbn [t_sessions set_sessions]. rewrite !size_abs by (done || by destruct Hinv').
  f_equal. symmetry. by apply (omap_same_key _ i s).
Qed.

Lemma update_safe t i key addr len now os oid : table_safe t -> session_probe t key = Some (i, true) ->
  table_safe (update_at t i addr len now os oid).
Proof.
  intros Hsf Hp. pose proof Hsf as [[Hcap ? ? ?] _ _]. rewrite session_probe_eq in Hp.
  apply (probe_true skey _ _ (shome_lt _ Hcap)) in Hp as [_ Hv]. apply view_lookup in Hv as (s & Hs & _).
  unfold update_at. rewrite (list_alter_at _ _ _ s Hs). apply (rewrite_safe t i s); [done..|]. unfold skey. done.
Qed.

(** [put] returns whatever it is given, also a pointer to a slot that moves or
    is emptied while it runs. *)
Lemma put_safe t key addr len now os oid : table_safe t ->
  exists t' st, qsr_session_table_put_owned t key addr len now os oid = Some (t', st) /\ table_safe t' /\ t_capacity t' = t_capacity t.
Proof.
  intros Hsf. unfold qsr_session_table_put_owned. cbn [session_table_put_internal]. destruct (_ || _); [by exists t, QSR_ERR_INVALID|].
  change (put_attempts _ 2 t key addr) with (put_attempts (evict_oldest (session_table_put_internal 0)) 2 t key addr).
  rewrite first_attempt.
  assert (Hlast : forall t1, table_safe t1 -> t_capacity t1 = t_capacity t -> exists t' st,
    put_attempts (evict_oldest (session_table_put_internal 0)) 1 t1 key addr len now true os oid = Some (t', st) /\ table_safe t' /\
    t_capacity t' = t_capacity t).
  { intros t1 Hsf1 Hc1. cbn [put_attempts Nat.eqb]. rewrite andb_false_r. cbn [andb].
    destruct (session_probe t1 key) as [[i []]|] eqn:Ep; eexists _, _; (split; [reflexivity|]).
    - split; [by eapply update_safe|done].
    - split; [by apply insert_safe|done].
    - done. }
  destruct (session_probe t key) as [[i []]|] eqn:Ep.
  - eexists _, _. split; [reflexivity|]. split; [by eapply update_safe|done].
  - destruct (true && pressure_evict_needed t).
    + destruct (evict_safe 0 t Hsf) as (t1 & -> & Hsf1 & Hc1 & _). cbn [mbind option_bind].
      destruct (evict_safe 0 t1 Hsf1) as (t2 & -> & Hsf2 & Hc2 & _). cbn [mbind option_bind]. apply Hlast; [done|congruence].
    + eexists _, _. split; [reflexivity|]. split; [by apply insert_safe|done].
  - destruct (evict_safe 0 t Hsf) as (t1 & -> & Hsf1 & Hc1 & _). cbn [mbind option_bind]. by apply Hlast.
Qed.

(** ** Lookup, sweeps *)

Lemma get_safe t key i : table_safe t -> qsr_session_table_get t key = Some i ->
  exists s, t_sessions t !! i = Some s /\ s_used s = true.
Proof.
  intros Hsf. unfold qsr_session_table_get. destruct (_ || _); [done|].
  destruct (session_probe t key) as [[j []]|] eqn:Ep; [|done..]. intros [= ->]. rewrite session_probe_eq in Ep.
  apply (probe_true skey _ _ (shome_lt _ (sh_cap t (sf_shape t Hsf)))) in Ep as [_ Hv].
  apply view_lookup in Hv as (s & Hs & Hk). exists s. split; [done|]. unfold skey in Hk. by destruct (s_used s).
Qed.

Lemma touch_safe t i s now : table_safe t -> t_sessions t !! i = Some s ->
  table_safe (set_sessions t (alter (touched now) i (t_sessions t))).
Proof. intros Hsf Hs. rewrite (list_alter_at _ _ _ s Hs). by apply (rewrite_safe t i s). Qed.

Lemma sweep_safe doomed t : table_safe t ->
  exists t' n, sweep doomed t = Some (t', n) /\ table_safe t' /\ t_capacity t' = t_capacity t /\ contents t' ⊆ contents t.
Proof.
  intros Hsf. unfold sweep.
  destruct (while_pos_total (sweep_step doomed) (fun '(t1, i, n) => table_safe t1 /\ t_capacity t1 = t_capacity t /\ contents t1 ⊆ contents t)
    (fun '(t1, i, n) => (t_capacity t - i) + size (contents t1))%nat
    (fun r => exists t' n, r = Some (t', n) /\ table_safe t' /\ t_capacity t' = t_capacity t /\ contents t' ⊆ contents t) (sweep_fuel t) (t, 0%nat, 0))
    as (r & -> & t' & n & -> & Hx).
  - intros [[t1 i] n] (Hsf1 & Hcap & Hsub). unfold sweep_step. destruct (i <? t_capacity t1)%nat eqn:Ei.
    + apply Nat.ltb_lt in Ei. destruct (t_sessions t1 !! i) as [s|] eqn:Es.
      2: { apply lookup_ge_None in Es. pose proof (sh_len t1 (sf_shape t1 Hsf1)). lia. }
      destruct (s_used s && doomed s) eqn:Ed.
      * apply andb_true_iff in Ed as [Hu _]. destruct (safe_slot t1 i s Hsf1 Es Hu) as [Hv Hl].
        destruct (delete_safe 0 t1 i _ Hsf1 Hv) as (t2 & Hd & Hsf2 & (Hcap2 & _) & Hsub2). unfold delete_at. rewrite Hd.
        pose proof (delete_shrinks t1 t2 _ s Hl Hsub2). split; [|lia]. split_and!; [done|congruence|].
        etrans; [exact Hsub2|]. etrans; [apply delete_subseteq|done].
      * split; [done|lia].
    + by exists t1, n.
  - by split_and!.
  - pose proof (safe_count t Hsf) as Hcs. rewrite (sf_count t Hsf) in Hcs. unfold sweep_fuel.
    rewrite <- Z2Nat.inj_pos, Z2Pos.id by lia. lia.
  - by exists t', n.
Qed.

Lemma evict_if_safe t pred : table_safe t ->
  exists t' n, qsr_session_table_evict_if t pred = Some (t', n) /\ table_safe t' /\ t_capacity t' = t_capacity t /\ contents t' ⊆ contents t.
Proof.
  intros Hsf. unfold qsr_session_table_evict_if. destruct pred as [pred|]; [|by exists t, 0].
  rewrite (safe_guard t Hsf). by apply sweep_safe.
Qed.

Lemma advance_safe t s : table_safe t -> table_safe (advance t s) /\ t_capacity (advance t s) = t_capacity t /\ contents (advance t s) = contents t.
Proof.
  intros [[Hc ? ? ?] ? ?]. assert (Hlt : ((t_expire_cursor t + 1) mod t_capacity t < t_capacity t)%nat) by (apply Nat.mod_upper_bound; lia).
  unfold advance. repeat split_if; cbn in *; (split; [|done]); by split.
Qed.

Lemma expire_one_safe t now timeout keep : table_safe t ->
  exists t' deleted, expire_one t now timeout keep = Some (t', deleted) /\ table_safe t' /\ t_capacity t' = t_capacity t.
Proof.
  intros Hsf. pose proof (sf_shape t Hsf) as [? ? Hl Hx]. unfold expire_one.
  destruct (t_sessions t !! t_expire_cursor t) as [s|] eqn:Es; [|apply lookup_ge_None in Es; lia]. cbn [mbind option_bind].
  destruct (s_used s && idle now timeout s) eqn:Ex; cbn [andb].
  - apply andb_true_iff in Ex as [Hu _]. destruct (negb _).
    + destruct (safe_slot t _ s Hsf Es Hu) as [Hv _]. destruct (delete_safe 0 t _ _ Hsf Hv) as (t' & Hd & Hsf' & (Hc & _) & _).
      unfold delete_at. rewrite Hd. by exists t', true.
    + destruct (advance_safe _ s (touch_safe t _ s now Hsf Es)) as (? & ? & _). eexists _, false. split; [reflexivity|]. by split.
  - destruct (advance_safe t s Hsf) as (? & ? & _). eexists _, false. split; [reflexivity|]. by split.
Qed.

Lemma expire_loop_safe now timeout keep n : forall t expired, table_safe t ->
  exists t' e, expire_loop t now timeout keep n expired = Some (t', e) /\ table_safe t' /\ t_capacity t' = t_capacity t.
Proof.
  induction n as [|n IH]; intros t expired Hsf; cbn [expire_loop]; [by exists t, expired|].
  destruct (expire_one_safe t now timeout keep Hsf) as (t1 & del & -> & Hsf1 & Hc1). cbn [mbind option_bind].
  destruct (IH t1 (if del then uadd expired 1 else expired) Hsf1) as (t' & e & -> & ? & ?). exists t', e. split_and!; [done..|congruence].
Qed.

Lemma expire_incremental_safe t now timeout budget keep : table_safe t ->
  exists t' n, qsr_session_table_expire_incremental t now timeout budget keep = Some (t', n) /\ table_safe t' /\
    t_capacity t' = t_capacity t.
Proof.
  intros Hsf. unfold qsr_session_table_expire_incremental. rewrite (safe_guard t Hsf). cbn [orb].
  destruct (budget =? 0)%nat; [by exists t, 0|]. by apply expire_loop_safe.
Qed.
End safety.
