(* ===== verification/FlowTable.v ===== *)
(** * The flow table

    [src/flow_table.c]: one upstream socket per client. Flows live in a
    slot-stable array; lookups go through a separate open-addressed index of
    slot numbers; unused slots form a stack. The table owns the file
    descriptors: every operation returns the calls of the close callback and of
    [close] it makes, in order, as a list of events. *)

From stdpp Require Import gmap.
From S2P Require Import Prelude Hash SessionKey Probe.
#[local] Open Scope Z_scope.

(** ** Data *)

Record qsr_flow := {
  f_used : bool;
  f_fd : Z;
  f_client_addr : list Z;
  f_client_addr_len : Z;
  f_backend_addr : list Z;
  f_backend_addr_len : Z;
  f_last_seen : Z;
  f_id : Z;
  f_opened_at : Z;
  f_scid_len : Z;
  f_scid : list Z;
  f_sni : list Z;
}.

(** A zero-filled flow, and an unused slot, whose [fd] is -1. *)
Definition flow0 : qsr_flow := {|
  f_used := false; f_fd := 0;
  f_client_addr := zeros SOCKADDR_SIZE; f_client_addr_len := 0;
  f_backend_addr := zeros SOCKADDR_SIZE; f_backend_addr_len := 0;
  f_last_seen := 0; f_id := 0; f_opened_at := 0; f_scid_len := 0;
  f_scid := zeros QSR_MAX_QUIC_CID_LEN; f_sni := zeros (QSR_MAX_HOSTNAME_LEN + 1) |}.

Definition flow_set_fd (f : qsr_flow) (fd : Z) : qsr_flow := {|
  f_used := f_used f; f_fd := fd; f_client_addr := f_client_addr f; f_client_addr_len := f_client_addr_len f;
  f_backend_addr := f_backend_addr f; f_backend_addr_len := f_backend_addr_len f; f_last_seen := f_last_seen f;
  f_id := f_id f; f_opened_at := f_opened_at f; f_scid_len := f_scid_len f; f_scid := f_scid f; f_sni := f_sni f |}.

Definition flow_unused : qsr_flow := flow_set_fd flow0 (-1).

Inductive qsr_flow_close_reason :=
  | QSR_FLOW_CLOSE_IDLE
  | QSR_FLOW_CLOSE_EVICTED
  | QSR_FLOW_CLOSE_FILTERED
  | QSR_FLOW_CLOSE_REMOVED
  | QSR_FLOW_CLOSE_SHUTDOWN.

(** A call of the registered close callback, or of [close]. *)
Inductive flow_event :=
  | OnClose (f : qsr_flow) (reason : qsr_flow_close_reason)
  | CloseFd (fd : Z).

(** [index] holds slot + 1, 0 when empty. [on_close] says whether a callback is registered. *)
Record qsr_flow_table := {
  ft_flows : list qsr_flow;
  ft_index : list nat;
  ft_free_slots : list nat;
  ft_free_count : nat;
  ft_capacity : nat;
  ft_index_capacity : nat;
  ft_count : Z;
  ft_expire_cursor : nat;
  ft_evict_cursor : nat;
  ft_on_close : bool;
  ft_next_id : Z;
}.

(** [sizeof(qsr_flow_t)], which bounds the capacities [calloc] can grant. *)
Definition FLOW_SIZE : Z := 584.

Definition QSR_FLOW_EVICT_SCAN_BUDGET : Z := 4096.

Definition ft_set_flows (t : qsr_flow_table) (l : list qsr_flow) : qsr_flow_table := {|
  ft_flows := l; ft_index := ft_index t; ft_free_slots := ft_free_slots t; ft_free_count := ft_free_count t;
  ft_capacity := ft_capacity t; ft_index_capacity := ft_index_capacity t; ft_count := ft_count t;
  ft_expire_cursor := ft_expire_cursor t; ft_evict_cursor := ft_evict_cursor t; ft_on_close := ft_on_close t;
  ft_next_id := ft_next_id t |}.
Definition ft_set_index (t : qsr_flow_table) (l : list nat) : qsr_flow_table := {|
  ft_flows := ft_flows t; ft_index := l; ft_free_slots := ft_free_slots t; ft_free_count := ft_free_count t;
  ft_capacity := ft_capacity t; ft_index_capacity := ft_index_capacity t; ft_count := ft_count t;
  ft_expire_cursor := ft_expire_cursor t; ft_evict_cursor := ft_evict_cursor t; ft_on_close := ft_on_close t;
  ft_next_id := ft_next_id t |}.
Definition ft_set_free (t : qsr_flow_table) (l : list nat) (n : nat) : qsr_flow_table := {|
  ft_flows := ft_flows t; ft_index := ft_index t; ft_free_slots := l; ft_free_count := n;
  ft_capacity := ft_capacity t; ft_index_capacity := ft_index_capacity t; ft_count := ft_count t;
  ft_expire_cursor := ft_expire_cursor t; ft_evict_cursor := ft_evict_cursor t; ft_on_close := ft_on_close t;
  ft_next_id := ft_next_id t |}.
Definition ft_set_count (t : qsr_flow_table) (n : Z) : qsr_flow_table := {|
  ft_flows := ft_flows t; ft_index := ft_index t; ft_free_slots := ft_free_slots t; ft_free_count := ft_free_count t;
  ft_capacity := ft_capacity t; ft_index_capacity := ft_index_capacity t; ft_count := n;
  ft_expire_cursor := ft_expire_cursor t; ft_evict_cursor := ft_evict_cursor t; ft_on_close := ft_on_close t;
  ft_next_id := ft_next_id t |}.
Definition ft_set_cursors (t : qsr_flow_table) (expire evict : nat) : qsr_flow_table := {|
  ft_flows := ft_flows t; ft_index := ft_index t; ft_free_slots := ft_free_slots t; ft_free_count := ft_free_count t;
  ft_capacity := ft_capacity t; ft_index_capacity := ft_index_capacity t; ft_count := ft_count t;
  ft_expire_cursor := expire; ft_evict_cursor := evict; ft_on_close := ft_on_close t;
  ft_next_id := ft_next_id t |}.
Definition ft_set_next_id (t : qsr_flow_table) (n : Z) : qsr_flow_table := {|
  ft_flows := ft_flows t; ft_index := ft_index t; ft_free_slots := ft_free_slots t; ft_free_count := ft_free_count t;
  ft_capacity := ft_capacity t; ft_index_capacity := ft_index_capacity t; ft_count := ft_count t;
  ft_expire_cursor := ft_expire_cursor t; ft_evict_cursor := ft_evict_cursor t; ft_on_close := ft_on_close t;
  ft_next_id := n |}.

(** [calloc] of the three arrays succeeds at the environment's discretion. *)
Definition qsr_flow_table_init (calloc : Z -> Z -> bool) (capacity : nat) : qsr_flow_table + qsr_status :=
  if (capacity =? 0)%nat then inr QSR_ERR_INVALID
  else
    let n := Z.of_nat capacity in
    if calloc n FLOW_SIZE && calloc (u64 (n * 2)) 8 && calloc n 8 then inl {|
      ft_flows := replicate capacity flow_unused;
      ft_index := replicate (capacity * 2) 0%nat;
      ft_free_slots := (fun i => capacity - 1 - i)%nat <$> seq 0 capacity;
      ft_free_count := capacity;
      ft_capacity := capacity;
      ft_index_capacity := (capacity * 2)%nat;
      ft_count := 0; ft_expire_cursor := 0; ft_evict_cursor := 0; ft_on_close := false; ft_next_id := 1 |}
    else inr QSR_ERR_FULL.

(** The client tuple as [tuple_hash] serializes it and [tuple_equals] compares it. *)
Definition tuple_bytes (client : list Z) (client_len : Z) : list Z := u8 client_len :: field client client_len.

Definition client_valid (client : list Z) (client_len : Z) : bool := backend_valid client client_len.

Definition tuple_equals (flow : qsr_flow) (client : list Z) (client_len : Z) : bool :=
  (f_client_addr_len flow =? client_len) && mem_eq (f_client_addr flow) client client_len.

Section table.
Context `{KeyedHash}.

Definition tuple_hash (client : list Z) (client_len : Z) (capacity : nat) : nat :=
  hash_slot (tuple_bytes client client_len) capacity.

(** ** The index

    [index_find]: the position of the tuple, or where it would be inserted;
    [None] for [SIZE_MAX]. *)
Definition index_find (t : qsr_flow_table) (client : list Z) (client_len : Z) : option nat :=
  walk (ft_index_capacity t)
    (fun pos =>
      match ft_index t !! pos with
      | Some (S slot) =>
          match ft_flows t !! slot with
          | Some flow => if f_used flow && tuple_equals flow client client_len then Some pos else None
          | None => None
          end
      | _ => Some pos
      end)
    (ft_index_capacity t) (tuple_hash client client_len (ft_index_capacity t)).

Definition index_at (t : qsr_flow_table) (pos : nat) : nat := default 0%nat (ft_index t !! pos).

(** The flow found, as its slot number. *)
Definition qsr_flow_table_get (t : qsr_flow_table) (client : list Z) (client_len : Z) : option nat :=
  if (length (ft_flows t) =? 0)%nat || negb (client_valid client client_len) then None
  else
    match index_find t client client_len with
    | Some pos => match index_at t pos with S slot => Some slot | O => None end
    | None => None
    end.

(** One iteration of the reinsertion loop; [inr None] when the flow of an index
    entry or the insertion point is missing (an out-of-bounds access). *)
Definition index_delete_step (st : qsr_flow_table * nat) : (qsr_flow_table * nat) + option qsr_flow_table :=
  let '(t, cursor) := st in
  match ft_index t !! cursor with
  | Some (S slot) =>
      let t := ft_set_index t (<[cursor := 0%nat]> (ft_index t)) in
      match ft_flows t !! slot with
      | Some flow =>
          match index_find t (f_client_addr flow) (f_client_addr_len flow) with
          | Some dest =>
              let t := ft_set_index t (<[dest := S slot]> (ft_index t)) in
              inl (t, ((cursor + 1) mod ft_index_capacity t)%nat)
          | None => inr None
          end
      | None => inr None
      end
  | _ => inr (Some t)
  end.

Definition index_delete_at (t : qsr_flow_table) (pos : nat) : option qsr_flow_table :=
  let t := ft_set_index t (<[pos := 0%nat]> (ft_index t)) in
  match while_pos index_delete_step (del_fuel (ft_index_capacity t)) (t, ((pos + 1) mod ft_index_capacity t)%nat) with
  | inr r => r
  | inl _ => None
  end.

(** ** Removal *)

Definition close_flow (t : qsr_flow_table) (flow : qsr_flow) (reason : qsr_flow_close_reason) : list flow_event :=
  (if ft_on_close t then [OnClose flow reason] else []) ++
  (if 0 <=? f_fd flow then [CloseFd (f_fd flow)] else []).

Definition remove_slot (t : qsr_flow_table) (slot : nat) (reason : qsr_flow_close_reason) :
    option (qsr_flow_table * list flow_event) :=
  flow ← ft_flows t !! slot;
  t ← (match index_find t (f_client_addr flow) (f_client_addr_len flow) with
       | Some pos => if (index_at t pos =? 0)%nat then Some t else index_delete_at t pos
       | None => Some t
       end);
  let t := ft_set_flows t (<[slot := flow_set_fd flow0 (-1)]> (ft_flows t)) in
  let t := ft_set_free t (<[ft_free_count t := slot]> (ft_free_slots t)) (ft_free_count t + 1)%nat in
  Some (ft_set_count t (usub (ft_count t) 1), close_flow t flow reason).

(** [flow] is given as its slot. *)
Definition qsr_flow_table_remove (t : qsr_flow_table) (slot : nat) : option (qsr_flow_table * list flow_event) :=
  match ft_flows t !! slot with
  | Some flow => if f_used flow then remove_slot t slot QSR_FLOW_CLOSE_REMOVED else Some (t, [])
  | None => Some (t, [])
  end.

(** The scan of [evict_oldest], as in the session table. *)
Definition oldest_flow (t : qsr_flow_table) (scans : nat) : option (nat * Z) :=
  scan_oldest (ft_flows t) f_used f_last_seen (fun i => ((ft_evict_cursor t + i) mod ft_capacity t)%nat) scans.

Definition flow_evict_scans (t : qsr_flow_table) : nat :=
  if Z.of_nat (ft_capacity t) <? QSR_FLOW_EVICT_SCAN_BUDGET then ft_capacity t
  else Z.to_nat QSR_FLOW_EVICT_SCAN_BUDGET.

(** The table, the number evicted and the events. *)
Definition qsr_flow_table_evict_oldest (t : qsr_flow_table) : option (qsr_flow_table * Z * list flow_event) :=
  if (length (ft_flows t) =? 0)%nat || (ft_capacity t =? 0)%nat || (ft_count t =? 0) then Some (t, 0, [])
  else
    let scans := flow_evict_scans t in
    let victim := oldest_flow t scans in
    let t := ft_set_cursors t (ft_expire_cursor t) ((ft_evict_cursor t + scans) mod ft_capacity t)%nat in
    match victim with
    | None => Some (t, 0, [])
    | Some (victim, _) =>
        '(t, ev) ← remove_slot t victim QSR_FLOW_CLOSE_EVICTED; Some (t, 1, ev)
    end.

(** ** Insertion

    The table, the slot of the stored flow ([None] for a null return) and the events. *)

Definition flow_refresh (flow : qsr_flow) (backend : list Z) (backend_len fd now : Z) : qsr_flow := {|
  f_used := f_used flow; f_fd := fd; f_client_addr := f_client_addr flow; f_client_addr_len := f_client_addr_len flow;
  f_backend_addr := backend; f_backend_addr_len := backend_len; f_last_seen := now; f_id := f_id flow;
  f_opened_at := f_opened_at flow; f_scid_len := f_scid_len flow; f_scid := f_scid flow; f_sni := f_sni flow |}.

Definition flow_new (client : list Z) (client_len : Z) (backend : list Z) (backend_len fd now id : Z) : qsr_flow := {|
  f_used := true; f_fd := fd; f_client_addr := client; f_client_addr_len := client_len;
  f_backend_addr := backend; f_backend_addr_len := backend_len; f_last_seen := now; f_id := id;
  f_opened_at := 0; f_scid_len := 0; f_scid := zeros QSR_MAX_QUIC_CID_LEN;
  f_sni := zeros (QSR_MAX_HOSTNAME_LEN + 1) |}.

(** The tail of [put]: take a free slot and enter it at [pos] of the index. *)
Definition flow_insert (t : qsr_flow_table) (pos : nat) (client : list Z) (client_len : Z) (backend : list Z)
    (backend_len fd now : Z) : option (qsr_flow_table * nat) :=
  let fc := (ft_free_count t - 1)%nat in
  slot ← ft_free_slots t !! fc;
  let t := ft_set_free t (ft_free_slots t) fc in
  let flow := flow_new client client_len backend backend_len fd now (ft_next_id t) in
  let t := ft_set_next_id t (uadd (ft_next_id t) 1) in
  let t := ft_set_flows t (<[slot := flow]> (ft_flows t)) in
  let t := ft_set_index t (<[pos := S slot]> (ft_index t)) in
  Some (ft_set_count t (uadd (ft_count t) 1), slot).

Definition qsr_flow_table_put (t : qsr_flow_table) (client : list Z) (client_len : Z) (backend : list Z)
    (backend_len fd now : Z) : option (qsr_flow_table * option nat * list flow_event) :=
  if (length (ft_flows t) =? 0)%nat || negb (client_valid client client_len) || (backend_len =? 0) ||
     (SOCKADDR_SIZE <? backend_len) || (fd <? 0) then Some (t, None, [])
  else
    let pos := index_find t client client_len in
    let found := match pos with Some pos => index_at t pos | None => 0%nat end in
    match found with
    | S slot =>
        flow ← ft_flows t !! slot;
        let ev := if (0 <=? f_fd flow) && negb (f_fd flow =? fd) then [CloseFd (f_fd flow)] else [] in
        Some (ft_set_flows t (<[slot := flow_refresh flow backend backend_len fd now]> (ft_flows t)), Some slot, ev)
    | O =>
        if (ft_free_count t =? 0)%nat then
          '(t, evicted, ev) ← qsr_flow_table_evict_oldest t;
          if evicted =? 0 then Some (t, None, ev)
          else
            match index_find t client client_len with
            | None => Some (t, None, ev)
            | Some pos => '(t, slot) ← flow_insert t pos client client_len backend backend_len fd now; Some (t, Some slot, ev)
            end
        else
          match pos with
          | None => Some (t, None, [])
          | Some pos => '(t, slot) ← flow_insert t pos client client_len backend backend_len fd now; Some (t, Some slot, [])
          end
    end.

Definition qsr_flow_table_slot (t : qsr_flow_table) (slot : nat) : option qsr_flow :=
  if (length (ft_flows t) =? 0)%nat || (ft_capacity t <=? slot)%nat then None
  else match ft_flows t !! slot with Some flow => if f_used flow then Some flow else None | None => None end.

(** ** Sweeps *)

Definition flow_idle (now idle_timeout_seconds : Z) (flow : qsr_flow) : bool :=
  idle_timeout_seconds <=? now - f_last_seen flow.

(** Remove the flow of [slot] if it is used and [doomed]; 1 if it was. *)
Definition remove_if (doomed : qsr_flow -> bool) (reason : qsr_flow_close_reason) (t : qsr_flow_table) (slot : nat) :
    option (qsr_flow_table * Z * list flow_event) :=
  flow ← ft_flows t !! slot;
  if f_used flow && doomed flow then '(t, ev) ← remove_slot t slot reason; Some (t, 1, ev) else Some (t, 0, []).

Fixpoint flow_expire_loop (t : qsr_flow_table) (now idle_timeout_seconds : Z) (iterations : nat) (expired : Z) :
    option (qsr_flow_table * Z * list flow_event) :=
  match iterations with
  | O => Some (t, expired, [])
  | S rest =>
      '(t, n, ev) ← remove_if (flow_idle now idle_timeout_seconds) QSR_FLOW_CLOSE_IDLE t (ft_expire_cursor t);
      let t := ft_set_cursors t ((ft_expire_cursor t + 1) mod ft_capacity t)%nat (ft_evict_cursor t) in
      '(t, expired, ev') ← flow_expire_loop t now idle_timeout_seconds rest (uadd expired n);
      Some (t, expired, ev ++ ev')
  end.

(** [while (scanned < scan_budget && scanned < capacity)] *)
Definition qsr_flow_table_expire_incremental (t : qsr_flow_table) (now idle_timeout_seconds : Z) (scan_budget : nat) :
    option (qsr_flow_table * Z * list flow_event) :=
  if (length (ft_flows t) =? 0)%nat || (scan_budget =? 0)%nat then Some (t, 0, [])
  else flow_expire_loop t now idle_timeout_seconds (scan_budget `min` ft_capacity t) 0.

Fixpoint flow_evict_loop (pred : qsr_flow -> bool) (t : qsr_flow_table) (slots : list nat) (evicted : Z) :
    option (qsr_flow_table * Z * list flow_event) :=
  match slots with
  | [] => Some (t, evicted, [])
  | slot :: slots =>
      '(t, n, ev) ← remove_if pred QSR_FLOW_CLOSE_FILTERED t slot;
      '(t, evicted, ev') ← flow_evict_loop pred t slots (uadd evicted n);
      Some (t, evicted, ev ++ ev')
  end.

(** [pred] is [None] for a null pointer. *)
Definition qsr_flow_table_evict_if (t : qsr_flow_table) (pred : option (qsr_flow -> bool)) :
    option (qsr_flow_table * Z * list flow_event) :=
  match pred with
  | Some pred =>
      if (length (ft_flows t) =? 0)%nat then Some (t, 0, [])
      else flow_evict_loop pred t (seq 0 (ft_capacity t)) 0
  | None => Some (t, 0, [])
  end.

(** The events of [free]; afterwards the table is all zero. *)
Definition qsr_flow_table_free (t : qsr_flow_table) : qsr_flow_table * list flow_event :=
  ({| ft_flows := []; ft_index := []; ft_free_slots := []; ft_free_count := 0; ft_capacity := 0;
      ft_index_capacity := 0; ft_count := 0; ft_expire_cursor := 0; ft_evict_cursor := 0; ft_on_close := false;
      ft_next_id := 0 |},
   ft_flows t ≫= fun flow => if f_used flow then close_flow t flow QSR_FLOW_CLOSE_SHUTDOWN else []).

End table.

(** ** The map a table represents *)

Section theory.
Context `{KeyedHash}.

(** A client tuple: its length and that many bytes. *)
Abbreviation flow_key := (Z * list Z)%type.

Definition fkey (f : qsr_flow) : flow_key := (f_client_addr_len f, field (f_client_addr f) (f_client_addr_len f)).
Definition fslot (f : qsr_flow) : option flow_key := if f_used f then Some (fkey f) else None.
Definition fhome (c : nat) (k : flow_key) : nat := hash_slot (u8 k.1 :: k.2) c.

(** The key an index entry stands for. *)
Definition ikey (flows : list qsr_flow) (n : nat) : option flow_key :=
  match n with O => None | S slot => view fslot flows slot end.

Definition flows_of (t : qsr_flow_table) : gmap flow_key qsr_flow := abs fslot (ft_flows t).

Record flow_wf (t : qsr_flow_table) : Prop := {
  fw_cap : (0 < ft_capacity t)%nat;
  fw_size : Z.of_nat (ft_capacity t) * FLOW_SIZE < 2 ^ 64;
  fw_len : length (ft_flows t) = ft_capacity t;
  fw_ilen : ft_index_capacity t = (ft_capacity t * 2)%nat;
  fw_flen : length (ft_free_slots t) = ft_capacity t;
  fw_expire : (ft_expire_cursor t < ft_capacity t)%nat;
  (* the index holds exactly the used slots, each under its tuple *)
  fw_inv : table_inv (ikey (ft_flows t)) (ft_index_capacity t) (fhome (ft_index_capacity t)) (ft_index t);
  fw_index_used : forall pos slot, ft_index t !! pos = Some (S slot) -> is_Some (view fslot (ft_flows t) slot);
  fw_indexed : forall slot k, view fslot (ft_flows t) slot = Some k ->
    abs (ikey (ft_flows t)) (ft_index t) !! k = Some (S slot);
  (* the stack holds exactly the unused slots *)
  fw_free_le : (ft_free_count t <= ft_capacity t)%nat;
  fw_free_nodup : NoDup (take (ft_free_count t) (ft_free_slots t));
  fw_free : forall slot, slot ∈ take (ft_free_count t) (ft_free_slots t) <->
    (slot < ft_capacity t)%nat /\ view fslot (ft_flows t) slot = None;
  fw_count : ft_count t = Z.of_nat (ft_capacity t) - Z.of_nat (ft_free_count t);
  (* used flows are sound, unused slots are reset *)
  fw_next : 1 <= ft_next_id t;
  fw_flow : forall slot f, ft_flows t !! slot = Some f ->
    if f_used f then client_valid (f_client_addr f) (f_client_addr_len f) = true /\ 0 <= f_fd f /\ 1 <= f_id f < ft_next_id t
    else f = flow_unused;
  fw_ids : forall i j f g, ft_flows t !! i = Some f -> ft_flows t !! j = Some g ->
    f_used f = true -> f_used g = true -> f_id f = f_id g -> i = j;
}.

Lemma fhome_lt c : (0 < c)%nat -> forall k, (fhome c k < c)%nat.
Proof. intros ? k. by apply hash_slot_lt. Qed.

Lemma icap_pos t : flow_wf t -> (0 < ft_index_capacity t)%nat.
Proof. intros []. lia. Qed.

Lemma fslot_used f : f_used f = true -> fslot f = Some (fkey f).
Proof. unfold fslot. by intros ->. Qed.

Lemma slot_used t slot k : view fslot (ft_flows t) slot = Some k ->
  exists f, ft_flows t !! slot = Some f /\ f_used f = true /\ k = fkey f.
Proof.
  intros Hv. apply view_lookup in Hv as (f & Hf & Hk). exists f. split; [done|].
  unfold fslot in Hk. destruct (f_used f); by simplify_eq.
Qed.

(** One slot per client tuple. *)
Lemma flow_uniq t : flow_wf t -> uniq fslot (ft_flows t).
Proof.
  intros Hwf i j k Hi Hj. apply (fw_indexed t Hwf) in Hi, Hj. congruence.
Qed.

Lemma tuple_equals_key f client len : tuple_equals f client len = true <-> fkey f = (len, field client len).
Proof.
  unfold tuple_equals, fkey, mem_eq, field. rewrite andb_true_iff, Z.eqb_eq, bool_decide_eq_true. split.
  - by intros [-> ->].
  - intros [= -> ?]. done.
Qed.

(** [index_find] is the probe walk over the index, when no entry refers to an unused slot. *)
Lemma index_find_eq t client len :
  (forall pos slot, ft_index t !! pos = Some (S slot) -> is_Some (view fslot (ft_flows t) slot)) ->
  index_find t client len =
  fst <$> probe (ikey (ft_flows t)) (ft_index_capacity t) (fhome (ft_index_capacity t)) (ft_index t) (len, field client len).
Proof.
  intros Hused. unfold index_find, probe. rewrite <- walk_fmap. apply walk_ext. intros pos.
  unfold probe_body, view at 1. destruct (ft_index t !! pos) as [[|slot]|] eqn:Ei; [done| |done]. cbn.
  destruct (Hused pos slot Ei) as [k Hk]. rewrite Hk. destruct (slot_used t slot k Hk) as (f & -> & Hu & ->).
  rewrite Hu. cbn [andb]. case_decide as Hd.
  - by rewrite (proj2 (tuple_equals_key _ _ _) Hd).
  - destruct (tuple_equals f client len) eqn:E; [|done]. by apply tuple_equals_key in E.
Qed.

Lemma index_find_spec t client len : flow_wf t ->
  match index_find t client len with
  | Some pos =>
      match index_at t pos with
      | S slot => exists f, ft_flows t !! slot = Some f /\ f_used f = true /\ fkey f = (len, field client len)
      | O => flows_of t !! (len, field client len) = None /\
          probe (ikey (ft_flows t)) (ft_index_capacity t) (fhome (ft_index_capacity t)) (ft_index t)
            (len, field client len) = Some (pos, false)
      end
  | None => False
  end.
Proof.
  intros Hwf. rewrite index_find_eq by apply Hwf. set (k := (len, field client len)).
  pose proof (fhome_lt _ (icap_pos t Hwf)) as Hh. pose proof (fw_inv t Hwf) as Hinv.
  assert (Hnone : absent (ikey (ft_flows t)) (ft_index t) k -> flows_of t !! k = None).
  { intros Ha. apply (abs_lookup_view fslot); [by apply flow_uniq|]. intros i Hi.
    apply (fw_indexed t Hwf) in Hi. apply (abs_lookup_view (ikey (ft_flows t))) in Ha; [|by destruct Hinv]. congruence. }
  destruct (probe _ _ _ _ k) as [[pos []]|] eqn:Hp; cbn.
  - apply probe_true in Hp as [_ Hv]; [|done]. apply view_lookup in Hv as (n & Hn & Hk).
    unfold index_at. rewrite Hn. cbn. destruct n as [|slot]; [done|]. cbn in Hk.
    destruct (slot_used t slot k Hk) as (f & ? & ? & ?). by exists f.
  - pose proof (probe_false_absent _ _ _ Hh _ _ _ Hinv Hp) as Ha.
    pose proof (probe_false _ _ _ Hh _ _ _ Hp) as (Hpos & Hv & _).
    unfold index_at. destruct (ft_index t !! pos) as [[|slot]|] eqn:Ei; cbn; [by auto| |by auto].
    destruct (fw_index_used t Hwf pos slot Ei) as [x Hx]. unfold view in Hv. rewrite Ei in Hv. cbn in Hv. congruence.
  - pose proof (probe_abs _ _ _ Hh _ k Hinv) as Ha. rewrite Hp in Ha.
    destruct Hinv as [Hl Hg Hu Hs]. apply (abs_lookup_view (ikey (ft_flows t))) in Ha; [|done].
    destruct (probe_absent _ _ _ Hh _ k Ha) as [i Hi]; [|congruence].
    apply has_empty_size; [done..|].
    assert (size (abs (ikey (ft_flows t)) (ft_index t)) <= size (flows_of t))%nat as Hle.
    { rewrite <- !size_dom. apply subseteq_size. intros x. rewrite !elem_of_dom. intros [n Hn].
      apply abs_lookup in Hn as (i & Hi & Hk); [|done]. destruct n as [|slot]; [done|]. cbn in Hk.
      apply view_lookup in Hk as (f & Hf & Hkf). exists f. apply abs_lookup; [by apply flow_uniq|eauto]. }
    pose proof (size_abs_le fslot (ft_flows t) (flow_uniq t Hwf)). rewrite (fw_len t Hwf) in *.
    rewrite (fw_ilen t Hwf). pose proof (fw_cap t Hwf). unfold flows_of in *. lia.
Qed.
(** *** Removing an index entry *)

Lemma index_delete_spec t pos k :
  flow_wf t -> view (ikey (ft_flows t)) (ft_index t) pos = Some k ->
  exists l, index_delete_at t pos = Some (ft_set_index t l) /\
    table_inv (ikey (ft_flows t)) (ft_index_capacity t) (fhome (ft_index_capacity t)) l /\
    abs (ikey (ft_flows t)) l = delete k (abs (ikey (ft_flows t)) (ft_index t)) /\
    (forall pos slot, l !! pos = Some (S slot) -> is_Some (view fslot (ft_flows t) slot)).
Proof.
  intros Hwf Hv. unfold index_delete_at. set (flows := ft_flows t) in *. set (c := ft_index_capacity t) in *.
  set (used (l : list nat) := forall pos slot, l !! pos = Some (S slot) -> is_Some (view fslot flows slot)).
  assert (Hput : forall l p slot, used l -> is_Some (view fslot flows slot) -> used (<[p := S slot]> l)).
  { intros l p slot Hl Hs p' s' Hp. apply list_lookup_insert_Some in Hp as [(_ & [= ->] & _)|[_ Hp]]; [done|by eapply Hl]. }
  assert (Hclr : forall l p, used l -> used (<[p := 0%nat]> l)).
  { intros l p Hl p' s' Hp. apply list_lookup_insert_Some in Hp as [(_ & [=] & _)|[_ Hp]]. by eapply Hl. }
  pose proof (fhome_lt c (icap_pos t Hwf)) as Hh.
  destruct (delete_loop (ikey flows) 0%nat c (fhome c) eq_refl Hh index_delete_step
    (fun st => (ft_index st.1, st.2)) (fun r => default [] (ft_index <$> r))
    (fun st => exists l, st.1 = ft_set_index t l /\ used l)
    (fun r => exists l, r = Some (ft_set_index t l) /\ used l)
    (ft_index t) pos k (ft_set_index t (<[pos := 0%nat]> (ft_index t)), ((pos + 1) mod c)%nat))
    as (r & Hr & (l & -> & Hul) & Hinv & Habs & _); [apply Hwf|done|done| | |].
  - eexists. split; [reflexivity|]. apply Hclr. exact (fw_index_used t Hwf).
  - intros [t1 q] (l & Ht1 & Hul) Hd. cbn [fst snd] in *. subst t1. cbn [ft_index ft_set_index] in *.
    unfold index_delete_step. cbn [ft_index ft_set_index ft_flows]. fold flows.
    destruct (l !! q) as [[|slot]|] eqn:Eq; [unfold del_step; rewrite Eq; cbn; eexists; split; [done|]; split; [done|by exists l]| |
      unfold del_step; rewrite Eq; eexists; split; [done|]; split; [done|by exists l]].
    destruct (Hul q slot Eq) as [k' Hk']. destruct (slot_used t slot k' Hk') as (f & Hf & Hu & ->).
    fold flows in Hf. rewrite Hf.
    destruct (del_step_move (ikey flows) 0%nat c (fhome c) eq_refl Hh _ l q (S slot) (fkey f) Hd Eq Hk') as (r & Hp & Hr & _ & ->).
    rewrite index_find_eq by (by apply Hclr). cbn [ft_index ft_set_index ft_flows ft_index_capacity].
    fold flows c. unfold fkey in Hp. rewrite Hp. cbn [fmap option_fmap option_map fst].
    eexists. split; [reflexivity|]. cbn [fst snd]. split; [done|]. eexists. split; [reflexivity|].
    apply Hput; [by apply Hclr|by eexists].
  - change (default [] (ft_index <$> Some (ft_set_index t l))) with l in *. exists l.
    change (ft_index_capacity (ft_set_index t _)) with c. by rewrite Hr.
Qed.

(** *** Removing a flow *)

(** The operations below keep the dimensions, the callback and the id counter. *)
Definition same_config (t t' : qsr_flow_table) : Prop :=
  ft_capacity t' = ft_capacity t /\ ft_on_close t' = ft_on_close t /\ ft_next_id t' = ft_next_id t.

Lemma slots_le (l : list nat) c : NoDup l -> (forall x, x ∈ l -> (x < c)%nat) -> (length l <= c)%nat.
Proof.
  intros Hn Hlt. rewrite <- (length_seq c 0). apply submseteq_length, NoDup_submseteq; [done|].
  intros x Hx. apply elem_of_seq. specialize (Hlt x Hx). lia.
Qed.

Lemma take_push (l : list nat) n x : (n < length l)%nat -> take (n + 1) (<[n := x]> l) = take n l ++ [x].
Proof.
  intros Hn. rewrite Nat.add_1_r, (take_S_r _ _ x) by (by apply list_lookup_insert_eq).
  by rewrite take_insert_ge by lia.
Qed.

Lemma used_not_free t slot f : flow_wf t -> ft_flows t !! slot = Some f -> f_used f = true ->
  (ft_free_count t < ft_capacity t)%nat.
Proof.
  intros Hwf Hf Hu. assert (Hv : view fslot (ft_flows t) slot = Some (fkey f)).
  { apply view_lookup. exists f. split; [done|by apply fslot_used]. }
  pose proof (slots_le (slot :: take (ft_free_count t) (ft_free_slots t)) (ft_capacity t)) as Hle.
  cbn [length] in Hle. rewrite length_take, (fw_flen t Hwf), Nat.min_l in Hle by apply Hwf. apply Hle.
  - constructor; [|apply Hwf]. rewrite (fw_free t Hwf). intros [_ ?]. congruence.
  - intros x [->|Hx]%elem_of_cons; [rewrite <- (fw_len t Hwf); by apply lookup_lt_Some in Hf|].
    by apply (fw_free t Hwf) in Hx as [? _].
Qed.

Lemma remove_index t slot f : flow_wf t -> ft_flows t !! slot = Some f -> f_used f = true ->
  exists l, match index_find t (f_client_addr f) (f_client_addr_len f) with
            | Some pos => if (index_at t pos =? 0)%nat then Some t else index_delete_at t pos
            | None => Some t
            end = Some (ft_set_index t l) /\
    table_inv (ikey (ft_flows t)) (ft_index_capacity t) (fhome (ft_index_capacity t)) l /\
    abs (ikey (ft_flows t)) l = delete (fkey f) (abs (ikey (ft_flows t)) (ft_index t)) /\
    (forall pos slot, l !! pos = Some (S slot) -> is_Some (view fslot (ft_flows t) slot)).
Proof.
  intros Hwf Hf Hu. pose proof (index_find_spec t (f_client_addr f) (f_client_addr_len f) Hwf) as Hfind.
  assert (Hin : flows_of t !! fkey f = Some f).
  { apply abs_lookup; [by apply flow_uniq|]. exists slot. split; [done|by apply fslot_used]. }
  destruct (index_find t _ _) as [pos|]; [|done]. destruct (index_at t pos) as [|slot'] eqn:Ei.
  { destruct Hfind as [Hn _]. fold (fkey f) in Hn. congruence. }
  destruct Hfind as (g & Hg & Hug & Hkg). cbn [Nat.eqb]. apply index_delete_spec; [done|].
  unfold index_at in Ei. destruct (ft_index t !! pos) as [n|] eqn:Ep; [|done]. cbn in Ei. subst n.
  apply view_lookup. exists (S slot'). split; [done|]. cbn. apply view_lookup. exists g. split; [done|].
  rewrite fslot_used by done. by rewrite Hkg.
Qed.

(** The tuples of the slots after one slot is written. *)
Lemma view_set l slot g x : (slot < length l)%nat ->
  view fslot (<[slot := g]> l) x = if decide (x = slot) then fslot g else view fslot l x.
Proof. intros Hl. case_decide; [subst; by apply view_insert|by rewrite view_insert_ne]. Qed.

Lemma remove_spec t slot f reason : flow_wf t -> ft_flows t !! slot = Some f -> f_used f = true ->
  exists t', remove_slot t slot reason = Some (t', close_flow t f reason) /\ flow_wf t' /\
    ft_flows t' = <[slot := flow_unused]> (ft_flows t) /\ same_config t t' /\
    ft_expire_cursor t' = ft_expire_cursor t /\ ft_evict_cursor t' = ft_evict_cursor t /\
    ft_count t' = ft_count t - 1.
Proof.
  intros Hwf Hf Hu. destruct (remove_index t slot f Hwf Hf Hu) as (l & Hl & Hinv & Habs & Hused).
  unfold remove_slot. rewrite Hf. cbn [mbind option_bind]. rewrite Hl. cbn [mbind option_bind].
  eexists. split; [reflexivity|]. cbn [ft_flows ft_set_count ft_set_free ft_set_flows ft_set_index].
  pose proof Hwf as [Hcap Hsz Hlen Hilen Hflen Hexp _ _ Hindexed Hfle Hnd Hfree Hcount Hnext Hflow Hids].
  assert (Hslot : (slot < ft_capacity t)%nat) by (apply lookup_lt_Some in Hf; lia).
  assert (Hv : view fslot (ft_flows t) slot = Some (fkey f)).
  { apply view_lookup. exists f. split; [done|by apply fslot_used]. }
  assert (Hnin : slot ∉ take (ft_free_count t) (ft_free_slots t)) by (rewrite Hfree; intros [_ ?]; congruence).
  pose proof (used_not_free t slot f Hwf Hf Hu) as Hfc.
  assert (Hno : forall pos, l !! pos <> Some (S slot)).
  { intros pos Hp. assert (Hx : abs (ikey (ft_flows t)) l !! fkey f = Some (S slot)).
    { apply abs_lookup; [by destruct Hinv|]. exists pos. by split. }
    rewrite Habs, lookup_delete_eq in Hx. done. }
  pose proof (fun x => view_set (ft_flows t) slot flow_unused x ltac:(lia)) as Hview. change (fslot flow_unused) with (@None flow_key) in Hview.
  assert (Hsame : forall i n, l !! i = Some n ->
      ikey (ft_flows t) n = ikey (<[slot := flow_unused]> (ft_flows t)) n).
  { intros i [|x] Hi; [done|]. cbn. rewrite Hview. case_decide; [subst; by destruct (Hno i)|done]. }
  unfold FLOW_SIZE in Hsz.
  split; [|split_and!; try done; cbn; rewrite usub_small; lia].
  split; cbn [ft_capacity ft_flows ft_index ft_index_capacity ft_free_slots ft_free_count ft_count ft_expire_cursor ft_next_id ft_set_count ft_set_free ft_set_flows ft_set_index].
  - done.
  - done.
  - by rewrite length_insert.
  - done.
  - by rewrite length_insert.
  - done.
  - by eapply table_inv_ext.
  - intros pos x Hx. rewrite Hview. case_decide; [subst; by destruct (Hno pos)|by eapply Hused].
  - intros x k. rewrite Hview. case_decide as Hxs; [done|]. intros Hk.
    rewrite <- (abs_ext _ _ l Hsame), Habs, lookup_delete_ne; [by apply Hindexed|].
    intros <-. by destruct Hxs; apply (flow_uniq t Hwf _ _ _ Hk Hv).
  - lia.
  - rewrite take_push by lia. apply list.NoDup_app. split_and!; [done| |apply list.NoDup_singleton].
    intros x Hx Hx'. apply list_elem_of_singleton in Hx'. by subst.
  - intros x. rewrite take_push by lia. rewrite elem_of_app, list_elem_of_singleton, Hfree, Hview. case_decide; [subst|]; intuition congruence.
  - rewrite usub_small by lia. lia.
  - done.
  - intros x g Hg. apply list_lookup_insert_Some in Hg as [(_ & <- & _)|[_ Hg]]; [done|by apply Hflow in Hg].
  - intros i j g h Hg Hh. apply list_lookup_insert_Some in Hg as [(_ & <- & _)|[_ Hg]]; [done|].
    apply list_lookup_insert_Some in Hh as [(_ & <- & _)|[_ Hh]]; [done|]. by apply Hids.
Qed.
(** *** Eviction *)

(** The flows that one call of [evict_oldest] looks at. *)
Definition flow_in_window (t : qsr_flow_table) (f : qsr_flow) : Prop :=
  exists i, (i < flow_evict_scans t)%nat /\
    ft_flows t !! ((ft_evict_cursor t + i) mod ft_capacity t)%nat = Some f /\ f_used f = true.

(** [slot] holds a flow of the window that none is older than. *)
Definition flow_victim (t : qsr_flow_table) (slot : nat) (f : qsr_flow) : Prop :=
  ft_flows t !! slot = Some f /\ f_used f = true /\ flow_in_window t f /\
  forall g, flow_in_window t g -> f_last_seen f <= f_last_seen g.

Lemma set_cursors_wf t e v : flow_wf t -> (e < ft_capacity t)%nat -> flow_wf (ft_set_cursors t e v).
Proof. intros [] ?. by split. Qed.

Lemma evict_oldest_spec t : flow_wf t ->
  exists t' n ev, qsr_flow_table_evict_oldest t = Some (t', n, ev) /\ flow_wf t' /\ same_config t t' /\
    ft_count t' = ft_count t - n /\
    ((n = 0 /\ ev = [] /\ ft_flows t' = ft_flows t /\ forall g, ~ flow_in_window t g) \/
     (n = 1 /\ exists slot f, flow_victim t slot f /\ ev = close_flow t f QSR_FLOW_CLOSE_EVICTED /\
        ft_flows t' = <[slot := flow_unused]> (ft_flows t))).
Proof.
  intros Hwf. unfold qsr_flow_table_evict_oldest.
  rewrite (fw_len t Hwf), (proj2 (Nat.eqb_neq (ft_capacity t) 0)) by (pose proof (fw_cap t Hwf); lia). cbn [orb].
  destruct (ft_count t =? 0) eqn:E0; bool_to_prop.
  { exists t, 0, []. split_and!; [done..|lia|]. left. split_and!; [done..|].
    intros g (i & _ & Hg & Hu). pose proof (used_not_free t _ g Hwf Hg Hu). rewrite (fw_count t Hwf) in E0. lia. }
  pose proof (scan_oldest_spec (ft_flows t) f_used f_last_seen
    (fun i => ((ft_evict_cursor t + i) mod ft_capacity t)%nat) (flow_evict_scans t)) as Ho.
  fold (oldest_flow t (flow_evict_scans t)) in Ho.
  set (t1 := ft_set_cursors t _ _). assert (Hwf1 : flow_wf t1) by (apply set_cursors_wf; [done|apply Hwf]).
  destruct (oldest_flow t (flow_evict_scans t)) as [[v o]|].
  - destruct Ho as (i & f & Hi & -> & Hf & Hu & -> & Hmin).
    destruct (remove_spec t1 _ f QSR_FLOW_CLOSE_EVICTED Hwf1 Hf Hu) as (t' & -> & Hwf' & Hfl & Hcfg & _ & _ & Hcnt).
    cbn [mbind option_bind]. eexists _, 1, _. split; [reflexivity|]. split_and!; [done..|].
    right. split; [done|]. exists ((ft_evict_cursor t + i) mod ft_capacity t)%nat, f. split_and!; [|done..].
    split_and!; [done..|by exists i|]. intros g (j & Hj & Hg & Hug). by apply (Hmin j).
  - exists t1, 0, []. split_and!; [done..|cbn; lia|]. left. split_and!; [done..|].
    intros g (i & Hi & Hg & Hu). rewrite (Ho i g) in Hu by done. done.
Qed.
(** *** Replacing a flow under the same tuple *)

Lemma same_view l slot f g x : l !! slot = Some f -> fslot g = fslot f ->
  view fslot (<[slot := g]> l) x = view fslot l x.
Proof.
  intros Hf Hg. destruct (decide (slot = x)) as [<-|]; [|by rewrite view_insert_ne].
  rewrite view_insert by (by apply lookup_lt_Some in Hf). unfold view. by rewrite Hf.
Qed.

(** Anything but the identity of a flow may be rewritten in place. *)
Definition same_identity (f g : qsr_flow) : Prop :=
  f_used g = f_used f /\ f_client_addr g = f_client_addr f /\ f_client_addr_len g = f_client_addr_len f /\ f_id g = f_id f.

Lemma replace_wf t slot f g : flow_wf t -> ft_flows t !! slot = Some f -> f_used f = true ->
  same_identity f g -> 0 <= f_fd g -> flow_wf (ft_set_flows t (<[slot := g]> (ft_flows t))).
Proof.
  intros Hwf Hf Hu (Hgu & Hgc & Hgl & Hgi) Hfd.
  assert (Hs : fslot g = fslot f) by (unfold fslot, fkey; by rewrite Hgu, Hgc, Hgl).
  pose proof (same_view (ft_flows t) slot f g) as Hv.
  assert (Hk : forall n, ikey (ft_flows t) n = ikey (<[slot := g]> (ft_flows t)) n).
  { intros [|x]; [done|]. cbn. by rewrite Hv. }
  destruct Hwf as [Hcap Hsz Hlen Hilen Hflen Hexp Hinv Hiu Hind Hfle Hnd Hfree Hcount Hnext Hflow Hids].
  split; cbn [ft_capacity ft_flows ft_index ft_index_capacity ft_free_slots ft_free_count ft_count ft_expire_cursor ft_next_id ft_set_flows];
    [done|done|by rewrite length_insert|done|done|done| | | |done|done| |done|done| |].
  - eapply table_inv_ext; [|exact Hinv]. intros; apply Hk.
  - intros pos x Hx. rewrite Hv by done. by eapply Hiu.
  - intros x k. rewrite Hv by done. intros Hx. rewrite <- (abs_ext (ikey (ft_flows t))); [by apply Hind|intros; apply Hk].
  - intros x. rewrite Hv by done. apply Hfree.
  - intros x h Hh. apply list_lookup_insert_Some in Hh as [(_ & <- & _)|[_ Hh]]; [|by apply Hflow in Hh].
    specialize (Hflow slot f Hf). rewrite Hu in Hflow. destruct Hflow as (? & _ & ?). by rewrite Hgu, Hu, Hgc, Hgl, Hgi.
  - assert (Hold : forall i h, <[slot := g]> (ft_flows t) !! i = Some h -> f_used h = true ->
        exists h', ft_flows t !! i = Some h' /\ f_used h' = true /\ f_id h' = f_id h).
    { intros i h Hh Huh. apply list_lookup_insert_Some in Hh as [(<- & <- & _)|[_ Hh]]; [exists f|by exists h].
      split_and!; [done..|by rewrite Hgi]. }
    intros i j h h' Hi Hj Hui Huj Hid. destruct (Hold i h Hi Hui) as (x & ? & ? & ?), (Hold j h' Hj Huj) as (y & ? & ? & ?).
    apply (Hids i j x y); [done..|congruence].
Qed.

(** *** Insertion *)

(** The slot on top of the free list. *)
Lemma free_top t : flow_wf t -> (0 < ft_free_count t)%nat ->
  exists slot, ft_free_slots t !! (ft_free_count t - 1)%nat = Some slot /\
    take (ft_free_count t) (ft_free_slots t) = take (ft_free_count t - 1) (ft_free_slots t) ++ [slot] /\
    (slot < ft_capacity t)%nat /\ view fslot (ft_flows t) slot = None /\ ft_flows t !! slot = Some flow_unused.
Proof.
  intros Hwf Hfc. pose proof (fw_len t Hwf) as Hlen. set (fc := (ft_free_count t - 1)%nat).
  destruct (lookup_lt_is_Some_2 (ft_free_slots t) fc) as [slot Hslot]; [destruct Hwf; lia|].
  assert (Htake : take (ft_free_count t) (ft_free_slots t) = take fc (ft_free_slots t) ++ [slot]).
  { replace (ft_free_count t) with (S fc) by lia. by apply take_S_r. }
  assert (Hin : slot ∈ take (ft_free_count t) (ft_free_slots t)) by (rewrite Htake; apply elem_of_app; right; by left).
  destruct Hwf as [_ _ _ _ _ _ _ _ _ _ _ Hfree _ _ Hflow _]. apply Hfree in Hin as [Hlt Hv].
  exists slot. split_and!; [done..|]. destruct (lookup_lt_is_Some_2 (ft_flows t) slot) as [f Hf]; [lia|].
  pose proof (Hflow slot f Hf) as Hx. unfold view in Hv. rewrite Hf in Hv. cbn in Hv. unfold fslot in Hv. destruct (f_used f); [done|congruence].
Qed.

(** A new flow has an id of its own. *)
Lemma new_id_unique t slot g : flow_wf t -> f_id g = ft_next_id t ->
  forall i j f h, <[slot := g]> (ft_flows t) !! i = Some f -> <[slot := g]> (ft_flows t) !! j = Some h ->
    f_used f = true -> f_used h = true -> f_id f = f_id h -> i = j.
Proof.
  intros Hwf Hg. destruct Hwf as [_ _ _ _ _ _ _ _ _ _ _ _ _ _ Hflow Hids].
  assert (Hlow : forall i f, ft_flows t !! i = Some f -> f_used f = true -> f_id f < ft_next_id t).
  { intros i f Hi Hu. specialize (Hflow i f Hi). rewrite Hu in Hflow. lia. }
  intros i j f h Hi Hj Hui Huj Hid'.
  apply list_lookup_insert_Some in Hi as [(<- & <- & _)|[_ Hi]];
    apply list_lookup_insert_Some in Hj as [(<- & <- & _)|[_ Hj]]; [done| | |by eapply Hids].
  - pose proof (Hlow j h Hj Huj). lia.
  - pose proof (Hlow i f Hi Hui). lia.
Qed.

Lemma insert_flow_spec t pos client client_len backend backend_len fd now :
  let k := (client_len, field client client_len) in
  flow_wf t -> (0 < ft_free_count t)%nat -> flows_of t !! k = None ->
  probe (ikey (ft_flows t)) (ft_index_capacity t) (fhome (ft_index_capacity t)) (ft_index t) k = Some (pos, false) ->
  client_valid client client_len = true -> 0 <= fd -> ft_next_id t + 1 < 2 ^ 64 ->
  exists t' slot, flow_insert t pos client client_len backend backend_len fd now = Some (t', slot) /\ flow_wf t' /\
    ft_flows t !! slot = Some flow_unused /\
    ft_flows t' = <[slot := flow_new client client_len backend backend_len fd now (ft_next_id t)]> (ft_flows t) /\
    ft_capacity t' = ft_capacity t /\ ft_on_close t' = ft_on_close t /\ ft_next_id t' = ft_next_id t + 1.
Proof.
  intros k Hwf Hfc Hnone Hp Hcv Hfd Hid. pose proof (fhome_lt _ (icap_pos t Hwf)) as Hh.
  pose proof Hwf as [Hcap Hsz Hlen Hilen Hflen Hexp Hinv Hiu Hind Hfle Hnd Hfree Hcount Hnext Hflow Hids].
  unfold FLOW_SIZE in Hsz. set (fc := (ft_free_count t - 1)%nat).
  destruct (free_top t Hwf Hfc) as (slot & Hslot & Htake & Hlt & Hv & Hf). fold fc in Hslot, Htake.
  set (g := flow_new client client_len backend backend_len fd now (ft_next_id t)).
  pose proof (fun x => view_set (ft_flows t) slot g x ltac:(lia)) as Hview. change (fslot g) with (Some k) in Hview.
  assert (Hsame : forall i n, ft_index t !! i = Some n -> ikey (ft_flows t) n = ikey (<[slot := g]> (ft_flows t)) n).
  { intros i [|x] Hi; [done|]. cbn. rewrite Hview. case_decide; [|done]. subst x.
    destruct (Hiu i slot Hi) as [? Hx]. congruence. }
  assert (Hk : ikey (<[slot := g]> (ft_flows t)) (S slot) = Some k) by (cbn; rewrite Hview; by case_decide).
  pose proof Hp as Hp'. rewrite (probe_ext _ _ _ _ _ Hsame) in Hp'.
  pose proof (table_inv_ext _ _ _ _ _ Hsame Hinv) as Hinv1.
  pose proof (probe_insert_inv _ _ _ Hh _ _ (S slot) _ _ Hinv1 Hk Hp') as Hinv'.
  pose proof (probe_insert_abs _ _ _ Hh _ _ (S slot) _ _ Hinv1 Hk Hp') as Habs'.
  rewrite <- (abs_ext _ _ _ Hsame) in Habs'.
  unfold flow_insert. fold fc. rewrite Hslot. cbn [mbind option_bind]. eexists _, slot. split; [reflexivity|].
  split; [|by split_and!; try done; cbn; rewrite uadd_small; lia].
  split; cbn [ft_capacity ft_flows ft_index ft_index_capacity ft_free_slots ft_free_count ft_count ft_expire_cursor ft_next_id
    ft_set_flows ft_set_free ft_set_index ft_set_next_id ft_set_count]; fold g;
    [done|done|by rewrite length_insert|done|done|done|done| | |lia| | | | | |].
  - intros p x Hx. rewrite Hview. case_decide; [done|].
    apply list_lookup_insert_Some in Hx as [(_ & [= ->] & _)|[_ Hx]]; [done|by eapply Hiu].
  - intros x k'. rewrite Hview, Habs'. case_decide as Hx.
    + intros [= <-]. by rewrite lookup_insert_eq, Hx.
    + intros Hk'. rewrite lookup_insert_ne; [by apply Hind|]. intros <-.
      apply (abs_lookup_view fslot) in Hnone; [by destruct (Hnone x)|by apply flow_uniq].
  - rewrite Htake in Hnd. by apply list.NoDup_app in Hnd as (? & _ & _).
  - intros x. rewrite Hview. pose proof (Hfree x) as Hx. rewrite Htake in Hx, Hnd.
    rewrite elem_of_app, list_elem_of_singleton in Hx. apply list.NoDup_app in Hnd as (_ & Hnd & _).
    specialize (Hnd x). rewrite list_elem_of_singleton in Hnd. case_decide as Hxs.
    + subst x. split; [|by intros [_ ?]]. intros Hin. by destruct (Hnd Hin).
    + rewrite <- Hx. tauto.
  - rewrite uadd_small by lia. lia.
  - rewrite uadd_small; lia.
  - intros x f Hx. rewrite uadd_small by lia. apply list_lookup_insert_Some in Hx as [(_ & <- & _)|[_ Hx]].
    + cbn. split_and!; [done|done|lia|lia].
    + specialize (Hflow x f Hx). destruct (f_used f); [|done]. destruct Hflow as (? & ? & ?). split_and!; [done..|lia|lia].
  - by apply new_id_unique.
Qed.
(** *** [put] *)

Definition put_args_valid (client : list Z) (client_len backend_len fd : Z) : bool :=
  client_valid client client_len && negb (backend_len =? 0) && (backend_len <=? SOCKADDR_SIZE) && (0 <=? fd).

(** The flows among which the new one gets its slot: as they were when a slot
    was free, without an oldest flow of the scan window when none was. *)
Inductive frees_slot (t : qsr_flow_table) : list qsr_flow -> list flow_event -> Prop :=
  | slot_available : (0 < ft_free_count t)%nat -> frees_slot t (ft_flows t) []
  | slot_evicted v f : ft_free_count t = 0%nat -> flow_victim t v f ->
      frees_slot t (<[v := flow_unused]> (ft_flows t)) (close_flow t f QSR_FLOW_CLOSE_EVICTED).

Lemma flows_of_lookup t k f : flow_wf t ->
  flows_of t !! k = Some f <-> exists slot, ft_flows t !! slot = Some f /\ fslot f = Some k.
Proof. intros Hwf. apply abs_lookup. by apply flow_uniq. Qed.

Lemma flows_of_clear t slot f k : flow_wf t -> ft_flows t !! slot = Some f -> f_used f = true ->
  flows_of t !! k = None -> abs fslot (<[slot := flow_unused]> (ft_flows t)) !! k = None.
Proof.
  intros Hwf Hf Hu Hk. rewrite (abs_clear fslot flow_unused eq_refl (ft_flows t) slot (fkey f)).
  - by rewrite lookup_delete_None; right.
  - by apply flow_uniq.
  - apply view_lookup. exists f. split; [done|by apply fslot_used].
Qed.

Lemma full_window t : flow_wf t -> ft_free_count t = 0%nat -> exists g, flow_in_window t g.
Proof.
  intros Hwf Hfc. pose proof (fw_cap t Hwf) as Hcap. set (x := ((ft_evict_cursor t + 0) mod ft_capacity t)%nat).
  assert (Hx : (x < ft_capacity t)%nat) by (apply Nat.mod_upper_bound; lia).
  destruct (view fslot (ft_flows t) x) as [k|] eqn:Ev.
  - destruct (slot_used t x k Ev) as (g & Hg & Hu & _). exists g, 0%nat. split_and!; [|done..].
    unfold flow_evict_scans, QSR_FLOW_EVICT_SCAN_BUDGET. split_if; lia.
  - assert (Hin : x ∈ take (ft_free_count t) (ft_free_slots t)) by (by apply fw_free).
    rewrite Hfc, take_0 in Hin. by apply not_elem_of_nil in Hin.
Qed.

(** The argument check at the head of [put]. *)
Lemma put_guard_eq t client client_len backend_len fd : flow_wf t ->
  (length (ft_flows t) =? 0)%nat || negb (client_valid client client_len) || (backend_len =? 0) ||
  (SOCKADDR_SIZE <? backend_len) || (fd <? 0) = negb (put_args_valid client client_len backend_len fd).
Proof.
  intros Hwf. rewrite (fw_len t Hwf), (proj2 (Nat.eqb_neq (ft_capacity t) 0)) by (pose proof (fw_cap t Hwf); lia).
  unfold put_args_valid. rewrite !negb_andb, negb_involutive, <- Z.ltb_antisym, <- Z.ltb_antisym. done.
Qed.

Lemma flow_put_spec t client client_len backend backend_len fd now :
  flow_wf t -> ft_next_id t + 1 < 2 ^ 64 -> put_args_valid client client_len backend_len fd = true ->
  exists t' slot ev, qsr_flow_table_put t client client_len backend backend_len fd now = Some (t', Some slot, ev) /\
    flow_wf t' /\ ft_capacity t' = ft_capacity t /\ ft_on_close t' = ft_on_close t /\
    match flows_of t !! (client_len, field client client_len) with
    | Some f =>
        ft_flows t !! slot = Some f /\
        ft_flows t' = <[slot := flow_refresh f backend backend_len fd now]> (ft_flows t) /\
        ft_next_id t' = ft_next_id t /\
        ev = if f_fd f =? fd then [] else [CloseFd (f_fd f)]
    | None => exists flows, frees_slot t flows ev /\ flows !! slot = Some flow_unused /\
        ft_flows t' = <[slot := flow_new client client_len backend backend_len fd now (ft_next_id t)]> flows /\
        ft_next_id t' = ft_next_id t + 1
    end.
Proof.
  intros Hwf Hid Hargs. unfold qsr_flow_table_put. rewrite put_guard_eq, Hargs by done. cbn [negb].
  assert (Hv : client_valid client client_len = true /\ 0 <= fd) by (unfold put_args_valid in Hargs; bool_to_prop; done).
  destruct Hv as [Hcv Hfd].
  pose proof (index_find_spec t client client_len Hwf) as Hfind. set (k := (client_len, field client client_len)) in *.
  destruct (index_find t client client_len) as [pos|]; [|done].
  destruct (index_at t pos) as [|slot] eqn:Ei.
  - destruct Hfind as [Hnone Hp]. fold k in Hnone. rewrite Hnone.
    destruct (ft_free_count t =? 0)%nat eqn:Efc.
    + apply Nat.eqb_eq in Efc.
      destruct (evict_oldest_spec t Hwf) as (t1 & n & ev & -> & Hwf1 & (Hcap1 & Hoc1 & Hni1) & Hcnt1 & Hcase).
      destruct Hcase as [(_ & _ & _ & Hno)|(-> & v & f & Hvict & -> & Hfl)].
      { destruct (full_window t Hwf Efc) as [g Hg]. by destruct (Hno g). }
      cbn [mbind option_bind]. change (1 =? 0) with false. cbn iota.
      assert (Hnone1 : flows_of t1 !! k = None).
      { destruct Hvict as (Hf & Hu & _). unfold flows_of. rewrite Hfl. by eapply flows_of_clear. }
      pose proof (index_find_spec t1 client client_len Hwf1) as Hfind1. fold k in Hfind1.
      destruct (index_find t1 client client_len) as [pos1|]; [|done].
      destruct (index_at t1 pos1) as [|slot1].
      2: { destruct Hfind1 as (g & Hg & Hug & Hkg). assert (flows_of t1 !! k = Some g); [|congruence].
           apply flows_of_lookup; [done|]. exists slot1. split; [done|]. rewrite fslot_used by done. by rewrite Hkg. }
      destruct Hfind1 as [_ Hp1].
      assert (Hfc1 : (0 < ft_free_count t1)%nat) by (pose proof (fw_count t Hwf); pose proof (fw_count t1 Hwf1); lia).
      destruct (insert_flow_spec t1 pos1 client client_len backend backend_len fd now) as (t' & slot & -> & Hwf' & Hun & Hfl' & Hcap' & Hoc' & Hni');
        [done..|lia|]. cbn [mbind option_bind]. eexists _, _, _. split; [reflexivity|]. split_and!; [done|congruence|congruence|].
      exists (ft_flows t1). rewrite Hfl. split_and!; [by apply slot_evicted|by rewrite <- Hfl|by rewrite <- Hfl, <- Hni1|by rewrite <- Hni1].
    + apply Nat.eqb_neq in Efc.
      destruct (insert_flow_spec t pos client client_len backend backend_len fd now) as (t' & slot & -> & Hwf' & Hun & Hfl' & Hcap' & Hoc' & Hni');
        [done|lia|done..|lia|done|]. cbn [mbind option_bind]. eexists _, _, _. split; [reflexivity|]. split_and!; [done..|].
      exists (ft_flows t). split_and!; [apply slot_available; lia|done..].
  - destruct Hfind as (f & Hf & Hu & Hk). fold k in Hk.
    assert (Hl : flows_of t !! k = Some f).
    { apply flows_of_lookup; [done|]. exists slot. split; [done|]. rewrite fslot_used by done. by rewrite Hk. }
    rewrite Hl, Hf. cbn [mbind option_bind]. eexists _, _, _. split; [reflexivity|].
    pose proof (fw_flow t Hwf slot f Hf) as Hff. rewrite Hu in Hff.
    split_and!; [|done..|]; [by apply (replace_wf t slot f)|].
    rewrite (proj2 (Z.leb_le 0 (f_fd f))) by lia. cbn. by destruct (f_fd f =? fd).
Qed.
Lemma flow_get_spec t client client_len :
  flow_wf t ->
  if client_valid client client_len then
    match qsr_flow_table_get t client client_len with
    | Some slot => exists f, ft_flows t !! slot = Some f /\ f_used f = true /\ fkey f = (client_len, field client client_len)
    | None => forall slot f, ft_flows t !! slot = Some f -> f_used f = true -> fkey f <> (client_len, field client client_len)
    end
  else qsr_flow_table_get t client client_len = None.
Proof.
  intros Hwf. unfold qsr_flow_table_get.
  rewrite (fw_len t Hwf), (proj2 (Nat.eqb_neq (ft_capacity t) 0)) by (pose proof (fw_cap t Hwf); lia). cbn [orb].
  destruct (client_valid client client_len); [|done]. cbn [negb].
  pose proof (index_find_spec t client client_len Hwf) as Hfind.
  destruct (index_find t client client_len) as [pos|]; [|done]. destruct (index_at t pos) as [|slot]; [|done].
  destruct Hfind as [Hnone _]. intros slot f Hf Hu Hk. rewrite <- Hk in Hnone.
  assert (flows_of t !! fkey f = Some f); [|congruence]. apply flows_of_lookup; [done|]. exists slot. by rewrite fslot_used.
Qed.
(** *** Descriptors *)

(** The descriptors a table owns, and those that a list of events closes. *)
Definition fds (l : list qsr_flow) : list Z := omap (fun f => if f_used f then Some (f_fd f) else None) l.
Definition closed (ev : list flow_event) : list Z := omap (fun e => if e is CloseFd fd then Some fd else None) ev.

Lemma fds_insert l slot f g : l !! slot = Some f ->
  (if f_used f then [f_fd f] else []) ++ fds (<[slot := g]> l) ≡ₚ (if f_used g then [f_fd g] else []) ++ fds l.
Proof.
  revert slot. induction l as [|x l IH]; intros [|slot] Hl; [done|done| |]; cbn in Hl |- *.
  - injection Hl as ->. destruct (f_used f), (f_used g); cbn; [apply Permutation_swap|done..].
  - specialize (IH slot Hl). destruct (f_used x); [|exact IH].
    rewrite <- !Permutation_middle. by rewrite IH.
Qed.

Lemma closed_app e1 e2 : closed (e1 ++ e2) = closed e1 ++ closed e2.
Proof. unfold closed. apply omap_app. Qed.

Lemma closed_flow t f r : 0 <= f_fd f -> closed (close_flow t f r) = [f_fd f].
Proof.
  intros Hfd. unfold close_flow. rewrite closed_app, (proj2 (Z.leb_le 0 (f_fd f))) by done.
  by destruct (ft_on_close t).
Qed.

Lemma fds_clear l slot f t r : l !! slot = Some f -> f_used f = true -> 0 <= f_fd f ->
  closed (close_flow t f r) ++ fds (<[slot := flow_unused]> l) ≡ₚ fds l.
Proof. intros Hl Hu Hfd. rewrite closed_flow by done. pose proof (fds_insert l slot f flow_unused Hl) as Hp. by rewrite Hu in Hp. Qed.

Lemma used_fd t slot f : flow_wf t -> ft_flows t !! slot = Some f -> f_used f = true -> 0 <= f_fd f.
Proof. intros Hwf Hf Hu. pose proof (fw_flow t Hwf slot f Hf) as Hx. rewrite Hu in Hx. lia. Qed.

(** *** Sweeps *)

(** [l'] is [l] with the doomed flows of the listed slots removed. *)
Definition cleared (doomed : qsr_flow -> bool) (slots : list nat) (l l' : list qsr_flow) : Prop :=
  forall i f, l !! i = Some f ->
    l' !! i = Some (if bool_decide (i ∈ slots) && f_used f && doomed f then flow_unused else f).

(** What a sweep over [slots] does: from [t] to [t'] with [n] removals and events [ev]. *)
Record flow_swept (doomed : qsr_flow -> bool) (slots : list nat) (t t' : qsr_flow_table) (n : Z) (ev : list flow_event) : Prop := {
  fsw_wf : flow_wf t';
  fsw_config : same_config t t';
  fsw_cleared : cleared doomed slots (ft_flows t) (ft_flows t');
  fsw_count : n = ft_count t - ft_count t';
  fsw_fds : closed ev ++ fds (ft_flows t') ≡ₚ fds (ft_flows t);
}.

Lemma flow_swept_nil doomed t : flow_wf t -> flow_swept doomed [] t t 0 [].
Proof. intros Hwf. split; [done|done| |lia|done]. intros i f Hf. rewrite bool_decide_false; [done|apply not_elem_of_nil]. Qed.

Lemma flow_swept_cons doomed slot slots t t1 t2 n1 n2 ev1 ev2 :
  flow_swept doomed [slot] t t1 n1 ev1 -> flow_swept doomed slots t1 t2 n2 ev2 ->
  flow_swept doomed (slot :: slots) t t2 (n1 + n2) (ev1 ++ ev2).
Proof.
  intros [_ (? & ? & ?) Hc1 Hn1 Hf1] [Hwf (? & ? & ?) Hc2 Hn2 Hf2]. split; [done|split_and!; congruence| |lia|].
  - intros i f Hf. apply Hc1 in Hf. apply Hc2 in Hf. rewrite Hf. f_equal.
    destruct (decide (i = slot)) as [->|Hne].
    + rewrite !(bool_decide_true (slot ∈ _ :: _)) by left. cbn [andb].
      destruct (f_used f) eqn:Eu, (doomed f) eqn:Ed; cbn [andb]; rewrite ?Eu, ?Ed, ?andb_false_r; done.
    + rewrite (bool_decide_false (i ∈ [slot])) by (by rewrite list_elem_of_singleton). cbn [andb].
      rewrite (bool_decide_ext (i ∈ slot :: slots) (i ∈ slots)); [done|]. rewrite elem_of_cons. tauto.
  - rewrite closed_app, <- app_assoc, Hf2. exact Hf1.
Qed.

Lemma remove_if_spec doomed reason t slot : flow_wf t -> (slot < ft_capacity t)%nat ->
  exists t' n ev, remove_if doomed reason t slot = Some (t', n, ev) /\ flow_swept doomed [slot] t t' n ev /\
    0 <= n <= 1 /\ ft_expire_cursor t' = ft_expire_cursor t.
Proof.
  intros Hwf Hs. unfold remove_if. destruct (lookup_lt_is_Some_2 (ft_flows t) slot) as [f Hf]; [by rewrite (fw_len t Hwf)|].
  rewrite Hf. cbn [mbind option_bind]. destruct (f_used f && doomed f) eqn:E.
  - apply andb_true_iff in E as [Hu Hd].
    destruct (remove_spec t slot f reason Hwf Hf Hu) as (t' & -> & Hwf' & Hfl & Hcfg & Hcur & _ & Hcnt).
    cbn [mbind option_bind]. eexists _, 1, _. split; [reflexivity|]. split; [|split; [lia|done]]. split; [done|done| |lia|].
    + intros i g Hg. rewrite Hfl. destruct (decide (slot = i)) as [<-|Hne].
      * rewrite Hf in Hg. injection Hg as <-. rewrite list_lookup_insert_eq by (by apply lookup_lt_Some in Hf).
        rewrite bool_decide_true by (by apply list_elem_of_singleton). by rewrite Hu, Hd.
      * rewrite list_lookup_insert_ne by done. rewrite bool_decide_false by (rewrite list_elem_of_singleton; congruence). done.
    + rewrite Hfl. apply fds_clear; [done..|exact (used_fd t slot f Hwf Hf Hu)].
  - exists t, 0, []. split; [done|]. split; [|split; [lia|done]]. split; [done|done| |lia|done].
    intros i g Hg. rewrite Hg. f_equal. destruct (decide (slot = i)) as [<-|Hne].
    + rewrite Hf in Hg. injection Hg as <-. rewrite <- andb_assoc, E. by rewrite andb_false_r.
    + rewrite bool_decide_false by (rewrite list_elem_of_singleton; congruence). done.
Qed.

Lemma count_range t : flow_wf t -> 0 <= ft_count t <= Z.of_nat (ft_capacity t) /\ Z.of_nat (ft_capacity t) < 2 ^ 56.
Proof. intros []. unfold FLOW_SIZE in *. lia. Qed.

Lemma flow_evict_loop_spec pred slots : forall t n, flow_wf t -> (forall s, s ∈ slots -> (s < ft_capacity t)%nat) ->
  0 <= n -> n + ft_count t < 2 ^ 64 ->
  exists t' m ev, flow_evict_loop pred t slots n = Some (t', n + m, ev) /\ flow_swept pred slots t t' m ev.
Proof.
  induction slots as [|s slots IH]; intros t n Hwf Hs Hn Hb; cbn [flow_evict_loop].
  - exists t, 0, []. split; [by rewrite Z.add_0_r|by apply flow_swept_nil].
  - destruct (remove_if_spec pred QSR_FLOW_CLOSE_FILTERED t s Hwf) as (t1 & n1 & ev1 & -> & Hsw1 & Hn1 & _); [apply Hs; left|].
    cbn [mbind option_bind]. pose proof Hsw1 as [Hwf1 (Hcap1 & _) _ Hcnt1 _]. pose proof (count_range t1 Hwf1).
    rewrite uadd_small by lia.
    destruct (IH t1 (n + n1) Hwf1) as (t2 & m & ev2 & -> & Hsw2); [|lia|lia|].
    { intros x Hx. rewrite Hcap1. apply Hs. by right. }
    cbn [mbind option_bind]. eexists _, (n1 + m), _. split; [by rewrite Z.add_assoc|]. by eapply flow_swept_cons.
Qed.

(** The slots that [k] iterations from cursor [x] look at. *)
Definition cursor_slots (c x k : nat) : list nat := (fun i => cstep c x i) <$> seq 0 k.

Lemma cursor_slots_S c x k : (x < c)%nat -> cursor_slots c x (S k) = x :: cursor_slots c (cstep c x 1) k.
Proof.
  intros Hx. unfold cursor_slots. cbn [seq fmap list_fmap]. rewrite cstep_0 by done. f_equal.
  rewrite <- seq_shift, <- list_fmap_compose. apply list_fmap_ext. intros i y _. cbn. by rewrite cstep_cstep.
Qed.

Lemma flow_expire_loop_spec now timeout k : forall t n, flow_wf t -> 0 <= n -> n + ft_count t < 2 ^ 64 ->
  exists t' m ev, flow_expire_loop t now timeout k n = Some (t', n + m, ev) /\
    flow_swept (flow_idle now timeout) (cursor_slots (ft_capacity t) (ft_expire_cursor t) k) t t' m ev /\ m <= Z.of_nat k /\
    ft_expire_cursor t' = cstep (ft_capacity t) (ft_expire_cursor t) k.
Proof.
  induction k as [|k IH]; intros t n Hwf Hn Hb; cbn [flow_expire_loop].
  - exists t, 0, []. split; [by rewrite Z.add_0_r|]. split_and!; [by apply flow_swept_nil|lia|].
    symmetry. apply cstep_0, Hwf.
  - pose proof (fw_expire t Hwf) as Hcur.
    destruct (remove_if_spec (flow_idle now timeout) QSR_FLOW_CLOSE_IDLE t (ft_expire_cursor t) Hwf Hcur)
      as (t1 & n1 & ev1 & -> & Hsw1 & Hn1 & Hc1).
    cbn [mbind option_bind]. pose proof Hsw1 as [Hwf1 (Hcap1 & Hoc1 & Hni1) Hcl1 Hcnt1 Hfd1]. pose proof (count_range t1 Hwf1).
    rewrite uadd_small by lia. set (t1' := ft_set_cursors t1 _ _).
    assert (Hlt : (cstep (ft_capacity t) (ft_expire_cursor t) 1 < ft_capacity t)%nat) by (apply cstep_lt, Hwf).
    assert (Hcur1 : ft_expire_cursor t1' = cstep (ft_capacity t) (ft_expire_cursor t) 1) by (cbn; by rewrite Hc1, Hcap1).
    assert (Hwf1' : flow_wf t1').
    { apply set_cursors_wf; [done|]. rewrite Hcap1, Hc1. exact Hlt. }
    destruct (IH t1' (n + n1) Hwf1') as (t2 & m & ev2 & -> & Hsw2 & Hm & Hcur2); [lia|cbn; lia|].
    cbn [mbind option_bind]. eexists _, (n1 + m), _. split; [by rewrite Z.add_assoc|]. split; [|split; [lia|]].
    2: { rewrite Hcur2, Hcur1. change (ft_capacity t1') with (ft_capacity t1). by rewrite Hcap1, cstep_cstep. }
    rewrite cursor_slots_S by done. rewrite Hcur1 in Hsw2. change (ft_capacity t1') with (ft_capacity t1) in Hsw2.
    rewrite Hcap1 in Hsw2. eapply flow_swept_cons; [|exact Hsw2]. by split.
Qed.
(** *** A table in use *)

Lemma flow_init_wf calloc capacity t :
  (forall n sz, calloc n sz = true -> n * sz < 2 ^ 64) ->
  qsr_flow_table_init calloc capacity = inl t ->
  flow_wf t /\ ft_flows t = replicate capacity flow_unused /\ ft_next_id t = 1.
Proof.
  intros Hcalloc. unfold qsr_flow_table_init. destruct (capacity =? 0)%nat eqn:E0; [done|]. apply Nat.eqb_neq in E0.
  destruct (_ && _) eqn:Ec; [|done]. bool_to_prop. intros [= <-]. split; [|done].
  assert (Hv : forall i, view fslot (replicate capacity flow_unused) i = None).
  { intros i. unfold view. destruct (_ !! i) as [f|] eqn:E; [|done]. by apply lookup_replicate in E as [-> _]. }
  destruct (table_inv_empty (ikey (replicate capacity flow_unused)) 0%nat (capacity * 2) (fhome (capacity * 2)) eq_refl)
    as [Hinv _]; [lia|].
  assert (Hin : forall i, i ∈ (fun i => capacity - 1 - i)%nat <$> seq 0 capacity <-> (i < capacity)%nat).
  { intros i. rewrite list_elem_of_fmap. split.
    - intros (y & -> & Hy). apply elem_of_seq in Hy. lia.
    - intros Hi. exists (capacity - 1 - i)%nat. split; [lia|]. apply elem_of_seq. lia. }
  assert (Hlen : length ((fun i => capacity - 1 - i)%nat <$> seq 0 capacity) = capacity) by (by rewrite length_fmap, length_seq).
  split; cbn [ft_capacity ft_flows ft_index ft_index_capacity ft_free_slots ft_free_count ft_count ft_expire_cursor ft_next_id].
  - lia.
  - auto.
  - by rewrite length_replicate.
  - done.
  - done.
  - lia.
  - done.
  - intros pos slot Hp. by apply lookup_replicate in Hp as [? _].
  - intros slot k Hk. by rewrite Hv in Hk.
  - done.
  - rewrite take_ge by lia. apply NoDup_fmap_2_strong; [|apply list.NoDup_seq].
    intros x y Hx Hy. apply elem_of_seq in Hx, Hy. lia.
  - intros slot. rewrite take_ge, Hin, Hv by lia. tauto.
  - lia.
  - done.
  - intros slot f Hf. by apply lookup_replicate in Hf as [-> _].
  - intros i j f g Hf _ Hu. by apply lookup_replicate in Hf as [-> _].
Qed.

(** One operation on a flow table: the descriptors it accepts and its events. A
    descriptor passed to [put] is one the kernel has just returned, so none that
    the table still holds; the 64-bit id counter does not wrap. [step_update] is
    a caller's write through a flow pointer (activity, log metadata). *)
Inductive flow_step (t : qsr_flow_table) : list Z -> list flow_event -> qsr_flow_table -> Prop :=
  | step_put client client_len backend backend_len fd now t' slot ev :
      fd ∉ fds (ft_flows t) -> ft_next_id t + 1 < 2 ^ 64 ->
      qsr_flow_table_put t client client_len backend backend_len fd now = Some (t', slot, ev) ->
      flow_step t (if slot is Some _ then [fd] else []) ev t'
  | step_update slot f g :
      ft_flows t !! slot = Some f -> f_used f = true -> same_identity f g -> f_fd g = f_fd f ->
      flow_step t [] [] (ft_set_flows t (<[slot := g]> (ft_flows t)))
  | step_remove slot t' ev : qsr_flow_table_remove t slot = Some (t', ev) -> flow_step t [] ev t'
  | step_evict_oldest t' n ev : qsr_flow_table_evict_oldest t = Some (t', n, ev) -> flow_step t [] ev t'
  | step_expire now timeout budget t' n ev :
      qsr_flow_table_expire_incremental t now timeout budget = Some (t', n, ev) -> flow_step t [] ev t'
  | step_evict_if pred t' n ev : qsr_flow_table_evict_if t pred = Some (t', n, ev) -> flow_step t [] ev t'.

(** A run from [init]: the table, all descriptors accepted and all events, latest first. *)
Inductive flow_run (calloc : Z -> Z -> bool) : qsr_flow_table -> list Z -> list flow_event -> Prop :=
  | run_init capacity t : qsr_flow_table_init calloc capacity = inl t -> flow_run calloc t [] []
  | run_step t owned ev acc ev' t' :
      flow_run calloc t owned ev -> flow_step t acc ev' t' -> flow_run calloc t' (acc ++ owned) (ev' ++ ev).

Definition flow_steps : qsr_flow_table -> qsr_flow_table -> Prop := rtc (fun t t' => exists acc ev, flow_step t acc ev t').

(** [t'] comes from [t] by closing, with events [ev], what it no longer holds. *)
Definition drops (t t' : qsr_flow_table) (ev : list flow_event) : Prop :=
  flow_wf t' /\ closed ev ++ fds (ft_flows t') ≡ₚ fds (ft_flows t).

Lemma remove_drops t slot t' ev : flow_wf t -> qsr_flow_table_remove t slot = Some (t', ev) -> drops t t' ev.
Proof.
  intros Hwf. unfold qsr_flow_table_remove. destruct (ft_flows t !! slot) as [f|] eqn:Hf; [|by intros [= <- <-]].
  destruct (f_used f) eqn:Hu; [|by intros [= <- <-]].
  destruct (remove_spec t slot f QSR_FLOW_CLOSE_REMOVED Hwf Hf Hu) as (t1 & -> & Hwf1 & Hfl & _). intros [= <- <-].
  split; [done|]. rewrite Hfl. apply fds_clear; [done..|exact (used_fd t slot f Hwf Hf Hu)].
Qed.

Lemma evict_oldest_drops t t' n ev : flow_wf t -> qsr_flow_table_evict_oldest t = Some (t', n, ev) -> drops t t' ev.
Proof.
  intros Hwf He. destruct (evict_oldest_spec t Hwf) as (t1 & m & ev1 & He1 & Hwf1 & _ & _ & Hcase).
  rewrite He in He1. injection He1 as <- <- <-. split; [done|].
  destruct Hcase as [(_ & -> & -> & _)|(_ & v & f & (Hf & Hu & _) & -> & ->)]; [done|].
  apply fds_clear; [done..|exact (used_fd t v f Hwf Hf Hu)].
Qed.

Lemma flow_expire_incremental_spec t now timeout budget : flow_wf t ->
  exists t' n ev, qsr_flow_table_expire_incremental t now timeout budget = Some (t', n, ev) /\
    flow_swept (flow_idle now timeout)
      (cursor_slots (ft_capacity t) (ft_expire_cursor t) (budget `min` ft_capacity t)) t t' n ev /\ n <= Z.of_nat budget /\
    ft_expire_cursor t' = cstep (ft_capacity t) (ft_expire_cursor t) (budget `min` ft_capacity t).
Proof.
  intros Hwf. unfold qsr_flow_table_expire_incremental.
  rewrite (fw_len t Hwf), (proj2 (Nat.eqb_neq (ft_capacity t) 0)) by (pose proof (fw_cap t Hwf); lia). cbn [orb].
  destruct (budget =? 0)%nat eqn:Eb.
  - apply Nat.eqb_eq in Eb as ->. exists t, 0, []. split; [done|].
    split_and!; [by apply flow_swept_nil|lia|]. symmetry. apply cstep_0, Hwf.
  - pose proof (count_range t Hwf).
    destruct (flow_expire_loop_spec now timeout (budget `min` ft_capacity t) t 0 Hwf) as (t' & m & ev & -> & Hsw & Hm & Hcur); [lia..|].
    exists t', m, ev. split_and!; [done|done|lia|done].
Qed.

Lemma evict_if_spec t pred : flow_wf t ->
  exists t' n ev, qsr_flow_table_evict_if t pred = Some (t', n, ev) /\
    flow_swept (default (fun _ => false) pred) (if pred is Some _ then seq 0 (ft_capacity t) else []) t t' n ev.
Proof.
  intros Hwf. unfold qsr_flow_table_evict_if. destruct pred as [pred|].
  - rewrite (fw_len t Hwf), (proj2 (Nat.eqb_neq (ft_capacity t) 0)) by (pose proof (fw_cap t Hwf); lia).
    pose proof (count_range t Hwf).
    destruct (flow_evict_loop_spec pred (seq 0 (ft_capacity t)) t 0 Hwf) as (t' & m & ev & -> & Hsw); [|lia..|by exists t', m, ev].
    intros s Hs. apply elem_of_seq in Hs. lia.
  - exists t, 0, []. split; [done|by apply flow_swept_nil].
Qed.

Lemma flow_evict_if_capacity t pred t' n ev : flow_wf t -> qsr_flow_table_evict_if t pred = Some (t', n, ev) ->
  ft_capacity t' = ft_capacity t.
Proof. intros Hwf He. destruct (evict_if_spec t pred Hwf) as (t1 & m & ev1 & He1 & [_ [? _] _ _ _]). congruence. Qed.

Lemma refresh_fds l slot f g : l !! slot = Some f -> f_used f = true -> f_used g = true ->
  f_fd f :: fds (<[slot := g]> l) ≡ₚ f_fd g :: fds l.
Proof. intros Hf Hu Hg. pose proof (fds_insert l slot f g Hf) as Hp. by rewrite Hu, Hg in Hp. Qed.

(** A [put] takes over its descriptor and closes what it replaces. *)
Lemma put_owns t client client_len backend backend_len fd now t' slot ev :
  flow_wf t -> ft_next_id t + 1 < 2 ^ 64 -> fd ∉ fds (ft_flows t) ->
  qsr_flow_table_put t client client_len backend backend_len fd now = Some (t', slot, ev) ->
  flow_wf t' /\ closed ev ++ fds (ft_flows t') ≡ₚ (if slot is Some _ then [fd] else []) ++ fds (ft_flows t).
Proof.
  intros Hwf Hid Hfresh Hput. destruct (put_args_valid client client_len backend_len fd) eqn:Ea.
  2: { unfold qsr_flow_table_put in Hput. rewrite put_guard_eq, Ea in Hput by done. by injection Hput as <- <- <-. }
  destruct (flow_put_spec t client client_len backend backend_len fd now Hwf Hid Ea)
    as (t1 & s & ev1 & Hput1 & Hwf1 & _ & _ & Hm). rewrite Hput in Hput1. injection Hput1 as <- -> <-. split; [done|].
  destruct (flows_of t !! _) as [f|] eqn:El.
  - destruct Hm as (Hf & -> & _ & ->). apply flows_of_lookup in El as (x & Hx & Hk); [|done].
    assert (Hu : f_used f = true) by (unfold fslot in Hk; by destruct (f_used f)).
    destruct (f_fd f =? fd) eqn:Efd; bool_to_prop.
    + destruct Hfresh. apply list_elem_of_omap. exists f. rewrite Hu, Efd. split; [by eapply list_elem_of_lookup_2|done].
    + by apply (refresh_fds (ft_flows t) s f).
  - destruct Hm as (fl & Hfr & Hun & -> & _).
    pose proof (fds_insert fl s flow_unused (flow_new client client_len backend backend_len fd now (ft_next_id t)) Hun) as Hp.
    cbn [flow_unused flow_set_fd flow0 flow_new f_used f_fd app] in Hp. rewrite Hp.
    destruct Hfr as [_|v f _ (Hf & Hu & _)]; [done|]. rewrite <- Permutation_middle.
    by rewrite (fds_clear (ft_flows t) v f t _ Hf Hu (used_fd t v f Hwf Hf Hu)).
Qed.
(** *** Identity over time *)

(** Every flow of [t'] sat in the same slot of [t], or has a fresh id. *)
Definition keeps_identity (t t' : qsr_flow_table) : Prop :=
  ft_next_id t <= ft_next_id t' /\
  forall b g, ft_flows t' !! b = Some g -> f_used g = true ->
    (exists f, ft_flows t !! b = Some f /\ f_used f = true /\ same_identity f g) \/ ft_next_id t <= f_id g.

Lemma keeps_cleared doomed slots t t' : flow_wf t -> flow_wf t' -> same_config t t' ->
  cleared doomed slots (ft_flows t) (ft_flows t') -> keeps_identity t t'.
Proof.
  intros Hwf Hwf' (Hcap & _ & Hni) Hc. split; [lia|]. intros b g Hg Hu. left.
  destruct (lookup_lt_is_Some_2 (ft_flows t) b) as [f Hf].
  { rewrite (fw_len t Hwf), <- Hcap, <- (fw_len t' Hwf'). by apply lookup_lt_Some in Hg. }
  specialize (Hc b f Hf). rewrite Hg in Hc. injection Hc as ->. exists f. split; [done|].
  destruct (_ && _ && _); [done|]. by split.
Qed.

Lemma keeps_clear t t' v : same_config t t' -> ft_flows t' = <[v := flow_unused]> (ft_flows t) -> keeps_identity t t'.
Proof.
  intros (_ & _ & Hni) Hfl. split; [lia|]. rewrite Hfl. intros b g Hg Hu.
  apply list_lookup_insert_Some in Hg as [(_ & <- & _)|[_ Hg]]; [done|]. left. by exists g.
Qed.

Lemma put_keeps t client client_len backend backend_len fd now t' slot ev :
  flow_wf t -> ft_next_id t + 1 < 2 ^ 64 ->
  qsr_flow_table_put t client client_len backend backend_len fd now = Some (t', slot, ev) -> keeps_identity t t'.
Proof.
  intros Hwf Hid Hput. destruct (put_args_valid client client_len backend_len fd) eqn:Ea.
  2: { unfold qsr_flow_table_put in Hput. rewrite put_guard_eq, Ea in Hput by done. injection Hput as <- <- <-.
       split; [lia|]. intros b g Hg Hu. left. by exists g. }
  destruct (flow_put_spec t client client_len backend backend_len fd now Hwf Hid Ea)
    as (t1 & s & ev1 & Hput1 & _ & _ & _ & Hm). rewrite Hput in Hput1. injection Hput1 as <- -> <-.
  destruct (flows_of t !! _) as [f|].
  - destruct Hm as (Hf & Hfl & Hni & _). split; [lia|]. rewrite Hfl. intros b g Hg Hu.
    apply list_lookup_insert_Some in Hg as [(<- & <- & _)|[_ Hg]]; left; [by exists f|by exists g].
  - destruct Hm as (fl & Hfr & _ & Hfl & Hni). split; [lia|]. rewrite Hfl. intros b g Hg Hu.
    apply list_lookup_insert_Some in Hg as [(_ & <- & _)|[_ Hg]]; [right; cbn; lia|left; exists g].
    destruct Hfr as [_|v f _ _]; [done|]. by apply list_lookup_insert_Some in Hg as [(_ & <- & _)|[_ Hg]].
Qed.

(** Every operation keeps the table well formed, conserves descriptors and identities. *)
Lemma step_spec t acc ev t' : flow_wf t -> flow_step t acc ev t' ->
  flow_wf t' /\ closed ev ++ fds (ft_flows t') ≡ₚ acc ++ fds (ft_flows t) /\ keeps_identity t t' /\
  forall fd, fd ∈ acc -> fd ∉ fds (ft_flows t).
Proof.
  intros Hwf Hstep.
  assert (Hnil : forall fd : Z, fd ∈ [] -> fd ∉ fds (ft_flows t)) by (intros fd Hfd; by apply not_elem_of_nil in Hfd).
  destruct Hstep as [client client_len backend backend_len fd now t' slot ev Hfresh Hid Hput|slot f g Hf Hu Hsi Hfd
    |slot t' ev Hr|t' n ev He|now timeout budget t' n ev He|pred t' n ev He].
  - destruct (put_owns _ _ _ _ _ _ _ _ _ _ Hwf Hid Hfresh Hput). split_and!; [done|by destruct slot|by eapply put_keeps|].
    intros x Hx. destruct slot; [apply list_elem_of_singleton in Hx as ->; done|by apply not_elem_of_nil in Hx].
  - pose proof (used_fd t slot f Hwf Hf Hu). pose proof Hsi as (Hug & _).
    split_and!; [apply (replace_wf t slot f g); [done..|lia]| | |done].
    + cbn [closed omap list_omap app ft_flows ft_set_flows]. apply (Permutation_cons_inv (a := f_fd f)).
      rewrite (refresh_fds (ft_flows t) slot f g Hf Hu) by congruence. by rewrite Hfd.
    + split; [cbn; lia|]. intros b h Hh Huh. left.
      apply list_lookup_insert_Some in Hh as [(<- & <- & _)|[_ Hh]]; [by exists f|by exists h].
  - pose proof (remove_drops t slot t' ev Hwf Hr) as [Hwf' Hp]. split_and!; [done|done| |done].
    unfold qsr_flow_table_remove in Hr. destruct (ft_flows t !! slot) as [f|] eqn:Hf.
    + destruct (f_used f) eqn:Hu.
      * destruct (remove_spec t slot f QSR_FLOW_CLOSE_REMOVED Hwf Hf Hu) as (t1 & Hr1 & _ & Hfl & Hcfg & _).
        rewrite Hr in Hr1. injection Hr1 as <- _. by eapply keeps_clear.
      * injection Hr as <- _. split; [lia|]. intros b g Hg Hug. left. by exists g.
    + injection Hr as <- _. split; [lia|]. intros b g Hg Hug. left. by exists g.
  - pose proof (evict_oldest_drops t t' n ev Hwf He) as [Hwf' Hp]. split_and!; [done|done| |done].
    destruct (evict_oldest_spec t Hwf) as (t1 & m & ev1 & He1 & _ & Hcfg & _ & Hcase).
    rewrite He in He1. injection He1 as <- <- <-. destruct Hcase as [(_ & _ & Hfl & _)|(_ & v & f & _ & _ & Hfl)].
    + destruct Hcfg as (_ & _ & Hni). split; [lia|]. rewrite Hfl. intros b g Hg Hug. left. by exists g.
    + by eapply keeps_clear.
  - destruct (flow_expire_incremental_spec t now timeout budget Hwf) as (t1 & m & ev1 & He1 & [Hwf1 Hcfg Hcl _ Hp] & _).
    rewrite He in He1. injection He1 as <- _ <-. split_and!; [done|done|by eapply keeps_cleared|done].
  - destruct (evict_if_spec t pred Hwf) as (t1 & m & ev1 & He1 & [Hwf1 Hcfg Hcl _ Hp]).
    rewrite He in He1. injection He1 as <- _ <-. split_and!; [done|done|by eapply keeps_cleared|done].
Qed.

Lemma keeps_trans t1 t2 t3 : keeps_identity t1 t2 -> keeps_identity t2 t3 -> keeps_identity t1 t3.
Proof.
  intros [Hn1 H1] [Hn2 H2]. split; [lia|]. intros b g Hg Hu.
  destruct (H2 b g Hg Hu) as [(f & Hf & Huf & Hi)|?]; [|right; lia].
  destruct (H1 b f Hf Huf) as [(e & He & Hue & Hi')|Hid].
  - left. exists e. split_and!; [done..|]. unfold same_identity in *. intuition congruence.
  - right. destruct Hi as (_ & _ & _ & ->). done.
Qed.

(** [free] closes what the flows hold. *)
Lemma free_closes t : flow_wf t -> closed (qsr_flow_table_free t).2 = fds (ft_flows t).
Proof.
  intros Hwf.
  unfold qsr_flow_table_free. cbn [snd]. assert (Hfd : forall f, f ∈ ft_flows t -> f_used f = true -> 0 <= f_fd f).
  { intros f Hf Hu. apply list_elem_of_lookup in Hf as [i Hi]. by eapply used_fd. }
  revert Hfd. generalize (ft_flows t) as l. induction l as [|f l IH]; intros Hfd; [done|].
  rewrite bind_cons, closed_app, IH by (intros g Hg; apply Hfd; by right). unfold fds. cbn [omap list_omap].
  destruct (f_used f) eqn:Hu; [|done]. rewrite closed_flow by (apply Hfd; [left|done]). done.
Qed.

Lemma flow_run_wf calloc t owned ev :
  (forall n sz, calloc n sz = true -> n * sz < 2 ^ 64) -> flow_run calloc t owned ev ->
  flow_wf t /\ owned ≡ₚ closed ev ++ fds (ft_flows t) /\ NoDup (fds (ft_flows t)).
Proof.
  intros Hcalloc. induction 1 as [capacity t Hi|t owned ev acc ev' t' _ (Hwf & Hp & Hnd) Hstep].
  - destruct (flow_init_wf calloc capacity t Hcalloc Hi) as (Hwf & -> & _).
    assert (Hnone : fds (replicate capacity flow_unused) = []) by (clear; by induction capacity).
    rewrite Hnone. split_and!; [done..|constructor].
  - destruct (step_spec t acc ev' t' Hwf Hstep) as (Hwf' & Hp' & _ & Hfresh). split_and!; [done| |].
    + rewrite Hp, closed_app, <- app_assoc. rewrite (Permutation_app_comm (closed ev')), <- app_assoc.
      rewrite (Permutation_app_comm _ (closed ev')), Hp'. rewrite !app_assoc. f_equiv. apply Permutation_app_comm.
    + assert (Hall : NoDup (acc ++ fds (ft_flows t))).
      { apply list.NoDup_app. split_and!; [|done|done]. destruct Hstep; try constructor. destruct slot; [apply list.NoDup_singleton|constructor]. }
      rewrite <- Hp' in Hall. by apply list.NoDup_app in Hall as (_ & _ & ?).
Qed.
End theory.

(** ** Properties *)

Section properties.
Context `{KeyedHash}.

(** C32: Descriptor ownership. In every run, the descriptors the table has
    accepted are exactly those it has closed plus those its live flows hold, as
    multisets: none is leaked, none closed twice, no two live flows share one;
    and [free] closes exactly the rest. *)
Theorem flow_fds_conserved calloc t owned ev :
  (forall n sz, calloc n sz = true -> n * sz < 2 ^ 64) -> flow_run calloc t owned ev ->
  owned ≡ₚ closed ev ++ fds (ft_flows t) /\ NoDup (fds (ft_flows t)) /\
  closed (qsr_flow_table_free t).2 = fds (ft_flows t).
Proof.
  intros Hcalloc Hrun. destruct (flow_run_wf calloc t owned ev Hcalloc Hrun) as (Hwf & Hp & Hnd). split_and!; [done..|].
  by apply free_closes.
Qed.

(** Slots are stable and generation ids unique: across any sequence of
    operations from [t0] to [t], a live flow of [t] whose id had already been
    given out at [t0] was live then, in the same slot and for the same client,
    and no other flow of [t0] had that id. A session that recorded (slot, id)
    can therefore tell a live owner from a recycled slot. *)
Theorem flow_identity_stable calloc t0 owned ev t b g :
  (forall n sz, calloc n sz = true -> n * sz < 2 ^ 64) -> flow_run calloc t0 owned ev -> flow_steps t0 t ->
  ft_flows t !! b = Some g -> f_used g = true -> f_id g < ft_next_id t0 ->
  exists f, ft_flows t0 !! b = Some f /\ f_used f = true /\ same_identity f g /\
    forall a f', ft_flows t0 !! a = Some f' -> f_used f' = true -> f_id f' = f_id g -> a = b.
Proof.
  intros Hcalloc Hrun Hsteps Hg Hu Hid. destruct (flow_run_wf calloc t0 owned ev Hcalloc Hrun) as (Hwf0 & _).
  assert (Hk : keeps_identity t0 t).
  { clear Hrun Hg Hu Hid. induction Hsteps as [t0|t0 t1 t (acc & e & Hs) _ IH].
    - split; [lia|]. intros c h Hh Hu. left. by exists h.
    - destruct (step_spec t0 acc e t1 Hwf0 Hs) as (Hwf1 & _ & Hk1 & _). specialize (IH Hwf1). by eapply keeps_trans. }
  destruct Hk as [_ Hk]. destruct (Hk b g Hg Hu) as [(f & Hf & Huf & Hi)|?]; [|lia]. exists f. split_and!; [done..|].
  intros a f' Hf' Huf' Hff. apply (fw_ids t0 Hwf0 a b f' f); [done..|]. destruct Hi as (_ & _ & _ & Hi). congruence.
Qed.

(** C33: [put] for valid arguments always succeeds. A known client keeps its slot
    and id and its old descriptor is closed when it differs; a new client gets a
    fresh id in an unused slot, after an oldest flow of the scan window has been
    closed if none was free; no other slot changes. Invalid arguments change
    nothing and leave the descriptor with the caller. *)
Theorem flow_put_refines t client client_len backend backend_len fd now :
  flow_wf t -> ft_next_id t + 1 < 2 ^ 64 ->
  if put_args_valid client client_len backend_len fd then
    exists t' slot ev, qsr_flow_table_put t client client_len backend backend_len fd now = Some (t', Some slot, ev) /\
      flow_wf t' /\
      match flows_of t !! (client_len, field client client_len) with
      | Some f =>
          ft_flows t !! slot = Some f /\
          ft_flows t' = <[slot := flow_refresh f backend backend_len fd now]> (ft_flows t) /\
          ev = if f_fd f =? fd then [] else [CloseFd (f_fd f)]
      | None => exists flows, frees_slot t flows ev /\ flows !! slot = Some flow_unused /\
          ft_flows t' = <[slot := flow_new client client_len backend backend_len fd now (ft_next_id t)]> flows
      end
  else qsr_flow_table_put t client client_len backend backend_len fd now = Some (t, None, []).
Proof.
  intros Hwf Hid. destruct (put_args_valid client client_len backend_len fd) eqn:Ea.
  - destruct (flow_put_spec t client client_len backend backend_len fd now Hwf Hid Ea)
      as (t' & slot & ev & Hput & Hwf' & _ & _ & Hm). exists t', slot, ev. split_and!; [done..|].
    destruct (flows_of t !! _); [by destruct Hm as (? & ? & _ & ?)|].
    destruct Hm as (fl & ? & ? & ? & _). by exists fl.
  - unfold qsr_flow_table_put. by rewrite put_guard_eq, Ea.
Qed.

(** [get] finds the flow of a client tuple, and nothing exactly when there
    is none (or the address is not an IP address). *)
Theorem flow_get_refines t client client_len :
  flow_wf t ->
  if client_valid client client_len then
    match qsr_flow_table_get t client client_len with
    | Some slot => exists f, ft_flows t !! slot = Some f /\ f_used f = true /\ fkey f = (client_len, field client client_len)
    | None => forall slot f, ft_flows t !! slot = Some f -> f_used f = true -> fkey f <> (client_len, field client client_len)
    end
  else qsr_flow_table_get t client client_len = None.
Proof. apply flow_get_spec. Qed.

(** The idle sweep looks at [min budget capacity] consecutive slots from its
    cursor and closes exactly the idle flows among them, returning their
    number; every other slot keeps its flow. *)
Theorem flow_expire_refines t now timeout budget :
  flow_wf t ->
  exists t' n ev, qsr_flow_table_expire_incremental t now timeout budget = Some (t', n, ev) /\ flow_wf t' /\
    cleared (flow_idle now timeout) (cursor_slots (ft_capacity t) (ft_expire_cursor t) (budget `min` ft_capacity t))
      (ft_flows t) (ft_flows t') /\
    n = ft_count t - ft_count t' /\ n <= Z.of_nat budget /\
    closed ev ++ fds (ft_flows t') ≡ₚ fds (ft_flows t).
Proof.
  intros Hwf. destruct (flow_expire_incremental_spec t now timeout budget Hwf) as (t' & n & ev & He & [? _ ? ? ?] & ? & _).
  by exists t', n, ev.
Qed.

(** [evict_if] closes exactly the flows its filter selects (none for a null
    filter) and returns their number. *)
Theorem flow_evict_if_refines t pred :
  flow_wf t ->
  exists t' n ev, qsr_flow_table_evict_if t pred = Some (t', n, ev) /\ flow_wf t' /\
    ft_flows t' = (fun f => if f_used f && default (fun _ => false) pred f then flow_unused else f) <$> ft_flows t /\
    n = ft_count t - ft_count t' /\ closed ev ++ fds (ft_flows t') ≡ₚ fds (ft_flows t).
Proof.
  intros Hwf. destruct (evict_if_spec t pred Hwf) as (t' & n & ev & He & [Hwf' (Hcap & _) Hc ? ?]).
  exists t', n, ev. split_and!; [done..| |done|done]. apply list_eq_same_length with (n := ft_capacity t);
    [by rewrite length_fmap, (fw_len t Hwf)|by rewrite <- Hcap, (fw_len t' Hwf')|].
  intros i x y Hi Hx Hy. rewrite list_lookup_fmap in Hy. destruct (ft_flows t !! i) as [f|] eqn:Hf; [|done].
  injection Hy as <-. specialize (Hc i f Hf). rewrite Hx in Hc. injection Hc as ->. destruct pred as [pred|]; cbn.
  - rewrite bool_decide_true; [done|]. apply elem_of_seq. lia.
  - by rewrite !andb_false_r.
Qed.
End properties.

(** ** Concrete tables *)

Section examples.
Local Existing Instance sum_hash.

Definition demo_calloc (n sz : Z) : bool := n * sz <? 2 ^ 64.

Lemma demo_calloc_ok n sz : demo_calloc n sz = true -> n * sz < 2 ^ 64.
Proof. apply Z.ltb_lt. Qed.

Definition demo_flows0 : qsr_flow_table :=
  match qsr_flow_table_init demo_calloc 2 with
  | inl t => t
  | inr _ => (qsr_flow_table_free {| ft_flows := []; ft_index := []; ft_free_slots := []; ft_free_count := 0; ft_capacity := 0;
      ft_index_capacity := 0; ft_count := 0; ft_expire_cursor := 0; ft_evict_cursor := 0; ft_on_close := false; ft_next_id := 0 |}).1
  end.

(** One client with descriptor 7. *)
Definition demo_flows1 : qsr_flow_table :=
  match qsr_flow_table_put demo_flows0 (demo_addr 1) 16 (demo_addr 9) 16 7 100 with
  | Some (t, _, _) => t | None => demo_flows0 end.

Lemma demo_flows0_init : qsr_flow_table_init demo_calloc 2 = inl demo_flows0.
Proof. reflexivity. Qed.

Lemma demo_flows1_run : flow_run demo_calloc demo_flows1 [7] [].
Proof.
  apply (run_step demo_calloc demo_flows0 [] [] [7] [] demo_flows1); [apply (run_init _ 2), demo_flows0_init|].
  apply (step_put demo_flows0 (demo_addr 1) 16 (demo_addr 9) 16 7 100 demo_flows1 (Some 0%nat)).
  - by apply not_elem_of_nil.
  - reflexivity.
  - vm_compute. reflexivity.
Qed.

Lemma demo_flows1_wf : flow_wf demo_flows1.
Proof. by apply (flow_run_wf demo_calloc demo_flows1 [7] [] demo_calloc_ok demo_flows1_run). Qed.

Example flow_fds_conserved_witness :
  [7] ≡ₚ closed [] ++ fds (ft_flows demo_flows1) /\ closed (qsr_flow_table_free demo_flows1).2 = [7].
Proof.
  destruct (flow_fds_conserved demo_calloc demo_flows1 [7] [] demo_calloc_ok demo_flows1_run) as (Hp & _ & Hc).
  split; [exact Hp|]. rewrite Hc. vm_compute. reflexivity.
Defined.

Example flow_identity_stable_witness :
  exists f, ft_flows demo_flows1 !! 0%nat = Some f /\ f_used f = true.
Proof.
  destruct (ft_flows demo_flows1 !! 0%nat) as [g|] eqn:Hg; [|vm_compute in Hg; discriminate Hg].
  assert (Hu : f_used g = true /\ f_id g = 1) by (vm_compute in Hg; injection Hg as <-; split; reflexivity).
  destruct Hu as [Hu Hid].
  destruct (flow_identity_stable demo_calloc demo_flows1 [7] [] demo_flows1 0%nat g demo_calloc_ok demo_flows1_run
    (rtc_refl _ _) Hg Hu) as (f & Hf & Huf & _); [rewrite Hid; reflexivity|].
  rewrite Hg in Hf. injection Hf as <-. exists g. split; [reflexivity|assumption].
Defined.

Example flow_put_refines_witness :
  exists t' slot ev, qsr_flow_table_put demo_flows1 (demo_addr 2) 16 (demo_addr 9) 16 8 101 = Some (t', Some slot, ev) /\ flow_wf t'.
Proof.
  pose proof (flow_put_refines demo_flows1 (demo_addr 2) 16 (demo_addr 9) 16 8 101 demo_flows1_wf eq_refl) as Hp.
  change (put_args_valid (demo_addr 2) 16 16 8) with true in Hp. destruct Hp as (t' & slot & ev & ? & ? & _).
  exists t', slot, ev. split; assumption.
Defined.

Example flow_get_refines_witness :
  exists slot f, qsr_flow_table_get demo_flows1 (demo_addr 1) 16 = Some slot /\ ft_flows demo_flows1 !! slot = Some f /\ f_used f = true.
Proof.
  pose proof (flow_get_refines demo_flows1 (demo_addr 1) 16 demo_flows1_wf) as Hg.
  change (client_valid (demo_addr 1) 16) with true in Hg.
  assert (E : qsr_flow_table_get demo_flows1 (demo_addr 1) 16 = Some 0%nat) by (vm_compute; reflexivity).
  rewrite E in Hg. destruct Hg as (f & ? & ? & _). exists 0%nat, f. split; [exact E|split; assumption].
Defined.

Example flow_expire_refines_witness :
  exists t' n ev, qsr_flow_table_expire_incremental demo_flows1 200 60 5 = Some (t', n, ev) /\ flow_wf t'.
Proof.
  destruct (flow_expire_refines demo_flows1 200 60 5 demo_flows1_wf) as (t' & n & ev & ? & ? & _).
  exists t', n, ev. split; assumption.
Defined.

Example flow_evict_if_refines_witness :
  exists t' n ev, qsr_flow_table_evict_if demo_flows1 None = Some (t', n, ev) /\ flow_wf t'.
Proof.
  destruct (flow_evict_if_refines demo_flows1 None demo_flows1_wf) as (t' & n & ev & ? & ? & _).
  exists t', n, ev. split; assumption.
Defined.
End examples.
