(* ===== verification/QuicFrames.v ===== *)
(** * The frame walker and CRYPTO reassembly

    [src/quic_frames.c]: the plaintext of an Initial packet is a sequence of
    frames; CRYPTO frames are copied into a stream buffer at their offset, the
    others are skipped. Streams of several packets are merged; the ClientHello
    is read from the contiguous prefix. *)

From S2P Require Import Prelude QuicInitial.
#[local] Open Scope Z_scope.

(** ** Data and operations *)

Record qsr_crypto_stream := {
  cs_data : list Z;
  cs_received : list Z;
  cs_len : Z;
  cs_first_received : Z;
  cs_last_received : Z;
}.

Definition qsr_crypto_stream_init : qsr_crypto_stream := {|
  cs_data := zeros QSR_MAX_CLIENT_HELLO_SIZE;
  cs_received := zeros QSR_MAX_CLIENT_HELLO_SIZE;
  cs_len := 0;
  cs_first_received := QSR_MAX_CLIENT_HELLO_SIZE;
  cs_last_received := 0;
|}.

(** [stream->received[i] != 0U] *)
Definition received (s : qsr_crypto_stream) (i : nat) : bool := negb (default 0 (cs_received s !! i) =? 0).

(** [for (i = start; i < end; i++)]: copy what [src] has received. *)
Fixpoint merge_loop (src : qsr_crypto_stream) (data recv : list Z) (i n : nat) : list Z * list Z :=
  match n with
  | O => (data, recv)
  | S n =>
      if received src i
      then merge_loop src (<[i := default 0 (cs_data src !! i)]> data) (<[i := 1]> recv) (i + 1)%nat n
      else merge_loop src data recv (i + 1)%nat n
  end.

Definition qsr_crypto_stream_merge (dest src : qsr_crypto_stream) : qsr_crypto_stream :=
  let start := if cs_first_received src <? QSR_MAX_CLIENT_HELLO_SIZE then cs_first_received src else 0 in
  let end_ := if cs_last_received src <? QSR_MAX_CLIENT_HELLO_SIZE then cs_last_received src
              else QSR_MAX_CLIENT_HELLO_SIZE in
  let '(data, recv) := merge_loop src (cs_data dest) (cs_received dest) (Z.to_nat start) (Z.to_nat (end_ - start)) in
  {| cs_data := data;
     cs_received := recv;
     cs_len := if cs_len dest <? cs_len src then cs_len src else cs_len dest;
     cs_first_received := if cs_first_received src <? cs_first_received dest then cs_first_received src
                          else cs_first_received dest;
     cs_last_received := if cs_last_received dest <? cs_last_received src then cs_last_received src
                         else cs_last_received dest |}.

(** [while (len < stream->len && len < MAX && stream->received[len] != 0U) len++;]
    over the array from position [len]. *)
Fixpoint contiguous_loop (recv : list Z) (stream_len len : Z) : Z :=
  match recv with
  | [] => len
  | r :: recv =>
      if (len <? stream_len) && (len <? QSR_MAX_CLIENT_HELLO_SIZE) && negb (r =? 0)
      then contiguous_loop recv stream_len (len + 1)
      else len
  end.

Definition qsr_crypto_stream_contiguous_len (s : qsr_crypto_stream) : Z :=
  contiguous_loop (cs_received s) (cs_len s) 0.

(** ** Frames

    One varint at [offset]: its value and the offset after it. *)
Definition read_varint (p : ptr) (len offset : Z) : outcome (Z * Z) :=
  '(v, c) ← qsr_quic_parse_varint (ptr_add p offset) (usub len offset);
  Ok (v, uadd offset c).

(** [n] varints that are only skipped. *)
Fixpoint skip_varints (p : ptr) (len : Z) (n : nat) (offset : Z) : outcome Z :=
  match n with
  | O => Ok offset
  | S n => '(_, offset) ← read_varint p len offset; skip_varints p len n offset
  end.

(** The ranges of an ACK frame: a gap and a length each. *)
Fixpoint skip_ranges (p : ptr) (len : Z) (n : nat) (offset : Z) : outcome Z :=
  match n with
  | O => Ok offset
  | S n =>
      '(_, offset) ← read_varint p len offset;
      '(_, offset) ← read_varint p len offset;
      skip_ranges p len n offset
  end.

(** The body of an ACK frame of type [frame_type]; the offset after it. *)
Definition skip_ack (p : ptr) (len frame_type offset : Z) : outcome Z :=
  '(_, offset) ← read_varint p len offset;
  '(_, offset) ← read_varint p len offset;
  '(range_count, offset) ← read_varint p len offset;
  '(_, offset) ← read_varint p len offset;
  if usub len offset / 2 <? range_count then Fail QSR_ERR_INVALID else
  offset ← skip_ranges p len (Z.to_nat range_count) offset;
  if frame_type =? 0x03 then skip_varints p len 3 offset else Ok offset.

(** The header of a CRYPTO frame: stream offset, length, position of the data. *)
Definition crypto_header (p : ptr) (len offset : Z) : outcome (Z * Z * Z) :=
  '(crypto_offset, offset) ← read_varint p len offset;
  '(crypto_len, offset) ← read_varint p len offset;
  if (QSR_MAX_CLIENT_HELLO_SIZE <? crypto_offset) || (QSR_MAX_CLIENT_HELLO_SIZE <? crypto_len) ||
     (usub len offset <? crypto_len) || (usub QSR_MAX_CLIENT_HELLO_SIZE crypto_len <? crypto_offset)
  then Fail QSR_ERR_INVALID
  else Ok (crypto_offset, crypto_len, offset).

(** [memcpy], [memset] and the bookkeeping for the bytes [d] at stream offset [o]. *)
Definition stream_write (s : qsr_crypto_stream) (o : Z) (d : list Z) : qsr_crypto_stream :=
  let end_ := uadd o (Zlen d) in
  {| cs_data := memcpy_at (cs_data s) (Z.to_nat o) d;
     cs_received := memcpy_at (cs_received s) (Z.to_nat o) (replicate (length d) 1);
     cs_first_received := if o <? cs_first_received s then o else cs_first_received s;
     cs_last_received := if cs_last_received s <? end_ then end_ else cs_last_received s;
     cs_len := if cs_len s <? end_ then end_ else cs_len s |}.

(** [while (offset < plaintext_len)], at most [fuel] frames: the stream as it is
    left, and whether a CRYPTO frame was found or the error that stopped the walk. *)
Fixpoint walk_frames (fuel : nat) (p : ptr) (len offset : Z) (found : bool) (s : qsr_crypto_stream) :
    qsr_crypto_stream * outcome bool :=
  match fuel with
  | O => (s, Fault)
  | S fuel =>
      if offset <? len then
        match load p offset with
        | Ok frame_type =>
            let offset := uadd offset 1 in
            if (frame_type =? 0x00) || (frame_type =? 0x01) then walk_frames fuel p len offset found s
            else if (frame_type =? 0x02) || (frame_type =? 0x03) then
              match skip_ack p len frame_type offset with
              | Ok offset => walk_frames fuel p len offset found s
              | Fail st => (s, Fail st)
              | Fault => (s, Fault)
              end
            else if negb (frame_type =? 0x06) then (s, Fail QSR_ERR_UNSUPPORTED)
            else
              match crypto_header p len offset with
              | Ok (crypto_offset, crypto_len, offset) =>
                  match load_bytes (ptr_add p offset) crypto_len with
                  | Ok d => walk_frames fuel p len (uadd offset crypto_len) true (stream_write s crypto_offset d)
                  | Fail st => (s, Fail st)
                  | Fault => (s, Fault)
                  end
              | Fail st => (s, Fail st)
              | Fault => (s, Fault)
              end
        | Fail st => (s, Fail st)
        | Fault => (s, Fault)
        end
      else (s, Ok found)
  end.

(** Every frame consumes at least one byte. *)
Definition qsr_quic_extract_crypto (plaintext : ptr) (plaintext_len : Z) (s : qsr_crypto_stream) :
    qsr_crypto_stream * outcome unit :=
  if QSR_MAX_CLIENT_HELLO_SIZE <? plaintext_len then (s, Fail QSR_ERR_INVALID)
  else
    let '(s, r) := walk_frames (Z.to_nat (plaintext_len + 1)) plaintext plaintext_len 0 false s in
    (s, found ← r; if found : bool then Ok tt else Fail QSR_ERR_NOT_FOUND).

(** ** What a stream holds *)

(** The byte received for stream position [i], if any. *)
Definition stream_at (s : qsr_crypto_stream) (i : nat) : option Z :=
  if received s i then cs_data s !! i else None.

Record stream_wf (s : qsr_crypto_stream) : Prop := {
  sw_data : Zlen (cs_data s) = QSR_MAX_CLIENT_HELLO_SIZE;
  sw_received : Zlen (cs_received s) = QSR_MAX_CLIENT_HELLO_SIZE;
  sw_len : 0 <= cs_len s <= QSR_MAX_CLIENT_HELLO_SIZE;
  sw_last : cs_last_received s = cs_len s;
  sw_first : 0 <= cs_first_received s <= QSR_MAX_CLIENT_HELLO_SIZE;
  sw_window : forall i, received s i = true -> cs_first_received s <= Z.of_nat i < cs_last_received s;
}.

(** ** Frames as bytes *)

Inductive quic_frame :=
  | Padding
  | Ping
  | Ack (largest delay : Z * Z) (width : Z) (first : Z * Z) (ranges : list ((Z * Z) * (Z * Z)))
  | AckEcn (largest delay : Z * Z) (width : Z) (first : Z * Z) (ranges : list ((Z * Z) * (Z * Z))) (ect0 ect1 ce : Z * Z)
  | Crypto (offset : Z * Z) (width : Z) (data : list Z).

(** A varint field is a pair of a width exponent and a value. *)
Definition enc (kv : Z * Z) : list Z := encode_varint kv.1 kv.2.
Definition fits (kv : Z * Z) : Prop := varint_fits kv.1 kv.2.

(** Four varints, the number of ranges third, then the ranges. *)
Definition encode_ranges (ranges : list ((Z * Z) * (Z * Z))) : list Z := ranges ≫= fun r => enc r.1 ++ enc r.2.
Definition encode_ack (largest delay : Z * Z) (width : Z) (first : Z * Z) (ranges : list ((Z * Z) * (Z * Z))) : list Z :=
  enc largest ++ enc delay ++ enc (width, Zlen ranges) ++ enc first ++ encode_ranges ranges.

Definition encode_frame (f : quic_frame) : list Z :=
  match f with
  | Padding => [0x00]
  | Ping => [0x01]
  | Ack largest delay width first ranges => 0x02 :: encode_ack largest delay width first ranges
  | AckEcn largest delay width first ranges ect0 ect1 ce =>
      0x03 :: encode_ack largest delay width first ranges ++ enc ect0 ++ enc ect1 ++ enc ce
  | Crypto offset width data => 0x06 :: enc offset ++ enc (width, Zlen data) ++ data
  end.

Definition ack_ok (largest delay : Z * Z) (width : Z) (first : Z * Z) (ranges : list ((Z * Z) * (Z * Z))) : Prop :=
  fits largest /\ fits delay /\ fits (width, Zlen ranges) /\ fits first /\ Forall (fun r => fits r.1 /\ fits r.2) ranges.

Definition frame_ok (f : quic_frame) : Prop :=
  match f with
  | Padding | Ping => True
  | Ack largest delay width first ranges => ack_ok largest delay width first ranges
  | AckEcn largest delay width first ranges ect0 ect1 ce =>
      ack_ok largest delay width first ranges /\ fits ect0 /\ fits ect1 /\ fits ce
  | Crypto offset width data =>
      fits offset /\ fits (width, Zlen data) /\ bytes_ok data /\ offset.2 + Zlen data <= QSR_MAX_CLIENT_HELLO_SIZE
  end.

Definition is_crypto (f : quic_frame) : bool := if f is Crypto _ _ _ then true else false.

(** The effect of a frame on the stream. *)
Definition frame_effect (s : qsr_crypto_stream) (f : quic_frame) : qsr_crypto_stream :=
  if f is Crypto offset _ data then stream_write s offset.2 data else s.

(** What a CRYPTO frame says about stream position [i], over what was known. *)
Definition overlay (m : nat -> option Z) (f : quic_frame) (i : nat) : option Z :=
  if f is Crypto offset _ data then
    if decide (Z.to_nat offset.2 <= i < Z.to_nat offset.2 + length data)%nat
    then data !! (i - Z.to_nat offset.2)%nat else m i
  else m i.

(** The streams of several packets merged into one, as the pending entry of a
    connection collects them. *)
Definition reassemble (packets : list (list Z)) : qsr_crypto_stream :=
  foldl (fun acc plaintext =>
    qsr_crypto_stream_merge acc (qsr_quic_extract_crypto (Ptr plaintext 0) (Zlen plaintext) qsr_crypto_stream_init).1)
    qsr_crypto_stream_init packets.

(** A CRYPTO frame that carries a piece of the message [m]. *)
Definition piece_of (m : list Z) (f : quic_frame) : Prop :=
  if f is Crypto offset _ data then
    exists pre post, m = pre ++ data ++ post /\ Zlen pre = offset.2
  else True.

Definition covers (f : quic_frame) (i : nat) : Prop :=
  if f is Crypto offset _ data then (Z.to_nat offset.2 <= i < Z.to_nat offset.2 + length data)%nat else False.

(** ** Lemmas *)

(** *** Writing into a stream *)

Lemma received_lookup s i : stream_wf s -> received s i = true -> Z.of_nat i < QSR_MAX_CLIENT_HELLO_SIZE.
Proof.
  intros Hwf Hr. unfold received in Hr. destruct (cs_received s !! i) eqn:E; [|done].
  apply lookup_lt_Some in E. pose proof (sw_received s Hwf). unfold Zlen, QSR_MAX_CLIENT_HELLO_SIZE in *. lia.
Qed.

Lemma received_write s o d i : stream_wf s -> 0 <= o -> o + Zlen d <= QSR_MAX_CLIENT_HELLO_SIZE ->
  received (stream_write s o d) i =
    if decide (Z.to_nat o <= i < Z.to_nat o + length d)%nat then true else received s i.
Proof.
  intros Hwf Ho Hl. pose proof (sw_received s Hwf) as Hr. unfold received, Zlen in *. cbn.
  rewrite lookup_memcpy_at by (rewrite length_replicate; lia). rewrite length_replicate. case_decide; [|done].
  by rewrite lookup_replicate_2 by lia.
Qed.

Lemma stream_at_write s o d i : stream_wf s -> 0 <= o -> o + Zlen d <= QSR_MAX_CLIENT_HELLO_SIZE ->
  stream_at (stream_write s o d) i =
    if decide (Z.to_nat o <= i < Z.to_nat o + length d)%nat then d !! (i - Z.to_nat o)%nat else stream_at s i.
Proof.
  intros Hwf Ho Hl. unfold stream_at. rewrite received_write by done. cbn.
  pose proof (sw_data s Hwf) as Hd. unfold Zlen in *.
  rewrite lookup_memcpy_at by lia. by case_decide.
Qed.

Lemma write_wf s o d : stream_wf s -> 0 <= o -> o + Zlen d <= QSR_MAX_CLIENT_HELLO_SIZE ->
  stream_wf (stream_write s o d).
Proof.
  intros Hwf Ho Hl. pose proof (Zlen_nonneg d). assert (Hend : uadd o (Zlen d) = o + Zlen d)
    by (apply uadd_small; unfold QSR_MAX_CLIENT_HELLO_SIZE in *; lia).
  assert (Hw : forall i, received (stream_write s o d) i = true ->
    (Z.to_nat o <= i < Z.to_nat o + length d)%nat \/ received s i = true).
  { intros i. rewrite received_write by done. case_decide; [by left|by right]. }
  destruct Hwf as [Hd Hr Hlen Hlast Hfirst Hwin]. unfold Zlen in *.
  split; cbn; rewrite ?Hend; unfold Zlen.
  - rewrite length_memcpy_at; lia.
  - rewrite length_memcpy_at; rewrite ?length_replicate; lia.
  - split_if; bool_to_prop; lia.
  - by rewrite Hlast.
  - split_if; bool_to_prop; lia.
  - intros i Hi. apply Hw in Hi as [Hi|Hi]; [|apply Hwin in Hi]; repeat split_if; bool_to_prop; lia.
Qed.

Lemma init_wf_stream : stream_wf qsr_crypto_stream_init.
Proof.
  split; cbn [cs_data cs_received cs_len cs_last_received cs_first_received qsr_crypto_stream_init];
    unfold QSR_MAX_CLIENT_HELLO_SIZE, Zlen; rewrite ?length_zeros; try lia.
  intros i. unfold received. cbn [cs_received qsr_crypto_stream_init]. unfold zeros.
  destruct (replicate _ _ !! i) eqn:E; [apply lookup_replicate in E as [-> _]|]; done.
Qed.

(** *** Merging *)

Lemma merge_loop_spec src n : forall data recv i, (i + n <= length data)%nat -> (i + n <= length recv)%nat ->
  let '(data', recv') := merge_loop src data recv i n in
  length data' = length data /\ length recv' = length recv /\
  forall j, data' !! j = (if decide (i <= j < i + n)%nat then if received src j then Some (default 0 (cs_data src !! j)) else data !! j else data !! j) /\
            recv' !! j = (if decide (i <= j < i + n)%nat then if received src j then Some 1 else recv !! j else recv !! j).
Proof.
  induction n as [|n IH]; intros data recv i Hd Hr; cbn [merge_loop].
  - split_and!; [done..|]. intros j. rewrite !decide_False by lia. done.
  - destruct (received src i) eqn:Ei.
    + specialize (IH (<[i := default 0 (cs_data src !! i)]> data) (<[i := 1]> recv) (i + 1)%nat).
      rewrite !length_insert in IH. destruct (merge_loop _ _ _ _ _) as [data' recv'].
      destruct IH as (Hl1 & Hl2 & Hj); [lia..|]. split_and!; [done..|]. intros j. destruct (Hj j) as [-> ->].
      destruct (decide (j = i)) as [->|].
      * rewrite !(decide_False (P := (i + 1 <= i < i + 1 + n)%nat)), !(decide_True (P := (i <= i < i + S n)%nat)), Ei by lia.
        by rewrite !list_lookup_insert_eq by lia.
      * rewrite !list_lookup_insert_ne by done. repeat case_decide; try done; lia.
    + specialize (IH data recv (i + 1)%nat). destruct (merge_loop _ _ _ _ _) as [data' recv'].
      destruct IH as (Hl1 & Hl2 & Hj); [lia..|]. split_and!; [done..|]. intros j. destruct (Hj j) as [-> ->].
      destruct (decide (j = i)) as [->|]; [|repeat case_decide; try done; lia].
      rewrite !(decide_False (P := (i + 1 <= i < i + 1 + n)%nat)), !(decide_True (P := (i <= i < i + S n)%nat)), Ei by lia. done.
Qed.

(** Merging overlays the source: its bytes win, the window is the union. *)
Lemma merge_spec dest src : stream_wf dest -> stream_wf src ->
  stream_wf (qsr_crypto_stream_merge dest src) /\
  forall i, stream_at (qsr_crypto_stream_merge dest src) i =
    match stream_at src i with Some b => Some b | None => stream_at dest i end.
Proof.
  intros Hwd Hws. unfold qsr_crypto_stream_merge.
  pose proof (sw_first src Hws) as Hf. pose proof (sw_len src Hws) as Hl. pose proof (sw_last src Hws) as Hla.
  set (start := if cs_first_received src <? QSR_MAX_CLIENT_HELLO_SIZE then cs_first_received src else 0).
  set (end_ := if cs_last_received src <? QSR_MAX_CLIENT_HELLO_SIZE then cs_last_received src else _).
  assert (Hend : end_ = cs_last_received src) by (unfold end_; split_if; bool_to_prop; lia).
  assert (Hst : 0 <= start <= 8191 /\ start <= cs_first_received src).
  { unfold start, QSR_MAX_CLIENT_HELLO_SIZE in *. split_if; bool_to_prop; lia. }
  assert (Hin : forall j, received src j = true -> (Z.to_nat start <= j < Z.to_nat start + Z.to_nat (end_ - start))%nat).
  { intros j Hj. apply (sw_window src Hws) in Hj. lia. }
  pose proof (merge_loop_spec src (Z.to_nat (end_ - start)) (cs_data dest) (cs_received dest) (Z.to_nat start)) as Hm.
  pose proof (sw_data dest Hwd) as Hdd. pose proof (sw_received dest Hwd) as Hdr. pose proof (sw_data src Hws) as Hsd.
  unfold Zlen, QSR_MAX_CLIENT_HELLO_SIZE in *.
  destruct (merge_loop _ _ _ _ _) as [data recv]. destruct Hm as (Hl1 & Hl2 & Hj); [lia..|].
  match goal with |- stream_wf ?st /\ _ => set (s := st) end.
  assert (Hrec : forall i, received s i = received src i || received dest i).
  { intros i. unfold received at 1. cbn. destruct (Hj i) as [_ ->]. destruct (received src i) eqn:Ei; cbn.
    - by rewrite decide_True by auto.
    - destruct (decide _); done. }
  split; [split; cbn|].
  - unfold Zlen, QSR_MAX_CLIENT_HELLO_SIZE. cbn. lia.
  - unfold Zlen, QSR_MAX_CLIENT_HELLO_SIZE. cbn. lia.
  - pose proof (sw_len dest Hwd). split_if; bool_to_prop; unfold QSR_MAX_CLIENT_HELLO_SIZE in *; lia.
  - by rewrite Hla, (sw_last dest Hwd).
  - pose proof (sw_first dest Hwd). split_if; bool_to_prop; unfold QSR_MAX_CLIENT_HELLO_SIZE in *; lia.
  - intros i. fold s. rewrite Hrec. intros [Hi|Hi]%orb_true_iff;
      [apply (sw_window src Hws) in Hi|apply (sw_window dest Hwd) in Hi]; repeat split_if; bool_to_prop; lia.
  - intros i. unfold stream_at at 1. rewrite Hrec. unfold stream_at. cbn. destruct (Hj i) as [-> _].
    destruct (received src i) eqn:Ei; cbn.
    + rewrite decide_True by auto. destruct (lookup_lt_is_Some_2 (cs_data src) i) as [b ->]; [|done].
      apply received_lookup in Ei; [unfold QSR_MAX_CLIENT_HELLO_SIZE in Ei; lia|done].
    + destruct (decide _); done.
Qed.

(** *** The contiguous prefix *)

Lemma contiguous_loop_spec recv n o : 0 <= o ->
  let r := contiguous_loop recv n o in
  o <= r <= o + Zlen recv /\
  (forall j, (j < length recv)%nat -> o + Z.of_nat j < r -> default 0 (recv !! j) <> 0 /\ o + Z.of_nat j < n) /\
  (r < o + Zlen recv -> n <= r \/ QSR_MAX_CLIENT_HELLO_SIZE <= r \/ default 0 (recv !! Z.to_nat (r - o)) = 0).
Proof.
  revert o. induction recv as [|b recv IH]; intros o Ho; cbn [contiguous_loop].
  - rewrite Zlen_nil. split_and!; [lia..|intros j Hj; cbn in Hj; lia|lia].
  - rewrite Zlen_cons. pose proof (Zlen_nonneg recv). destruct (_ && _) eqn:E; bool_to_prop.
    + specialize (IH (o + 1) ltac:(lia)). cbv zeta in IH. destruct IH as (Hr & Hall & Hex).
      set (r := contiguous_loop _ _ _) in *. split_and!; [lia..| |].
      * intros [|j] Hj Hjr; cbn; [lia|]. cbn in Hj. destruct (Hall j ltac:(lia) ltac:(lia)). split; [done|lia].
      * intros Hlt. destruct Hex as [|[|Hz]]; [lia|auto..|]. right; right.
        replace (Z.to_nat (r - o)) with (S (Z.to_nat (r - (o + 1)))) by lia. done.
    + split_and!; [lia..|intros; lia|]. intros _. rewrite Z.sub_diag. cbn.
      destruct E as [E|E]; bool_to_prop; [destruct E; bool_to_prop|]; auto.
Qed.

(** The contiguous length is the first position that holds no byte. *)
Lemma contiguous_len_spec s : stream_wf s ->
  0 <= qsr_crypto_stream_contiguous_len s <= cs_len s /\
  forall i, (i < Z.to_nat (qsr_crypto_stream_contiguous_len s))%nat -> is_Some (stream_at s i).
Proof.
  intros Hwf. unfold qsr_crypto_stream_contiguous_len.
  destruct (contiguous_loop_spec (cs_received s) (cs_len s) 0) as (Hr & Hall & _); [lia|].
  set (r := contiguous_loop _ _ _) in *. pose proof (sw_received s Hwf) as Hl. pose proof (sw_len s Hwf).
  pose proof (sw_data s Hwf) as Hd. unfold Zlen in *. split.
  - split; [lia|]. destruct (decide (r = 0)); [lia|].
    destruct (Hall (Z.to_nat (r - 1))) as [_ ?]; lia.
  - intros i Hi. destruct (Hall i) as [Hz _]; [lia..|]. unfold stream_at, received.
    rewrite (proj2 (Z.eqb_neq _ _) Hz). cbn. apply lookup_lt_is_Some_2. lia.
Qed.

Lemma contiguous_len_missing s : stream_wf s -> stream_at s (Z.to_nat (qsr_crypto_stream_contiguous_len s)) = None.
Proof.
  intros Hwf. destruct (contiguous_len_spec s Hwf) as [Hb _]. revert Hb. unfold qsr_crypto_stream_contiguous_len.
  destruct (contiguous_loop_spec (cs_received s) (cs_len s) 0) as (Hr & _ & Hex); [lia|].
  set (r := contiguous_loop _ _ _) in *. pose proof (sw_received s Hwf) as Hl. intros Hb.
  unfold stream_at. destruct (received s (Z.to_nat r)) eqn:E; [|done]. exfalso.
  pose proof (received_lookup _ _ Hwf E). pose proof (sw_window s Hwf _ E). pose proof (sw_last s Hwf).
  destruct Hex as [|[|Hz]]; [lia..|]. rewrite Z.sub_0_r in Hz. unfold received in E. rewrite Hz in E. done.
Qed.

(** *** The walk is memory safe and ends *)

(** A skipping parser neither faults nor leaves [offset .. len]. *)
Definition advances (len offset : Z) (m : outcome Z) : Prop :=
  no_fault m /\ forall o, m = Ok o -> offset <= o <= len.

Section safe.
Context (p : ptr) (len : Z) (Hr : readable p len) (Hok : bytes_ok (p_buf p)).

Lemma read_varint_safe o : 0 <= o <= len ->
  no_fault (read_varint p len o) /\ forall v o', read_varint p len o = Ok (v, o') -> 0 <= v < 2 ^ 62 /\ o < o' <= len.
Proof using Hr Hok.
  intros Ho. pose proof Hr as (_ & Hl & _). unfold read_varint. sizes.
  pose proof (readable_add p len o Hr Ho) as Hra. split.
  - no_fault_steps. by apply parse_varint_no_fault.
  - intros v o' H. inv_ok. simplify_eq. apply parse_varint_bounds in E; [|done..]. sizes. lia.
Qed.

Lemma advances_varint o (f : Z -> Z -> outcome Z) : 0 <= o <= len ->
  (forall v o', 0 <= v < 2 ^ 62 -> o < o' <= len -> advances len o' (f v o')) ->
  advances len o ('(v, o') ← read_varint p len o; f v o').
Proof using Hr Hok.
  intros Ho Hf. destruct (read_varint_safe o Ho) as [Hn Hb]. unfold advances in *.
  destruct (read_varint p len o) as [[v o']| |]; [|split; [done|intros ? [=]]|done].
  destruct (Hb v o' eq_refl). destruct (Hf v o') as [Hn' Hb']; [done..|]. split; [done|].
  intros o'' Hm%Hb'. lia.
Qed.

Lemma advances_ok o o' : o <= o' <= len -> advances len o (Ok o').
Proof using. clear. intros Ho. split; [done|]. intros o'' [= <-]. done. Qed.

Lemma advances_weaken o o' m : o <= o' -> advances len o' m -> advances len o m.
Proof using. clear. intros Ho [Hn Hb]. split; [done|]. intros o'' Hm%Hb. lia. Qed.

Lemma skip_varints_safe n o : 0 <= o <= len -> advances len o (skip_varints p len n o).
Proof using Hr Hok.
  revert o. induction n as [|n IH]; intros o Ho; [apply advances_ok; lia|].
  apply advances_varint; [done|]. intros v o' _ Ho'. apply IH. lia.
Qed.

Lemma skip_ranges_safe n o : 0 <= o <= len -> advances len o (skip_ranges p len n o).
Proof using Hr Hok.
  revert o. induction n as [|n IH]; intros o Ho; [apply advances_ok; lia|].
  apply advances_varint; [done|]. intros v o' _ Ho'.
  apply advances_varint; [lia|]. intros v' o'' _ Ho''. apply IH. lia.
Qed.

Lemma skip_ack_safe t o : 0 <= o <= len -> advances len o (skip_ack p len t o).
Proof using Hr Hok.
  intros Ho. unfold skip_ack.
  apply advances_varint; [lia|]. intros _ o1 _ Ho1. apply advances_varint; [lia|]. intros _ o2 _ Ho2.
  apply advances_varint; [lia|]. intros n o3 _ Ho3. apply advances_varint; [lia|]. intros _ o4 _ Ho4.
  split_if; [split; [done|intros ? [=]]|].
  destruct (skip_ranges_safe (Z.to_nat n) o4) as [Hn Hb]; [lia|].
  destruct (skip_ranges _ _ _ _) as [o5| |]; [|split; [done|intros ? [=]]|done].
  specialize (Hb o5 eq_refl). cbn [mbind outcome_bind].
  apply (advances_weaken _ o5); [lia|]. split_if; [apply skip_varints_safe|apply advances_ok]; lia.
Qed.

Lemma crypto_header_safe o : 0 <= o <= len ->
  no_fault (crypto_header p len o) /\
  forall co cl o', crypto_header p len o = Ok (co, cl, o') ->
    0 <= co /\ 0 <= cl /\ o < o' /\ o' + cl <= len /\ co + cl <= QSR_MAX_CLIENT_HELLO_SIZE.
Proof using Hr Hok.
  intros Ho. pose proof Hr as (_ & Hl & _). unfold crypto_header. destruct (read_varint_safe o Ho) as [Hn Hb].
  destruct (read_varint p len o) as [[co o1]| |]; [|split; [done|intros ??? [=]]|done].
  destruct (Hb co o1 eq_refl) as [Hco Ho1]. cbn [mbind outcome_bind].
  destruct (read_varint_safe o1 ltac:(lia)) as [Hn1 Hb1].
  destruct (read_varint p len o1) as [[cl o2]| |]; [|split; [done|intros ??? [=]]|done].
  destruct (Hb1 cl o2 eq_refl) as [Hcl Ho2]. cbn [mbind outcome_bind].
  split_if; [split; [done|intros ??? [=]]|]. split; [done|]. intros co' cl' o' [= <- <- <-].
  bool_to_prop. unfold QSR_MAX_CLIENT_HELLO_SIZE in *. sizes. lia.
Qed.

Lemma walk_frames_safe fuel : forall o found s, stream_wf s -> 0 <= o <= len -> len - o < Z.of_nat fuel ->
  stream_wf (walk_frames fuel p len o found s).1 /\ no_fault (walk_frames fuel p len o found s).2.
Proof using Hr Hok.
  induction fuel as [|fuel IH]; intros o found s Hwf Ho Hf; [lia|].
  pose proof Hr as (_ & Hl & _). cbn [walk_frames].
  destruct (o <? len) eqn:Elt; bool_to_prop; [|done].
  pose proof (load_no_fault p len o Hr ltac:(lia)) as Hld. destruct (load p o) as [t| |]; [|done..]. cbv zeta.
  sizes. split_if; [apply IH; [done|lia..]|].
  split_if.
  { destruct (skip_ack_safe t (o + 1)) as [Hn Hb]; [lia|].
    destruct (skip_ack _ _ _ _) as [o'| |]; [|done..]. specialize (Hb o' eq_refl). apply IH; [done|lia..]. }
  split_if; [done|]. destruct (crypto_header_safe (o + 1)) as [Hn Hb]; [lia|].
  destruct (crypto_header p len (o + 1)) as [[[co cl] o']| |]; [|done..].
  destruct (Hb co cl o' eq_refl) as (Hco & Hcl & Ho' & Hend & Hmax). sizes.
  pose proof (load_bytes_no_fault (ptr_add p o') (len - o') cl (readable_add p len o' Hr ltac:(lia)) ltac:(lia)) as Hnb.
  destruct (load_bytes _ _) as [d| |] eqn:Ed; [|done..]. apply load_bytes_length in Ed.
  apply IH; [apply write_wf; [done|lia..]|lia..].
Qed.

Lemma extract_crypto_wf s : stream_wf s ->
  stream_wf (qsr_quic_extract_crypto p len s).1 /\ no_fault (qsr_quic_extract_crypto p len s).2.
Proof using Hr Hok.
  intros Hwf. pose proof Hr as (_ & Hl & _). unfold qsr_quic_extract_crypto. split_if; [done|].
  destruct (walk_frames_safe (Z.to_nat (len + 1)) 0 false s) as [Hw Hn]; [done|lia..|].
  destruct (walk_frames _ _ _ _ _ _) as [s' r]. split; [done|]. by destruct r as [[]| |].
Qed.
End safe.

(** *** The walk over encoded frames *)

Lemma enc_length kv : fits kv -> 1 <= Zlen (enc kv).
Proof.
  intros [Hk _]. unfold enc. rewrite encode_varint_length by done. pose proof (pow2_small _ Hk). lia.
Qed.

Lemma encode_ranges_length ranges : Forall (fun r => fits r.1 /\ fits r.2) ranges ->
  2 * Zlen ranges <= Zlen (encode_ranges ranges).
Proof.
  unfold encode_ranges. induction 1 as [|[a b] ranges [Ha Hb] _ IH]; cbn; autorewrite with qsr in *; [lia|].
  apply enc_length in Ha, Hb. cbn in *. lia.
Qed.

Lemma encode_frame_length f : 1 <= Zlen (encode_frame f).
Proof. destruct f; cbn [encode_frame]; rewrite ?Zlen_cons; match goal with |- context [Zlen ?l] => pose proof (Zlen_nonneg l) end; lia. Qed.

Section encoded.
Context (buf : list Z) (len : Z) (Hlen : 0 <= len <= Zlen buf) (Hmax : Zlen buf < 2 ^ 32) (Hok : bytes_ok buf).
#[local] Abbreviation p := (Ptr buf 0).

(** The bytes [bs] are at position [o], before [len]. *)
Definition holds (o : Z) (bs : list Z) : Prop :=
  exists pre post, buf = pre ++ bs ++ post /\ Zlen pre = o /\ o + Zlen bs <= len.

Lemma holds_app o a b : holds o (a ++ b) -> holds o a /\ holds (o + Zlen a) b.
Proof using.
  clear Hlen Hmax Hok. intros (pre & post & Hb & Hp & Hl). rewrite Zlen_app in Hl. pose proof (Zlen_nonneg b). split.
  - exists pre, (b ++ post). rewrite <- app_assoc in Hb. split_and!; [done..|lia].
  - exists (pre ++ a), post. rewrite <- !app_assoc in *. rewrite Zlen_app. split_and!; [done|lia..].
Qed.

Lemma holds_cons o b bs : holds o (b :: bs) -> load p o = Ok b /\ holds (o + 1) bs.
Proof using.
  clear Hlen Hmax Hok. intros Hh. apply (holds_app o [b]) in Hh as [(pre & post & -> & <- & _) Hh]. split; [by apply load_app|done].
Qed.

Lemma holds_bounds o bs : holds o bs -> 0 <= o /\ o + Zlen bs <= len.
Proof using. intros (pre & post & _ & <- & ?). split; [apply Zlen_nonneg|done]. Qed.

Lemma read_varint_enc o kv : holds o (enc kv) -> fits kv ->
  read_varint p len o = Ok (kv.2, o + Zlen (enc kv)).
Proof using Hlen Hmax Hok.
  intros Hh Hf. destruct (holds_bounds _ _ Hh) as [Ho Hol]. pose proof (enc_length kv Hf).
  destruct Hh as (pre & post & Hb & Hp & _). unfold read_varint. sizes.
  assert (Hz : Zlen buf = o + Zlen (enc kv) + Zlen post) by (rewrite Hb, !Zlen_app; lia).
  rewrite Hb in Hok. autorewrite with bytes in Hok. destruct Hok as (Hokp & _ & Hokq).
  unfold enc in *. pose proof (encode_varint_length kv.1 kv.2 (proj1 Hf)) as Hw.
  unfold ptr_add. cbn [p_buf p_off]. rewrite Z.add_0_l, Hb, <- Hp at 1.
  rewrite (parse_encode_varint pre kv.1 kv.2 post); [|done|done|done|lia..].
  cbn [mbind outcome_bind]. f_equal. f_equal. rewrite uadd_small by lia. lia.
Qed.

Lemma read_varint_step {A} o kv bs (f : Z -> Z -> outcome A) r : holds o (enc kv ++ bs) -> fits kv ->
  (holds (o + Zlen (enc kv)) bs -> f kv.2 (o + Zlen (enc kv)) = r) ->
  ('(v, o') ← read_varint p len o; f v o') = r.
Proof using Hlen Hmax Hok.
  intros [H1 H2]%holds_app Hf Hr. rewrite (read_varint_enc o kv) by done. cbn. auto.
Qed.

Lemma skip_ranges_enc ranges o : Forall (fun r => fits r.1 /\ fits r.2) ranges -> holds o (encode_ranges ranges) ->
  skip_ranges p len (length ranges) o = Ok (o + Zlen (encode_ranges ranges)).
Proof using Hlen Hmax Hok.
  unfold encode_ranges. intros Hf. revert o. induction Hf as [|[a b] ranges [Ha Hb] _ IH]; intros o Hh; cbn.
  - by rewrite Z.add_0_r.
  - cbn in Hh. rewrite <- app_assoc in Hh.
    eapply read_varint_step; [exact Hh|done|]. intros Hh1. eapply read_varint_step; [exact Hh1|done|]. intros Hh2.
    rewrite IH by done. autorewrite with qsr. f_equal. cbn. lia.
Qed.

Lemma skip_ack_enc t largest delay width first ranges bs o :
  ack_ok largest delay width first ranges -> holds o (encode_ack largest delay width first ranges ++ bs) ->
  let o' := o + Zlen (encode_ack largest delay width first ranges) in
  skip_ack p len t o = if t =? 0x03 then skip_varints p len 3 o' else Ok o'.
Proof using Hlen Hmax Hok.
  intros (Hl & Hd & Hw & Hf & Hrs) Hh. unfold encode_ack in *. rewrite <- !app_assoc in Hh. cbv zeta. unfold skip_ack.
  eapply read_varint_step; [exact Hh|done|]. intros Hh1. eapply read_varint_step; [exact Hh1|done|]. intros Hh2.
  eapply read_varint_step; [exact Hh2|done|]. intros Hh3. eapply read_varint_step; [exact Hh3|done|]. intros Hh4.
  apply holds_app in Hh4 as [Hh4 _]. destruct (holds_bounds _ _ Hh4) as [Ho Hol].
  pose proof (encode_ranges_length ranges Hrs). pose proof (Zlen_nonneg ranges). cbn [snd] in *.
  rewrite usub_small by lia. rewrite (proj2 (Z.ltb_ge _ _)) by dlia.
  replace (Z.to_nat (Zlen ranges)) with (length ranges) by (unfold Zlen; lia).
  rewrite skip_ranges_enc by done. cbn [mbind outcome_bind]. autorewrite with qsr.
  match goal with |- (if _ then skip_varints _ _ _ ?a else _) = _ => match goal with |- _ = (if _ then skip_varints _ _ _ ?b else _) =>
    replace a with b by lia end end. done.
Qed.

Lemma crypto_header_enc offset width data o :
  fits offset -> fits (width, Zlen data) -> offset.2 + Zlen data <= QSR_MAX_CLIENT_HELLO_SIZE ->
  holds o (enc offset ++ enc (width, Zlen data) ++ data) ->
  let o' := o + Zlen (enc offset) + Zlen (enc (width, Zlen data)) in
  crypto_header p len o = Ok (offset.2, Zlen data, o') /\ load_bytes (ptr_add p o') (Zlen data) = Ok data /\ 0 <= o' /\ o' + Zlen data <= len.
Proof using Hlen Hmax Hok.
  intros Hfo Hfd Hfit Hh o'.
  assert (Hd : holds o' data) by (apply holds_app in Hh as [_ Hh]; by apply holds_app in Hh as [_ Hh]).
  destruct (holds_bounds _ _ Hd) as [Ho' Hod]. pose proof (Zlen_nonneg data). destruct Hfo as [Hk Hv] eqn:Hfo'. split_and!; [| |lia..].
  - unfold crypto_header. eapply read_varint_step; [exact Hh|done|]. intros Hh1.
    eapply read_varint_step; [exact Hh1|done|]. intros _. cbn [snd] in *. fold o'.
    unfold QSR_MAX_CLIENT_HELLO_SIZE in *. rewrite !usub_small by lia.
    rewrite !(proj2 (Z.ltb_ge _ _)) by lia. done.
  - destruct Hd as (pre & post & Hb & Hp & _). unfold ptr_add. cbn [p_buf p_off]. rewrite Hb.
    apply load_bytes_app; lia.
Qed.

Lemma walk_frames_step fuel o found s f : frame_ok f -> holds o (encode_frame f) ->
  walk_frames (S fuel) p len o found s =
  walk_frames fuel p len (o + Zlen (encode_frame f)) (found || is_crypto f) (frame_effect s f).
Proof using Hlen Hmax Hok.
  intros Hf Hh. destruct (holds_bounds _ _ Hh) as [Ho Hol]. pose proof (encode_frame_length f).
  cbn [walk_frames]. rewrite (proj2 (Z.ltb_lt o len)) by lia.
  destruct f as [| |largest delay width first ranges|largest delay width first ranges ect0 ect1 ce|offset width data];
    cbn [encode_frame frame_ok is_crypto frame_effect] in *;
    apply holds_cons in Hh as [-> Hh]; cbv zeta; rewrite (uadd_small o 1) by lia; rewrite ?orb_false_r;
    cbn [Z.eqb Pos.eqb orb negb].
  - done.
  - done.
  - rewrite (skip_ack_enc _ largest delay width first ranges []) by (rewrite ?app_nil_r; done).
    cbn [Z.eqb Pos.eqb]. rewrite Zlen_cons. f_equal. lia.
  - destruct Hf as (Ha & H0 & H1 & H2). rewrite (skip_ack_enc _ largest delay width first ranges _ _ Ha Hh).
    cbn [Z.eqb Pos.eqb]. apply holds_app in Hh as [_ Hh].
    assert (Hs : skip_varints p len 3 (o + 1 + Zlen (encode_ack largest delay width first ranges)) =
      Ok (o + Zlen (0x03 :: encode_ack largest delay width first ranges ++ enc ect0 ++ enc ect1 ++ enc ce))).
    { cbn [skip_varints]. eapply read_varint_step; [exact Hh|done|]. intros Hh1.
      eapply read_varint_step; [exact Hh1|done|]. intros Hh2. rewrite <- (app_nil_r (enc ce)) in Hh2.
      eapply read_varint_step; [exact Hh2|done|]. intros _. autorewrite with qsr. f_equal. lia. }
    by rewrite Hs.
  - destruct Hf as (Hfo & Hfd & Hdk & Hfit).
    destruct (crypto_header_enc offset width data (o + 1) Hfo Hfd Hfit Hh) as (-> & -> & ? & ?).
    rewrite uadd_small by (pose proof (Zlen_nonneg data); lia). rewrite orb_true_r. f_equal.
    autorewrite with qsr. lia.
Qed.

Lemma walk_frames_enc fs : forall fuel o found s, Forall frame_ok fs -> holds o (fs ≫= encode_frame) ->
  o + Zlen (fs ≫= encode_frame) = len -> len - o < Z.of_nat fuel ->
  walk_frames fuel p len o found s = (foldl frame_effect s fs, Ok (found || existsb is_crypto fs)).
Proof using Hlen Hmax Hok.
  induction fs as [|f fs IH]; intros fuel o found s Hf Hh Hend Hfu;
    (destruct fuel as [|fuel]; [match type of Hend with _ + Zlen ?l = _ => pose proof (Zlen_nonneg l) end; lia|]).
  - change ([] ≫= encode_frame) with (@nil Z) in *. rewrite Zlen_nil in Hend. cbn [walk_frames].
    rewrite (proj2 (Z.ltb_ge _ _)) by lia. by rewrite orb_false_r.
  - change ((f :: fs) ≫= encode_frame) with (encode_frame f ++ (fs ≫= encode_frame)) in *.
    rewrite Zlen_app in Hend. apply holds_app in Hh as [Hh1 Hh2]. inversion_clear Hf.
    rewrite (walk_frames_step _ _ _ _ f) by done. pose proof (encode_frame_length f).
    rewrite IH; [|done|done|lia..]. cbn [foldl existsb]. by rewrite orb_assoc.
Qed.
End encoded.

(** *** Frames and streams *)

Lemma encode_frame_ok f : frame_ok f -> bytes_ok (encode_frame f).
Proof.
  assert (Henc : forall kv, bytes_ok (enc kv)) by (intros; apply encode_varint_ok).
  assert (Hack : forall l d w f r, bytes_ok (encode_ack l d w f r)).
  { intros. unfold encode_ack, encode_ranges. autorewrite with bytes. split_and!; try apply Henc.
    induction r as [|[a b] r IH]; cbn; [constructor|]. autorewrite with bytes. split_and!; [apply Henc..|done]. }
  destruct f; cbn [encode_frame frame_ok]; intros Hf; autorewrite with bytes;
    split_and?; try apply Henc; try apply Hack; try (unfold is_byte; lia); try constructor; tauto.
Qed.

Lemma encode_frames_ok fs : Forall frame_ok fs -> bytes_ok (fs ≫= encode_frame).
Proof.
  induction 1 as [|f fs Hf _ IH]; [constructor|]. apply Forall_app. split; [by apply encode_frame_ok|done].
Qed.

Lemma extract_crypto_enc fs slack s :
  Forall frame_ok fs -> bytes_ok slack -> Zlen (fs ≫= encode_frame) <= QSR_MAX_CLIENT_HELLO_SIZE ->
  Zlen ((fs ≫= encode_frame) ++ slack) < 2 ^ 32 ->
  qsr_quic_extract_crypto (Ptr ((fs ≫= encode_frame) ++ slack) 0) (Zlen (fs ≫= encode_frame)) s =
    (foldl frame_effect s fs, if existsb is_crypto fs then Ok tt else Fail QSR_ERR_NOT_FOUND).
Proof.
  intros Hf Hs Hl Hm. unfold qsr_quic_extract_crypto. rewrite (proj2 (Z.ltb_ge _ _)) by done.
  pose proof (Zlen_nonneg (fs ≫= encode_frame)). pose proof (Zlen_nonneg slack). rewrite Zlen_app in Hm.
  rewrite (fun Ha Hb Hc => walk_frames_enc (_ ++ slack) _ Ha Hb Hc fs);
    [done|rewrite Zlen_app; lia|by rewrite Zlen_app| |done| |lia..].
  - apply bytes_ok_app. split; [by apply encode_frames_ok|done].
  - exists [], slack. split_and!; [done..|lia].
Qed.

Lemma frame_effect_spec s f : frame_ok f -> stream_wf s ->
  stream_wf (frame_effect s f) /\ forall i, stream_at (frame_effect s f) i = overlay (stream_at s) f i.
Proof.
  intros Hf Hwf. destruct f as [| | | |offset width data]; try done. cbn in Hf.
  destruct Hf as ([_ Ho] & _ & _ & Hfit). split; [apply write_wf; [done|lia..]|].
  intros i. cbn. by rewrite stream_at_write by (done || lia).
Qed.

Lemma frame_effects_spec fs : forall s, Forall frame_ok fs -> stream_wf s ->
  stream_wf (foldl frame_effect s fs) /\ forall i, stream_at (foldl frame_effect s fs) i = foldl overlay (stream_at s) fs i.
Proof.
  induction fs as [|f fs IH]; intros s Hf Hwf; [done|]. inversion_clear Hf.
  destruct (frame_effect_spec s f) as [Hw He]; [done..|]. destruct (IH (frame_effect s f)) as [Hw' He']; [done..|].
  split; [done|]. intros i. cbn [foldl]. rewrite He'.
  assert (Hext : forall m m', (forall i, m i = m' i) -> forall j, foldl overlay m fs j = foldl overlay m' fs j).
  { clear. induction fs as [|f fs IH]; intros m m' Hm j; [apply Hm|]. cbn [foldl]. apply IH.
    intros i. unfold overlay. destruct f; try done. by case_decide. }
  by apply Hext.
Qed.

Lemma overlay_piece m f g i : piece_of m f -> (forall b, g i = Some b -> m !! i = Some b) ->
  forall b, overlay g f i = Some b -> m !! i = Some b.
Proof.
  intros Hp Hg b. destruct f as [| | | |offset width data]; try apply Hg. cbn.
  destruct Hp as (pre & post & -> & Hz). case_decide; [|apply Hg]. unfold Zlen in Hz. intros Hb.
  rewrite lookup_app_r by lia. replace (i - length pre)%nat with (i - Z.to_nat offset.2)%nat by lia.
  by apply lookup_app_l_Some.
Qed.

Lemma overlays_piece m fs i : Forall (piece_of m) fs -> forall g, (forall b, g i = Some b -> m !! i = Some b) ->
  forall b, foldl overlay g fs i = Some b -> m !! i = Some b.
Proof.
  induction 1 as [|f fs Hf _ IH]; intros g Hg; [done|]. cbn [foldl]. apply IH. by apply overlay_piece.
Qed.

Lemma overlay_some f g i : is_Some (g i) \/ covers f i -> is_Some (overlay g f i).
Proof.
  destruct f as [| | | |offset width data]; cbn; [tauto..|]. intros H. case_decide; [|tauto].
  apply lookup_lt_is_Some_2. lia.
Qed.

Lemma overlays_some fs i : forall g, is_Some (g i) \/ Exists (fun f => covers f i) fs -> is_Some (foldl overlay g fs i).
Proof.
  induction fs as [|f fs IH]; intros g [Hg|He]; cbn [foldl]; [done|by inversion He| |].
  - apply IH. left. apply overlay_some. by left.
  - apply IH. inversion_clear He; [left; apply overlay_some|]; by right.
Qed.

(** *** Reassembly *)

Lemma merge_wf dest src : stream_wf dest -> stream_wf src -> stream_wf (qsr_crypto_stream_merge dest src).
Proof. intros. by apply merge_spec. Qed.

Lemma stream_at_merge dest src i : stream_wf dest -> stream_wf src ->
  stream_at (qsr_crypto_stream_merge dest src) i =
    match stream_at src i with Some b => Some b | None => stream_at dest i end.
Proof. intros. by apply merge_spec. Qed.

Lemma stream_at_init i : stream_at qsr_crypto_stream_init i = None.
Proof.
  unfold stream_at. destruct (received _ i) eqn:E; [|done].
  pose proof (sw_window _ init_wf_stream i E) as H. cbn [qsr_crypto_stream_init cs_first_received cs_last_received] in H.
  unfold QSR_MAX_CLIENT_HELLO_SIZE in H. lia.
Qed.

Section pieces.
Context (m : list Z) (packets : list (list quic_frame)).
Hypothesis frames_ok : Forall (Forall frame_ok) packets.
Hypothesis sizes_ok : Forall (fun fs => Zlen (fs ≫= encode_frame) <= QSR_MAX_CLIENT_HELLO_SIZE) packets.

(** One more packet in [reassemble]. *)
Definition add_packet (acc : qsr_crypto_stream) (fs : list quic_frame) : qsr_crypto_stream :=
  qsr_crypto_stream_merge acc (foldl frame_effect qsr_crypto_stream_init fs).

Lemma reassemble_frames :
  reassemble (map (fun fs => fs ≫= encode_frame) packets) = foldl add_packet qsr_crypto_stream_init packets.
Proof using frames_ok sizes_ok.
  unfold reassemble. generalize qsr_crypto_stream_init at 2 3 as acc.
  induction packets as [|fs ps IH]; intros acc; [done|]. inversion_clear frames_ok. inversion_clear sizes_ok.
  cbn [map foldl]. rewrite <- IH by done. f_equal. unfold add_packet. f_equal.
  pose proof (extract_crypto_enc fs [] qsr_crypto_stream_init) as He. rewrite app_nil_r in He.
  rewrite He; [done|done|constructor|done|unfold QSR_MAX_CLIENT_HELLO_SIZE in *; lia].
Qed.

Lemma add_packet_spec acc fs : Forall frame_ok fs -> stream_wf acc ->
  stream_wf (add_packet acc fs) /\
  forall i, stream_at (add_packet acc fs) i =
    match foldl overlay (fun _ => None) fs i with Some b => Some b | None => stream_at acc i end.
Proof using.
  clear frames_ok sizes_ok. intros Hf Hwf. destruct (frame_effects_spec fs qsr_crypto_stream_init Hf init_wf_stream) as [Hw He].
  split; [by apply merge_wf|]. intros i. unfold add_packet. rewrite stream_at_merge, He by done.
  assert (Hext : forall g g', (forall i, g i = g' i) -> forall j, foldl overlay g fs j = foldl overlay g' fs j).
  { clear. induction fs as [|f fs IH]; intros g g' Hm j; [apply Hm|]. cbn [foldl]. apply IH.
    intros i. unfold overlay. destruct f; try done. by case_decide. }
  by rewrite (Hext _ (fun _ => None) stream_at_init).
Qed.

Lemma reassemble_spec :
  let s := foldl add_packet qsr_crypto_stream_init packets in
  stream_wf s /\
  (Forall (Forall (piece_of m)) packets -> forall i b, stream_at s i = Some b -> m !! i = Some b) /\
  (forall i, Exists (Exists (fun f => covers f i)) packets -> is_Some (stream_at s i)).
Proof using frames_ok.
  clear sizes_ok. cbv zeta. pattern packets. revert frames_ok. generalize packets. clear packets.
  intros ps. induction ps as [|fs ps IH] using rev_ind; intros Hok.
  - cbn. split_and!; [apply init_wf_stream| |].
    + intros _ i b. by rewrite stream_at_init.
    + intros i He. by inversion He.
  - apply Forall_app in Hok as [Hok Hf]. inversion_clear Hf as [|? ? Hfs _]. destruct (IH Hok) as (Hwf & Hc & Hs).
    rewrite foldl_app. cbn [foldl]. destruct (add_packet_spec (foldl add_packet qsr_crypto_stream_init ps) fs Hfs Hwf) as [Hw He].
    split_and!; [done| |].
    + intros [Hp Hp']%Forall_app i b. inversion_clear Hp' as [|? ? Hpf _]. rewrite He.
      pose proof (overlays_piece m fs i Hpf (fun _ => None)) as Ho.
      destruct (foldl overlay _ _ _) as [b'|]; [|by apply Hc]. intros [= <-]. by apply Ho.
    + intros i [Hx|Hx]%Exists_app; rewrite He.
      * destruct (foldl overlay _ _ _); [by eexists|by apply Hs].
      * inversion_clear Hx as [? ? Hx'|? ? Hx']; [|by inversion Hx'].
        destruct (overlays_some fs i (fun _ => None)) as [b ->]; [by right|by eexists].
Qed.
End pieces.

(** *** Streams hold bytes *)

Lemma memcpy_at_bytes dst off src : bytes_ok dst -> bytes_ok src -> bytes_ok (memcpy_at dst off src).
Proof. intros Hd Hs. unfold memcpy_at. rewrite !bytes_ok_app. split_and!; [by apply Forall_take|done|by apply Forall_drop]. Qed.

Lemma walk_frames_bytes fuel p len : bytes_ok (p_buf p) -> forall o found s, bytes_ok (cs_data s) ->
  bytes_ok (cs_data (walk_frames fuel p len o found s).1).
Proof.
  intros Hp. induction fuel as [|fuel IH]; intros o found s Hs; cbn [walk_frames]; [done|]. split_if; [|done].
  destruct (load p o) as [t| |]; [|done..]. cbv zeta. repeat split_if; try done; [by apply IH| |].
  - destruct (skip_ack _ _ _ _); [by apply IH|done..].
  - destruct (crypto_header _ _ _) as [[[co cl] o']| |]; [|done..].
    destruct (load_bytes _ _) as [d| |] eqn:Ed; [|done..]. apply IH. unfold stream_write. cbn [cs_data].
    apply memcpy_at_bytes; [done|]. by apply (load_bytes_ok (ptr_add p o') cl d Hp).
Qed.

Lemma extract_crypto_bytes p len s : bytes_ok (p_buf p) -> bytes_ok (cs_data s) ->
  bytes_ok (cs_data (qsr_quic_extract_crypto p len s).1).
Proof.
  intros Hp Hs. unfold qsr_quic_extract_crypto. split_if; [done|].
  pose proof (walk_frames_bytes (Z.to_nat (len + 1)) p len Hp 0 false s Hs). by destruct (walk_frames _ _ _ _ _ _).
Qed.

Lemma merge_bytes dest src : bytes_ok (cs_data dest) -> bytes_ok (cs_data src) ->
  bytes_ok (cs_data (qsr_crypto_stream_merge dest src)).
Proof.
  intros Hd Hs. unfold qsr_crypto_stream_merge.
  assert (Hl : forall data recv i n, bytes_ok data -> bytes_ok (merge_loop src data recv i n).1).
  { clear -Hs. intros data recv i n. revert data recv i. induction n as [|n IH]; intros data recv i Hd; cbn [merge_loop]; [done|].
    split_if; apply IH; [|done]. apply Forall_insert; [done|]. destruct (cs_data src !! i) as [b|] eqn:E; cbn.
    - by apply (Forall_lookup_1 _ _ _ _ Hs E).
    - unfold is_byte. lia. }
  specialize (Hl (cs_data dest) (cs_received dest)). 
  match goal with |- context [merge_loop src ?d ?r ?a ?b] => specialize (Hl a b Hd); destruct (merge_loop src d r a b) end. done.
Qed.

(** The contiguous part of a stream that holds nothing but bytes of [m]. *)
Lemma contiguous_prefix m s : stream_wf s -> Zlen m <= QSR_MAX_CLIENT_HELLO_SIZE ->
  (forall i b, stream_at s i = Some b -> m !! i = Some b) ->
  let k := qsr_crypto_stream_contiguous_len s in
  0 <= k <= Zlen m /\ take (Z.to_nat k) (cs_data s) = take (Z.to_nat k) m /\
  ((forall i, (i < length m)%nat -> is_Some (stream_at s i)) -> k = Zlen m).
Proof.
  intros Hwf Hm Hc. cbv zeta. destruct (contiguous_len_spec s Hwf) as [Hk Hsome].
  pose proof (contiguous_len_missing s Hwf) as Hmiss. set (k := qsr_crypto_stream_contiguous_len s) in *.
  assert (Hdata : forall i, (i < Z.to_nat k)%nat -> cs_data s !! i = m !! i /\ is_Some (m !! i)).
  { intros i Hi. destruct (Hsome i Hi) as [b Hb]. rewrite (Hc _ _ Hb). split; [|by eexists].
    unfold stream_at in Hb. by destruct (received s i). }
  assert (Hkm : k <= Zlen m).
  { destruct (decide (k = 0)); [unfold Zlen; lia|].
    destruct (Hdata (Z.to_nat k - 1)%nat) as [_ Hlt%lookup_lt_is_Some_1]; unfold Zlen; lia. }
  split_and!; [lia|done| |].
  - apply list_eq. intros i. destruct (decide (i < Z.to_nat k)%nat) as [Hi|Hi].
    + rewrite !lookup_take_lt by done. by apply Hdata.
    + rewrite !lookup_take_ge by lia. done.
  - intros Hcov. destruct (decide (k < Zlen m)) as [Hlt|]; [|lia]. exfalso.
    destruct (Hcov (Z.to_nat k)) as [b Hb]; [unfold Zlen in Hlt; lia|]. congruence.
Qed.

(** ** Properties *)

(** Frame extraction never reads outside the decrypted payload nor writes
    outside the stream, for any payload and any stream left by earlier packets,
    and it ends. *)
Theorem extract_crypto_safe p len s :
  readable p len -> bytes_ok (p_buf p) -> stream_wf s ->
  no_fault (qsr_quic_extract_crypto p len s).2 /\ stream_wf (qsr_quic_extract_crypto p len s).1.
Proof. intros. split; by apply extract_crypto_wf. Qed.

(** On a payload made of PADDING, PING, ACK and CRYPTO frames the extraction
    succeeds exactly when there is a CRYPTO frame, and the stream then holds the
    frames' data at their offsets, later frames over earlier ones. *)
Theorem extract_crypto_roundtrip fs slack s :
  Forall frame_ok fs -> bytes_ok slack -> stream_wf s ->
  Zlen (fs ≫= encode_frame) <= QSR_MAX_CLIENT_HELLO_SIZE ->
  Zlen ((fs ≫= encode_frame) ++ slack) < 2 ^ 32 ->
  let '(s', r) := qsr_quic_extract_crypto (Ptr ((fs ≫= encode_frame) ++ slack) 0) (Zlen (fs ≫= encode_frame)) s in
  r = (if existsb is_crypto fs then Ok tt else Fail QSR_ERR_NOT_FOUND) /\
  stream_wf s' /\ forall i, stream_at s' i = foldl overlay (stream_at s) fs i.
Proof. intros. rewrite extract_crypto_enc by done. split; [done|]. by apply frame_effects_spec. Qed.

(** Merging overlays the bytes of the source packet on the destination,
    and keeps the bounds and the received window that the loops rely on. *)
Theorem crypto_stream_merge_overlays dest src :
  stream_wf dest -> stream_wf src ->
  stream_wf (qsr_crypto_stream_merge dest src) /\
  forall i, stream_at (qsr_crypto_stream_merge dest src) i =
    match stream_at src i with Some b => Some b | None => stream_at dest i end.
Proof. apply merge_spec. Qed.

(** C35: however a ClientHello is cut into CRYPTO frames over several packets
    (any order, overlaps, repeats, gaps), what the contiguous prefix holds is a prefix of
    the message, and it is the whole message once every byte has come. *)
Theorem reassemble_client_hello m packets :
  Zlen m <= QSR_MAX_CLIENT_HELLO_SIZE ->
  Forall (Forall frame_ok) packets -> Forall (Forall (piece_of m)) packets ->
  Forall (fun fs => Zlen (fs ≫= encode_frame) <= QSR_MAX_CLIENT_HELLO_SIZE) packets ->
  let s := reassemble (map (fun fs => fs ≫= encode_frame) packets) in
  let k := qsr_crypto_stream_contiguous_len s in
  0 <= k <= Zlen m /\ take (Z.to_nat k) (cs_data s) = take (Z.to_nat k) m /\
  ((forall i, (i < length m)%nat -> Exists (Exists (fun f => covers f i)) packets) -> k = Zlen m).
Proof.
  intros Hm Hok Hp Hsz. cbv zeta. rewrite reassemble_frames by done.
  destruct (reassemble_spec m packets Hok) as (Hwf & Hc & Hs). specialize (Hc Hp).
  destruct (contiguous_prefix m _ Hwf Hm Hc) as (Hk & Ht & Hall). split_and!; [lia..|done|]. intros Hcov. apply Hall.
  intros i Hi. by apply Hs, Hcov.
Qed.

(** ** Witnesses *)

Definition demo_frames : list quic_frame :=
  [Ping; Crypto (1, 3) 0 [4; 5]; Ack (0, 1) (0, 2) 0 (0, 0) [((0, 1), (0, 1))]; Crypto (0, 0) 1 [1; 2; 3; 4]; Padding].

Lemma demo_frames_ok : Forall frame_ok demo_frames.
Proof.
  repeat constructor; cbn; unfold ack_ok, fits, varint_fits; cbn; repeat split; repeat constructor; vm_compute; congruence.
Qed.

Lemma extract_crypto_safe_witness :
  no_fault (qsr_quic_extract_crypto (Ptr [6; 0; 64; 9] 0) 4 qsr_crypto_stream_init).2 /\
  stream_wf (qsr_quic_extract_crypto (Ptr [6; 0; 64; 9] 0) 4 qsr_crypto_stream_init).1.
Proof. apply extract_crypto_safe; [z_concrete|bytes_concrete|apply init_wf_stream]. Defined.

Lemma extract_crypto_roundtrip_witness :
  let '(s', r) := qsr_quic_extract_crypto (Ptr ((demo_frames ≫= encode_frame) ++ [9]) 0)
    (Zlen (demo_frames ≫= encode_frame)) qsr_crypto_stream_init in
  r = Ok tt /\ stream_wf s' /\ forall i, stream_at s' i = foldl overlay (stream_at qsr_crypto_stream_init) demo_frames i.
Proof.
  apply (extract_crypto_roundtrip demo_frames [9] qsr_crypto_stream_init);
    [apply demo_frames_ok|bytes_concrete|apply init_wf_stream|z_concrete|z_concrete].
Defined.

Lemma crypto_stream_merge_overlays_witness :
  let s := stream_write qsr_crypto_stream_init 2 [7; 8] in
  stream_wf (qsr_crypto_stream_merge qsr_crypto_stream_init s) /\
  forall i, stream_at (qsr_crypto_stream_merge qsr_crypto_stream_init s) i =
    match stream_at s i with Some b => Some b | None => stream_at qsr_crypto_stream_init i end.
Proof.
  apply crypto_stream_merge_overlays; [apply init_wf_stream|].
  apply write_wf; [apply init_wf_stream|vm_compute; congruence..].
Defined.

Lemma reassemble_client_hello_witness :
  let s := reassemble (map (fun fs => fs ≫= encode_frame) [demo_frames; demo_frames]) in
  let k := qsr_crypto_stream_contiguous_len s in
  0 <= k <= 5 /\ take (Z.to_nat k) (cs_data s) = take (Z.to_nat k) [1; 2; 3; 4; 5] /\
  ((forall i, (i < 5)%nat -> Exists (Exists (fun f => covers f i)) [demo_frames; demo_frames]) -> k = 5).
Proof.
  apply (reassemble_client_hello [1; 2; 3; 4; 5] [demo_frames; demo_frames]).
  - vm_compute; congruence.
  - apply (Forall_replicate (Forall frame_ok) 2), demo_frames_ok.
  - apply (Forall_replicate (Forall (piece_of [1; 2; 3; 4; 5])) 2). unfold demo_frames. repeat apply Forall_cons_2; try constructor.
    + by exists [1; 2; 3], [].
    + by exists [], [5].
  - repeat constructor; vm_compute; congruence.
Defined.
