(* ===== verification/Hostname.v ===== *)
(** * Hostnames

    The names that [valid_hostname] of [src/tls_client_hello.c] and
    [normalize_hostname] of [src/route_table.c] accept: a grammar of labels, and
    the left-to-right check that both loops perform. *)

From S2P Require Import Prelude.
#[local] Open Scope Z_scope.

Definition DOT : Z := 46.
Definition HYPHEN : Z := 45.

(** [isalnum] in the C locale. *)
Definition isalnum (c : Z) : bool :=
  ((48 <=? c) && (c <=? 57)) || ((65 <=? c) && (c <=? 90)) || ((97 <=? c) && (c <=? 122)).

(** ** The grammar *)

Fixpoint split_dots (l : list Z) : list (list Z) :=
  match l with
  | [] => [[]]
  | c :: l =>
      if c =? DOT then [] :: split_dots l
      else match split_dots l with
           | label :: labels => (c :: label) :: labels
           | [] => [[c]]
           end
  end.

(** Letters, digits and hyphens, 1 to 63 of them, no hyphen at either end. *)
Definition label_ok (label : list Z) : bool :=
  (0 <? Zlen label) && (Zlen label <=? 63) && forallb (fun c => isalnum c || (c =? HYPHEN)) label &&
  negb (default 0 (head label) =? HYPHEN) && negb (default 0 (list.last label) =? HYPHEN).

(** Labels separated by dots, at most 255 bytes. *)
Definition hostname_ok (l : list Z) : bool :=
  (Zlen l <=? QSR_MAX_HOSTNAME_LEN) && forallb label_ok (split_dots l).

(** ** The check from left to right *)

(** The loop over a list: the last byte read, the length of the current label, the rest. *)
Fixpoint l_labels (prev k : Z) (l : list Z) : bool :=
  match l with
  | [] => (0 <? k) && (k <=? 63) && negb (prev =? HYPHEN)
  | c :: l =>
      if c =? DOT then (0 <? k) && (k <=? 63) && negb (prev =? HYPHEN) && l_labels c 0 l
      else (isalnum c || (c =? HYPHEN)) && negb ((k =? 0) && (c =? HYPHEN)) && l_labels c (k + 1) l
  end.

Definition ldh (c : Z) : bool := isalnum c || (c =? HYPHEN).

(** A label under construction: no dots, and no hyphen in front. *)
Definition label_prefix (cur : list Z) : Prop :=
  forallb ldh cur = true /\ default 0 (head cur) <> HYPHEN.

Lemma ldh_dot c : ldh c = true -> (c =? DOT) = false.
Proof. unfold ldh, isalnum, HYPHEN, DOT. intros. bool_to_prop. zbool. Qed.

Lemma split_dots_cons l : exists label labels, split_dots l = label :: labels.
Proof.
  destruct l as [|c l]; cbn [split_dots]; [by eexists _, _|]. split_if; [by eexists _, _|].
  destruct (split_dots l); by eexists _, _.
Qed.

(** Bytes before the first label end up in front of it. *)
Lemma split_dots_app cur l label labels : forallb ldh cur = true -> split_dots l = label :: labels ->
  split_dots (cur ++ l) = (cur ++ label) :: labels.
Proof.
  intros Hc Hl. induction cur as [|c cur IH]; [done|]. cbn [app split_dots forallb] in *. bool_to_prop.
  rewrite ldh_dot, IH by done. done.
Qed.

Lemma labels_split l : forall prev cur, label_prefix cur -> (cur <> [] -> list.last cur = Some prev) ->
  l_labels prev (Zlen cur) l = forallb label_ok (split_dots (cur ++ l)).
Proof.
  induction l as [|c l IH]; intros prev cur [Hldh Hhead] Hlast; cbn [l_labels].
  - rewrite (split_dots_app cur [] [] []) by done. rewrite app_nil_r. cbn [forallb]. unfold label_ok. fold ldh.
    rewrite Hldh, (proj2 (Z.eqb_neq _ _) Hhead), andb_true_r. cbn [negb]. rewrite !andb_true_r.
    destruct cur; [done|]. by rewrite Hlast.
  - destruct (c =? DOT) eqn:Ec; bool_to_prop.
    + subst c. rewrite (split_dots_app cur (DOT :: l) [] (split_dots l)) by done. rewrite app_nil_r. cbn [forallb].
      change 0 with (Zlen (@nil Z)) at 2. rewrite (IH DOT []) by (try split; done). cbn [app].
      f_equal. unfold label_ok. fold ldh.
      rewrite Hldh, (proj2 (Z.eqb_neq _ _) Hhead), !andb_true_r. destruct cur; [done|]. by rewrite Hlast.
    + destruct (split_dots_cons (c :: l)) as (label & labels & Hs).
      assert (Hlab : exists label', label = c :: label').
      { cbn [split_dots] in Hs. rewrite (proj2 (Z.eqb_neq _ _) Ec) in Hs. destruct (split_dots l); simplify_eq; by eexists. }
      destruct Hlab as [label' ->]. change (isalnum c || (c =? HYPHEN)) with (ldh c).
      destruct (ldh c) eqn:El; cbn [andb].
      * destruct (negb ((Zlen cur =? 0) && (c =? HYPHEN))) eqn:Eh; cbn [andb].
        -- specialize (IH c (cur ++ [c])). rewrite <- app_assoc, Zlen_app in IH. cbn [app] in IH. apply IH.
           ++ split; [by rewrite forallb_app, Hldh; cbn; rewrite El|]. destruct cur; [|done]. cbn. bool_to_prop.
              destruct Eh; [done|]. by apply Z.eqb_neq.
           ++ intros _. apply last_snoc.
        -- bool_to_prop. destruct cur; [|by rewrite Zlen_cons in *; pose proof (Zlen_nonneg cur); lia].
           cbn [app]. rewrite Hs. cbn [forallb]. unfold label_ok. cbn [head default]. subst c.
           by rewrite Z.eqb_refl, andb_false_r.
      * rewrite (split_dots_app cur (c :: l) (c :: label') labels) by done. cbn [forallb]. unfold label_ok. fold ldh.
        rewrite forallb_app. cbn [forallb]. by rewrite El, andb_false_r, andb_false_r.
Qed.

Lemma labels_dots l prev : l_labels prev 0 l = true ->
  l <> [] /\ list.head l <> Some DOT /\ list.last l <> Some DOT.
Proof.
  intros Hl. split_and!.
  - by intros ->.
  - intros Hh. destruct l as [|c l']; [done|]. cbn in Hh. simplify_eq.
  - intros Hlast. apply last_Some in Hlast as [l' ->]. revert Hl. generalize 0 as k, prev. clear.
    induction l' as [|c l' IH]; intros k prev; cbn [app l_labels].
    + rewrite Z.eqb_refl. cbn. by rewrite andb_false_r.
    + split_if; intros Hx; bool_to_prop; by eapply IH.
Qed.

