(* ===== verification/TlsClientHello.v ===== *)
(** * SNI extraction from a ClientHello

    [src/tls_client_hello.c]: a forward-only reader whose typed reads are
    bounds checked and whose nested fields are child readers, the hostname
    check, the server_name extension, and the ClientHello itself, which may be
    cut short (the reassembled prefix of a QUIC CRYPTO stream). *)

From S2P Require Import Prelude QuicInitial Hostname.
#[local] Open Scope Z_scope.

(** ** The reader

    A failing read leaves the reader as it is, so a result carries the new
    reader only with [Ok]. *)

(** [reader_t] *)
Record reader := {
  rd_data : ptr;
  rd_end : Z;
  rd_offset : Z;
}.

Definition r_init (data : ptr) (len : Z) : reader := {| rd_data := data; rd_end := len; rd_offset := 0 |}.

Definition r_has (r : reader) (n : Z) : bool := uadd (rd_offset r) n <=? rd_end r.

Definition r_remaining (r : reader) : Z := usub (rd_end r) (rd_offset r).

(** [r->offset += n] *)
Definition r_advance (r : reader) (n : Z) : reader :=
  {| rd_data := rd_data r; rd_end := rd_end r; rd_offset := uadd (rd_offset r) n |}.

Definition r_u8 (r : reader) : outcome (Z * reader) :=
  if negb (r_has r 1) then Fail QSR_ERR_TRUNCATED else
  b ← load (rd_data r) (rd_offset r);
  Ok (b, r_advance r 1).

Definition r_u16 (r : reader) : outcome (Z * reader) :=
  if negb (r_has r 2) then Fail QSR_ERR_TRUNCATED else
  b0 ← load (rd_data r) (rd_offset r);
  b1 ← load (rd_data r) (uadd (rd_offset r) 1);
  Ok (u16 (Z.lor (u16 (Z.shiftl b0 8)) b1), r_advance r 2).

Definition r_u24 (r : reader) : outcome (Z * reader) :=
  if negb (r_has r 3) then Fail QSR_ERR_TRUNCATED else
  b0 ← load (rd_data r) (rd_offset r);
  b1 ← load (rd_data r) (uadd (rd_offset r) 1);
  b2 ← load (rd_data r) (uadd (rd_offset r) 2);
  Ok (Z.lor (Z.lor (u32 (Z.shiftl b0 16)) (u32 (Z.shiftl b1 8))) b2, r_advance r 3).

Definition r_skip (r : reader) (n : Z) : outcome reader :=
  if negb (r_has r n) then Fail QSR_ERR_TRUNCATED else Ok (r_advance r n).

(** The child reader and the parent past it. *)
Definition r_subreader (r : reader) (n : Z) : outcome (reader * reader) :=
  if negb (r_has r n) then Fail QSR_ERR_TRUNCATED else
  Ok (r_init (ptr_add (rd_data r) (rd_offset r)) n, r_advance r n).

(** The child reader over what is there of [declared_len] bytes, whether bytes
    are missing, and the parent past it. *)
Definition r_subreader_available (r : reader) (declared_len : Z) : outcome (reader * bool * reader) :=
  let available := r_remaining r in
  let child_len := if declared_len <? available then declared_len else available in
  if (child_len =? 0) && (0 <? declared_len) then Fail QSR_ERR_TRUNCATED
  else Ok (r_init (ptr_add (rd_data r) (rd_offset r)) child_len, child_len <? declared_len, r_advance r child_len).

Definition r_ptr (r : reader) : ptr := ptr_add (rd_data r) (rd_offset r).

(** A read whose status is cast to void: a failure leaves value and reader. *)
Definition ignoring {A} (old : A) (r : reader) (m : outcome (A * reader)) : outcome (A * reader) :=
  match m with
  | Fail _ => Ok (old, r)
  | _ => m
  end.

(** ** Hostnames *)

(** [for (i = 0; i < len; i++)] with [n] rounds left; [None] is [return false]. *)
Fixpoint hostname_loop (name : ptr) (n : nat) (i label_len : Z) : outcome (option Z) :=
  match n with
  | O => Ok (Some label_len)
  | S n =>
      c ← load name i;
      if c =? DOT then
        if (label_len =? 0) || (63 <? label_len) then Ok None else
        prev ← load name (usub i 1);
        if prev =? HYPHEN then Ok None else hostname_loop name n (uadd i 1) 0
      else if negb (isalnum c || (c =? HYPHEN)) then Ok None
      else if (label_len =? 0) && (c =? HYPHEN) then Ok None
      else hostname_loop name n (uadd i 1) (uadd label_len 1)
  end.

Definition valid_hostname (name : ptr) (len : Z) : outcome bool :=
  if (len =? 0) || (QSR_MAX_HOSTNAME_LEN <? len) then Ok false else
  first ← load name 0;
  if first =? DOT then Ok false else
  last ← load name (usub len 1);
  if last =? DOT then Ok false else
  r ← hostname_loop name (Z.to_nat len) 0 0;
  match r with
  | None => Ok false
  | Some label_len =>
      if negb ((0 <? label_len) && (label_len <=? 63)) then Ok false else
      last ← load name (usub len 1);
      Ok (negb (last =? HYPHEN))
  end.

(** ** The extension and the message

    [qsr_sni_t]: a name array of 256 bytes, zeroed when parsing starts. *)
Definition SNI_NAME_SIZE : Z := QSR_MAX_HOSTNAME_LEN + 1.

(** [memcpy(out->name, name, name_len); out->name[name_len] = 0;] *)
Definition sni_name (host : list Z) : list Z :=
  <[length host := 0]> (memcpy_at (zeros SNI_NAME_SIZE) 0 host).

(** [while (r_remaining(&list) >= 3U)] *)
Fixpoint server_name_loop (fuel : nat) (list_ : reader) : outcome (list Z) :=
  match fuel with
  | O => Fault
  | S fuel =>
      if 3 <=? r_remaining list_ then
        '(name_type, list_) ← or_fail QSR_ERR_TRUNCATED (r_u8 list_);
        '(name_len, list_) ← or_fail QSR_ERR_TRUNCATED (r_u16 list_);
        if negb (r_has list_ name_len) then Fail QSR_ERR_TRUNCATED else
        if name_type =? 0 then
          valid ← valid_hostname (r_ptr list_) name_len;
          if negb valid then Fail QSR_ERR_INVALID else
          name ← load_bytes (r_ptr list_) name_len;
          Ok (sni_name name)
        else
          '(_, list_) ← ignoring tt list_ (r ← r_skip list_ name_len; Ok (tt, r));
          server_name_loop fuel list_
      else Fail QSR_ERR_NOT_FOUND
  end.

(** Each entry consumes at least three bytes. *)
Definition parse_sni_extension (r : reader) : outcome (list Z) :=
  '(list_len, r) ← r_u16 r;
  '(list_, _) ← r_subreader r list_len;
  server_name_loop (S (Z.to_nat (r_remaining list_))) list_.

(** [while (r_remaining(&extensions) >= 4U)] *)
Fixpoint extension_loop (fuel : nat) (truncated : bool) (extensions : reader) : outcome (list Z) :=
  match fuel with
  | O => Fault
  | S fuel =>
      if 4 <=? r_remaining extensions then
        '(ext_type, extensions) ← ignoring 0 extensions (r_u16 extensions);
        '(ext_len, extensions) ← ignoring 0 extensions (r_u16 extensions);
        '(ext_body, extensions) ← or_fail QSR_ERR_TRUNCATED (r_subreader extensions ext_len);
        if ext_type =? 0 then parse_sni_extension ext_body
        else extension_loop fuel truncated extensions
      else if truncated then Fail QSR_ERR_TRUNCATED else Fail QSR_ERR_NOT_FOUND
  end.

(** The optional TLS record around the message. *)
Definition unwrap_record (r : reader) : outcome reader :=
  if r_has r 5 then
    content ← load (rd_data r) 0;
    if content =? 0x16 then
      '(_, r) ← ignoring tt r (s ← r_skip r 3; Ok (tt, s));
      '(record_len, r) ← ignoring 0 r (r_u16 r);
      '(record, _) ← or_fail QSR_ERR_TRUNCATED (r_subreader r record_len);
      Ok record
    else Ok r
  else Ok r.

(** Version, random, session id, cipher suites and compression methods; the
    reader at the extensions. *)
Definition skip_hello_fields (hello : reader) : outcome reader :=
  hello ← or_fail QSR_ERR_TRUNCATED (r_skip hello (2 + 32));
  '(session_id_len, hello) ← or_fail QSR_ERR_TRUNCATED (r_u8 hello);
  hello ← or_fail QSR_ERR_TRUNCATED (r_skip hello session_id_len);
  '(cipher_suites_len, hello) ← or_fail QSR_ERR_TRUNCATED (r_u16 hello);
  if negb (cipher_suites_len mod 2 =? 0) then Fail QSR_ERR_INVALID else
  hello ← or_fail QSR_ERR_TRUNCATED (r_skip hello cipher_suites_len);
  '(compression_methods_len, hello) ← or_fail QSR_ERR_TRUNCATED (r_u8 hello);
  or_fail QSR_ERR_TRUNCATED (r_skip hello compression_methods_len).

Definition qsr_tls_client_hello_sni (data : ptr) (len : Z) : outcome (list Z) :=
  if QSR_MAX_CLIENT_HELLO_SIZE <? len then Fail QSR_ERR_INVALID else
  r ← unwrap_record (r_init data len);
  '(msg_type, r) ← or_fail QSR_ERR_INVALID (r_u8 r);
  if negb (msg_type =? 0x01) then Fail QSR_ERR_INVALID else
  '(hello_len, r) ← or_fail QSR_ERR_TRUNCATED (r_u24 r);
  '(hello, hello_truncated, _) ← or_fail QSR_ERR_TRUNCATED (r_subreader_available r hello_len);
  hello ← skip_hello_fields hello;
  if r_remaining hello =? 0 then Fail QSR_ERR_NOT_FOUND else
  '(extensions_len, hello) ← or_fail QSR_ERR_TRUNCATED (r_u16 hello);
  '(extensions, extensions_truncated, _) ← or_fail QSR_ERR_TRUNCATED (r_subreader_available hello extensions_len);
  extension_loop (S (Z.to_nat (r_remaining extensions))) (hello_truncated || extensions_truncated) extensions.

(** ** The grammar over byte lists

    The same language without offsets: what the reader-based parser is proved
    to compute. *)

Definition l_u8 (l : list Z) : outcome (Z * list Z) :=
  if l is b :: l then Ok (b, l) else Fail QSR_ERR_TRUNCATED.

Definition l_u16 (l : list Z) : outcome (Z * list Z) :=
  if l is b0 :: b1 :: l then Ok (b0 * 256 + b1, l) else Fail QSR_ERR_TRUNCATED.

Definition l_u24 (l : list Z) : outcome (Z * list Z) :=
  if l is b0 :: b1 :: b2 :: l then Ok ((b0 * 256 + b1) * 256 + b2, l) else Fail QSR_ERR_TRUNCATED.

(** The next [n] bytes and the rest. *)
Definition l_take (n : Z) (l : list Z) : outcome (list Z * list Z) :=
  if n <=? Zlen l then Ok (take (Z.to_nat n) l, drop (Z.to_nat n) l) else Fail QSR_ERR_TRUNCATED.

Definition l_skip (n : Z) (l : list Z) : outcome (list Z) := '(_, l) ← l_take n l; Ok l.

(** At most [n] bytes, and whether fewer are there. *)
Definition l_available (n : Z) (l : list Z) : outcome (list Z * bool) :=
  if bool_decide (l = []) && (0 <? n) then Fail QSR_ERR_TRUNCATED else Ok (take (Z.to_nat n) l, Zlen l <? n).

Fixpoint l_names (fuel : nat) (l : list Z) : outcome (list Z) :=
  match fuel with
  | O => Fault
  | S fuel =>
      if 3 <=? Zlen l then
        '(name_type, l) ← l_u8 l;
        '(name_len, l) ← l_u16 l;
        '(name, l) ← l_take name_len l;
        if name_type =? 0 then if hostname_ok name then Ok (sni_name name) else Fail QSR_ERR_INVALID
        else l_names fuel l
      else Fail QSR_ERR_NOT_FOUND
  end.

Definition l_sni (l : list Z) : outcome (list Z) :=
  '(list_len, l) ← l_u16 l;
  '(names, _) ← l_take list_len l;
  l_names (S (length names)) names.

Fixpoint l_extensions (fuel : nat) (truncated : bool) (l : list Z) : outcome (list Z) :=
  match fuel with
  | O => Fault
  | S fuel =>
      if 4 <=? Zlen l then
        '(ext_type, l) ← l_u16 l;
        '(ext_len, l) ← l_u16 l;
        '(body, l) ← l_take ext_len l;
        if ext_type =? 0 then l_sni body else l_extensions fuel truncated l
      else if truncated then Fail QSR_ERR_TRUNCATED else Fail QSR_ERR_NOT_FOUND
  end.

Definition l_fields (l : list Z) : outcome (list Z) :=
  l ← l_skip (2 + 32) l;
  '(n, l) ← l_u8 l;
  l ← l_skip n l;
  '(n, l) ← l_u16 l;
  if negb (n mod 2 =? 0) then Fail QSR_ERR_INVALID else
  l ← l_skip n l;
  '(n, l) ← l_u8 l;
  l_skip n l.

Definition l_record (l : list Z) : outcome (list Z) :=
  if (5 <=? Zlen l) && (default 0 (head l) =? 0x16) then
    '(record_len, l) ← l_u16 (drop 3 l);
    '(record, _) ← l_take record_len l;
    Ok record
  else Ok l.

Definition client_hello_sni (l : list Z) : outcome (list Z) :=
  if QSR_MAX_CLIENT_HELLO_SIZE <? Zlen l then Fail QSR_ERR_INVALID else
  l ← l_record l;
  '(msg_type, l) ← or_fail QSR_ERR_INVALID (l_u8 l);
  if negb (msg_type =? 0x01) then Fail QSR_ERR_INVALID else
  '(hello_len, l) ← l_u24 l;
  '(hello, hello_truncated) ← l_available hello_len l;
  hello ← l_fields hello;
  if bool_decide (hello = []) then Fail QSR_ERR_NOT_FOUND else
  '(extensions_len, hello) ← l_u16 hello;
  '(extensions, extensions_truncated) ← l_available extensions_len hello;
  l_extensions (S (length extensions)) (hello_truncated || extensions_truncated) extensions.

(** ** Lemmas

    *** A reader and the bytes it has left *)

Record views (r : reader) (l : list Z) : Prop := {
  vw_offset : 0 <= rd_offset r <= rd_end r;
  vw_inside : readable (rd_data r) (rd_end r);
  vw_bytes : bytes_ok (p_buf (rd_data r));
  vw_left : range (r_ptr r) (rd_end r - rd_offset r) = l;
}.

Lemma views_length r l : views r l -> Zlen l = rd_end r - rd_offset r.
Proof.
  intros [Ho Hr _ <-]. destruct Hr as (? & ? & Hl). unfold range, r_ptr, Zlen in *. cbn.
  rewrite length_take, length_drop. lia.
Qed.

Lemma views_ok r l : views r l -> bytes_ok l.
Proof. intros [_ _ Hb <-]. by apply Forall_take, Forall_drop. Qed.

Lemma views_init p len : readable p len -> bytes_ok (p_buf p) -> views (r_init p len) (range p len).
Proof.
  intros Hr Hb. pose proof Hr as (? & ? & ?). split; cbn; [lia|done|done|].
  unfold range, r_ptr, ptr_add. cbn. by rewrite Z.add_0_r, Z.sub_0_r.
Qed.

(** [size_t] arithmetic on a reader does not wrap. *)
Lemma views_small r l n : views r l -> 0 <= n < 2 ^ 24 -> uadd (rd_offset r) n = rd_offset r + n.
Proof. intros [Ho (? & ? & ?) _ _] Hn. apply uadd_small. lia. Qed.

Lemma views_remaining r l : views r l -> r_remaining r = Zlen l.
Proof.
  intros Hv. rewrite (views_length r l Hv). destruct Hv as [Ho (? & ? & ?) _ _]. apply usub_small. lia.
Qed.

Lemma views_has r l n : views r l -> 0 <= n < 2 ^ 24 -> r_has r n = (n <=? Zlen l).
Proof.
  intros Hv Hn. unfold r_has. rewrite (views_small r l), (views_length r l) by done.
  destruct (n <=? _) eqn:E; zbool; bool_to_prop; lia.
Qed.

Lemma views_advance r l n : views r l -> 0 <= n < 2 ^ 24 -> n <= Zlen l -> views (r_advance r n) (drop (Z.to_nat n) l).
Proof.
  intros Hv Hn Hl. rewrite (views_length r l Hv) in Hl. pose proof (views_small r l n Hv Hn) as Ha.
  destruct Hv as [Ho Hr Hb <-]. pose proof Hr as (? & ? & ?). split; cbn; rewrite ?Ha; [lia|done|done|].
  unfold range, r_ptr. cbn. rewrite Ha, skipn_firstn_comm, drop_drop. f_equal; [lia|]. f_equal. lia.
Qed.

Lemma views_child r l n : views r l -> 0 <= n <= Zlen l ->
  views (r_init (r_ptr r) n) (take (Z.to_nat n) l).
Proof.
  intros Hv Hl. rewrite (views_length r l Hv) in Hl. destruct Hv as [Ho Hr Hb <-]. pose proof Hr as (? & ? & ?).
  assert (Hi : readable (r_ptr r) n).
  { apply (readable_sub _ (rd_end r - rd_offset r)); [by apply readable_add|lia]. }
  replace (take _ (range _ _)) with (range (r_ptr r) n); [by apply views_init|].
  unfold range. rewrite take_take. f_equal. lia.
Qed.

Lemma views_load r l i b : views r l -> l !! i = Some b -> load (rd_data r) (rd_offset r + Z.of_nat i) = Ok b.
Proof.
  intros Hv Hi. pose proof (lookup_lt_Some _ _ _ Hi). pose proof (views_length r l Hv). destruct Hv as [Ho Hr Hb <-].
  pose proof Hr as (? & ? & ?). unfold Zlen in *. apply load_lookup; [lia|].
  unfold range, r_ptr in Hi. cbn in Hi. apply lookup_take_Some in Hi as [Hi _]. rewrite lookup_drop in Hi.
  rewrite <- Hi. f_equal. lia.
Qed.

Lemma views_drop r l k l' n : views r l -> n = Z.of_nat (length k) -> 0 <= n < 2 ^ 24 -> l = k ++ l' ->
  views (r_advance r n) l'.
Proof.
  intros Hv -> Hn ->. replace l' with (drop (Z.to_nat (Z.of_nat (length k))) (k ++ l')).
  - apply views_advance; [done..|]. rewrite Zlen_app. unfold Zlen. lia.
  - by rewrite Nat2Z.id, drop_app_length.
Qed.

(** A value and the reader after it. *)
Definition read_field (n : Z) (a : Z * reader) (b : Z * list Z) : Prop :=
  a.1 = b.1 /\ 0 <= a.1 < n /\ views a.2 b.2.

Lemma r_u8_sim r l : views r l -> osim (read_field 256) (r_u8 r) (l_u8 l).
Proof.
  intros Hv. unfold r_u8. rewrite (views_has r l) by (done || lia). pose proof (views_ok r l Hv) as Hb.
  destruct l as [|b l]; [done|]. inversion_clear Hb.
  rewrite Zlen_cons, (proj2 (Z.leb_le _ _)) by (pose proof (Zlen_nonneg l); lia). cbn [negb].
  rewrite <- (Z.add_0_r (rd_offset r)). change 0 with (Z.of_nat 0) at 1. rewrite (views_load r _ 0 b Hv) by done.
  cbn. split_and!; [done|by apply H..|]. by apply (views_drop r (b :: l) [b]).
Qed.

Lemma r_u16_sim r l : views r l -> osim (read_field (2 ^ 16)) (r_u16 r) (l_u16 l).
Proof.
  intros Hv. unfold r_u16. rewrite (views_has r l) by (done || lia). pose proof (views_ok r l Hv) as Hb.
  destruct l as [|b0 [|b1 l]]; [done..|]. autorewrite with bytes in Hb. destruct Hb as (Hb0 & Hb1 & _).
  rewrite !Zlen_cons, (proj2 (Z.leb_le _ _)) by (pose proof (Zlen_nonneg l); lia). cbn [negb].
  pose proof (views_load r _ 0 b0 Hv eq_refl) as H0. pose proof (views_load r _ 1 b1 Hv eq_refl) as H1.
  rewrite Z.add_0_r in H0. rewrite (views_small r _ _ Hv) by lia. rewrite H0. cbn [mbind outcome_bind].
  change (Z.of_nat 1) with 1 in H1. rewrite H1. cbn [mbind outcome_bind l_u16 osim].
  unfold is_byte in *. rewrite (wrap_small 16 (Z.shiftl _ _)) by (rewrite Z.shiftl_mul_pow2; lia).
  rewrite lor_shiftl_add, wrap_small by lia. split_and!; cbn; [done|lia..|]. by apply (views_drop r _ [b0; b1] _ 2 Hv).
Qed.

Lemma r_u24_sim r l : views r l -> osim (read_field (2 ^ 24)) (r_u24 r) (l_u24 l).
Proof.
  intros Hv. unfold r_u24. rewrite (views_has r l) by (done || lia). pose proof (views_ok r l Hv) as Hb.
  destruct l as [|b0 [|b1 [|b2 l]]]; [done..|]. autorewrite with bytes in Hb. destruct Hb as (Hb0 & Hb1 & Hb2 & _).
  rewrite !Zlen_cons, (proj2 (Z.leb_le _ _)) by (pose proof (Zlen_nonneg l); lia). cbn [negb].
  pose proof (views_load r _ 0 b0 Hv eq_refl) as H0. pose proof (views_load r _ 1 b1 Hv eq_refl) as H1.
  pose proof (views_load r _ 2 b2 Hv eq_refl) as H2.
  rewrite Z.add_0_r in H0. rewrite !(views_small r _ _ Hv) by lia. rewrite H0. cbn [mbind outcome_bind].
  change (Z.of_nat 1) with 1 in H1. change (Z.of_nat 2) with 2 in H2. rewrite H1, H2. cbn [mbind outcome_bind l_u24 osim].
  unfold is_byte in *. rewrite !wrap_small by (rewrite Z.shiftl_mul_pow2; lia).
  rewrite (lor_shiftl_add b0 (Z.shiftl b1 8) 16), Z.shiftl_mul_pow2 by (rewrite ?Z.shiftl_mul_pow2; lia).
  rewrite (lor_disjoint_add _ b2 8); [|lia| |lia].
  - split_and!; cbn; [lia..|]. by apply (views_drop r _ [b0; b1; b2] _ 3 Hv).
  - replace (b0 * 2 ^ 16 + b1 * 2 ^ 8) with ((b0 * 256 + b1) * 2 ^ 8) by lia. apply Z.mod_mul. lia.
Qed.

Lemma r_skip_sim r l n : views r l -> 0 <= n < 2 ^ 24 -> osim views (r_skip r n) (l_skip n l).
Proof.
  intros Hv Hn. unfold r_skip, l_skip, l_take. rewrite (views_has r l) by done.
  destruct (n <=? Zlen l) eqn:E; [|done]. bool_to_prop. by apply views_advance.
Qed.

Definition both (a : reader * reader) (b : list Z * list Z) : Prop := views a.1 b.1 /\ views a.2 b.2.

Lemma r_subreader_sim r l n : views r l -> 0 <= n < 2 ^ 24 -> osim both (r_subreader r n) (l_take n l).
Proof.
  intros Hv Hn. unfold r_subreader, l_take. rewrite (views_has r l) by done.
  destruct (n <=? Zlen l) eqn:E; [|done]. bool_to_prop. split; [apply views_child; [done|lia]|by apply views_advance].
Qed.

Lemma r_subreader_available_sim r l n : views r l -> 0 <= n < 2 ^ 24 ->
  osim (fun a b => views a.1.1 b.1 /\ a.1.2 = b.2) (r_subreader_available r n) (l_available n l).
Proof.
  intros Hv Hn. unfold r_subreader_available, l_available. rewrite (views_remaining r l Hv).
  pose proof (Zlen_nonneg l) as Hl. set (k := if n <? Zlen l then n else Zlen l).
  assert (Hk : 0 <= k <= Zlen l /\ take (Z.to_nat k) l = take (Z.to_nat n) l /\ (k <? n) = (Zlen l <? n)).
  { unfold k, Zlen in *. destruct (n <? _) eqn:E; bool_to_prop; split_and!; try lia; try done.
    by rewrite !take_ge by lia. }
  destruct Hk as (Hk & Ht & Hlt). destruct (bool_decide (l = [])) eqn:El; bool_to_prop.
  - subst l. clearbody k. change (Zlen (@nil Z)) with 0 in *. assert (k = 0) as -> by lia. destruct (0 <? n) eqn:E; [done|]. cbn [Z.eqb andb osim fst snd].
    bool_to_prop. split; [|done]. rewrite <- Ht. apply views_child; [done|done].
  - assert (0 < Zlen l) by (destruct l; [done|]; rewrite Zlen_cons; pose proof (Zlen_nonneg l); lia).
    cbn [andb]. destruct ((k =? 0) && (0 <? n)) eqn:E; bool_to_prop.
    + unfold k in *. split_if; bool_to_prop; lia.
    + cbn [osim fst snd]. rewrite <- Ht. split; [apply views_child; [done|lia]|done].
Qed.

(** *** The hostname check *)

Section hostname.
Context (p : ptr) (l : list Z).
Hypothesis reads : forall j b, l !! j = Some b -> load p (Z.of_nat j) = Ok b.
Hypothesis short : Zlen l < 2 ^ 24.

Lemma hostname_loop_spec rest : forall pre prev k, l = pre ++ rest -> 0 <= k <= Zlen pre ->
  (k <> 0 -> list.last pre = Some prev) ->
  exists r, hostname_loop p (length rest) (Zlen pre) k = Ok r /\
    match r with
    | None => false
    | Some k' => (0 <? k') && (k' <=? 63) && negb (default prev (list.last rest) =? HYPHEN)
    end = l_labels prev k rest.
Proof using reads short.
  induction rest as [|c rest IH]; intros pre prev k Hl Hk Hlast; cbn [length hostname_loop l_labels].
  - by eexists.
  - assert (Hc : load p (Zlen pre) = Ok c).
    { apply reads. rewrite Hl, lookup_app_r, Nat.sub_diag by lia. done. }
    rewrite Hc. cbn [mbind outcome_bind].
    assert (Hn : uadd (Zlen pre) 1 = Zlen (pre ++ [c])).
    { pose proof (Zlen_nonneg pre). pose proof (Zlen_nonneg rest). rewrite Hl, Zlen_app, Zlen_cons in short.
      rewrite uadd_small by lia. rewrite Zlen_app. unfold Zlen at 3. cbn. lia. }
    assert (Hlst : default prev (list.last (c :: rest)) = default c (list.last rest)) by (rewrite last_cons; by destruct (list.last rest)).
    specialize (IH (pre ++ [c]) c). rewrite <- app_assoc, last_snoc, Zlen_app in IH.
    change (Zlen [c]) with 1 in IH. pose proof (Zlen_nonneg pre). rewrite Hlst, Hn, Zlen_app. change (Zlen [c]) with 1.
    destruct (c =? DOT) eqn:Ec; bool_to_prop.
    + destruct ((k =? 0) || (63 <? k)) eqn:Ek.
      { exists None. split; [done|]. destruct (0 <? k) eqn:?, (k <=? 63) eqn:?; try done. bool_to_prop. lia. }
      bool_to_prop. rewrite (proj2 (Z.ltb_lt 0 k)), (proj2 (Z.leb_le k 63)) by lia. cbn [andb].
      assert (Hp : load p (usub (Zlen pre) 1) = Ok prev).
      { rewrite usub_small by (rewrite Hl, Zlen_app in short; pose proof (Zlen_nonneg (c :: rest)); lia).
        replace (Zlen pre - 1) with (Z.of_nat (length pre - 1)) by (unfold Zlen in *; lia). apply reads.
        rewrite Hl, lookup_app_l by (unfold Zlen in *; lia). rewrite <- (Hlast ltac:(lia)), last_lookup. f_equal. lia. }
      rewrite Hp. cbn [mbind outcome_bind]. destruct (prev =? HYPHEN); [by exists None|]. cbn [negb andb].
      apply IH; [done|lia|done].
    + destruct (isalnum c || (c =? HYPHEN)); [|by exists None]. cbn [negb andb].
      destruct ((k =? 0) && (c =? HYPHEN)); [by exists None|]. cbn [negb andb].
      rewrite Hl, Zlen_app, Zlen_cons in short. pose proof (Zlen_nonneg rest). rewrite uadd_small by lia.
      apply IH; [done|lia|done].
Qed.

Lemma valid_hostname_spec : valid_hostname p (Zlen l) = Ok (hostname_ok l).
Proof using reads short.
  unfold valid_hostname, hostname_ok. pose proof (labels_split l 0 [] ltac:(split; done) ltac:(done)) as Hsplit.
  change (Zlen (@nil Z)) with 0 in Hsplit. cbn [app] in Hsplit. rewrite <- Hsplit.
  destruct (decide (l = [])) as [Hnil|Hne]; [by subst l|].
  assert (Hpos : 0 < Zlen l) by (destruct l; [done|]; rewrite Zlen_cons; pose proof (Zlen_nonneg l0); lia).
  rewrite (proj2 (Z.eqb_neq _ _)) by lia. cbn [orb].
  destruct (QSR_MAX_HOSTNAME_LEN <? Zlen l) eqn:Emax; bool_to_prop; [by rewrite (proj2 (Z.leb_gt _ _))|].
  rewrite (proj2 (Z.leb_le _ _)) by done. cbn [andb].
  destruct (lookup_lt_is_Some_2 l 0) as [c0 H0]; [unfold Zlen in *; lia|].
  destruct (lookup_lt_is_Some_2 l (length l - 1)) as [c1 H1]; [unfold Zlen in *; lia|].
  pose proof (reads _ _ H0) as R0. pose proof (reads _ _ H1) as R1.
  replace (Z.of_nat (length l - 1)) with (usub (Zlen l) 1) in R1 by (rewrite usub_small; unfold Zlen in *; lia).
  change (Z.of_nat 0) with 0 in R0. rewrite R0. cbn [mbind outcome_bind].
  assert (Hlast : list.last l = Some c1) by (rewrite last_lookup, <- H1; f_equal; lia).
  destruct (c0 =? DOT) eqn:E0; bool_to_prop.
  { f_equal. symmetry. apply not_true_iff_false. intros (_ & Hh & _)%labels_dots. apply Hh.
    rewrite head_lookup, H0. by f_equal. }
  rewrite R1. cbn [mbind outcome_bind]. destruct (c1 =? DOT) eqn:E1; bool_to_prop.
  { f_equal. symmetry. apply not_true_iff_false. intros (_ & _ & Hh)%labels_dots. apply Hh. by rewrite Hlast, E1. }
  destruct (hostname_loop_spec l [] 0 0) as (r & Hr & Hm); [done|unfold Zlen; cbn; lia|done|].
  change (Zlen (@nil Z)) with 0 in Hr. replace (Z.to_nat (Zlen l)) with (length l) by (unfold Zlen; lia). rewrite Hr, <- Hm.
  cbn [mbind outcome_bind]. destruct r as [k|]; [|done]. rewrite Hlast. cbn [default].
  destruct ((0 <? k) && (k <=? 63)); [|done]. cbn [negb andb]. done.
Qed.
End hostname.

(** *** The parser computes the grammar *)

Lemma views_load_bytes r l n : views r l -> 0 <= n <= Zlen l -> load_bytes (r_ptr r) n = Ok (take (Z.to_nat n) l).
Proof.
  intros Hv Hn. rewrite (views_length r l Hv) in Hn. destruct Hv as [Ho (? & ? & ?) Hb <-].
  unfold load_bytes, range, r_ptr. cbn [p_off p_buf ptr_add]. replace (_ && _) with true by (symmetry; zbool).
  rewrite take_take. do 2 f_equal. lia.
Qed.

Lemma views_hostname r l n : views r l -> 0 <= n <= Zlen l -> n < 2 ^ 16 ->
  valid_hostname (r_ptr r) n = Ok (hostname_ok (take (Z.to_nat n) l)).
Proof.
  intros Hv Hn Hs. assert (Hz : Zlen (take (Z.to_nat n) l) = n) by (unfold Zlen in *; rewrite length_take; lia).
  rewrite <- Hz at 1. apply valid_hostname_spec; [|lia]. intros j b Hj.
  pose proof (views_child r l n Hv Hn) as Hc. pose proof (views_load _ _ j b Hc Hj) as Hl.
  cbn in Hl. by rewrite Z.add_0_l in Hl.
Qed.

(** A reader call whose failures are all reported as [s], which is what they are. *)
Definition only_fails {A} (s : qsr_status) (m : outcome A) : Prop := forall s', m = Fail s' -> s' = s.

Lemma or_fail_sim {A B} (R : A -> B -> Prop) s m n : osim R m n -> only_fails s n -> osim R (or_fail s m) n.
Proof. destruct m, n; cbn; intros; subst; auto; try done. symmetry. auto. Qed.

Lemma l_u8_fails l : only_fails QSR_ERR_TRUNCATED (l_u8 l).
Proof. unfold only_fails. destruct l; by intros s [=]. Qed.

Lemma l_u16_fails l : only_fails QSR_ERR_TRUNCATED (l_u16 l).
Proof. unfold only_fails. destruct l as [|? [|? ?]]; by intros s [=]. Qed.

Lemma l_u24_fails l : only_fails QSR_ERR_TRUNCATED (l_u24 l).
Proof. unfold only_fails. destruct l as [|? [|? [|? ?]]]; by intros s [=]. Qed.

Lemma l_take_fails n l : only_fails QSR_ERR_TRUNCATED (l_take n l).
Proof. unfold only_fails, l_take. intros s. destruct (_ <=? _); cbn; congruence. Qed.

Lemma l_skip_fails n l : only_fails QSR_ERR_TRUNCATED (l_skip n l).
Proof. unfold only_fails, l_skip, l_take. intros s. destruct (_ <=? _); cbn; congruence. Qed.

Lemma l_available_fails n l : only_fails QSR_ERR_TRUNCATED (l_available n l).
Proof. unfold only_fails, l_available. intros s. destruct (_ && _); cbn; congruence. Qed.

#[local] Hint Resolve l_u8_fails l_u16_fails l_u24_fails l_take_fails l_skip_fails l_available_fails : core.

(** One field of both parsers. *)
Lemma u8_step {A} r l (f : Z * reader -> outcome A) g s : views r l -> s = QSR_ERR_TRUNCATED ->
  (forall v r' l', 0 <= v < 256 -> views r' l' -> osim eq (f (v, r')) (g (v, l'))) ->
  osim eq (or_fail s (r_u8 r) ≫= f) (l_u8 l ≫= g).
Proof.
  intros Hv -> Hf. apply (osim_bind (read_field 256)); [apply or_fail_sim; [by apply r_u8_sim|auto]|].
  intros [v r'] [v' l'] (Heq & Hb & Hv'). cbn in *. subst v'. auto.
Qed.

Lemma u16_step {A} r l (f : Z * reader -> outcome A) g : views r l ->
  (forall v r' l', 0 <= v < 2 ^ 16 -> views r' l' -> osim eq (f (v, r')) (g (v, l'))) ->
  osim eq (or_fail QSR_ERR_TRUNCATED (r_u16 r) ≫= f) (l_u16 l ≫= g).
Proof.
  intros Hv Hf. apply (osim_bind (read_field (2 ^ 16))); [apply or_fail_sim; [by apply r_u16_sim|auto]|].
  intros [v r'] [v' l'] (Heq & Hb & Hv'). cbn in *. subst v'. auto.
Qed.

Lemma u16_step' {A} r l (f : Z * reader -> outcome A) g : views r l ->
  (forall v r' l', 0 <= v < 2 ^ 16 -> views r' l' -> osim eq (f (v, r')) (g (v, l'))) ->
  osim eq (r_u16 r ≫= f) (l_u16 l ≫= g).
Proof.
  intros Hv Hf. apply (osim_bind (read_field (2 ^ 16))); [by apply r_u16_sim|].
  intros [v r'] [v' l'] (Heq & Hb & Hv'). cbn in *. subst v'. auto.
Qed.

Lemma u16_ignored_step {A} r l (f : Z * reader -> outcome A) g : views r l -> 2 <= Zlen l ->
  (forall v r' l', 0 <= v < 2 ^ 16 -> views r' l' -> Zlen l' = Zlen l - 2 -> osim eq (f (v, r')) (g (v, l'))) ->
  osim eq (ignoring 0 r (r_u16 r) ≫= f) (l_u16 l ≫= g).
Proof.
  intros Hv H2 Hf. pose proof (r_u16_sim r l Hv) as Hs. destruct l as [|b0 [|b1 l]]; [done..|].
  rewrite !Zlen_cons in Hf. cbn [l_u16 mbind outcome_bind] in *.
  destruct (r_u16 r) as [[v r']| |]; [|done..]. destruct Hs as (Heq & Hb & Hv'). cbn in *. subst v. apply Hf; [done..|lia].
Qed.

Lemma skip_step {A} r l n (f : reader -> outcome A) g : views r l -> 0 <= n < 2 ^ 24 ->
  (forall r' l', views r' l' -> osim eq (f r') (g l')) ->
  osim eq (or_fail QSR_ERR_TRUNCATED (r_skip r n) ≫= f) (l_skip n l ≫= g).
Proof.
  intros Hv Hn Hf. apply (osim_bind views); [apply or_fail_sim; [by apply r_skip_sim|auto]|auto].
Qed.

Lemma server_name_loop_sim fuel : forall r l, views r l -> Zlen l < Z.of_nat fuel ->
  osim eq (server_name_loop fuel r) (l_names fuel l).
Proof.
  induction fuel as [|fuel IH]; intros r l Hv Hf; [pose proof (Zlen_nonneg l); lia|].
  cbn [server_name_loop l_names]. rewrite (views_remaining r l Hv).
  destruct (3 <=? Zlen l) eqn:E3; [|done]. bool_to_prop.
  destruct l as [|b0 [|b1 [|b2 l]]]; try (unfold Zlen in E3; cbn [length] in E3; lia). rewrite !Zlen_cons in Hf.
  pose proof (r_u8_sim r _ Hv) as H8. destruct (r_u8 r) as [[t r1]| |]; [|done..]. destruct H8 as (Heq & _ & Hv1). cbn in Heq, Hv1. subst t.
  pose proof (r_u16_sim r1 _ Hv1) as H16. cbn [or_fail mbind outcome_bind l_u8 l_u16 fst snd] in *.
  destruct (r_u16 r1) as [[n r2]| |]; [|done..]. destruct H16 as (Heq & Hn & Hv2). cbn in Heq, Hn, Hv2. subst n.
  cbn [or_fail mbind outcome_bind fst snd] in *. set (n := b1 * 256 + b2) in *.
  rewrite (views_has r2 l) by (done || lia). unfold l_take.
  destruct (n <=? Zlen l) eqn:En; [|done]. bool_to_prop. cbn [negb mbind outcome_bind].
  destruct (b0 =? 0).
  - rewrite (views_hostname r2 l) by (done || lia). cbn [mbind outcome_bind]. destruct (hostname_ok _); [|done].
    cbn [negb]. by rewrite (views_load_bytes r2 l) by (done || lia).
  - pose proof (r_skip_sim r2 l n Hv2 ltac:(lia)) as Hs. unfold l_skip, l_take in Hs.
    rewrite (proj2 (Z.leb_le _ _)) in Hs by done. cbn [mbind outcome_bind] in Hs.
    destruct (r_skip r2 n) as [r3| |]; [|done..]. cbn [mbind outcome_bind ignoring]. cbn in Hs. apply IH; [done|].
    unfold Zlen in *. rewrite length_drop. lia.
Qed.

Lemma length_Zlen {A} (l : list A) : Z.to_nat (Zlen l) = length l.
Proof. apply Nat2Z.id. Qed.

Lemma parse_sni_extension_sim r l : views r l -> osim eq (parse_sni_extension r) (l_sni l).
Proof.
  intros Hv. unfold parse_sni_extension, l_sni. apply u16_step'; [done|]. intros n r' l' Hn Hv'.
  apply (osim_bind both); [apply r_subreader_sim; [done|lia]|]. intros [c r2] [names l2] [Hc _]. cbn in Hc.
  rewrite (views_remaining c names Hc), length_Zlen. apply server_name_loop_sim; [done|]. unfold Zlen. lia.
Qed.

Lemma extension_loop_sim fuel t : forall r l, views r l -> Zlen l < Z.of_nat fuel ->
  osim eq (extension_loop fuel t r) (l_extensions fuel t l).
Proof.
  induction fuel as [|fuel IH]; intros r l Hv Hf; [pose proof (Zlen_nonneg l); lia|].
  cbn [extension_loop l_extensions]. rewrite (views_remaining r l Hv).
  destruct (4 <=? Zlen l) eqn:E4; [|by destruct t]. bool_to_prop.
  apply u16_ignored_step; [done|lia|]. intros ty r1 l1 Hty Hv1 Hl1.
  apply u16_ignored_step; [done|lia|]. intros n r2 l2 Hn Hv2 Hl2.
  apply (osim_bind (fun a b => both a b /\ Zlen b.2 <= Zlen l2)).
  - apply or_fail_sim; [|auto]. pose proof (r_subreader_sim r2 l2 n Hv2 ltac:(lia)) as Hs. unfold l_take in *.
    destruct (n <=? Zlen l2); [|by destruct (r_subreader r2 n)]. destruct (r_subreader r2 n); [|done..].
    split; [done|]. cbn. unfold Zlen. rewrite length_drop. lia.
  - intros [body r3] [body' l3] [[Hb Hv3] Hl3]. cbn in *. destruct (ty =? 0); [by apply parse_sni_extension_sim|].
    apply IH; [done|lia].
Qed.

Lemma unwrap_record_sim p len l : views (r_init p len) l -> osim views (unwrap_record (r_init p len)) (l_record l).
Proof.
  intros Hv. unfold unwrap_record, l_record. rewrite (views_has _ l) by (done || lia).
  destruct (5 <=? Zlen l) eqn:E5; [|exact Hv]. bool_to_prop.
  destruct l as [|b0 l]; [done|]. pose proof (views_load _ _ 0 b0 Hv eq_refl) as Hl. cbn in Hl. change (0 + Z.of_nat 0) with 0 in Hl. cbn [rd_data r_init].
  rewrite Hl. cbn [mbind outcome_bind head default andb]. change (id b0) with b0. destruct (b0 =? 0x16); [|exact Hv].
  pose proof (r_skip_sim _ _ 3 Hv ltac:(lia)) as Hs. unfold l_skip, l_take in Hs.
  rewrite (proj2 (Z.leb_le _ _)) in Hs by lia. cbn [mbind outcome_bind] in Hs.
  destruct (r_skip _ 3) as [r1| |]; [|done..]. cbn [osim] in Hs. change (Z.to_nat 3) with 3%nat in Hs.
  cbn [mbind outcome_bind ignoring].
  assert (H2 : 2 <= Zlen (drop 3 (b0 :: l))) by (unfold Zlen in *; rewrite length_drop; lia).
  pose proof (r_u16_sim _ _ Hs) as H16. revert H16 H2. generalize (drop 3 (b0 :: l)) as k. intros k H16 H2.
  destruct k as [|k0 [|k1 k]]; [done..|]. cbn [l_u16] in *. destruct (r_u16 r1) as [[n r2]| |]; [|done..].
  destruct H16 as (Heq & Hn & Hv2). cbn in Heq, Hn, Hv2. subst n. cbn [mbind outcome_bind ignoring].
  apply (osim_bind both); [apply or_fail_sim; [apply r_subreader_sim; [done|lia]|auto]|].
  intros [a b] [a' b'] [Ha _]. done.
Qed.

Lemma skip_hello_fields_sim r l : views r l -> osim views (skip_hello_fields r) (l_fields l).
Proof.
  intros Hv. unfold skip_hello_fields, l_fields.
  apply (osim_bind views); [apply or_fail_sim; [apply r_skip_sim; [done|lia]|auto]|]. intros r1 l1 Hv1.
  apply (osim_bind (read_field 256)); [apply or_fail_sim; [by apply r_u8_sim|auto]|]. intros [a r2] [a' l2] (Ha & Hb & Hv2).
  cbn in Ha, Hb, Hv2. subst a'.
  apply (osim_bind views); [apply or_fail_sim; [apply r_skip_sim; [done|lia]|auto]|]. intros r3 l3 Hv3.
  apply (osim_bind (read_field (2 ^ 16))); [apply or_fail_sim; [by apply r_u16_sim|auto]|]. intros [c r4] [c' l4] (Hc & Hd & Hv4).
  cbn in Hc, Hd, Hv4. subst c'. destruct (negb _); [done|].
  apply (osim_bind views); [apply or_fail_sim; [apply r_skip_sim; [done|lia]|auto]|]. intros r5 l5 Hv5.
  apply (osim_bind (read_field 256)); [apply or_fail_sim; [by apply r_u8_sim|auto]|]. intros [e r6] [e' l6] (He & Hf & Hv6).
  cbn in He, Hf, Hv6. subst e'. apply or_fail_sim; [apply r_skip_sim; [done|lia]|auto].
Qed.

Lemma client_hello_sim p len : readable p len -> bytes_ok (p_buf p) ->
  osim eq (qsr_tls_client_hello_sni p len) (client_hello_sni (range p len)).
Proof.
  intros Hr Hb. unfold qsr_tls_client_hello_sni, client_hello_sni.
  pose proof (views_init p len Hr Hb) as Hv. pose proof (views_length _ _ Hv) as Hlen. cbn in Hlen. rewrite Z.sub_0_r in Hlen.
  rewrite Hlen. destruct (_ <? _); [done|].
  apply (osim_bind views); [by apply unwrap_record_sim|]. intros r1 l1 Hv1.
  apply (osim_bind (read_field 256)); [by apply osim_or_fail, r_u8_sim|]. intros [a r2] [a' l2] (Ha & _ & Hv2).
  cbn in Ha, Hv2. subst a'. destruct (negb _); [done|].
  apply (osim_bind (read_field (2 ^ 24))); [apply or_fail_sim; [by apply r_u24_sim|auto]|]. intros [n r3] [n' l3] (Hn & Hn' & Hv3).
  cbn in Hn, Hn', Hv3. subst n'.
  apply (osim_bind (fun a b => views a.1.1 b.1 /\ a.1.2 = b.2));
    [apply or_fail_sim; [by apply r_subreader_available_sim|auto]|].
  intros [[h t1] r4] [h' t1'] [Hh Ht]. cbn in Hh, Ht. subst t1'.
  apply (osim_bind views); [by apply skip_hello_fields_sim|]. intros r5 l5 Hv5.
  rewrite (views_remaining r5 l5 Hv5). destruct (bool_decide (l5 = [])) eqn:El; bool_to_prop; [by subst l5|].
  replace (Zlen l5 =? 0) with false by (destruct l5; [done|]; symmetry; apply Z.eqb_neq; by unfold Zlen).
  apply (osim_bind (read_field (2 ^ 16))); [apply or_fail_sim; [by apply r_u16_sim|auto]|]. intros [m r6] [m' l6] (Hm & Hm' & Hv6).
  cbn in Hm, Hm', Hv6. subst m'.
  apply (osim_bind (fun a b => views a.1.1 b.1 /\ a.1.2 = b.2));
    [apply or_fail_sim; [apply r_subreader_available_sim; [done|lia]|auto]|].
  intros [[x t2] r7] [x' t2'] [Hx Ht2]. cbn in Hx, Ht2. subst t2'. rewrite (views_remaining x x' Hx), length_Zlen.
  apply extension_loop_sim; [done|]. unfold Zlen. lia.
Qed.

(** *** More bytes do not change a decision *)

Lemma l_u8_more l a r x : l_u8 l = Ok (a, r) -> l_u8 (l ++ x) = Ok (a, r ++ x).
Proof. destruct l; [done|]. by intros [= <- <-]. Qed.

Lemma l_u16_more l a r x : l_u16 l = Ok (a, r) -> l_u16 (l ++ x) = Ok (a, r ++ x).
Proof. destruct l as [|? [|? ?]]; [done..|]. by intros [= <- <-]. Qed.

Lemma l_u24_more l a r x : l_u24 l = Ok (a, r) -> l_u24 (l ++ x) = Ok (a, r ++ x).
Proof. destruct l as [|? [|? [|? ?]]]; [done..|]. by intros [= <- <-]. Qed.

Lemma l_take_more n l a r x : l_take n l = Ok (a, r) -> l_take n (l ++ x) = Ok (a, r ++ x).
Proof.
  unfold l_take. rewrite Zlen_app. intros Hl. inv_ok. bool_to_prop. simplify_eq. pose proof (Zlen_nonneg x).
  rewrite (proj2 (Z.leb_le _ _)) by lia. unfold Zlen in *. rewrite take_app_le, drop_app_le by lia. done.
Qed.

Lemma l_skip_more n l r x : l_skip n l = Ok r -> l_skip n (l ++ x) = Ok (r ++ x).
Proof.
  unfold l_skip. intros Hl. inv_ok. apply (l_take_more _ _ _ _ x) in E. by rewrite E.
Qed.

Lemma l_available_more n l c t x : l_available n l = Ok (c, t) -> exists y t', l_available n (l ++ x) = Ok (c ++ y, t').
Proof.
  unfold l_available. intros Hl. inv_ok. simplify_eq. rewrite take_app.
  replace (_ && _) with false; [by eexists _, _|].
  symmetry. destruct (bool_decide (l ++ x = [])) eqn:Ex; [|done]. apply bool_decide_eq_true in Ex.
  apply app_nil in Ex as [-> ->]. by rewrite bool_decide_eq_true_2 in E.
Qed.

Lemma l_fields_more l r x : l_fields l = Ok r -> l_fields (l ++ x) = Ok (r ++ x).
Proof.
  unfold l_fields. intros Hl. inv_ok.
  apply (l_skip_more _ _ _ x) in E. rewrite E. cbn [mbind outcome_bind].
  apply (l_u8_more _ _ _ x) in E0. rewrite E0. cbn [mbind outcome_bind].
  apply (l_skip_more _ _ _ x) in E1. rewrite E1. cbn [mbind outcome_bind].
  apply (l_u16_more _ _ _ x) in E2. rewrite E2. cbn [mbind outcome_bind]. rewrite E3.
  apply (l_skip_more _ _ _ x) in E4. rewrite E4. cbn [mbind outcome_bind].
  apply (l_u8_more _ _ _ x) in E5. rewrite E5. cbn [mbind outcome_bind].
  by apply (l_skip_more _ _ _ x) in Hl.
Qed.

Lemma l_extensions_more fuel : forall fuel' t t' l x h, (fuel <= fuel')%nat ->
  l_extensions fuel t l = Ok h -> l_extensions fuel' t' (l ++ x) = Ok h.
Proof.
  induction fuel as [|fuel IH]; intros [|fuel'] t t' l x h Hf Hl; [done|done|lia|]. cbn [l_extensions] in *.
  destruct (4 <=? Zlen l) eqn:E4; [|by destruct t]. bool_to_prop. rewrite Zlen_app. pose proof (Zlen_nonneg x).
  rewrite (proj2 (Z.leb_le _ _)) by lia. inv_ok.
  apply (l_u16_more _ _ _ x) in E. rewrite E. cbn [mbind outcome_bind].
  apply (l_u16_more _ _ _ x) in E0. rewrite E0. cbn [mbind outcome_bind].
  apply (l_take_more _ _ _ _ x) in E1. rewrite E1. cbn [mbind outcome_bind].
  destruct (_ =? 0); [done|]. apply IH with (t := t); [lia|done].
Qed.

Lemma l_record_more l r x : l_record l = Ok r ->
  (exists y, l_record (l ++ x) = Ok (r ++ y)) \/ ((l = [] \/ head l = Some 0x16) /\ r = l).
Proof.
  unfold l_record. rewrite Zlen_app. pose proof (Zlen_nonneg x). destruct l as [|b l]; [intros [= <-]; auto|].
  cbn [head app default]. change (id b) with b. destruct (b =? 0x16) eqn:Eb; bool_to_prop.
  - rewrite !andb_true_r. subst b. destruct (5 <=? Zlen _) eqn:E5; bool_to_prop; [|intros [= <-]; auto].
    rewrite (proj2 (Z.leb_le _ _)) by lia. intros Hl. inv_ok.
    left. exists []. rewrite app_nil_r, app_comm_cons, drop_app_le by (unfold Zlen in *; cbn [length] in *; lia).
    apply (l_u16_more _ _ _ x) in E. rewrite E. cbn [mbind outcome_bind].
    apply (l_take_more _ _ _ _ x) in E0. by rewrite E0.
  - rewrite !andb_false_r. intros [= <-]. left. by exists x.
Qed.

Lemma client_hello_sni_more l x h : Zlen (l ++ x) <= QSR_MAX_CLIENT_HELLO_SIZE ->
  client_hello_sni l = Ok h -> client_hello_sni (l ++ x) = Ok h.
Proof.
  unfold client_hello_sni. intros Hx Hl. rewrite (proj2 (Z.ltb_ge _ _)) by done. inv_ok.
  destruct (l_record_more _ _ x E0) as [[y Hy]|[[->|Hh] ->]]; [|done|].
  2: { destruct l as [|c0 l]; [done|]. cbn in Hh. simplify_eq. cbn in E2. simplify_eq. }
  rewrite Hy. cbn [mbind outcome_bind].
  apply (l_u8_more _ _ _ y) in E2. rewrite E2. cbn [or_fail mbind outcome_bind]. rewrite E1.
  apply (l_u24_more _ _ _ y) in E3. rewrite E3. cbn [mbind outcome_bind].
  destruct (l_available_more _ _ _ _ y E4) as (y1 & t1 & ->). cbn [mbind outcome_bind].
  apply (l_fields_more _ _ y1) in E5. rewrite E5. cbn [mbind outcome_bind]. bool_to_prop.
  rewrite bool_decide_eq_false_2 by (by intros [-> _]%app_nil).
  apply (l_u16_more _ _ _ y1) in E7. rewrite E7. cbn [mbind outcome_bind].
  destruct (l_available_more _ _ _ _ y1 E8) as (y2 & t2 & ->). cbn [mbind outcome_bind].
  eapply l_extensions_more; [|exact Hl]. rewrite length_app. lia.
Qed.

(** *** What an accepted name is *)

(** [k] is a piece of [l]. *)
Definition within (k l : list Z) : Prop := exists pre post, l = pre ++ k ++ post.

Lemma within_refl l : within l l.
Proof. exists [], []. by rewrite app_nil_r. Qed.

Lemma within_trans a b c : within a b -> within b c -> within a c.
Proof.
  intros (p1 & q1 & ->) (p2 & q2 & ->). exists (p2 ++ p1), (q1 ++ q2). by rewrite <- !app_assoc.
Qed.

Lemma within_take n l : within (take n l) l.
Proof. exists [], (drop n l). by rewrite take_drop. Qed.

Lemma within_drop n l : within (drop n l) l.
Proof. exists (take n l), []. by rewrite app_nil_r, take_drop. Qed.

Lemma l_u8_within l a r : l_u8 l = Ok (a, r) -> within r l.
Proof. destruct l; [done|]. intros [= <- <-]. apply (within_drop 1). Qed.

Lemma l_u16_within l a r : l_u16 l = Ok (a, r) -> within r l.
Proof. destruct l as [|? [|? ?]]; [done..|]. intros [= <- <-]. apply (within_drop 2 (_ :: _ :: _)). Qed.

Lemma l_u24_within l a r : l_u24 l = Ok (a, r) -> within r l.
Proof. destruct l as [|? [|? [|? ?]]]; [done..|]. intros [= <- <-]. apply (within_drop 3 (_ :: _ :: _ :: _)). Qed.

Lemma l_take_within n l a r : l_take n l = Ok (a, r) -> within a l /\ within r l.
Proof. unfold l_take. intros Hl. inv_ok. simplify_eq. split; [apply within_take|apply within_drop]. Qed.

Lemma l_skip_within n l r : l_skip n l = Ok r -> within r l.
Proof. unfold l_skip. intros Hl. inv_ok. by apply l_take_within in E as [_ ?]. Qed.

Lemma l_available_within n l a t : l_available n l = Ok (a, t) -> within a l.
Proof. unfold l_available. intros Hl. inv_ok. simplify_eq. apply within_take. Qed.

(** Chain the pieces of a successful parse. *)
Ltac within_chain :=
  repeat match goal with
  | E : l_u8 _ = Ok (_, _) |- _ => apply l_u8_within in E
  | E : l_u16 _ = Ok (_, _) |- _ => apply l_u16_within in E
  | E : l_u24 _ = Ok (_, _) |- _ => apply l_u24_within in E
  | E : l_take _ _ = Ok (_, _) |- _ => apply l_take_within in E as [? ?]
  | E : l_skip _ _ = Ok _ |- _ => apply l_skip_within in E
  | E : l_available _ _ = Ok (_, _) |- _ => apply l_available_within in E
  end;
  repeat first [eassumption | apply within_drop | eapply within_trans; [eassumption|]].

Definition accepted (l name : list Z) : Prop :=
  exists host, name = sni_name host /\ hostname_ok host = true /\ within host l.

Lemma accepted_within l k name : within k l -> accepted k name -> accepted l name.
Proof. intros Hw (host & ? & ? & ?). exists host. split_and!; [done..|]. by eapply within_trans. Qed.

Lemma l_names_accepted fuel : forall l name, l_names fuel l = Ok name -> accepted l name.
Proof.
  induction fuel as [|fuel IH]; intros l name; cbn [l_names]; [done|]. split_if; [|done]. intros Hl. inv_ok.
  destruct (_ =? 0).
  - inv_ok. eexists. split_and!; [done|done|]. within_chain.
  - apply IH in Hl. eapply accepted_within; [|done]. within_chain.
Qed.

Lemma l_extensions_accepted fuel t : forall l name, l_extensions fuel t l = Ok name -> accepted l name.
Proof.
  induction fuel as [|fuel IH]; intros l name; cbn [l_extensions]; [done|]. split_if; [|by destruct t].
  intros Hl. inv_ok. destruct (_ =? 0).
  - unfold l_sni in Hl. inv_ok. apply l_names_accepted in Hl. eapply accepted_within; [|done]. within_chain.
  - apply IH in Hl. eapply accepted_within; [|done]. within_chain.
Qed.

Lemma l_record_within l r : l_record l = Ok r -> within r l.
Proof. unfold l_record. split_if; [|intros [= <-]; apply within_refl]. intros Hl. inv_ok. within_chain. Qed.

Lemma l_fields_within l r : l_fields l = Ok r -> within r l.
Proof. unfold l_fields. intros Hl. inv_ok. within_chain. Qed.

Lemma client_hello_accepted l name : client_hello_sni l = Ok name -> accepted l name.
Proof.
  unfold client_hello_sni. intros Hl. inv_ok. apply l_extensions_accepted in Hl. eapply accepted_within; [|done].
  apply l_record_within in E0. apply l_fields_within in E5. within_chain.
Qed.

(** ** Messages as bytes *)

Record hello_fields := {
  hf_version : list Z;
  hf_random : list Z;
  hf_session_id : list Z;
  hf_cipher_suites : list Z;
  hf_compression : list Z;
}.

Definition hello_fields_ok (f : hello_fields) : Prop :=
  Zlen (hf_version f) = 2 /\ Zlen (hf_random f) = 32 /\ Zlen (hf_session_id f) < 2 ^ 8 /\
  Zlen (hf_cipher_suites f) < 2 ^ 16 /\ Zlen (hf_cipher_suites f) mod 2 = 0 /\ Zlen (hf_compression f) < 2 ^ 8.

Definition encode_fields (f : hello_fields) : list Z :=
  (hf_version f ++ hf_random f) ++ Zlen (hf_session_id f) :: hf_session_id f ++
  be_bytes 2 (Zlen (hf_cipher_suites f)) ++ hf_cipher_suites f ++ Zlen (hf_compression f) :: hf_compression f.

(** An extension or a server name: a type and a body. *)
Definition encode_extension (e : Z * list Z) : list Z := be_bytes 2 e.1 ++ be_bytes 2 (Zlen e.2) ++ e.2.
Definition encode_server_name (n : Z * list Z) : list Z := n.1 :: be_bytes 2 (Zlen n.2) ++ n.2.

(** The body of the server_name extension. *)
Definition encode_server_names (names : list (Z * list Z)) : list Z :=
  be_bytes 2 (Zlen (names ≫= encode_server_name)) ++ (names ≫= encode_server_name).

Definition typed_ok (e : Z * list Z) : Prop := 0 < e.1 < 2 ^ 16 /\ Zlen e.2 < 2 ^ 16.

(** The extensions up to the server_name extension, which names [host] after
    the entries [skipped] of other types and before [others]. *)
Definition encode_extensions (before skipped : list (Z * list Z)) (host : list Z) (others : list (Z * list Z)) : list Z :=
  (before ≫= encode_extension) ++ encode_extension (0, encode_server_names (skipped ++ (0, host) :: others)).

(** A ClientHello with the declared lengths [hello_len] and [extensions_len], up to [exts]. *)
Definition encode_client_hello (hello_len : Z) (f : hello_fields) (extensions_len : Z) (exts : list Z) : list Z :=
  0x01 :: be_bytes 3 hello_len ++ encode_fields f ++ be_bytes 2 extensions_len ++ exts.

(** A TLS record around [message]. *)
Definition encode_record (legacy_version message : list Z) : list Z :=
  (0x16 :: legacy_version) ++ be_bytes 2 (Zlen message) ++ message.

(** *** Reading them back *)

Lemma l_u16_enc v l : 0 <= v < 2 ^ 16 -> l_u16 (be_bytes 2 v ++ l) = Ok (v, l).
Proof.
  intros Hv. cbn [be_bytes app l_u16]. do 2 f_equal. change (256 ^ Z.of_nat 1) with 256. change (256 ^ Z.of_nat 0) with 1.
  rewrite Z.div_1_r. dlia.
Qed.

Lemma l_u24_enc v l : 0 <= v < 2 ^ 24 -> l_u24 (be_bytes 3 v ++ l) = Ok (v, l).
Proof.
  intros Hv. cbn [be_bytes app l_u24]. do 2 f_equal.
  change (256 ^ Z.of_nat 2) with 65536. change (256 ^ Z.of_nat 1) with 256. change (256 ^ Z.of_nat 0) with 1.
  rewrite Z.div_1_r. dlia.
Qed.

Lemma l_take_enc n a l : n = Zlen a -> l_take n (a ++ l) = Ok (a, l).
Proof.
  intros ->. unfold l_take. rewrite Zlen_app, (proj2 (Z.leb_le _ _)), length_Zlen by (pose proof (Zlen_nonneg l); lia).
  by rewrite take_app_length, drop_app_length.
Qed.

Lemma l_skip_enc n a l : n = Zlen a -> l_skip n (a ++ l) = Ok l.
Proof. intros ->. unfold l_skip. by rewrite l_take_enc. Qed.

Lemma l_available_enc n a l : Zlen a <= n -> a <> [] -> exists y t, l_available n (a ++ l) = Ok (a ++ y, t).
Proof.
  intros Hn Ha. unfold l_available. rewrite bool_decide_eq_false_2 by (by intros [-> _]%app_nil). cbn [andb].
  unfold Zlen in Hn. rewrite take_app_ge by lia. by eexists _, _.
Qed.

Lemma length_be n v : Zlen (be_bytes n v) = Z.of_nat n.
Proof. unfold Zlen. by rewrite length_be_bytes. Qed.

Lemma names_enc skipped host rest fuel :
  Forall typed_ok skipped -> hostname_ok host = true -> Zlen host < 2 ^ 16 -> (length skipped < fuel)%nat ->
  l_names fuel ((skipped ≫= encode_server_name) ++ encode_server_name (0, host) ++ rest) = Ok (sni_name host).
Proof.
  intros Hs Hh Hz. revert fuel. induction Hs as [|[t n] skipped [Ht Hn] _ IH]; intros [|fuel] Hf; cbn in Hf; try lia.
  - change ([] ≫= encode_server_name) with (@nil Z). cbn [app l_names]. unfold encode_server_name. cbn [fst snd].
    rewrite <- app_comm_cons, <- app_assoc, Zlen_cons, Zlen_app, length_be, (proj2 (Z.leb_le _ _))
      by (pose proof (Zlen_nonneg (host ++ rest)); lia).
    cbn [l_u8 mbind outcome_bind]. rewrite l_u16_enc by (pose proof (Zlen_nonneg host); lia). cbn [mbind outcome_bind].
    rewrite l_take_enc by done. cbn [mbind outcome_bind Z.eqb]. by rewrite Hh.
  - change (((t, n) :: skipped) ≫= encode_server_name) with (encode_server_name (t, n) ++ (skipped ≫= encode_server_name)).
    rewrite <- app_assoc. set (tl := _ ++ _ ++ rest) in *. unfold encode_server_name. cbn [fst snd l_names] in *.
    rewrite <- app_comm_cons, <- app_assoc, Zlen_cons, Zlen_app, length_be, (proj2 (Z.leb_le _ _))
      by (pose proof (Zlen_nonneg (n ++ tl)); lia).
    cbn [l_u8 mbind outcome_bind]. rewrite l_u16_enc by (pose proof (Zlen_nonneg n); lia). cbn [mbind outcome_bind].
    rewrite l_take_enc by done. cbn [mbind outcome_bind]. rewrite (proj2 (Z.eqb_neq t 0)) by lia. apply IH. lia.
Qed.

Lemma sni_enc skipped host others :
  Forall typed_ok skipped -> hostname_ok host = true ->
  Zlen (encode_server_names (skipped ++ (0, host) :: others)) < 2 ^ 16 ->
  l_sni (encode_server_names (skipped ++ (0, host) :: others)) = Ok (sni_name host).
Proof.
  intros Hs Hh Hz. unfold encode_server_names in *. set (ns := _ ≫= encode_server_name) in *.
  rewrite Zlen_app, length_be in Hz. pose proof (Zlen_nonneg ns). unfold l_sni.
  rewrite l_u16_enc by lia. cbn [mbind outcome_bind]. rewrite <- (app_nil_r ns) at 2. rewrite l_take_enc by done.
  cbn [mbind outcome_bind]. revert Hz. unfold ns.
  rewrite bind_app. change (((0, host) :: others) ≫= encode_server_name)
    with (encode_server_name (0, host) ++ (others ≫= encode_server_name)). intros Hz.
  apply names_enc; [done|done| |].
  - rewrite !Zlen_app in Hz. unfold encode_server_name at 2 in Hz. cbn [fst snd] in Hz. rewrite Zlen_cons, Zlen_app in Hz.
    pose proof (Zlen_nonneg (skipped ≫= encode_server_name)). pose proof (Zlen_nonneg (others ≫= encode_server_name)).
    rewrite length_be in Hz. lia.
  - rewrite !length_app. enough (length skipped <= length (skipped ≫= encode_server_name))%nat by lia. clear.
    induction skipped as [|[t n] skipped IH]; [done|].
    change (((t, n) :: skipped) ≫= encode_server_name) with (encode_server_name (t, n) ++ (skipped ≫= encode_server_name)).
    rewrite length_app. unfold encode_server_name at 1. cbn [length]. lia.
Qed.

Lemma extensions_enc before body rest name t fuel :
  Forall typed_ok before -> Zlen body < 2 ^ 16 -> l_sni body = Ok name -> (length before < fuel)%nat ->
  l_extensions fuel t ((before ≫= encode_extension) ++ encode_extension (0, body) ++ rest) = Ok name.
Proof.
  intros Hs Hz Hb. revert fuel. induction Hs as [|[ty n] before [Ht Hn] _ IH]; intros [|fuel] Hf; cbn in Hf; try lia.
  - change ([] ≫= encode_extension) with (@nil Z). cbn [app l_extensions]. unfold encode_extension. cbn [fst snd].
    rewrite <- !app_assoc, !Zlen_app, !length_be, (proj2 (Z.leb_le _ _))
      by (pose proof (Zlen_nonneg body); pose proof (Zlen_nonneg rest); lia).
    rewrite l_u16_enc by lia. cbn [mbind outcome_bind].
    rewrite l_u16_enc by (pose proof (Zlen_nonneg body); lia). cbn [mbind outcome_bind].
    rewrite l_take_enc by done. done.
  - change (((ty, n) :: before) ≫= encode_extension) with (encode_extension (ty, n) ++ (before ≫= encode_extension)).
    rewrite <- app_assoc. set (tl := _ ++ _ ++ rest) in *. unfold encode_extension. cbn [fst snd l_extensions] in *.
    rewrite <- !app_assoc, !Zlen_app, !length_be, (proj2 (Z.leb_le _ _))
      by (pose proof (Zlen_nonneg n); pose proof (Zlen_nonneg tl); lia).
    rewrite l_u16_enc by lia. cbn [mbind outcome_bind].
    rewrite l_u16_enc by (pose proof (Zlen_nonneg n); lia). cbn [mbind outcome_bind].
    rewrite l_take_enc by done. cbn [mbind outcome_bind]. rewrite (proj2 (Z.eqb_neq ty 0)) by lia. apply IH. lia.
Qed.

Lemma fields_enc f l : hello_fields_ok f -> l_fields (encode_fields f ++ l) = Ok l.
Proof.
  intros (Hv & Hr & Hs & Hc & He & Hm). unfold encode_fields, l_fields.
  rewrite <- !app_assoc, <- !app_comm_cons, <- !app_assoc, <- app_comm_cons, app_assoc.
  rewrite l_skip_enc by (rewrite Zlen_app; lia). cbn [mbind outcome_bind l_u8].
  rewrite l_skip_enc by done. cbn [mbind outcome_bind].
  rewrite l_u16_enc by (pose proof (Zlen_nonneg (hf_cipher_suites f)); lia). cbn [mbind outcome_bind].
  rewrite He. cbn [Z.eqb negb]. rewrite l_skip_enc by done. cbn [mbind outcome_bind l_u8]. by apply l_skip_enc.
Qed.

Section message.
Context (hello_len extensions_len : Z) (f : hello_fields) (before skipped others : list (Z * list Z)) (host : list Z).
#[local] Abbreviation exts := (encode_extensions before skipped host others).

(** A well-formed message up to its server name; the declared lengths may
    reach further than what is there. *)
Record message_ok : Prop := {
  mo_fields : hello_fields_ok f;
  mo_before : Forall typed_ok before;
  mo_skipped : Forall typed_ok skipped;
  mo_host : hostname_ok host = true;
  mo_body : Zlen (encode_server_names (skipped ++ (0, host) :: others)) < 2 ^ 16;
  mo_extensions_len : Zlen exts <= extensions_len < 2 ^ 16;
  mo_hello_len : Zlen (encode_fields f ++ be_bytes 2 extensions_len ++ exts) <= hello_len < 2 ^ 24;
}.

Lemma exts_length : (length before < length exts)%nat.
Proof using.
  unfold encode_extensions. rewrite length_app. unfold encode_extension at 2. rewrite length_app, length_be_bytes.
  enough (length before <= length (before ≫= encode_extension))%nat by lia. clear.
  induction before as [|[t n] l IH]; [done|].
  change (((t, n) :: l) ≫= encode_extension) with (encode_extension (t, n) ++ (l ≫= encode_extension)).
  rewrite length_app. unfold encode_extension at 1. rewrite length_app, length_be_bytes. cbn [length]. lia.
Qed.

Lemma client_hello_enc rest : message_ok ->
  Zlen (encode_client_hello hello_len f extensions_len exts ++ rest) <= QSR_MAX_CLIENT_HELLO_SIZE ->
  client_hello_sni (encode_client_hello hello_len f extensions_len exts ++ rest) = Ok (sni_name host).
Proof using.
  intros [Hf Hbe Hsk Hh Hbody Hel Hhl] Hz. unfold client_hello_sni. rewrite (proj2 (Z.ltb_ge _ _)) by done.
  assert (He : exts <> []) by (intros Hx; pose proof exts_length as Hl; rewrite Hx in Hl; cbn in Hl; lia).
  pose proof (Zlen_nonneg exts) as Hel0. pose proof (Zlen_nonneg (encode_fields f ++ be_bytes 2 extensions_len ++ exts)) as Hhl0.
  unfold encode_client_hello. cbn [app]. unfold l_record. cbn [head default]. rewrite andb_false_r. cbn [mbind outcome_bind l_u8 or_fail].
  change (negb (1 =? 1)) with false. cbn [mbind outcome_bind].
  rewrite <- app_assoc, l_u24_enc by lia. cbn [mbind outcome_bind].
  destruct (l_available_enc hello_len (encode_fields f ++ be_bytes 2 extensions_len ++ exts) rest) as (y1 & t1 & ->);
    [lia|by intros [_ [_ ?]%app_nil]%app_nil|]. cbn [mbind outcome_bind].
  rewrite <- !app_assoc, fields_enc by done. cbn [mbind outcome_bind].
  rewrite bool_decide_eq_false_2 by (intros [Hx _]%app_nil; done).
  rewrite l_u16_enc by lia. cbn [mbind outcome_bind].
  destruct (l_available_enc extensions_len exts y1) as (y2 & t2 & ->); [lia|done|]. cbn [mbind outcome_bind].
  pose proof exts_length as Hxl. unfold encode_extensions in *. rewrite <- app_assoc.
  apply extensions_enc; [done|done|by apply sni_enc|]. rewrite !length_app in *. lia.
Qed.
End message.

Lemma client_hello_record v m rest : Zlen v = 2 -> Zlen m < 2 ^ 16 -> list.head m <> Some 0x16 ->
  Zlen (encode_record v m ++ rest) <= QSR_MAX_CLIENT_HELLO_SIZE ->
  client_hello_sni (encode_record v m ++ rest) = client_hello_sni m.
Proof.
  intros Hv Hm Hh Hz. unfold client_hello_sni. rewrite (proj2 (Z.ltb_ge _ _)) by done.
  assert (Hz' : Zlen m <= QSR_MAX_CLIENT_HELLO_SIZE).
  { unfold encode_record in Hz. rewrite !Zlen_app in Hz. pose proof (Zlen_nonneg rest).
    pose proof (Zlen_nonneg (22 :: v)). pose proof (Zlen_nonneg (be_bytes 2 (Zlen m))). lia. }
  rewrite (proj2 (Z.ltb_ge _ _)) by done.
  assert (Hr : l_record (encode_record v m ++ rest) = Ok m).
  { unfold l_record, encode_record. rewrite <- !app_assoc. cbn [head app default]. change (id 22 =? 22) with true.
    rewrite Zlen_cons, !Zlen_app, length_be, (proj2 (Z.leb_le _ _)) by (pose proof (Zlen_nonneg m); pose proof (Zlen_nonneg rest); lia).
    cbn [andb]. rewrite app_comm_cons. rewrite drop_app_length' by (unfold Zlen in Hv; cbn [length]; lia).
    rewrite l_u16_enc by (pose proof (Zlen_nonneg m); lia). cbn [mbind outcome_bind]. by rewrite l_take_enc. }
  rewrite Hr. cbn [mbind outcome_bind].
  assert (Hm' : l_record m = Ok m).
  { unfold l_record. destruct m as [|b m]; [done|]. cbn [head default]. change (id b) with b.
    replace (b =? 22) with false; [by rewrite andb_false_r|]. symmetry. apply Z.eqb_neq. intros ->. done. }
  rewrite Hm'. done.
Qed.

(** The whole buffer as input. *)
Lemma range_all l : range (Ptr l 0) (Zlen l) = l.
Proof. unfold range. cbn [p_off p_buf]. rewrite drop_0, length_Zlen. by rewrite take_ge. Qed.

Lemma parse_buffer l : bytes_ok l -> Zlen l <= QSR_MAX_CLIENT_HELLO_SIZE ->
  qsr_tls_client_hello_sni (Ptr l 0) (Zlen l) = client_hello_sni l.
Proof.
  intros Hb Hz. rewrite <- (range_all l) at 3. apply osim_eq, client_hello_sim; [|done].
  pose proof (Zlen_nonneg l). unfold readable, QSR_MAX_CLIENT_HELLO_SIZE in *. cbn. lia.
Qed.

(** ** Properties *)

(** The pointer-and-offset parser computes the grammar over byte lists on
    every input, errors included, and so never reads outside its input. *)
Theorem client_hello_refines_grammar p len :
  readable p len -> bytes_ok (p_buf p) ->
  qsr_tls_client_hello_sni p len = client_hello_sni (range p len) /\
  no_fault (qsr_tls_client_hello_sni p len).
Proof. intros Hr Hb. by apply osim_eq, client_hello_sim. Qed.

(** C36: the server name of a ClientHello (raw, or in a TLS record) is found
    behind any fields, extensions and names of other types, as soon as the message is there up
    to the server_name extension, whatever follows or is still missing. *)
Theorem client_hello_roundtrip hello_len extensions_len f before skipped others host version rest :
  message_ok hello_len extensions_len f before skipped others host ->
  let m := encode_client_hello hello_len f extensions_len (encode_extensions before skipped host others) ++ rest in
  bytes_ok (version ++ m) -> Zlen version = 2 -> Zlen m + 5 <= QSR_MAX_CLIENT_HELLO_SIZE ->
  qsr_tls_client_hello_sni (Ptr m 0) (Zlen m) = Ok (sni_name host) /\
  qsr_tls_client_hello_sni (Ptr (encode_record version m) 0) (Zlen (encode_record version m)) = Ok (sni_name host).
Proof.
  intros Hm m Hb Hv Hz. autorewrite with bytes in Hb. destruct Hb as [Hbv Hbm].
  assert (Hzr : Zlen (encode_record version m) = Zlen m + 5).
  { unfold encode_record. rewrite !Zlen_app, Zlen_cons, length_be. lia. }
  assert (Hbr : bytes_ok (encode_record version m)).
  { unfold encode_record. autorewrite with bytes. split_and!; [unfold is_byte; lia|done|apply be_bytes_ok|done]. }
  rewrite !parse_buffer by (done || lia).
  assert (Hok : client_hello_sni m = Ok (sni_name host)) by (apply client_hello_enc; [done|fold m; lia]).
  split; [done|]. rewrite <- Hok, <- (app_nil_r (encode_record version m)).
  unfold QSR_MAX_CLIENT_HELLO_SIZE in *. apply client_hello_record; [done|lia|done|].
  rewrite app_nil_r. unfold QSR_MAX_CLIENT_HELLO_SIZE. lia.
Qed.

(** C37: a name is accepted only if it is a hostname (dot-separated labels of 1
    to 63 letters, digits and inner hyphens, at most 255 bytes in all) that occurs in the message. *)
Theorem client_hello_name_valid p len name :
  readable p len -> bytes_ok (p_buf p) -> qsr_tls_client_hello_sni p len = Ok name ->
  exists host, name = sni_name host /\ hostname_ok host = true /\ within host (range p len).
Proof.
  intros Hr Hb Hn. destruct (osim_eq _ _ (client_hello_sim p len Hr Hb)) as [He _]. rewrite He in Hn.
  by apply client_hello_accepted.
Qed.

(** A decision taken on a prefix of the message is the decision on any
    longer part of it. *)
Theorem client_hello_prefix_stable l x name :
  bytes_ok (l ++ x) -> Zlen (l ++ x) <= QSR_MAX_CLIENT_HELLO_SIZE ->
  qsr_tls_client_hello_sni (Ptr l 0) (Zlen l) = Ok name ->
  qsr_tls_client_hello_sni (Ptr (l ++ x) 0) (Zlen (l ++ x)) = Ok name.
Proof.
  intros Hb Hz. rewrite (parse_buffer (l ++ x)) by done. pose proof (Zlen_nonneg x). autorewrite with bytes in Hb. rewrite Zlen_app in Hz.
  rewrite parse_buffer by (tauto || lia). apply client_hello_sni_more. by rewrite Zlen_app.
Qed.

(** The byte-by-byte hostname check is the label grammar. *)
Theorem valid_hostname_grammar p len :
  readable p len -> bytes_ok (p_buf p) -> len < 2 ^ 16 ->
  valid_hostname p len = Ok (hostname_ok (range p len)).
Proof.
  intros Hr Hb Hs. pose proof (views_init p len Hr Hb) as Hv. pose proof (views_length _ _ Hv) as Hl. cbn in Hl.
  rewrite Z.sub_0_r in Hl. pose proof Hr as (_ & ? & _).
  pose proof (views_hostname (r_init p len) (range p len) len Hv ltac:(lia) Hs) as Hh.
  rewrite take_ge in Hh by (unfold Zlen in Hl; lia). rewrite <- Hh.
  unfold r_ptr, ptr_add. cbn. rewrite Z.add_0_r. by destruct p.
Qed.

(** ** Witnesses *)

(** "a.b" *)
Definition demo_host : list Z := [97; 46; 98].

Definition demo_fields : hello_fields := {|
  hf_version := [3; 3]; hf_random := replicate 32 7; hf_session_id := [1]; hf_cipher_suites := [0x13; 1];
  hf_compression := [0] |}.

(** The server name comes after another extension; 20 declared bytes are missing. *)
Definition demo_hello : list Z :=
  encode_client_hello 90 demo_fields 40 (encode_extensions [(43, [2; 3; 4])] [] demo_host []) ++ [].

Lemma demo_message_ok : message_ok 90 40 demo_fields [(43, [2; 3; 4])] [] [] demo_host.
Proof.
  split; try reflexivity; try (unfold hello_fields_ok; z_concrete); try z_concrete.
  - repeat constructor; vm_compute; congruence.
  - constructor.
Qed.

Lemma client_hello_refines_grammar_witness :
  qsr_tls_client_hello_sni (Ptr [1; 0; 0; 9] 0) 4 = client_hello_sni (range (Ptr [1; 0; 0; 9] 0) 4) /\
  no_fault (qsr_tls_client_hello_sni (Ptr [1; 0; 0; 9] 0) 4).
Proof. apply client_hello_refines_grammar; [z_concrete|bytes_concrete]. Defined.

Lemma client_hello_roundtrip_witness :
  qsr_tls_client_hello_sni (Ptr demo_hello 0) (Zlen demo_hello) = Ok (sni_name demo_host) /\
  qsr_tls_client_hello_sni (Ptr (encode_record [3; 1] demo_hello) 0) (Zlen (encode_record [3; 1] demo_hello)) =
    Ok (sni_name demo_host).
Proof.
  apply (client_hello_roundtrip 90 40 demo_fields [(43, [2; 3; 4])] [] [] demo_host [3; 1] []);
    [apply demo_message_ok|bytes_concrete|reflexivity|z_concrete].
Defined.

Lemma client_hello_name_valid_witness :
  exists host, sni_name demo_host = sni_name host /\ hostname_ok host = true /\
    within host (range (Ptr demo_hello 0) (Zlen demo_hello)).
Proof. apply client_hello_name_valid; [z_concrete|bytes_concrete|vm_compute; reflexivity]. Defined.

Lemma client_hello_prefix_stable_witness :
  qsr_tls_client_hello_sni (Ptr (demo_hello ++ [9; 9]) 0) (Zlen (demo_hello ++ [9; 9])) = Ok (sni_name demo_host).
Proof.
  apply client_hello_prefix_stable; [bytes_concrete|z_concrete|vm_compute; reflexivity].
Defined.

Lemma valid_hostname_grammar_witness :
  valid_hostname (Ptr demo_host 0) 3 = Ok (hostname_ok (range (Ptr demo_host 0) 3)).
Proof. apply valid_hostname_grammar; [z_concrete|bytes_concrete|z_concrete]. Defined.

(** Uppercase is a valid letter here; a hyphen at the end of a label is not. *)
Example hostname_upper : hostname_ok [65; 46; 98] = true.
Proof. reflexivity. Qed.

Example hostname_hyphen : hostname_ok [97; 45; 46; 98] = false.
Proof. reflexivity. Qed.
