(* ===== verification/RouteTable.v ===== *)
(** * The route table

    [src/route_table.c]: server names to backends. Names are normalized and
    looked up by linear probing over bucket arrays that hold route indices; a
    second bucket array indexes the resolved backend addresses and a direct
    table the encoded-CID server ids. A C string is the list of its bytes
    before the terminator. *)

From stdpp Require Import gmap.
From S2P Require Import Prelude Hash Hostname Probe SessionKey.
#[local] Open Scope Z_scope.

(** ** Normalization *)

(** [c >= 'A' && c <= 'Z' ? c + ('a' - 'A') : c] *)
Definition to_lower (c : Z) : Z := if (65 <=? c) && (c <=? 90) then c + 32 else c.

(** [for (i = 0; i < len; i++)]: [out] is what has been written; [None] is [return false]. *)
Fixpoint normalize_loop (input out : list Z) (label_len : Z) : option (list Z * Z) :=
  match input with
  | [] => Some (out, label_len)
  | c :: input =>
      if c =? DOT then
        if (label_len =? 0) || (63 <? label_len) || (default 0 (out !! (length out - 1)%nat) =? HYPHEN) then None
        else normalize_loop input (out ++ [DOT]) 0
      else if negb (((97 <=? c) && (c <=? 122)) || ((65 <=? c) && (c <=? 90)) || ((48 <=? c) && (c <=? 57)) || (c =? HYPHEN))
      then None
      else if (label_len =? 0) && (c =? HYPHEN) then None
      else normalize_loop input (out ++ [to_lower c]) (label_len + 1)
  end.

(** [normalize_hostname] for an output array of [out_len] bytes: the string written. *)
Definition normalize_hostname (input : list Z) (out_len : Z) : option (list Z) :=
  let len := Zlen input in
  if (len =? 0) || (out_len <=? len) || (default 0 (input !! 0%nat) =? DOT) ||
     (default 0 (input !! (length input - 1)%nat) =? DOT) then None
  else
    match normalize_loop input [] 0 with
    | None => None
    | Some (out, label_len) =>
        if (label_len =? 0) || (63 <? label_len) || (default 0 (out !! (length out - 1)%nat) =? HYPHEN) then None
        else Some out
    end.

(** ** The table *)

Definition SIZE_MAX : Z := 2 ^ 64 - 1.

Record qsr_route := {
  r_sni : list Z;
  r_host : list Z;
  r_port : Z;
  r_server_id : Z;
  r_backend_resolved : bool;
  r_backend_addr : list Z;
  r_backend_addr_len : Z;
}.

Definition route0 : qsr_route := {|
  r_sni := []; r_host := []; r_port := 0; r_server_id := 0; r_backend_resolved := false;
  r_backend_addr := zeros SOCKADDR_SIZE; r_backend_addr_len := 0 |}.

Record qsr_route_table := {
  rt_routes : list qsr_route;
  rt_buckets : list Z;
  rt_backend_buckets : list Z;
  rt_server_id_index : list Z;
  rt_count : Z;
}.

Definition qsr_route_table_init : qsr_route_table := {|
  rt_routes := replicate (Z.to_nat QSR_MAX_ROUTES) route0;
  rt_buckets := replicate (Z.to_nat QSR_ROUTE_BUCKETS) SIZE_MAX;
  rt_backend_buckets := replicate (Z.to_nat QSR_ROUTE_BUCKETS) SIZE_MAX;
  rt_server_id_index := replicate 256 SIZE_MAX;
  rt_count := 0 |}.

(** [&table->routes[i]] *)
Definition route_at (t : qsr_route_table) (i : Z) : qsr_route := default route0 (rt_routes t !! Z.to_nat i).

Definition buckets : nat := Z.to_nat QSR_ROUTE_BUCKETS.

Definition backend_equals (route : qsr_route) (addr : list Z) (addr_len : Z) : bool :=
  r_backend_resolved route && (r_backend_addr_len route =? addr_len) && mem_eq (r_backend_addr route) addr addr_len.

(** What [hash_backend] hashes. *)
Definition backend_bytes (addr : list Z) (addr_len : Z) : list Z := u8 addr_len :: field addr addr_len.

Section table.
Context `{KeyedHash}.

(** [hash_string(value) % QSR_ROUTE_BUCKETS] *)
Definition hash_string (value : list Z) : nat := hash_slot value buckets.

(** [hash_backend(addr, addr_len) % QSR_ROUTE_BUCKETS] *)
Definition hash_backend (addr : list Z) (addr_len : Z) : nat := hash_slot (backend_bytes addr addr_len) buckets.

(** The index of the route it points to; [None] for [nullptr]. *)
Definition qsr_route_table_lookup (t : qsr_route_table) (sni : list Z) : option Z :=
  normalized ← normalize_hostname sni (QSR_MAX_HOSTNAME_LEN + 1);
  mjoin (walk buckets (fun bucket =>
    let route_index := default SIZE_MAX (rt_buckets t !! bucket) in
    if route_index =? SIZE_MAX then Some None
    else if (route_index <? rt_count t) && bool_decide (r_sni (route_at t route_index) = normalized)
         then Some (Some route_index) else None)
    buckets (hash_string normalized)).

Definition qsr_route_table_lookup_by_server_id (t : qsr_route_table) (server_id : Z) : option Z :=
  if server_id =? 0 then None else
  let route_index := default SIZE_MAX (rt_server_id_index t !! Z.to_nat server_id) in
  if (route_index =? SIZE_MAX) || (rt_count t <=? route_index) then None else Some route_index.

(** The route written at [count], and what refers to it. *)
Definition install_route (t : qsr_route_table) (bucket : nat) (sni host : list Z) (port server_id : Z) : qsr_route_table :=
  let route := route_at t (rt_count t) in
  let route := {| r_sni := sni; r_host := host; r_port := port; r_server_id := server_id;
                  r_backend_resolved := r_backend_resolved route; r_backend_addr := r_backend_addr route;
                  r_backend_addr_len := r_backend_addr_len route |} in
  {| rt_routes := <[Z.to_nat (rt_count t) := route]> (rt_routes t);
     rt_buckets := <[bucket := rt_count t]> (rt_buckets t);
     rt_backend_buckets := rt_backend_buckets t;
     rt_server_id_index := if negb (server_id =? 0) then <[Z.to_nat server_id := rt_count t]> (rt_server_id_index t)
                           else rt_server_id_index t;
     rt_count := uadd (rt_count t) 1 |}.

Definition qsr_route_table_add (t : qsr_route_table) (sni host : list Z) (port server_id : Z) : qsr_route_table * qsr_status :=
  if port =? 0 then (t, QSR_ERR_INVALID) else
  if QSR_MAX_ROUTES <=? rt_count t then (t, QSR_ERR_FULL) else
  match normalize_hostname sni (QSR_MAX_HOSTNAME_LEN + 1) with
  | None => (t, QSR_ERR_INVALID)
  | Some normalized =>
      if QSR_MAX_ADDR_LEN <? Zlen host then (t, QSR_ERR_INVALID) else
      if bool_decide (is_Some (qsr_route_table_lookup t normalized)) then (t, QSR_ERR_INVALID) else
      if negb (server_id =? 0) && negb (default SIZE_MAX (rt_server_id_index t !! Z.to_nat server_id) =? SIZE_MAX)
      then (t, QSR_ERR_INVALID) else
      match walk buckets (fun bucket =>
          if default SIZE_MAX (rt_buckets t !! bucket) =? SIZE_MAX then Some bucket else None)
          buckets (hash_string normalized) with
      | Some bucket => (install_route t bucket normalized host port server_id, QSR_OK)
      | None => (t, QSR_ERR_FULL)
      end
  end.

(** ** Backends *)

Definition set_backend_buckets (t : qsr_route_table) (b : list Z) : qsr_route_table := {|
  rt_routes := rt_routes t; rt_buckets := rt_buckets t; rt_backend_buckets := b;
  rt_server_id_index := rt_server_id_index t; rt_count := rt_count t |}.

(** One probe for a backend: an unused bucket ([false]) or the backend itself ([true]). *)
Definition backend_probe (t : qsr_route_table) (addr : list Z) (addr_len : Z) : option (nat * bool) :=
  walk buckets (fun bucket =>
    let existing := default SIZE_MAX (rt_backend_buckets t !! bucket) in
    if existing =? SIZE_MAX then Some (bucket, false)
    else if (existing <? rt_count t) && backend_equals (route_at t existing) addr addr_len then Some (bucket, true) else None)
    buckets (hash_backend addr addr_len).

Definition backend_index_put (t : qsr_route_table) (route_index : Z) : qsr_route_table * qsr_status :=
  let route := route_at t route_index in
  if negb (r_backend_resolved route) || (r_backend_addr_len route =? 0) then (t, QSR_ERR_INVALID) else
  match backend_probe t (r_backend_addr route) (r_backend_addr_len route) with
  | Some (bucket, false) => (set_backend_buckets t (<[bucket := route_index]> (rt_backend_buckets t)), QSR_OK)
  | Some (_, true) => (t, QSR_OK)
  | None => (t, QSR_ERR_FULL)
  end.

Definition qsr_route_table_has_backend (t : qsr_route_table) (addr : list Z) (addr_len : Z) : bool :=
  if (addr_len =? 0) || (SOCKADDR_SIZE <? addr_len) then false else
  match backend_probe t addr addr_len with
  | Some (_, b) => b
  | None => false
  end.

(** [for (i = 0; i < count; i++)] over [backend_index_put]. *)
Fixpoint backend_index_loop (t : qsr_route_table) (n : nat) (i : Z) : qsr_route_table * qsr_status :=
  match n with
  | O => (t, QSR_OK)
  | S n =>
      let '(t, status) := backend_index_put t i in
      if bool_decide (status = QSR_OK) then backend_index_loop t n (uadd i 1) else (t, status)
  end.

(** *** Resolution

    [getaddrinfo host port] is the first address of the result list; [None]
    when the call fails or the list is empty. *)
Context (getaddrinfo : list Z -> Z -> option (list Z)).

Definition resolved (route : qsr_route) (addr : list Z) : qsr_route := {|
  r_sni := r_sni route; r_host := r_host route; r_port := r_port route; r_server_id := r_server_id route;
  r_backend_resolved := true;
  r_backend_addr := memcpy_at (zeros SOCKADDR_SIZE) 0 addr;
  r_backend_addr_len := Zlen addr |}.

(** The address a route resolves to, if the table accepts it. *)
Definition resolve_addr (route : qsr_route) : option (list Z) :=
  addr ← getaddrinfo (r_host route) (r_port route);
  if SOCKADDR_SIZE <? Zlen addr then None else Some addr.

(** [for (i = 0; i < count; i++)]: the routes as they are left, and the status. *)
Fixpoint resolve_loop (routes : list qsr_route) (n : nat) (i : nat) : list qsr_route * qsr_status :=
  match n with
  | O => (routes, QSR_OK)
  | S n =>
      let route := default route0 (routes !! i) in
      match resolve_addr route with
      | None => (routes, QSR_ERR_INVALID)
      | Some addr => resolve_loop (<[i := resolved route addr]> routes) n (i + 1)%nat
      end
  end.

Definition qsr_route_table_resolve (t : qsr_route_table) : qsr_route_table * qsr_status :=
  let '(routes, status) := resolve_loop (rt_routes t) (Z.to_nat (rt_count t)) 0 in
  let t := {| rt_routes := routes; rt_buckets := rt_buckets t;
              rt_backend_buckets := replicate buckets SIZE_MAX;
              rt_server_id_index := rt_server_id_index t; rt_count := rt_count t |} in
  if bool_decide (status = QSR_OK) then backend_index_loop t (Z.to_nat (rt_count t)) 0 else (t, status).
End table.

(** ** Normalization is the hostname grammar in lowercase *)

Lemma to_lower_hyphen c : (to_lower c =? HYPHEN) = (c =? HYPHEN).
Proof. unfold to_lower, HYPHEN. split_if; bool_to_prop; [|done]. destruct (c =? 45) eqn:E; zbool; bool_to_prop; lia. Qed.

Lemma last_snoc_index (out : list Z) c : default 0 ((out ++ [c]) !! (length (out ++ [c]) - 1)%nat) = c.
Proof. rewrite length_app. cbn. rewrite lookup_app_r, Nat.add_sub, Nat.sub_diag by lia. done. Qed.

Lemma normalize_loop_spec input : forall out prev k, 0 <= k ->
  (k <> 0 -> (default 0 (out !! (length out - 1)%nat) =? HYPHEN) = (prev =? HYPHEN)) ->
  match normalize_loop input out k with
  | None => None
  | Some (o, k') =>
      if (k' =? 0) || (63 <? k') || (default 0 (o !! (length o - 1)%nat) =? HYPHEN) then None else Some o
  end = if l_labels prev k input then Some (out ++ map to_lower input) else None.
Proof.
  assert (Hcond : forall k (h : bool), 0 <= k -> (0 <? k) && (k <=? 63) && negb h = negb ((k =? 0) || (63 <? k) || h)).
  { intros k h Hk. rewrite !negb_orb. f_equal. f_equal; [|by rewrite Z.leb_antisym].
    destruct (k =? 0) eqn:E; bool_to_prop; zbool; cbn; zbool. }
  induction input as [|c input IH]; intros out prev k Hk Hprev; cbn [normalize_loop l_labels map].
  - rewrite app_nil_r, Hcond by done. destruct (k =? 0) eqn:E; [done|]. bool_to_prop. rewrite Hprev by done. by destruct (_ || _).
  - destruct (c =? DOT) eqn:Ec; bool_to_prop.
    + rewrite Hcond by done. subst c. specialize (IH (out ++ [DOT]) DOT 0 ltac:(lia) ltac:(done)).
      rewrite <- app_assoc in IH. destruct (k =? 0) eqn:E; [done|]. bool_to_prop. rewrite Hprev by done.
      cbn [orb]. destruct (_ || _); [done|]. exact IH.
    + assert (Hal : ((97 <=? c) && (c <=? 122)) || ((65 <=? c) && (c <=? 90)) || ((48 <=? c) && (c <=? 57)) = isalnum c).
      { unfold isalnum. destruct (48 <=? c), (c <=? 57), (65 <=? c), (c <=? 90), (97 <=? c), (c <=? 122); done. }
      rewrite Hal. destruct (isalnum c || (c =? HYPHEN)); cbn [negb andb]; [|done].
      destruct ((k =? 0) && (c =? HYPHEN)); cbn [negb andb]; [done|].
      rewrite (IH _ c) by (lia || (intros _; by rewrite last_snoc_index, to_lower_hyphen)). by rewrite <- app_assoc.
Qed.

Lemma normalize_spec input :
  normalize_hostname input (QSR_MAX_HOSTNAME_LEN + 1) = if hostname_ok input then Some (map to_lower input) else None.
Proof.
  unfold normalize_hostname, hostname_ok.
  pose proof (labels_split input 0 [] ltac:(split; done) ltac:(done)) as Hs. change (Zlen (@nil Z)) with 0 in Hs. cbn [app] in Hs.
  rewrite <- Hs. destruct (decide (input = [])) as [->|Hne]; [done|].
  assert (0 < Zlen input) by (destruct input; [done|]; rewrite Zlen_cons; pose proof (Zlen_nonneg input); lia).
  rewrite (proj2 (Z.eqb_neq _ _)) by lia. cbn [orb].
  destruct (QSR_MAX_HOSTNAME_LEN + 1 <=? Zlen input) eqn:El; bool_to_prop; cbn [orb].
  { by rewrite (proj2 (Z.leb_gt _ _)) by lia. }
  rewrite (proj2 (Z.leb_le (Zlen input) _)) by lia. cbn [andb].
  destruct (_ || _) eqn:Ed.
  - destruct (l_labels 0 0 input) eqn:Ell; [|done]. exfalso. apply labels_dots in Ell as (_ & Hh & Hl).
    bool_to_prop. destruct Ed as [Ed|Ed]; bool_to_prop; [apply Hh|apply Hl].
    + rewrite head_lookup. destruct (input !! 0%nat) as [x|] eqn:E0; [|by apply lookup_ge_None in E0; destruct input].
      cbn in Ed. by f_equal.
    + rewrite last_lookup. replace (Nat.pred (length input)) with (length input - 1)%nat by lia.
      destruct (input !! (length input - 1)%nat) as [x|] eqn:E0; [cbn in Ed; by f_equal|].
      apply lookup_ge_None in E0. unfold Zlen in *. lia.
  - by rewrite (normalize_loop_spec input [] 0 0).
Qed.

Lemma to_lower_idemp c : to_lower (to_lower c) = to_lower c.
Proof. unfold to_lower. repeat split_if; bool_to_prop; lia. Qed.

Lemma to_lower_alnum c : isalnum (to_lower c) = isalnum c.
Proof.
  unfold to_lower. destruct ((65 <=? c) && (c <=? 90)) eqn:E; [|done]. unfold isalnum.
  rewrite E, orb_true_r. bool_to_prop. replace ((97 <=? c + 32) && (c + 32 <=? 122)) with true by (symmetry; zbool).
  apply orb_true_r.
Qed.

Lemma to_lower_dot c : (to_lower c =? DOT) = (c =? DOT).
Proof. unfold to_lower, DOT. split_if; bool_to_prop; [|done]. destruct (c =? 46) eqn:E; zbool; bool_to_prop; lia. Qed.

Lemma labels_lower l : forall prev prev' k, (prev =? HYPHEN) = (prev' =? HYPHEN) ->
  l_labels prev k (map to_lower l) = l_labels prev' k l.
Proof.
  induction l as [|c l IH]; intros prev prev' k Hp; cbn [map l_labels]; rewrite Hp; [done|].
  rewrite to_lower_dot, to_lower_alnum, to_lower_hyphen.
  rewrite !(IH (to_lower c) c) by apply to_lower_hyphen. done.
Qed.

Lemma hostname_labels l : hostname_ok l = (Zlen l <=? QSR_MAX_HOSTNAME_LEN) && l_labels 0 0 l.
Proof.
  unfold hostname_ok. pose proof (labels_split l 0 [] ltac:(split; done) ltac:(done)) as Hs.
  change (Zlen (@nil Z)) with 0 in Hs. cbn [app] in Hs. by rewrite Hs.
Qed.

(** The lowercase form, under which names are stored. *)
Definition lower (name : list Z) : list Z := map to_lower name.

Lemma hostname_lower l : hostname_ok (lower l) = hostname_ok l.
Proof. rewrite !hostname_labels. unfold lower, Zlen. rewrite length_map. by rewrite (labels_lower l 0 0 0). Qed.

Lemma lower_idemp l : lower (lower l) = lower l.
Proof. unfold lower. rewrite map_map. apply map_ext, to_lower_idemp. Qed.

(** ** The name index *)

Section proofs.
Context `{KeyedHash}.

(** The name a bucket entry stands for. *)
Definition route_key (t : qsr_route_table) (j : Z) : option (list Z) :=
  if j =? SIZE_MAX then None else Some (r_sni (route_at t j)).

Definition used_entry (t : qsr_route_table) (j : Z) : Prop := j = SIZE_MAX \/ 0 <= j < rt_count t.

(** From names to route indices. *)
Definition routes_map (t : qsr_route_table) : gmap (list Z) Z := abs (route_key t) (rt_buckets t).

Record route_wf (t : qsr_route_table) : Prop := {
  rw_routes : Zlen (rt_routes t) = QSR_MAX_ROUTES;
  rw_count : 0 <= rt_count t <= QSR_MAX_ROUTES;
  rw_entries : forall b j, rt_buckets t !! b = Some j -> used_entry t j;
  rw_table : table_inv (route_key t) buckets hash_string (rt_buckets t);
  rw_size : Z.of_nat (size (routes_map t)) = rt_count t;
  rw_ids_length : length (rt_server_id_index t) = 256%nat;
  rw_ids : forall s j, rt_server_id_index t !! s = Some j -> used_entry t j;
}.

Lemma buckets_pos : (0 < buckets)%nat.
Proof. unfold buckets, QSR_ROUTE_BUCKETS. lia. Qed.

Lemma hash_string_lt k : (hash_string k < buckets)%nat.
Proof. apply hash_slot_lt, buckets_pos. Qed.

Lemma route_key_max t : route_key t SIZE_MAX = None.
Proof. done. Qed.

Lemma used_entry_key t j : used_entry t j -> j <> SIZE_MAX -> route_key t j = Some (r_sni (route_at t j)) /\ 0 <= j < rt_count t.
Proof. intros [->|Hj] Hm; [done|]. unfold route_key. by rewrite (proj2 (Z.eqb_neq _ _)). Qed.

Lemma route_has_empty t : route_wf t -> has_empty (route_key t) buckets (rt_buckets t).
Proof.
  intros Hwf. pose proof (rw_count t Hwf) as Hc. pose proof (rw_size t Hwf) as Hs. pose proof (rw_table t Hwf) as [Hl _ Hu _].
  apply has_empty_size; [done|done|]. unfold routes_map, buckets, QSR_ROUTE_BUCKETS, QSR_MAX_ROUTES in *. lia.
Qed.

(** The walk of a lookup is the probe. *)
Lemma lookup_walk t name : route_wf t ->
  walk buckets (fun bucket =>
    let route_index := default SIZE_MAX (rt_buckets t !! bucket) in
    if route_index =? SIZE_MAX then Some None
    else if (route_index <? rt_count t) && bool_decide (r_sni (route_at t route_index) = name)
         then Some (Some route_index) else None) buckets (hash_string name) =
  (fun p : nat * bool => if p.2 then Some (default SIZE_MAX (rt_buckets t !! p.1)) else None) <$>
    probe (route_key t) buckets hash_string (rt_buckets t) name.
Proof.
  intros Hwf. unfold probe. rewrite <- walk_fmap. apply walk_ext. intros b. cbv zeta.
  unfold probe_body, view. destruct (rt_buckets t !! b) as [j|] eqn:E; cbn [default mbind option_bind]; [|done].
  change (id j) with j. destruct (j =? SIZE_MAX) eqn:Ej.
  - unfold route_key. by rewrite Ej.
  - bool_to_prop. destruct (used_entry_key t j) as [-> Hj]; [by apply (rw_entries t Hwf b)|done|].
    rewrite (proj2 (Z.ltb_lt _ _)) by lia. cbn [andb]. case_bool_decide; case_decide; try done. cbn. by rewrite E.
Qed.

Lemma lookup_spec t sni : route_wf t ->
  qsr_route_table_lookup t sni = if hostname_ok sni then routes_map t !! lower sni else None.
Proof.
  intros Hwf. unfold qsr_route_table_lookup. rewrite normalize_spec. destruct (hostname_ok sni); [|done].
  cbn [mbind option_bind]. fold (lower sni). rewrite lookup_walk by done.
  pose proof (probe_abs (route_key t) buckets hash_string hash_string_lt (rt_buckets t) (lower sni) (rw_table t Hwf)) as Hp.
  fold (routes_map t) in Hp. destruct (probe _ _ _ _ _) as [[i []]|]; cbn.
  - destruct Hp as (a & -> & ->). done.
  - by rewrite Hp.
  - by rewrite Hp.
Qed.

Lemma lookup_lower t sni : route_wf t -> qsr_route_table_lookup t (lower sni) = qsr_route_table_lookup t sni.
Proof. intros Hwf. rewrite !lookup_spec by done. by rewrite hostname_lower, lower_idemp. Qed.

(** The index holds each route under its own name: the names are distinct. *)
Lemma routes_map_some t k j : route_wf t -> routes_map t !! k = Some j -> 0 <= j < rt_count t /\ r_sni (route_at t j) = k.
Proof.
  intros Hwf Hk. pose proof (rw_table t Hwf) as [_ _ Hu _]. apply abs_lookup in Hk as (b & Hb & Hj); [|done].
  unfold route_key in Hj. destruct (j =? SIZE_MAX) eqn:E; [done|]. bool_to_prop.
  destruct (used_entry_key t j (rw_entries t Hwf b j Hb) E) as [_ ?]. by simplify_eq.
Qed.

Lemma routes_map_all t j : route_wf t -> 0 <= j < rt_count t -> routes_map t !! r_sni (route_at t j) = Some j.
Proof.
  intros Hwf Hj. set (l := (map_to_list (routes_map t)).*2).
  assert (Hin : forall i, i ∈ l <-> exists k, routes_map t !! k = Some i).
  { intros i. unfold l. rewrite list_elem_of_fmap. split.
    - intros ([k i'] & -> & Hm). apply elem_of_map_to_list in Hm. by exists k.
    - intros [k Hm]. exists (k, i). split; [done|]. by apply elem_of_map_to_list. }
  assert (Hp : l ≡ₚ seqZ 0 (rt_count t)).
  { apply submseteq_length_Permutation.
    - apply NoDup_submseteq.
      + unfold l. apply NoDup_fmap_2_strong; [|apply NoDup_map_to_list].
        intros [k i] [k' i'] Ha Hb Heq. cbn in Heq. subst i'. apply elem_of_map_to_list in Ha, Hb.
        apply routes_map_some in Ha as [_ <-], Hb as [_ <-]; done.
      + intros i [k Hk]%Hin. apply elem_of_seqZ. apply routes_map_some in Hk as [? _]; [lia|done].
    - rewrite length_seqZ. unfold l. rewrite length_fmap, length_map_to_list. pose proof (rw_size t Hwf). lia. }
  assert (Hjl : j ∈ l) by (rewrite Hp; apply elem_of_seqZ; lia). apply Hin in Hjl as [k Hk].
  by destruct (routes_map_some t k j Hwf Hk) as [_ ->].
Qed.

(** The walk to a free bucket for a name that has none. *)
Lemma free_walk t name : route_wf t -> routes_map t !! name = None ->
  exists b, walk buckets (fun bucket => if default SIZE_MAX (rt_buckets t !! bucket) =? SIZE_MAX then Some bucket else None)
      buckets (hash_string name) = Some b /\
    probe (route_key t) buckets hash_string (rt_buckets t) name = Some (b, false).
Proof.
  intros Hwf Hn. pose proof (rw_table t Hwf) as Hti. pose proof Hti as [Hl _ Hu _].
  apply abs_lookup_view in Hn; [|done].
  destruct (probe_absent (route_key t) buckets hash_string hash_string_lt (rt_buckets t) name Hn (route_has_empty t Hwf)) as [b Hb].
  exists b. split; [|done]. rewrite (walk_ext _ _ (fun i => fst <$> probe_body (route_key t) (rt_buckets t) name i)).
  - rewrite walk_fmap. unfold probe in Hb. by rewrite Hb.
  - intros i. unfold probe_body. destruct (view (route_key t) (rt_buckets t) i) as [k|] eqn:Ev.
    + rewrite decide_False by (intros ->; by destruct (Hn i)). apply view_lookup in Ev as (j & -> & Hj). cbn.
      unfold route_key in Hj. by destruct (j =? SIZE_MAX).
    + unfold view in Ev. destruct (rt_buckets t !! i) as [j|] eqn:E; [|done]. cbn in *. change (id j) with j.
      unfold route_key in Ev. by destruct (j =? SIZE_MAX).
Qed.

Lemma lookup_by_server_id_spec t s : route_wf t -> 0 <= s < 256 ->
  qsr_route_table_lookup_by_server_id t s =
    if (s =? 0) || (default SIZE_MAX (rt_server_id_index t !! Z.to_nat s) =? SIZE_MAX) then None
    else Some (default SIZE_MAX (rt_server_id_index t !! Z.to_nat s)).
Proof.
  intros Hwf Hs. unfold qsr_route_table_lookup_by_server_id. destruct (s =? 0); [done|]. cbn [orb].
  destruct (rt_server_id_index t !! Z.to_nat s) as [j|] eqn:E; [|done]. cbn [default]. change (id j) with j.
  destruct (j =? SIZE_MAX) eqn:Ej; [done|]. bool_to_prop. destruct (rw_ids t Hwf _ _ E) as [|Hj]; [done|].
  by rewrite (proj2 (Z.leb_gt _ _)) by lia.
Qed.

(** *** Installing a route *)

Section install.
Context (t : qsr_route_table) (b : nat) (name host : list Z) (port sid : Z).
Hypothesis wf : route_wf t.
Hypothesis room : rt_count t < QSR_MAX_ROUTES.
Hypothesis fresh : routes_map t !! name = None.
Hypothesis free : probe (route_key t) buckets hash_string (rt_buckets t) name = Some (b, false).
Hypothesis sid_range : 0 <= sid < 256.

#[local] Abbreviation t' := (install_route t b name host port sid).

Lemma install_count : rt_count t' = rt_count t + 1.
Proof using wf room.
  cbn. apply uadd_small. pose proof (rw_count t wf). unfold QSR_MAX_ROUTES in *. lia.
Qed.

Lemma install_route_old j : 0 <= j < rt_count t -> route_at t' j = route_at t j.
Proof using. clear. intros Hj. unfold route_at. cbn. rewrite list_lookup_insert_ne by lia. done. Qed.

Lemma install_route_new : r_sni (route_at t' (rt_count t)) = name /\ r_host (route_at t' (rt_count t)) = host /\
  r_port (route_at t' (rt_count t)) = port /\ r_server_id (route_at t' (rt_count t)) = sid.
Proof using wf room.
  unfold route_at at 1 2 3 4. cbn. pose proof (rw_routes t wf). pose proof (rw_count t wf). unfold Zlen in *.
  rewrite list_lookup_insert_eq by lia. done.
Qed.

Lemma install_key j : used_entry t j -> route_key t j = route_key t' j.
Proof using.
  clear. intros [->|Hj]; [done|]. unfold route_key. by rewrite install_route_old.
Qed.

Lemma install_key_new : route_key t' (rt_count t) = Some name.
Proof using wf room.
  unfold route_key. pose proof (rw_count t wf). unfold QSR_MAX_ROUTES, SIZE_MAX in *.
  rewrite (proj2 (Z.eqb_neq _ _)) by lia. by destruct install_route_new as [-> _].
Qed.

Lemma install_same i j : rt_buckets t !! i = Some j -> route_key t j = route_key t' j.
Proof using wf. intros Hi. by apply install_key, (rw_entries t wf i). Qed.

Lemma install_map : routes_map t' = <[name := rt_count t]> (routes_map t).
Proof using wf room free.
  unfold routes_map. rewrite (abs_ext (route_key t) (route_key t') (rt_buckets t) install_same).
  apply (probe_insert_abs (route_key t') buckets hash_string hash_string_lt (rt_buckets t) b (rt_count t) name false).
  - apply (table_inv_ext (route_key t)); [apply install_same|apply (rw_table t wf)].
  - apply install_key_new.
  - rewrite <- free. symmetry. apply probe_ext, install_same.
Qed.

Lemma install_wf : route_wf t'.
Proof using wf room fresh free sid_range.
  pose proof (rw_count t wf) as Hc.
  assert (Hu : forall j, used_entry t j \/ j = rt_count t -> used_entry t' j).
  { intros j. unfold used_entry. rewrite install_count. intros [[->|?]| ->]; [by left|right; lia..]. }
  split.
  - cbn. unfold Zlen. rewrite length_insert. apply (rw_routes t wf).
  - rewrite install_count. lia.
  - intros i j. cbn [rt_buckets install_route]. intros [(? & <- & _)|[_ Hj]]%list_lookup_insert_Some; apply Hu; [by right|].
    left. by apply (rw_entries t wf i).
  - cbn [rt_buckets install_route].
    apply (probe_insert_inv (route_key t') buckets hash_string hash_string_lt (rt_buckets t) b (rt_count t) name false).
    + apply (table_inv_ext (route_key t)); [apply install_same|apply (rw_table t wf)].
    + apply install_key_new.
    + rewrite <- free. symmetry. apply probe_ext, install_same.
  - rewrite install_map, map_size_insert_None, install_count by done. pose proof (rw_size t wf). lia.
  - cbn. pose proof (rw_ids_length t wf). destruct (negb _); [by rewrite length_insert|done].
  - intros s j. cbn [rt_server_id_index install_route]. destruct (negb _).
    + intros [(_ & <- & _)|[_ Hj]]%list_lookup_insert_Some; apply Hu; [by right|]. left. by apply (rw_ids t wf s).
    + intros Hj. apply Hu. left. by apply (rw_ids t wf s).
Qed.

Lemma install_lookup sni : hostname_ok name = true -> lower name = name ->
  qsr_route_table_lookup t' sni =
    if hostname_ok sni && bool_decide (lower sni = name) then Some (rt_count t) else qsr_route_table_lookup t sni.
Proof using wf room fresh free sid_range.
  intros Hn Hl. rewrite !lookup_spec by (done || apply install_wf). rewrite install_map.
  destruct (hostname_ok sni); [|done]. cbn [andb]. case_bool_decide as Hb.
  - by rewrite Hb, lookup_insert_eq.
  - by rewrite lookup_insert_ne.
Qed.

Lemma install_by_server_id s : 0 <= s < 256 ->
  qsr_route_table_lookup_by_server_id t' s =
    if (s =? sid) && negb (s =? 0) then Some (rt_count t) else qsr_route_table_lookup_by_server_id t s.
Proof using wf room fresh free sid_range.
  intros Hs. rewrite !lookup_by_server_id_spec by (done || apply install_wf). cbn [rt_server_id_index install_route].
  pose proof (rw_ids_length t wf) as Hl. pose proof (rw_count t wf) as Hc.
  destruct (s =? sid) eqn:E; bool_to_prop; cbn [andb].
  - subst s. destruct (sid =? 0) eqn:E0; cbn [negb orb]; [done|].
    rewrite list_lookup_insert_eq by (rewrite Hl; lia). cbn [default]. change (id ?x) with x.
    unfold SIZE_MAX, QSR_MAX_ROUTES in *. by rewrite (proj2 (Z.eqb_neq _ _)) by lia.
  - destruct (negb (sid =? 0)); [|done]. by rewrite list_lookup_insert_ne by lia.
Qed.
End install.

(** What an accepted route changes: its name (in any case) and its server id
    lead to it, everything else leads where it did. *)
Record route_added (t : qsr_route_table) (sni host : list Z) (port server_id : Z) (t' : qsr_route_table) : Prop := {
  ra_count : rt_count t' = rt_count t + 1;
  ra_route : r_sni (route_at t' (rt_count t)) = lower sni /\ r_host (route_at t' (rt_count t)) = host /\
    r_port (route_at t' (rt_count t)) = port /\ r_server_id (route_at t' (rt_count t)) = server_id;
  ra_old : forall j, 0 <= j < rt_count t -> route_at t' j = route_at t j;
  ra_lookup : forall name, qsr_route_table_lookup t' name =
    if hostname_ok name && bool_decide (lower name = lower sni) then Some (rt_count t) else qsr_route_table_lookup t name;
  ra_server_id : forall s, 0 <= s < 256 -> qsr_route_table_lookup_by_server_id t' s =
    if (s =? server_id) && negb (s =? 0) then Some (rt_count t) else qsr_route_table_lookup_by_server_id t s;
}.

(** The reasons for refusing a route. *)
Definition route_invalid (t : qsr_route_table) (sni host : list Z) (port server_id : Z) : Prop :=
  port = 0 \/ hostname_ok sni = false \/ QSR_MAX_ADDR_LEN < Zlen host \/ is_Some (qsr_route_table_lookup t sni) \/
  is_Some (qsr_route_table_lookup_by_server_id t server_id).

Lemma add_spec t sni host port server_id : route_wf t -> 0 <= server_id < 256 ->
  let '(t', status) := qsr_route_table_add t sni host port server_id in
  route_wf t' /\
  match status with
  | QSR_OK => route_added t sni host port server_id t' /\ ~ route_invalid t sni host port server_id
  | QSR_ERR_FULL => t' = t /\ rt_count t = QSR_MAX_ROUTES
  | QSR_ERR_INVALID => t' = t /\ route_invalid t sni host port server_id
  | _ => False
  end.
Proof.
  intros Hwf Hid. unfold qsr_route_table_add, route_invalid. pose proof (rw_count t Hwf) as Hc.
  destruct (port =? 0) eqn:Ep; bool_to_prop; [by auto 8|].
  destruct (QSR_MAX_ROUTES <=? rt_count t) eqn:Er; bool_to_prop; [split; [done|]; split; [done|lia]|].
  rewrite normalize_spec. destruct (hostname_ok sni) eqn:Eh; [|by auto 8]. fold (lower sni).
  destruct (QSR_MAX_ADDR_LEN <? Zlen host) eqn:Ea; bool_to_prop; [by auto 8|].
  rewrite lookup_lower by done. case_bool_decide as El; [by auto 8|].
  rewrite lookup_by_server_id_spec by done.
  destruct (server_id =? 0) eqn:Ei; cbn [negb andb orb]; bool_to_prop.
  2: destruct (default SIZE_MAX (rt_server_id_index t !! Z.to_nat server_id) =? SIZE_MAX) eqn:Ex; cbn [negb]; [|by eauto 8].
  all: assert (Hn : routes_map t !! lower sni = None) by
    (rewrite lookup_spec, Eh in El by done; destruct (_ !! _); [by destruct El|done]);
    destruct (free_walk t (lower sni) Hwf Hn) as (b & -> & Hfree);
    pose proof (install_wf t b (lower sni) host port server_id Hwf Er Hn Hfree Hid) as Hw;
    (split; [done|]); (split; [|intros [?|[?|[?|[?|[? Hx]]]]]; (done || lia || congruence)]);
    (split; [by apply install_count|by apply install_route_new|apply install_route_old| |by apply install_by_server_id]);
    intros name; (apply install_lookup; [done..|by rewrite hostname_lower|apply lower_idemp]).
Qed.
End proofs.

(** ** The backend index *)

Section backends.
Context `{KeyedHash}.

(** The address bytes a route compares by. *)
Definition backend_of (route : qsr_route) : Z * list Z :=
  (r_backend_addr_len route, field (r_backend_addr route) (r_backend_addr_len route)).

Definition backend_key (t : qsr_route_table) (j : Z) : option (Z * list Z) :=
  if j =? SIZE_MAX then None else Some (backend_of (route_at t j)).

(** [hash_backend] on the compared bytes. *)
Definition backend_home (k : Z * list Z) : nat := hash_slot (u8 k.1 :: k.2) buckets.

Definition backends_map (t : qsr_route_table) : gmap (Z * list Z) Z := abs (backend_key t) (rt_backend_buckets t).

(** The index holds the backends of the first [n] routes. *)
Record backends_wf (t : qsr_route_table) (n : Z) : Prop := {
  bw_count : 0 <= rt_count t <= QSR_MAX_ROUTES;
  bw_resolved : forall j, 0 <= j < rt_count t -> r_backend_resolved (route_at t j) = true;
  bw_entries : forall b j, rt_backend_buckets t !! b = Some j -> used_entry t j;
  bw_table : table_inv (backend_key t) buckets backend_home (rt_backend_buckets t);
  bw_size : Z.of_nat (size (backends_map t)) <= n;
  bw_keys : forall k, is_Some (backends_map t !! k) <-> exists j, 0 <= j < n /\ backend_of (route_at t j) = k;
}.

Lemma backend_home_lt k : (backend_home k < buckets)%nat.
Proof. apply hash_slot_lt, buckets_pos. Qed.

Lemma backend_equals_key t j addr len : r_backend_resolved (route_at t j) = true ->
  backend_equals (route_at t j) addr len = bool_decide (backend_of (route_at t j) = (len, field addr len)).
Proof.
  intros Hr. unfold backend_equals, backend_of, mem_eq. rewrite Hr. cbn [andb].
  destruct (_ =? len) eqn:E; bool_to_prop; cbn [andb].
  - subst len. unfold field. apply bool_decide_ext. split; [by intros ->|by intros [=]].
  - symmetry. apply bool_decide_eq_false. intros [= ? _]. done.
Qed.

Lemma backend_probe_eq t n addr len : backends_wf t n ->
  backend_probe t addr len = probe (backend_key t) buckets backend_home (rt_backend_buckets t) (len, field addr len).
Proof.
  intros Hwf. unfold backend_probe, probe, hash_backend, backend_bytes. apply walk_ext. intros b.
  unfold probe_body, view. destruct (rt_backend_buckets t !! b) as [j|] eqn:E; cbn [default mbind option_bind]; [|done].
  change (id j) with j. unfold backend_key. destruct (j =? SIZE_MAX) eqn:Ej; [done|]. bool_to_prop.
  destruct (bw_entries t n Hwf b j E) as [|Hj]; [done|]. rewrite (proj2 (Z.ltb_lt _ _)) by lia. cbn [andb].
  rewrite backend_equals_key by (by apply (bw_resolved t n Hwf)). case_bool_decide; case_decide; done.
Qed.

Lemma has_backend_spec t n addr len : backends_wf t n ->
  qsr_route_table_has_backend t addr len = true <->
  len <> 0 /\ len <= SOCKADDR_SIZE /\ exists j, 0 <= j < n /\ backend_of (route_at t j) = (len, field addr len).
Proof.
  intros Hwf. unfold qsr_route_table_has_backend.
  destruct ((len =? 0) || (SOCKADDR_SIZE <? len)) eqn:E; bool_to_prop.
  { split; [done|]. intros (? & ? & _). destruct E; bool_to_prop; lia. }
  rewrite (backend_probe_eq t n) by done. rewrite <- (bw_keys t n Hwf).
  pose proof (probe_abs (backend_key t) buckets backend_home backend_home_lt (rt_backend_buckets t) (len, field addr len) (bw_table t n Hwf)) as Hp.
  fold (backends_map t) in Hp. destruct (probe _ _ _ _ _) as [[i []]|].
  - destruct Hp as (a & _ & ->). split; [intros _|done]. split; [done|]. split; [lia|by eexists].
  - rewrite Hp. split; [done|]. by intros (_ & _ & ? & ?).
  - rewrite Hp. split; [done|]. by intros (_ & _ & ? & ?).
Qed.

Lemma backend_index_put_spec t n : backends_wf t n -> 0 <= n < rt_count t ->
  let '(t', status) := backend_index_put t n in
  if r_backend_addr_len (route_at t n) =? 0 then t' = t /\ status = QSR_ERR_INVALID
  else status = QSR_OK /\ exists b, t' = set_backend_buckets t b /\ backends_wf t' (n + 1).
Proof.
  intros Hwf Hn. unfold backend_index_put. rewrite (bw_resolved t n Hwf n Hn). cbn [negb orb].
  destruct (_ =? 0) eqn:E0; [done|]. set (k := backend_of (route_at t n)).
  rewrite (backend_probe_eq t n) by done. change (_, field _ _) with k.
  pose proof (bw_table t n Hwf) as Hti. pose proof Hti as [Hl _ Hu _]. pose proof (bw_count t n Hwf) as Hc.
  pose proof (bw_size t n Hwf) as Hs.
  assert (Hkeys : forall k', (exists j, 0 <= j < n + 1 /\ backend_of (route_at t j) = k') <->
    k' = k \/ exists j, 0 <= j < n /\ backend_of (route_at t j) = k').
  { intros k'. split.
    - intros (j & Hj & <-). destruct (decide (j = n)) as [->|]; [by left|]. right. exists j. split; [lia|done].
    - intros [->|(j & Hj & <-)]; [exists n|exists j]; (split; [lia|done]). }
  assert (Hsame : forall b i, backend_key t i = backend_key (set_backend_buckets t b) i) by done.
  destruct (probe _ _ _ _ _) as [[b []]|] eqn:Hp.
  - split; [done|]. exists (rt_backend_buckets t). split; [by destruct t|].
    apply probe_true in Hp as [_ Hv]; [|apply backend_home_lt].
    assert (Hin : is_Some (backends_map t !! k)).
    { apply view_lookup in Hv as (a & Ha & Hka). exists a. apply abs_lookup; [done|]. by eexists. }
    split; try apply Hwf; [apply (Z.le_trans _ _ _ Hs); lia|]. intros k'.
    refine (iff_trans _ (iff_sym (Hkeys k'))). rewrite <- (bw_keys t n Hwf). change (backends_map (set_backend_buckets t _)) with (backends_map t).
    split; [by right|]. intros [->|?]; done.
  - split; [done|]. exists (<[b := n]> (rt_backend_buckets t)). split; [done|].
    set (t' := set_backend_buckets t _).
    assert (Hkn : backend_key t n = Some k).
    { unfold backend_key. unfold QSR_MAX_ROUTES, SIZE_MAX in *. by rewrite (proj2 (Z.eqb_neq _ _)) by lia. }
    pose proof (probe_insert_abs (backend_key t) buckets backend_home backend_home_lt (rt_backend_buckets t) b n k false Hti Hkn Hp) as Hm.
    assert (Hm' : backends_map t' = <[k := n]> (backends_map t)) by exact Hm.
    assert (Hnone : backends_map t !! k = None).
    { apply abs_lookup_view; [done|]. by apply (probe_false_absent _ buckets backend_home backend_home_lt _ b). }
    split; try apply Hwf.
    + intros i j [(? & <- & _)|[_ Hj]]%list_lookup_insert_Some; [right; cbn; lia|by apply (bw_entries t n Hwf i)].
    + by apply (probe_insert_inv (backend_key t) buckets backend_home backend_home_lt (rt_backend_buckets t) b n k false).
    + rewrite Hm', map_size_insert_None by done. lia.
    + intros k'. refine (iff_trans _ (iff_sym (Hkeys k'))). rewrite Hm', <- (bw_keys t n Hwf), lookup_insert_is_Some.
      destruct (decide (k = k')) as [->|]; [split; auto|]. split; [intros [?|[_ ?]]; [done|by right]|].
      intros [->|?]; [done|by right].
  - exfalso. destruct (probe_absent (backend_key t) buckets backend_home backend_home_lt (rt_backend_buckets t) k) as [i Hi].
    + intros i Hi. rewrite (probe_found _ buckets backend_home backend_home_lt _ i k Hti Hi) in Hp. done.
    + apply has_empty_size; [done|done|]. fold (backends_map t). unfold buckets, QSR_ROUTE_BUCKETS, QSR_MAX_ROUTES in *. lia.
    + by rewrite Hi in Hp.
Qed.

Lemma backend_index_loop_spec m : forall t n, backends_wf t n -> 0 <= n -> n + Z.of_nat m = rt_count t ->
  let '(t', status) := backend_index_loop t m n in
  exists b, t' = set_backend_buckets t b /\
  if bool_decide (status = QSR_OK)
  then backends_wf t' (rt_count t) /\ forall j, n <= j < rt_count t -> r_backend_addr_len (route_at t j) <> 0
  else status = QSR_ERR_INVALID /\ exists j, n <= j < rt_count t /\ r_backend_addr_len (route_at t j) = 0.
Proof.
  induction m as [|m IH]; intros t n Hwf Hn Hm; cbn [backend_index_loop].
  - exists (rt_backend_buckets t). split; [by destruct t|]. rewrite bool_decide_eq_true_2 by done.
    assert (n = rt_count t) as -> by lia. split; [done|lia].
  - pose proof (bw_count t n Hwf) as Hc. pose proof (backend_index_put_spec t n Hwf ltac:(lia)) as Hput.
    destruct (backend_index_put t n) as [t1 st]. destruct (_ =? 0) eqn:E0; bool_to_prop.
    + destruct Hput as [-> ->]. rewrite bool_decide_eq_false_2 by done. exists (rt_backend_buckets t).
      split; [by destruct t|]. rewrite bool_decide_eq_false_2 by done. split; [done|]. exists n. split; [lia|done].
    + destruct Hput as (-> & b & -> & Hwf1). rewrite bool_decide_eq_true_2 by done.
      unfold QSR_MAX_ROUTES in Hc. rewrite uadd_small by lia.
      specialize (IH (set_backend_buckets t b) (n + 1) Hwf1 ltac:(lia) ltac:(cbn; lia)).
      destruct (backend_index_loop _ m _) as [t2 st2]. destruct IH as (b2 & -> & Hcase). exists b2. split; [done|].
      cbn [rt_count set_backend_buckets] in Hcase. case_bool_decide.
      * destruct Hcase as [Hw Hnz]. split; [done|]. intros j Hj. destruct (decide (j = n)) as [->|]; [done|].
        apply (Hnz j). lia.
      * destruct Hcase as (-> & j & Hj & Hz). split; [done|]. exists j. split; [lia|done].
Qed.

(** *** Resolution *)

Context (getaddrinfo : list Z -> Z -> option (list Z)).

(** The configured part of a route, which resolution leaves alone. *)
Definition configured (r : qsr_route) : list Z * list Z * Z * Z := (r_sni r, r_host r, r_port r, r_server_id r).

Lemma resolve_loop_spec m : forall routes i, (i + m <= length routes)%nat ->
  let '(routes', status) := resolve_loop getaddrinfo routes m i in
  length routes' = length routes /\
  (forall j, configured (default route0 (routes' !! j)) = configured (default route0 (routes !! j))) /\
  (forall j, (j < i)%nat -> routes' !! j = routes !! j) /\
  if bool_decide (status = QSR_OK)
  then forall j, (i <= j < i + m)%nat -> exists addr, resolve_addr getaddrinfo (default route0 (routes !! j)) = Some addr /\
         routes' !! j = Some (resolved (default route0 (routes !! j)) addr)
  else status = QSR_ERR_INVALID /\
       exists j, (i <= j < i + m)%nat /\ resolve_addr getaddrinfo (default route0 (routes !! j)) = None.
Proof.
  induction m as [|m IH]; intros routes i Hm; cbn [resolve_loop].
  - split_and!; [done..|]. rewrite bool_decide_eq_true_2 by done. lia.
  - destruct (resolve_addr _ _) as [addr|] eqn:Er.
    + specialize (IH (<[i := resolved (default route0 (routes !! i)) addr]> routes) (i + 1)%nat).
      rewrite length_insert in IH. specialize (IH ltac:(lia)). destruct (resolve_loop _ _ m _) as [routes' status].
      destruct IH as (Hl & Hc & Hlt & Hcase).
      assert (Hi : routes' !! i = Some (resolved (default route0 (routes !! i)) addr)).
      { rewrite Hlt by lia. by rewrite list_lookup_insert_eq by lia. }
      split_and!; [done| | |].
      * intros j. destruct (decide (j = i)) as [->|]; [by rewrite Hi|]. rewrite Hc. by rewrite list_lookup_insert_ne.
      * intros j Hj. rewrite Hlt by lia. by rewrite list_lookup_insert_ne by lia.
      * case_bool_decide.
        -- intros j Hj. destruct (decide (j = i)) as [->|]; [by exists addr|].
           destruct (Hcase j ltac:(lia)) as (a & Ha & Hr). rewrite list_lookup_insert_ne in Ha, Hr by done. by exists a.
        -- destruct Hcase as (-> & j & Hj & Hn). split; [done|]. exists j.
           rewrite list_lookup_insert_ne in Hn by lia. split; [lia|done].
    + split_and!; [done..|]. rewrite bool_decide_eq_false_2 by done. split; [done|]. exists i. split; [lia|done].
Qed.

(** The name and server-id indexes do not depend on the resolved addresses. *)
Lemma route_wf_configured t t' : route_wf t -> Zlen (rt_routes t') = Zlen (rt_routes t) ->
  rt_buckets t' = rt_buckets t -> rt_server_id_index t' = rt_server_id_index t -> rt_count t' = rt_count t ->
  (forall j, configured (route_at t' j) = configured (route_at t j)) ->
  route_wf t' /\ (forall name, qsr_route_table_lookup t' name = qsr_route_table_lookup t name) /\
  forall s, qsr_route_table_lookup_by_server_id t' s = qsr_route_table_lookup_by_server_id t s.
Proof.
  intros Hwf Hl Hb Hi Hc Hconf.
  assert (Hkey : forall j, route_key t j = route_key t' j).
  { intros j. unfold route_key. destruct (_ =? _); [done|]. specialize (Hconf j). unfold configured in Hconf. congruence. }
  assert (Hmap : routes_map t' = routes_map t).
  { unfold routes_map. rewrite Hb. symmetry. apply abs_ext. auto. }
  assert (Hwf' : route_wf t').
  { split; rewrite ?Hl, ?Hb, ?Hi, ?Hc, ?Hmap; try apply Hwf.
    - intros b j Hj. unfold used_entry. rewrite Hc. by apply (rw_entries t Hwf b).
    - apply (table_inv_ext (route_key t)); [auto|apply Hwf].
    - intros s j Hj. unfold used_entry. rewrite Hc. by apply (rw_ids t Hwf s). }
  split_and!; [done| |].
  - intros name. by rewrite !lookup_spec, Hmap.
  - intros s. unfold qsr_route_table_lookup_by_server_id. by rewrite Hi, Hc.
Qed.

Lemma field_resolved r addr : Zlen addr <= SOCKADDR_SIZE -> backend_of (resolved r addr) = (Zlen addr, addr).
Proof.
  intros Hl. unfold backend_of, resolved, field, Zlen. cbn. by rewrite Nat2Z.id, memcpy_at_0_take.
Qed.

(** The backend index of a resolved table holds the resolved addresses. *)
Lemma resolved_backends t t' : backends_wf t' (rt_count t) ->
  (forall j, 0 <= j < rt_count t -> exists a, resolve_addr getaddrinfo (route_at t j) = Some a /\ a <> [] /\
    Zlen a <= SOCKADDR_SIZE /\ backend_of (route_at t' j) = (Zlen a, a)) ->
  forall addr len, qsr_route_table_has_backend t' addr len = true <->
    exists j, 0 <= j < rt_count t /\ resolve_addr getaddrinfo (route_at t j) = Some (field addr len) /\ Zlen (field addr len) = len.
Proof.
  intros Hbw Hof addr len. rewrite (has_backend_spec _ _ addr len Hbw). split.
  - intros (_ & _ & j & Hj & Hk). exists j. destruct (Hof j Hj) as (a & Ha & _ & _ & Ho). rewrite Ho in Hk.
    injection Hk as Hk1 Hk2. subst. by rewrite <- Hk2 in *.
  - intros (j & Hj & Ha & Hl2). destruct (Hof j Hj) as (a & Ha' & Hne & Hla & Ho). rewrite Ha in Ha'. simplify_eq.
    assert (Zlen (field addr len) <> 0) by (intros Hz; apply Hne; apply nil_length_inv; unfold Zlen in Hz; lia).
    split_and!; [lia|lia|exists j; split; [done|]; by rewrite Ho, Hl2].
Qed.

(** The index before any backend is put into it. *)
Lemma backends_start t : rt_backend_buckets t = replicate buckets SIZE_MAX -> 0 <= rt_count t <= QSR_MAX_ROUTES ->
  (forall j, 0 <= j < rt_count t -> r_backend_resolved (route_at t j) = true) -> backends_wf t 0.
Proof.
  intros Hb Hc Hres. pose proof (table_inv_empty (backend_key t) SIZE_MAX buckets backend_home eq_refl buckets_pos) as [Hinv Hempty].
  rewrite <- Hb in Hinv, Hempty. split; [done|done| |done|by unfold backends_map; rewrite Hempty, map_size_empty|].
  - intros i j Hj. left. rewrite Hb in Hj. by apply lookup_replicate in Hj as [-> _].
  - intros k. unfold backends_map. rewrite Hempty, lookup_empty. split; [by intros [? ?]|]. intros (j & Hj & _). lia.
Qed.

Lemma resolve_spec t : route_wf t ->
  let '(t', status) := qsr_route_table_resolve getaddrinfo t in
  route_wf t' /\ (forall name, qsr_route_table_lookup t' name = qsr_route_table_lookup t name) /\
  (forall s, qsr_route_table_lookup_by_server_id t' s = qsr_route_table_lookup_by_server_id t s) /\
  (forall j, configured (route_at t' j) = configured (route_at t j)) /\
  match status with
  | QSR_OK =>
      (forall j, 0 <= j < rt_count t -> r_backend_resolved (route_at t' j) = true /\
         exists a, resolve_addr getaddrinfo (route_at t j) = Some a /\ a <> [] /\ backend_of (route_at t' j) = (Zlen a, a)) /\
      forall addr len, qsr_route_table_has_backend t' addr len = true <->
        exists j, 0 <= j < rt_count t /\ resolve_addr getaddrinfo (route_at t j) = Some (field addr len) /\
          Zlen (field addr len) = len
  | QSR_ERR_INVALID =>
      exists j, 0 <= j < rt_count t /\ default [] (resolve_addr getaddrinfo (route_at t j)) = []
  | _ => False
  end.
Proof.
  intros Hwf. unfold qsr_route_table_resolve. pose proof (rw_routes t Hwf) as Hl. pose proof (rw_count t Hwf) as Hc.
  pose proof (resolve_loop_spec (Z.to_nat (rt_count t)) (rt_routes t) 0) as Hloop.
  destruct (resolve_loop _ _ _ _) as [routes status]. unfold Zlen in Hl.
  destruct Hloop as (Hlen & Hconf & _ & Hcase); [lia|]. set (t1 := {| rt_routes := routes |}).
  change (rt_count t1) with (rt_count t).
  assert (Hany : forall b, let t' := set_backend_buckets t1 b in route_wf t' /\
    (forall name, qsr_route_table_lookup t' name = qsr_route_table_lookup t name) /\
    (forall s, qsr_route_table_lookup_by_server_id t' s = qsr_route_table_lookup_by_server_id t s)).
  { intros b. apply route_wf_configured; try done; [unfold Zlen; cbn; lia|]. intros j. apply Hconf. }
  case_bool_decide as Hst.
  2: { destruct Hcase as (-> & j & Hj & Hn). destruct (Hany (rt_backend_buckets t1)) as (Hw & Hlk & Hids).
       split_and!; [exact Hw|exact Hlk|exact Hids|intros j'; apply Hconf|]. exists (Z.of_nat j). split; [lia|].
       unfold route_at. by rewrite Nat2Z.id, Hn. }
  assert (Hres : forall j, 0 <= j < rt_count t -> exists a, resolve_addr getaddrinfo (route_at t j) = Some a /\
    route_at t1 j = resolved (route_at t j) a /\ Zlen a <= SOCKADDR_SIZE).
  { intros j Hj. destruct (Hcase (Z.to_nat j) ltac:(lia)) as (a & Ha & Hr). exists a. split_and!; [done| |].
    - unfold route_at. cbn. by rewrite Hr.
    - unfold resolve_addr in Ha. destruct (getaddrinfo _ _); [|done]. cbn in Ha. split_if; bool_to_prop; simplify_eq. lia. }
  clear Hcase. pose proof (backend_index_loop_spec (Z.to_nat (rt_count t)) t1 0) as Hidx.
  destruct (backend_index_loop _ _ _) as [t2 st2]. destruct Hidx as (b & -> & Hcase).
  { apply backends_start; [done..|]. intros j Hj. by destruct (Hres j Hj) as (a & _ & -> & _). }
  { lia. }
  { cbn. lia. }
  destruct (Hany b) as (Hw & Hlk & Hids). split_and!; [exact Hw|exact Hlk|exact Hids|intros j'; apply Hconf|].
  change (rt_count t1) with (rt_count t) in Hcase. case_bool_decide as Hst2.
  - subst st2. destruct Hcase as [Hbw Hnz].
    assert (Hof : forall j, 0 <= j < rt_count t -> exists a, resolve_addr getaddrinfo (route_at t j) = Some a /\ a <> [] /\
      Zlen a <= SOCKADDR_SIZE /\ backend_of (route_at (set_backend_buckets t1 b) j) = (Zlen a, a)).
    { intros j Hj. destruct (Hres j Hj) as (a & Ha & Hr & Hla). exists a.
      change (route_at (set_backend_buckets t1 b) j) with (route_at t1 j). rewrite Hr.
      split_and!; [done| |done|by apply field_resolved]. intros ->. apply (Hnz j Hj). by rewrite Hr. }
    split; [|by apply resolved_backends]. intros j Hj. destruct (Hof j Hj) as (a & ? & ? & _ & ?). split; [|by exists a].
    destruct (Hres j Hj) as (a' & _ & Hr & _). change (route_at (set_backend_buckets t1 b) j) with (route_at t1 j). by rewrite Hr.
  - destruct Hcase as (-> & j & Hj & Hz). exists j. split; [done|]. destruct (Hres j Hj) as (a & Ha & Hr & _).
    rewrite Ha. cbn. rewrite Hr in Hz. cbn in Hz. apply nil_length_inv. unfold Zlen in Hz. lia.
Qed.

Lemma index_put_count t i : rt_count (backend_index_put t i).1 = rt_count t.
Proof. unfold backend_index_put. repeat case_match; done. Qed.

Lemma index_loop_count m : forall t i, rt_count (backend_index_loop t m i).1 = rt_count t.
Proof.
  induction m as [|m IH]; intros t i; cbn [backend_index_loop]; [done|]. pose proof (index_put_count t i) as Hc.
  destruct (backend_index_put t i) as [t1 st]. case_bool_decide; [|done]. by rewrite IH.
Qed.

Lemma resolve_count t t' : qsr_route_table_resolve getaddrinfo t = (t', QSR_OK) -> rt_count t' = rt_count t.
Proof.
  unfold qsr_route_table_resolve. destruct (resolve_loop _ _ _ _) as [routes st]. case_bool_decide; [|congruence]. intros Hr.
  match type of Hr with backend_index_loop ?t1 ?m ?i = _ => pose proof (index_loop_count m t1 i) as Hl end. by rewrite Hr in Hl.
Qed.

(** A route of the table has this address. *)
Definition routes_to (t : qsr_route_table) (addr : list Z) (len : Z) : Prop :=
  exists j, 0 <= j < rt_count t /\ r_backend_resolved (route_at t j) = true /\ backend_of (route_at t j) = (len, field addr len).

(** The index accepts the addresses of the routes, and no others. *)
Definition indexed (t : qsr_route_table) : Prop :=
  forall addr len, qsr_route_table_has_backend t addr len = true <-> routes_to t addr len.

Lemma resolve_indexed t t' : route_wf t -> qsr_route_table_resolve getaddrinfo t = (t', QSR_OK) -> indexed t'.
Proof.
  intros Hwf Hr addr len. pose proof (resolve_spec t Hwf) as Hs. pose proof (resolve_count t t' Hr) as Hc. rewrite Hr in Hs.
  destruct Hs as (_ & _ & _ & _ & Hres & Hhas). rewrite Hhas. unfold routes_to. rewrite Hc. split; intros (j & Hj & Hrest); exists j.
  - destruct (Hres j Hj) as (Hok & a & Ha & _ & Hb). destruct Hrest as [Hf Hl]. rewrite Ha in Hf. injection Hf as ->. by rewrite Hb, Hl.
  - destruct (Hres j Hj) as (_ & a & Ha & _ & Hb). destruct Hrest as [_ Hf]. rewrite Hb in Hf. injection Hf as <- Hf. by rewrite <- Hf.
Qed.

Lemma indexed_empty : indexed qsr_route_table_init.
Proof.
  intros addr len. split; [|intros (j & Hj & _); cbn in Hj; lia].
  assert (Hw : backends_wf qsr_route_table_init 0) by (apply backends_start; [done|cbn; unfold QSR_MAX_ROUTES; lia|intros j Hj; cbn in Hj; lia]).
  rewrite (has_backend_spec _ _ addr len Hw). intros (_ & _ & j & Hj & _). lia.
Qed.
End backends.

(** ** A configured table *)

Section configured_table.
Context `{KeyedHash}.

Record route_entry := { e_sni : list Z; e_host : list Z; e_port : Z; e_server_id : Z }.

(** Entries added in order to an empty table; [None] when one is refused. *)
Definition add_entry (t : option qsr_route_table) (e : route_entry) : option qsr_route_table :=
  t ← t;
  let '(t, status) := qsr_route_table_add t (e_sni e) (e_host e) (e_port e) (e_server_id e) in
  if bool_decide (status = QSR_OK) then Some t else None.

Definition configure (entries : list route_entry) : option qsr_route_table :=
  foldl add_entry (Some qsr_route_table_init) entries.

Lemma replicate_max_table (t : qsr_route_table) :
  table_inv (route_key t) buckets hash_string (replicate buckets SIZE_MAX) /\ abs (route_key t) (replicate buckets SIZE_MAX) = ∅.
Proof. apply table_inv_empty; [done|apply buckets_pos]. Qed.

Lemma init_wf_routes : route_wf qsr_route_table_init.
Proof.
  destruct (replicate_max_table qsr_route_table_init) as [Hti Habs]. split.
  - unfold Zlen. cbn [rt_routes qsr_route_table_init]. rewrite length_replicate. unfold QSR_MAX_ROUTES. lia.
  - cbn. unfold QSR_MAX_ROUTES. lia.
  - intros b j Hj. left. by apply lookup_replicate in Hj as [-> _].
  - exact Hti.
  - unfold routes_map. cbn [rt_buckets qsr_route_table_init rt_count]. change (Z.to_nat QSR_ROUTE_BUCKETS) with buckets.
    rewrite Habs. by rewrite map_size_empty.
  - apply length_replicate.
  - intros s j Hj. left. by apply lookup_replicate in Hj as [-> _].
Qed.

Lemma lookup_init name : qsr_route_table_lookup qsr_route_table_init name = None.
Proof.
  rewrite lookup_spec by apply init_wf_routes. unfold routes_map. cbn [rt_buckets qsr_route_table_init].
  change (Z.to_nat QSR_ROUTE_BUCKETS) with buckets. rewrite (proj2 (replicate_max_table _)). by destruct (hostname_ok name).
Qed.

Definition entry_installed (t : qsr_route_table) (i : nat) (e : route_entry) : Prop :=
  hostname_ok (e_sni e) = true /\
  r_host (route_at t (Z.of_nat i)) = e_host e /\ r_port (route_at t (Z.of_nat i)) = e_port e /\
  (forall name, lower name = lower (e_sni e) -> qsr_route_table_lookup t name = Some (Z.of_nat i)) /\
  (e_server_id e <> 0 -> qsr_route_table_lookup_by_server_id t (e_server_id e) = Some (Z.of_nat i)).

Lemma configure_spec entries : Forall (fun e => 0 <= e_server_id e < 256) entries -> forall t,
  configure entries = Some t ->
  route_wf t /\ rt_count t = Zlen entries /\
  (forall i e, entries !! i = Some e -> entry_installed t i e) /\
  (forall name, Forall (fun e => lower name <> lower (e_sni e)) entries -> qsr_route_table_lookup t name = None).
Proof.
  unfold configure. induction entries as [|e entries IH] using rev_ind; intros Hs t Ht.
  - cbn in Ht. simplify_eq. split_and!; [apply init_wf_routes|done|done|]. intros name _. apply lookup_init.
  - apply Forall_app in Hs as [Hs He]. inversion_clear He as [|? ? Hid _]. rewrite foldl_app in Ht. cbn [foldl] in Ht.
    destruct (foldl add_entry _ entries) as [t0|]; [|done]. destruct (IH Hs t0 eq_refl) as (Hwf & Hc & Hin & Hout).
    cbn in Ht. pose proof (add_spec t0 (e_sni e) (e_host e) (e_port e) (e_server_id e) Hwf Hid) as Ha.
    destruct (qsr_route_table_add _ _ _ _ _) as [t1 st]. case_bool_decide as Hst; [|done]. simplify_eq.
    destruct Ha as (Hwf1 & Hadd & Hnot). destruct Hadd as [Hc1 Hr Hold Hlk Hsid].
    assert (Hok : hostname_ok (e_sni e) = true).
    { destruct (hostname_ok (e_sni e)) eqn:E; [done|]. destruct Hnot. right; left. done. }
    assert (Hname : forall name, lower name = lower (e_sni e) -> hostname_ok name = true).
    { intros name Hn. by rewrite <- hostname_lower, Hn, hostname_lower. }
    split_and!; [done|rewrite Zlen_app, Hc1, Hc; done| |].
    + intros i e' Hi. apply lookup_app_Some in Hi as [Hi|[Hge Hi]].
      * pose proof (lookup_lt_Some _ _ _ Hi). destruct (Hin i e' Hi) as (Hok' & Hh & Hp & Hl & Hd).
        pose proof (Forall_lookup_1 _ _ _ _ Hs Hi) as Hr'. cbn beta in Hr'.
        unfold entry_installed. rewrite Hold by (unfold Zlen in Hc; lia). split_and!; [done..| |].
        2: { intros Hne. rewrite Hsid, Hd by done. destruct (e_server_id e' =? e_server_id e) eqn:E; [|done]. bool_to_prop.
             exfalso. apply Hnot. do 4 right. rewrite <- E, Hd by done. by eexists. }
        intros name Hn. rewrite Hlk, Hl by done. destruct (hostname_ok name && bool_decide (lower name = lower (e_sni e))) eqn:E; [|done].
        exfalso. assert (Heq : lower name = lower (e_sni e)) by (bool_to_prop; done). apply Hnot. do 3 right. left. rewrite <- lookup_lower by done.
        rewrite <- Heq, lookup_lower, Hl by done. by eexists.
      * apply list_lookup_singleton_Some in Hi as [Hi <-].
        unfold entry_installed. replace (Z.of_nat i) with (rt_count t0) by (unfold Zlen in Hc; lia).
        destruct Hr as (_ & Hh & Hp & _). split_and!; [done..| |].
        -- intros name Hn. rewrite Hlk, Hname by done. by rewrite bool_decide_eq_true_2.
        -- intros Hne. rewrite Hsid, Z.eqb_refl, (proj2 (Z.eqb_neq _ _) Hne) by done. done.
    + intros name [Hn Hn']%Forall_app. inversion_clear Hn' as [|? ? Hne _]. rewrite Hlk, bool_decide_eq_false_2, andb_false_r by done.
      by apply Hout.
Qed.
End configured_table.

(** ** Properties *)

(** In a table built from a list of entries every name that equals an
    entry's up to case leads to that entry's backend, and no other name leads anywhere;
    a server id leads to the entry that has it. *)
Theorem configured_routes_found `{KeyedHash} entries t :
  Forall (fun e => 0 <= e_server_id e < 256) entries -> configure entries = Some t ->
  (forall i e name, entries !! i = Some e -> lower name = lower (e_sni e) ->
     qsr_route_table_lookup t name = Some (Z.of_nat i) /\
     r_host (route_at t (Z.of_nat i)) = e_host e /\ r_port (route_at t (Z.of_nat i)) = e_port e) /\
  (forall i e, entries !! i = Some e -> e_server_id e <> 0 -> qsr_route_table_lookup_by_server_id t (e_server_id e) = Some (Z.of_nat i)) /\
  (forall name, Forall (fun e => lower name <> lower (e_sni e)) entries -> qsr_route_table_lookup t name = None).
Proof.
  intros Hs Ht. destruct (configure_spec entries Hs t Ht) as (_ & _ & Hin & Hout). split_and!; [| |done].
  - intros i e name Hi Hn. destruct (Hin i e Hi) as (_ & Hh & Hp & Hl & _). auto.
  - intros i e Hi. apply (Hin i e Hi).
Qed.

(** Adding a route to a well-formed table either installs exactly that
    name and server id, or refuses for a stated reason and changes nothing. *)
Theorem route_add_refines `{KeyedHash} t sni host port server_id :
  route_wf t -> 0 <= server_id < 256 ->
  let '(t', status) := qsr_route_table_add t sni host port server_id in
  route_wf t' /\
  match status with
  | QSR_OK => route_added t sni host port server_id t' /\ ~ route_invalid t sni host port server_id
  | QSR_ERR_FULL => t' = t /\ rt_count t = QSR_MAX_ROUTES
  | QSR_ERR_INVALID => t' = t /\ route_invalid t sni host port server_id
  | _ => False
  end.
Proof. apply add_spec. Qed.

(** C38: after a successful resolution the backend test accepts exactly the
    resolved addresses of the routes, and resolution fails exactly on a route that has none; the
    name and server-id lookups are the same in every case. *)
Theorem route_resolve_refines `{KeyedHash} getaddrinfo t :
  route_wf t ->
  let '(t', status) := qsr_route_table_resolve getaddrinfo t in
  route_wf t' /\ (forall name, qsr_route_table_lookup t' name = qsr_route_table_lookup t name) /\
  (forall s, qsr_route_table_lookup_by_server_id t' s = qsr_route_table_lookup_by_server_id t s) /\
  (forall j, configured (route_at t' j) = configured (route_at t j)) /\
  match status with
  | QSR_OK =>
      (forall j, 0 <= j < rt_count t -> r_backend_resolved (route_at t' j) = true /\
         exists a, resolve_addr getaddrinfo (route_at t j) = Some a /\ a <> [] /\ backend_of (route_at t' j) = (Zlen a, a)) /\
      forall addr len, qsr_route_table_has_backend t' addr len = true <->
        exists j, 0 <= j < rt_count t /\ resolve_addr getaddrinfo (route_at t j) = Some (field addr len) /\
          Zlen (field addr len) = len
  | QSR_ERR_INVALID =>
      exists j, 0 <= j < rt_count t /\ default [] (resolve_addr getaddrinfo (route_at t j)) = []
  | _ => False
  end.
Proof. apply resolve_spec. Qed.

(** The names the table normalizes are the hostnames the ClientHello parser
    accepts, and the normal form is their lowercase. *)
Theorem normalize_hostname_grammar input :
  normalize_hostname input (QSR_MAX_HOSTNAME_LEN + 1) = if hostname_ok input then Some (lower input) else None.
Proof. apply normalize_spec. Qed.

(** ** Witnesses *)

Section examples.
Local Existing Instance sum_hash.

Definition demo_entry : route_entry := {| e_sni := [65; 46; 98]; e_host := [104]; e_port := 443; e_server_id := 7 |}.
Definition demo_getaddrinfo (host : list Z) (port : Z) : option (list Z) := Some [2; 0; 1; 187].

Lemma route_add_refines_witness :
  let '(t', status) := qsr_route_table_add qsr_route_table_init [65; 46; 98] [104] 443 7 in
  route_wf t' /\
  match status with
  | QSR_OK => route_added qsr_route_table_init [65; 46; 98] [104] 443 7 t' /\ ~ route_invalid qsr_route_table_init [65; 46; 98] [104] 443 7
  | QSR_ERR_FULL => t' = qsr_route_table_init /\ rt_count qsr_route_table_init = QSR_MAX_ROUTES
  | QSR_ERR_INVALID => t' = qsr_route_table_init /\ route_invalid qsr_route_table_init [65; 46; 98] [104] 443 7
  | _ => False
  end.
Proof. apply route_add_refines; [apply init_wf_routes|lia]. Defined.

Lemma demo_configured : exists t, configure [demo_entry] = Some t.
Proof.
  unfold configure. cbn [foldl add_entry mbind option_bind].
  pose proof (add_spec qsr_route_table_init [65; 46; 98] [104] 443 7 init_wf_routes ltac:(lia)) as Ha.
  change (qsr_route_table_add _ (e_sni demo_entry) (e_host demo_entry) (e_port demo_entry) (e_server_id demo_entry))
    with (qsr_route_table_add qsr_route_table_init [65; 46; 98] [104] 443 7).
  destruct (qsr_route_table_add _ _ _ _ _) as [t' st]. destruct Ha as [_ Ha]. destruct st; try done.
  - by exists t'.
  - destruct Ha as [_ [?|[?|[?|[Hx|Hx]]]]]; [done|done|done| |].
    + rewrite lookup_init in Hx. by destruct Hx.
    + rewrite lookup_by_server_id_spec in Hx by (apply init_wf_routes || lia). vm_compute in Hx. by destruct Hx.
  - by destruct Ha.
Qed.

Lemma configured_routes_found_witness :
  exists t, configure [demo_entry] = Some t /\
    qsr_route_table_lookup t [97; 46; 66] = Some 0 /\ qsr_route_table_lookup t [99] = None.
Proof.
  destruct demo_configured as [t Ht].
  destruct (configured_routes_found [demo_entry] t) as (Hin & _ & Hout); [by repeat constructor|exact Ht|].
  exists t. split; [exact Ht|]. split.
  - apply (Hin 0%nat demo_entry); reflexivity.
  - apply Hout. repeat constructor. discriminate.
Defined.

Lemma demo_resolve_addr r : resolve_addr demo_getaddrinfo r = Some [2; 0; 1; 187].
Proof. reflexivity. Qed.

Lemma route_resolve_refines_witness :
  exists t t', configure [demo_entry] = Some t /\ qsr_route_table_resolve demo_getaddrinfo t = (t', QSR_OK) /\
    qsr_route_table_has_backend t' [2; 0; 1; 187; 0; 0] 4 = true /\ qsr_route_table_has_backend t' [2; 0; 1; 188] 4 <> true.
Proof.
  destruct demo_configured as [t Ht].
  destruct (configure_spec [demo_entry] ltac:(by repeat constructor) t Ht) as (Hwf & Hc & _).
  pose proof (route_resolve_refines demo_getaddrinfo t Hwf) as Hr. exists t.
  destruct (qsr_route_table_resolve demo_getaddrinfo t) as [t' st]. exists t'. destruct Hr as (_ & _ & _ & _ & Hr).
  destruct st; try done; [|by destruct Hr as (j & _ & Hj)]. destruct Hr as [_ Hh]. split_and!; [exact Ht|reflexivity| |].
  - apply Hh. exists 0. split; [rewrite Hc; split; done|]. split; reflexivity.
  - rewrite Hh. intros (j & _ & Ha & _). rewrite demo_resolve_addr in Ha. discriminate Ha.
Defined.
End examples.
