(* ===== verification/CidCodec.v ===== *)
(** * The encoded connection-ID codec

    [src/cid_codec.c]: a server id and a fixed tag encrypted with AES-128-CTR
    inside a 16-byte connection ID. AES is a parameter; what the code relies on
    is that counter mode keeps lengths and undoes itself. *)

From S2P Require Import Prelude.
#[local] Open Scope Z_scope.

Definition QSR_CID_ENCODED_LEN : Z := 16.
Definition QSR_CID_ENCODED_VERSION : Z := 0x4f.
Definition QSR_CID_KEY_LEN : Z := 16.
Definition QSR_CID_NONCE_LEN : Z := 7.
Definition QSR_CID_PAYLOAD_LEN : Z := 8.

(** "qsrlrtr" *)
Definition QSR_CID_MAGIC : list Z := [113; 115; 114; 108; 114; 116; 114].

Record qsr_cid_codec := {
  cc_key : list Z;
  cc_enabled : bool;
}.

Definition codec0 : qsr_cid_codec := {| cc_key := zeros QSR_CID_KEY_LEN; cc_enabled := false |}.

(** ** The key *)

Definition hex_nibble (c : Z) : Z :=
  if (48 <=? c) && (c <=? 57) then c - 48
  else if (97 <=? c) && (c <=? 102) then c - 97 + 10
  else if (65 <=? c) && (c <=? 70) then c - 65 + 10
  else -1.

(** [for (i = 0; i < QSR_CID_KEY_LEN; i++)] from [i] with [n] rounds left; [None] is the error return. *)
Fixpoint hex_loop (hex_key key : list Z) (n i : nat) : option (list Z) :=
  match n with
  | O => Some key
  | S n =>
      let hi := hex_nibble (default 0 (hex_key !! (i * 2)%nat)) in
      let lo := hex_nibble (default 0 (hex_key !! (i * 2 + 1)%nat)) in
      if (hi <? 0) || (lo <? 0) then None
      else hex_loop hex_key (<[i := u8 (Z.lor (u32 (Z.shiftl hi 4)) lo)]> key) n (i + 1)%nat
  end.

(** The codec as it is left, and the status. *)
Definition qsr_cid_codec_init_from_hex (hex_key : list Z) : qsr_cid_codec * qsr_status :=
  if negb (Zlen hex_key =? QSR_CID_KEY_LEN * 2) then (codec0, QSR_ERR_INVALID) else
  match hex_loop hex_key (cc_key codec0) (Z.to_nat QSR_CID_KEY_LEN) 0 with
  | None => (codec0, QSR_ERR_INVALID)
  | Some key => ({| cc_key := key; cc_enabled := true |}, QSR_OK)
  end.

(** ** Connection IDs *)

Definition build_iv (nonce : list Z) : list Z :=
  QSR_CID_ENCODED_VERSION :: nonce ++ zeros (QSR_CID_KEY_LEN - 1 - QSR_CID_NONCE_LEN).

Section codec.
(** [EVP_EncryptUpdate] with AES-128-CTR under a key and a counter block;
    [None] when an OpenSSL call fails. *)
Context (aes_128_ctr : list Z -> list Z -> list Z -> option (list Z)).

Definition aes128_ctr_crypt (key iv input : list Z) : outcome (list Z) :=
  match aes_128_ctr key iv input with
  | Some out => if Zlen out =? QSR_CID_PAYLOAD_LEN then Ok out else Fail QSR_ERR_INVALID
  | None => Fail QSR_ERR_INVALID
  end.

Definition qsr_cid_codec_encode (codec : qsr_cid_codec) (server_id : Z) (nonce : list Z) : outcome (list Z) :=
  if negb (cc_enabled codec) || (server_id =? 0) then Fail QSR_ERR_INVALID else
  payload ← aes128_ctr_crypt (cc_key codec) (build_iv nonce) (server_id :: QSR_CID_MAGIC);
  Ok (QSR_CID_ENCODED_VERSION :: nonce ++ payload).

Definition qsr_cid_codec_decode (codec : qsr_cid_codec) (cid : ptr) (cid_len : Z) : outcome Z :=
  if negb (cc_enabled codec) then Fail QSR_ERR_INVALID else
  if negb (cid_len =? QSR_CID_ENCODED_LEN) then Fail QSR_ERR_INVALID else
  version ← load cid 0;
  if negb (version =? QSR_CID_ENCODED_VERSION) then Fail QSR_ERR_INVALID else
  nonce ← load_bytes (ptr_add cid 1) QSR_CID_NONCE_LEN;
  payload ← load_bytes (ptr_add cid (1 + QSR_CID_NONCE_LEN)) QSR_CID_PAYLOAD_LEN;
  plaintext ← or_fail QSR_ERR_INVALID (aes128_ctr_crypt (cc_key codec) (build_iv nonce) payload);
  if (default 0 (plaintext !! 0%nat) =? 0) || negb (mem_eq (drop 1 plaintext) QSR_CID_MAGIC 7)
  then Fail QSR_ERR_INVALID else Ok (default 0 (plaintext !! 0%nat)).

(** ** Lemmas *)

(** Counter mode xors a key stream: it keeps lengths and is its own inverse. *)
Hypothesis ctr_length : forall key iv a b, aes_128_ctr key iv a = Some b -> length b = length a.
Hypothesis ctr_inverse : forall key iv a b, aes_128_ctr key iv a = Some b -> aes_128_ctr key iv b = Some a.

Lemma ctr_crypt_ok key iv (a b : list Z) : Zlen a = QSR_CID_PAYLOAD_LEN ->
  aes128_ctr_crypt key iv a = Ok b <-> aes_128_ctr key iv a = Some b /\ Zlen b = QSR_CID_PAYLOAD_LEN.
Proof.
  intros Ha. unfold aes128_ctr_crypt. destruct (aes_128_ctr key iv a) as [c|]; [|by split; [|intros []]].
  destruct (Zlen c =? QSR_CID_PAYLOAD_LEN) eqn:E; bool_to_prop.
  - split; [by intros [= <-]|by intros [[= ->] _]].
  - split; [done|by intros [[= ->] ?]].
Qed.

Lemma ctr_crypt_inverse key iv (a b : list Z) : Zlen a = QSR_CID_PAYLOAD_LEN ->
  aes128_ctr_crypt key iv a = Ok b -> aes128_ctr_crypt key iv b = Ok a.
Proof using ctr_length ctr_inverse.
  intros Ha [Hb Hl]%ctr_crypt_ok; [|done]. apply ctr_crypt_ok; [done|]. split; [by apply ctr_inverse|done].
Qed.

Lemma ctr_crypt_length key iv a b : aes128_ctr_crypt key iv a = Ok b -> Zlen b = QSR_CID_PAYLOAD_LEN.
Proof using.
  unfold aes128_ctr_crypt. destruct (aes_128_ctr _ _ _); [|done]. split_if; [|done]. bool_to_prop. congruence.
Qed.

(** The three parts of a 16-byte connection ID. *)
Lemma cid_parts (cid : list Z) : length cid = 16%nat ->
  exists v (nonce payload : list Z), cid = v :: nonce ++ payload /\ Zlen nonce = 7 /\ Zlen payload = 8.
Proof.
  destruct cid as [|v cid]; [done|]. cbn. intros Hl. exists v, (take 7 cid), (drop 7 cid).
  rewrite take_drop. unfold Zlen. rewrite length_take, length_drop. split_and!; [done|lia..].
Qed.

(** Reading the parts back. *)
Lemma decode_parts codec pre v nonce payload rest : Zlen nonce = 7 -> Zlen payload = 8 ->
  qsr_cid_codec_decode codec (Ptr (pre ++ (v :: nonce ++ payload) ++ rest) (Zlen pre)) 16 =
    if negb (cc_enabled codec) || negb (v =? QSR_CID_ENCODED_VERSION) then Fail QSR_ERR_INVALID else
    match aes128_ctr_crypt (cc_key codec) (build_iv nonce) payload with
    | Ok plaintext =>
        if (default 0 (plaintext !! 0%nat) =? 0) || negb (mem_eq (drop 1 plaintext) QSR_CID_MAGIC 7)
        then Fail QSR_ERR_INVALID else Ok (default 0 (plaintext !! 0%nat))
    | Fail _ => Fail QSR_ERR_INVALID
    | Fault => Fault
    end.
Proof using.
  intros Hn Hp. unfold qsr_cid_codec_decode. destruct (cc_enabled codec); [|done]. cbn [negb orb Z.eqb Pos.eqb].
  change (negb (16 =? QSR_CID_ENCODED_LEN)) with false. cbn iota.
  set (q := Ptr (pre ++ (v :: nonce ++ payload) ++ rest) (Zlen pre)). pose proof (Zlen_nonneg pre) as Hpre.
  assert (H1 : load q 0 = Ok v).
  { apply load_lookup; cbn [p_off p_buf q]; [lia|]. unfold Zlen. rewrite Z.add_0_r, Nat2Z.id, lookup_app_r, Nat.sub_diag by lia. done. }
  assert (H2 : load_bytes (ptr_add q 1) QSR_CID_NONCE_LEN = Ok nonce).
  { unfold q, ptr_add. cbn [p_buf p_off].
    replace (pre ++ (v :: nonce ++ payload) ++ rest) with ((pre ++ [v]) ++ nonce ++ (payload ++ rest))
      by (rewrite <- !app_assoc; cbn; by rewrite <- !app_assoc).
    apply load_bytes_app; [by rewrite Zlen_app|done]. }
  assert (H3 : load_bytes (ptr_add q (1 + QSR_CID_NONCE_LEN)) QSR_CID_PAYLOAD_LEN = Ok payload).
  { unfold q, ptr_add. cbn [p_buf p_off].
    replace (pre ++ (v :: nonce ++ payload) ++ rest) with ((pre ++ v :: nonce) ++ payload ++ rest)
      by (rewrite <- !app_assoc; cbn; by rewrite <- !app_assoc).
    apply load_bytes_app; [rewrite Zlen_app, Zlen_cons, Hn; unfold QSR_CID_NONCE_LEN; lia|done]. }
  rewrite H1. cbn [mbind outcome_bind]. destruct (negb (v =? QSR_CID_ENCODED_VERSION)); [done|].
  rewrite H2, H3. cbn [mbind outcome_bind]. by destruct (aes128_ctr_crypt _ _ _).
Qed.

Lemma magic_payload plaintext : Zlen plaintext = 8 ->
  mem_eq (drop 1 plaintext) QSR_CID_MAGIC 7 = true -> plaintext = default 0 (plaintext !! 0%nat) :: QSR_CID_MAGIC.
Proof.
  intros Hl Hm. destruct plaintext as [|s p]; [done|]. unfold mem_eq in Hm. apply bool_decide_eq_true in Hm.
  cbn [drop] in Hm. change (take (Z.to_nat 7) QSR_CID_MAGIC) with QSR_CID_MAGIC in Hm.
  rewrite drop_0, take_ge in Hm by (unfold Zlen in Hl; cbn [length] in Hl; lia). cbn. by rewrite Hm.
Qed.

(** What decodes is exactly what encoding with some nonce gives. *)
Lemma decode_spec codec p len server_id : readable p len -> 0 < server_id < 256 ->
  qsr_cid_codec_decode codec p len = Ok server_id <->
  exists nonce, Zlen nonce = 7 /\ qsr_cid_codec_encode codec server_id nonce = Ok (range p len).
Proof using ctr_length ctr_inverse.
  intros Hr Hs. pose proof Hr as (Ho & Hlen & Hin). unfold qsr_cid_codec_encode.
  rewrite (proj2 (Z.eqb_neq server_id 0)) by lia. rewrite orb_false_r.
  assert (Hpl : Zlen (server_id :: QSR_CID_MAGIC) = QSR_CID_PAYLOAD_LEN) by done.
  destruct (cc_enabled codec) eqn:Een.
  2: { unfold qsr_cid_codec_decode. rewrite Een. cbn. split; [done|]. by intros (? & _ & ?). }
  assert (Hrl : Zlen (range p len) = len) by (unfold range, Zlen in *; rewrite length_take, length_drop; lia).
  destruct (decide (len = 16)) as [->|Hne].
  2: { unfold qsr_cid_codec_decode. rewrite Een. rewrite (proj2 (Z.eqb_neq len QSR_CID_ENCODED_LEN)) by done. cbn [negb].
       split; [done|]. intros (nonce & Hn & He). inv_ok. rewrite <- He, Zlen_cons, Zlen_app in Hrl.
       apply ctr_crypt_length in E. rewrite Hn, E in Hrl. unfold QSR_CID_PAYLOAD_LEN in Hrl. lia. }
  destruct (cid_parts (range p 16)) as (v & nonce & payload & Hc & Hn & Hp); [unfold Zlen in Hrl; lia|].
  assert (Hbuf : p = Ptr (take (Z.to_nat (p_off p)) (p_buf p) ++ (v :: nonce ++ payload) ++
    drop (Z.to_nat (p_off p) + 16) (p_buf p)) (Zlen (take (Z.to_nat (p_off p)) (p_buf p)))).
  { rewrite <- Hc. destruct p as [buf o]. cbn in *. f_equal.
    - rewrite <- (take_drop (Z.to_nat o) buf) at 1. f_equal. rewrite <- (take_drop 16 (drop (Z.to_nat o) buf)) at 1.
      f_equal. by rewrite drop_drop.
    - unfold Zlen in *. rewrite length_take. lia. }
  rewrite Hbuf, decode_parts by done. rewrite <- Hbuf, Hc, Een. cbn [negb orb].
  destruct (v =? QSR_CID_ENCODED_VERSION) eqn:Ev; bool_to_prop; cbn [negb].
  - subst v. split.
    + destruct (aes128_ctr_crypt _ _ payload) as [plain| |] eqn:Ea; [|done..].
      destruct (_ || _) eqn:Eb; [done|]. intros [= Hsid]. bool_to_prop. exists nonce. split; [done|].
      assert (Hpv : plain = server_id :: QSR_CID_MAGIC).
      { rewrite <- Hsid. apply magic_payload; [by apply (ctr_crypt_length _ _ _ _ Ea)|done]. }
      apply ctr_crypt_inverse in Ea; [|done]. rewrite Hpv in Ea. by rewrite Ea.
    + intros (nonce' & Hn' & He). inv_ok. pose proof (ctr_crypt_length _ _ _ _ E) as Hla.
      assert (nonce' = nonce /\ a = payload) as [-> ->].
      { apply app_inj_1 in He; [done|]. unfold Zlen in *. lia. }
      apply ctr_crypt_inverse in E; [|done]. rewrite E. cbn [default lookup list_lookup].
      change (default 0 ((server_id :: QSR_CID_MAGIC) !! 0%nat)) with server_id. cbn [drop]. change (id server_id) with server_id.
      rewrite (proj2 (Z.eqb_neq server_id 0)) by lia. done.
  - split; [done|]. intros (nonce' & Hn' & He). inv_ok. congruence.
Qed.

Lemma decode_no_fault codec p len : readable p len -> no_fault (qsr_cid_codec_decode codec p len).
Proof using.
  intros Hr. unfold qsr_cid_codec_decode. no_fault_steps; bool_to_prop; unfold QSR_CID_ENCODED_LEN in *; subst.
  - apply (load_no_fault _ 16); [done|lia].
  - apply (load_bytes_no_fault _ 15); [by apply (readable_add _ 16)|unfold QSR_CID_NONCE_LEN; lia].
  - apply (load_bytes_no_fault _ 8); [apply (readable_add _ 16 (1 + QSR_CID_NONCE_LEN)); [done|unfold QSR_CID_NONCE_LEN; lia]|unfold QSR_CID_PAYLOAD_LEN; lia].
  - apply no_fault_or_fail. unfold aes128_ctr_crypt. destruct (aes_128_ctr _ _ _); [split_if|]; done.
Qed.
End codec.

(** ** Hexadecimal keys *)

(** A key as 32 hexadecimal digits, lowercase or uppercase per digit. *)
Definition hex_digit_of (c v : Z) : Prop := hex_nibble c = v /\ 0 <= v < 16.

(** Two digits per byte, high nibble first. *)
Definition hex_of (hex key : list Z) : Prop :=
  length hex = (length key * 2)%nat /\
  forall i b, key !! i = Some b -> exists h l, 
    hex_digit_of (default 0 (hex !! (i * 2)%nat)) h /\ hex_digit_of (default 0 (hex !! (i * 2 + 1)%nat)) l /\ b = h * 16 + l.

Lemma hex_nibble_range c : hex_nibble c < 16 /\ (0 <= hex_nibble c \/ hex_nibble c = -1).
Proof. unfold hex_nibble. repeat split_if; bool_to_prop; lia. Qed.

Lemma hex_loop_spec hex n : forall key i, (i + n = length key)%nat ->
  match hex_loop hex key n i with
  | Some key' => length key' = length key /\ (forall j, (j < i)%nat -> key' !! j = key !! j) /\
      forall j, (i <= j < i + n)%nat -> exists h l, key' !! j = Some (h * 16 + l) /\
        hex_digit_of (default 0 (hex !! (j * 2)%nat)) h /\ hex_digit_of (default 0 (hex !! (j * 2 + 1)%nat)) l
  | None => exists j, (i <= j < i + n)%nat /\
      (hex_nibble (default 0 (hex !! (j * 2)%nat)) < 0 \/ hex_nibble (default 0 (hex !! (j * 2 + 1)%nat)) < 0)
  end.
Proof.
  induction n as [|n IH]; intros key i Hi; cbn [hex_loop]; [split_and!; [done..|lia]|].
  set (hi := hex_nibble (default 0 (hex !! (i * 2)%nat))). set (lo := hex_nibble (default 0 (hex !! (i * 2 + 1)%nat))).
  destruct ((hi <? 0) || (lo <? 0)) eqn:E; bool_to_prop.
  { exists i. split; [lia|]. unfold hi, lo in *. destruct E; bool_to_prop; auto. }
  pose proof (hex_nibble_range (default 0 (hex !! (i * 2)%nat))) as [Hh _]. fold hi in Hh.
  pose proof (hex_nibble_range (default 0 (hex !! (i * 2 + 1)%nat))) as [Hl _]. fold lo in Hl.
  assert (Hb : u8 (Z.lor (u32 (Z.shiftl hi 4)) lo) = hi * 16 + lo).
  { rewrite (wrap_small 32) by (rewrite Z.shiftl_mul_pow2; lia). rewrite lor_shiftl_add by lia. apply wrap_small. lia. }
  rewrite Hb. specialize (IH (<[i := hi * 16 + lo]> key) (i + 1)%nat). rewrite length_insert in IH. specialize (IH ltac:(lia)).
  destruct (hex_loop _ _ _ _) as [key'|].
  - destruct IH as (Hlen & Hlt & Hin). split_and!; [done| |].
    + intros j Hj. rewrite Hlt by lia. by rewrite list_lookup_insert_ne by lia.
    + intros j Hj. destruct (decide (j = i)) as [->|]; [|apply Hin; lia].
      exists hi, lo. rewrite Hlt, list_lookup_insert_eq by lia. unfold hex_digit_of. fold hi lo. split_and!; done || lia.
  - destruct IH as (j & Hj & Hn). exists j. split; [lia|done].
Qed.

Lemma key_from_hex_spec hex :
  let '(codec, status) := qsr_cid_codec_init_from_hex hex in
  (status = QSR_OK /\ cc_enabled codec = true /\ hex_of hex (cc_key codec) /\ Zlen (cc_key codec) = QSR_CID_KEY_LEN) \/
  (status = QSR_ERR_INVALID /\ codec = codec0 /\ forall key, Zlen key = QSR_CID_KEY_LEN -> ~ hex_of hex key).
Proof.
  unfold qsr_cid_codec_init_from_hex.
  destruct (Zlen hex =? QSR_CID_KEY_LEN * 2) eqn:E; bool_to_prop; cbn [negb].
  2: { right. split_and!; [done..|]. intros key Hk [Hl _]. unfold Zlen, QSR_CID_KEY_LEN in *. lia. }
  pose proof (hex_loop_spec hex 16 (zeros 16) 0) as Hloop. rewrite length_zeros in Hloop.
  change (Z.to_nat QSR_CID_KEY_LEN) with 16%nat. change (cc_key codec0) with (zeros 16).
  specialize (Hloop eq_refl). destruct (hex_loop hex (zeros 16) 16 0) as [key|].
  - left. destruct Hloop as (Hlen & _ & Hin). split_and!; [done..| |].
    + split; [unfold Zlen, QSR_CID_KEY_LEN in *; cbn [cc_key]; lia|]. cbn [cc_key]. intros i b Hb.
      pose proof (lookup_lt_Some _ _ _ Hb). destruct (Hin i ltac:(lia)) as (h & l & Hk & Hh & Hl).
      exists h, l. split_and!; [done..|]. congruence.
    + unfold Zlen. cbn [cc_key]. by rewrite Hlen.
  - right. split_and!; [done..|]. intros key Hk [Hl Hdig]. destruct Hloop as (j & Hj & Hneg).
    destruct (lookup_lt_is_Some_2 key j) as [b Hb]; [unfold Zlen, QSR_CID_KEY_LEN in *; lia|].
    destruct (Hdig j b Hb) as (h & l & [Hh ?] & [Hlo ?] & _). lia.
Qed.

(** ** Properties *)

(** C40: With a key loaded, a connection ID decodes to a server id exactly when
    it is the encoding of that id under some nonce; decoding never reads outside the ID. *)
Theorem cid_decode_exact aes_128_ctr codec p len server_id :
  (forall key iv a b, aes_128_ctr key iv a = Some b -> length b = length a) ->
  (forall key iv a b, aes_128_ctr key iv a = Some b -> aes_128_ctr key iv b = Some a) ->
  readable p len -> 0 < server_id < 256 ->
  no_fault (qsr_cid_codec_decode aes_128_ctr codec p len) /\
  (qsr_cid_codec_decode aes_128_ctr codec p len = Ok server_id <->
   exists nonce, Zlen nonce = QSR_CID_NONCE_LEN /\ qsr_cid_codec_encode aes_128_ctr codec server_id nonce = Ok (range p len)).
Proof. intros Hl Hi Hr Hs. split; [by apply decode_no_fault|by apply decode_spec]. Qed.

(** A hexadecimal key is accepted exactly when it has 32 digits, and it is
    then the key with those digits; otherwise the codec stays disabled and zeroed. *)
Theorem cid_key_from_hex hex :
  let '(codec, status) := qsr_cid_codec_init_from_hex hex in
  (status = QSR_OK /\ cc_enabled codec = true /\ hex_of hex (cc_key codec) /\ Zlen (cc_key codec) = QSR_CID_KEY_LEN) \/
  (status = QSR_ERR_INVALID /\ codec = codec0 /\ forall key, Zlen key = QSR_CID_KEY_LEN -> ~ hex_of hex key).
Proof. apply key_from_hex_spec. Qed.

(** ** Witnesses *)

(** A counter mode with a constant key stream. *)
Definition demo_ctr (key iv input : list Z) : option (list Z) := Some (Z.lxor 0x5a <$> input).

Definition demo_codec : qsr_cid_codec := {| cc_key := zeros 16; cc_enabled := true |}.

Definition demo_cid : list Z := 0x4f :: [1; 2; 3; 4; 5; 6; 7] ++ (Z.lxor 0x5a <$> 9 :: QSR_CID_MAGIC).

Lemma demo_ctr_length key iv a b : demo_ctr key iv a = Some b -> length b = length a.
Proof. intros [= <-]. apply length_fmap. Qed.

Lemma demo_ctr_inverse key iv a b : demo_ctr key iv a = Some b -> demo_ctr key iv b = Some a.
Proof.
  intros [= <-]. unfold demo_ctr. f_equal. rewrite <- list_fmap_compose. transitivity (id <$> a); [|apply list_fmap_id].
  apply list_fmap_ext. intros i x _. cbn. by rewrite <- Z.lxor_assoc, Z.lxor_nilpotent, Z.lxor_0_l.
Qed.

Lemma cid_decode_exact_witness :
  qsr_cid_codec_decode demo_ctr demo_codec (Ptr demo_cid 0) 16 = Ok 9.
Proof.
  destruct (cid_decode_exact demo_ctr demo_codec (Ptr demo_cid 0) 16 9 demo_ctr_length demo_ctr_inverse) as [_ Hd];
    [z_concrete|lia|].
  apply Hd. exists [1; 2; 3; 4; 5; 6; 7]. split; reflexivity.
Defined.
