(* ===== verification/Config.v ===== *)
(** * The configuration loader

    [src/config.c]: defaults, the numeric and scalar readers, one parser per
    section of the document, and the load. libyaml is a parameter: what the
    code reads of a parsed document is the class [Yaml], what opening and
    parsing the file gives is [config_source]. The numbers are read by
    [strtoul] of the C library, which is modelled here. *)

From Stdlib Require Import String Ascii.
From stdpp Require Import gmap.
From S2P Require Import Prelude Hash Hostname Probe SessionKey RouteTable CidCodec.
#[local] Open Scope Z_scope.

(** ** Strings of the C library *)

(** A string literal as its bytes. *)
Definition str (s : string) : list Z := (fun c => Z.of_N (N_of_ascii c)) <$> list_ascii_of_string s.

(** [strcmp(a, b) == 0] *)
Definition streq (a b : list Z) : bool := bool_decide (a = b).

(** [isspace] in the C locale. *)
Definition isspace (c : Z) : bool := (c =? 32) || ((9 <=? c) && (c <=? 13)).
Definition isdigit (c : Z) : bool := (48 <=? c) && (c <=? 57).

Fixpoint skip_spaces (text : list Z) : list Z :=
  match text with
  | c :: rest => if isspace c then skip_spaces rest else text
  | [] => []
  end.

(** An optional sign: whether it is a minus, and what follows. *)
Definition read_sign (text : list Z) : bool * list Z :=
  match text with
  | c :: rest => if c =? 45 then (true, rest) else if c =? 43 then (false, rest) else (false, text)
  | [] => (false, [])
  end.

(** The digits at the front, as a number continuing [acc], and what follows them. *)
Fixpoint read_digits (acc : Z) (text : list Z) : Z * list Z :=
  match text with
  | c :: rest => if isdigit c then read_digits (acc * 10 + (c - 48)) rest else (acc, text)
  | [] => (acc, [])
  end.

Definition ULONG_MAX : Z := 2 ^ 64 - 1.

(** [strtoul(text, &end, 10)], and [strtoull] on 64-bit targets: the value, the
    string at [end] and whether [errno] is set. Without a digit [end] is [text];
    a magnitude above [ULONG_MAX] is [ERANGE]; a minus sign negates modulo 2^64. *)
Definition strtoul (text : list Z) : Z * list Z * bool :=
  let '(negative, digits) := read_sign (skip_spaces text) in
  let '(value, rest) := read_digits 0 digits in
  if (length rest =? length digits)%nat then (0, text, false)
  else if ULONG_MAX <? value then (ULONG_MAX, rest, true)
  else (if negative then u64 (- value) else value, rest, false).

(** ** Numbers and scalars *)

Definition parse_u32 (text : list Z) (min max : Z) : outcome Z :=
  if (length text =? 0)%nat then Fail QSR_ERR_INVALID else
  let '(value, rest, errno) := strtoul text in
  if errno || (length rest =? length text)%nat || (value <? min) || (max <? value) then Fail QSR_ERR_INVALID else
  if negb (length rest =? 0)%nat && negb (streq rest (str "s")) then Fail QSR_ERR_INVALID else
  Ok (u32 value).

Definition parse_size (text : list Z) (min max : Z) : outcome Z :=
  if (length text =? 0)%nat then Fail QSR_ERR_INVALID else
  let '(value, rest, errno) := strtoul text in
  if errno || (length rest =? length text)%nat || negb (length rest =? 0)%nat || (value <? min) || (max <? value)
  then Fail QSR_ERR_INVALID else Ok value.

Definition parse_bool (text : list Z) : outcome bool :=
  if streq text (str "true") then Ok true
  else if streq text (str "false") then Ok false
  else Fail QSR_ERR_INVALID.

Definition parse_port (text : list Z) : outcome Z := value ← parse_u32 text 1 65535; Ok (u16 value).

(** ** The document *)

(** A [yaml_node_t], as far as it is read: the bytes of a scalar, the pairs of
    node numbers of a mapping. *)
Inductive yaml_node :=
  | YAML_SCALAR_NODE (value : list Z)
  | YAML_SEQUENCE_NODE
  | YAML_MAPPING_NODE (pairs : list (Z * Z)).

(** [None] is the null pointer: no such node, an empty document. *)
Class Yaml := {
  yaml_document : Type;
  yaml_document_get_node : yaml_document -> Z -> option yaml_node;
  yaml_document_get_root_node : yaml_document -> option yaml_node;
}.

(** What is written to [out]; the array is left alone on failure. *)
Definition copy_scalar (node : option yaml_node) (out_max : Z) : outcome (list Z) :=
  match node with
  | Some (YAML_SCALAR_NODE value) =>
      if out_max <? uadd (Zlen value) 1 then Fail QSR_ERR_INVALID
      else if bool_decide (0 ∈ value) then Fail QSR_ERR_INVALID
      else Ok value
  | _ => Fail QSR_ERR_INVALID
  end.

(** ** The configuration *)

Record qsr_config := {
  c_listen_udp : list Z;
  c_idle_timeout_seconds : Z;
  c_max_sessions : Z;
  c_log_connections : bool;
  c_routes : qsr_route_table;
  c_cid_codec : qsr_cid_codec;
}.

Definition qsr_config_default : qsr_config := {|
  c_listen_udp := str ":443"; c_idle_timeout_seconds := 60; c_max_sessions := QSR_MAX_SESSIONS_DEFAULT;
  c_log_connections := false; c_routes := qsr_route_table_init; c_cid_codec := codec0 |}.

Definition set_listen_udp (c : qsr_config) (v : list Z) : qsr_config := {|
  c_listen_udp := v; c_idle_timeout_seconds := c_idle_timeout_seconds c; c_max_sessions := c_max_sessions c;
  c_log_connections := c_log_connections c; c_routes := c_routes c; c_cid_codec := c_cid_codec c |}.
Definition set_idle_timeout (c : qsr_config) (v : Z) : qsr_config := {|
  c_listen_udp := c_listen_udp c; c_idle_timeout_seconds := v; c_max_sessions := c_max_sessions c;
  c_log_connections := c_log_connections c; c_routes := c_routes c; c_cid_codec := c_cid_codec c |}.
Definition set_max_sessions (c : qsr_config) (v : Z) : qsr_config := {|
  c_listen_udp := c_listen_udp c; c_idle_timeout_seconds := c_idle_timeout_seconds c; c_max_sessions := v;
  c_log_connections := c_log_connections c; c_routes := c_routes c; c_cid_codec := c_cid_codec c |}.
Definition set_log_connections (c : qsr_config) (v : bool) : qsr_config := {|
  c_listen_udp := c_listen_udp c; c_idle_timeout_seconds := c_idle_timeout_seconds c;
  c_max_sessions := c_max_sessions c; c_log_connections := v; c_routes := c_routes c; c_cid_codec := c_cid_codec c |}.
Definition set_routes (c : qsr_config) (v : qsr_route_table) : qsr_config := {|
  c_listen_udp := c_listen_udp c; c_idle_timeout_seconds := c_idle_timeout_seconds c;
  c_max_sessions := c_max_sessions c; c_log_connections := c_log_connections c; c_routes := v;
  c_cid_codec := c_cid_codec c |}.
Definition set_cid_codec (c : qsr_config) (v : qsr_cid_codec) : qsr_config := {|
  c_listen_udp := c_listen_udp c; c_idle_timeout_seconds := c_idle_timeout_seconds c;
  c_max_sessions := c_max_sessions c; c_log_connections := c_log_connections c; c_routes := c_routes c;
  c_cid_codec := v |}.

(** The caller's [status = f(..., &field)] for a reader [m] of a value, and the field stored on success. *)
Definition store {S A} (s : S) (set : S -> A -> S) (m : outcome A) : S * qsr_status :=
  match m with
  | Ok a => (set s a, QSR_OK)
  | Fail status => (s, status)
  | Fault => (s, QSR_ERR_INVALID)
  end.

Section parsers.
Context `{KeyedHash} `{Yaml}.

(** [for (pair = pairs.start; pair < pairs.top; pair++)] over the keys and
    values of a mapping, leaving at the first status that is not [QSR_OK]. *)
Fixpoint for_pairs {S} (doc : yaml_document) (body : S -> option yaml_node -> option yaml_node -> S * qsr_status)
    (pairs : list (Z * Z)) (s : S) : S * qsr_status :=
  match pairs with
  | [] => (s, QSR_OK)
  | (key, value) :: pairs =>
      let '(s, status) := body s (yaml_document_get_node doc key) (yaml_document_get_node doc value) in
      if bool_decide (status = QSR_OK) then for_pairs doc body pairs s else (s, status)
  end.

(** [if (node == nullptr || node->type != YAML_MAPPING_NODE) return QSR_ERR_INVALID;] and the loop. *)
Definition for_mapping {S} (doc : yaml_document) (node : option yaml_node)
    (body : S -> option yaml_node -> option yaml_node -> S * qsr_status) (s : S) : S * qsr_status :=
  match node with
  | Some (YAML_MAPPING_NODE pairs) => for_pairs doc body pairs s
  | _ => (s, QSR_ERR_INVALID)
  end.

Definition listen_pair (config : qsr_config) (k v : option yaml_node) : qsr_config * qsr_status :=
  match copy_scalar k 16 with
  | Ok key =>
      if negb (streq key (str "udp")) then (config, QSR_ERR_INVALID) else
      match copy_scalar v QSR_MAX_LISTEN_ADDR_LEN with
      | Ok value =>
          let config := set_listen_udp config value in
          if (length value =? 0)%nat then (config, QSR_ERR_INVALID) else (config, QSR_OK)
      | _ => (config, QSR_ERR_INVALID)
      end
  | _ => (config, QSR_ERR_INVALID)
  end.

Definition parse_listen (doc : yaml_document) (node : option yaml_node) (config : qsr_config) : qsr_config * qsr_status :=
  for_mapping doc node listen_pair config.

Definition sessions_pair (config : qsr_config) (k v : option yaml_node) : qsr_config * qsr_status :=
  match copy_scalar k 32 with
  | Ok key =>
      match copy_scalar v 32 with
      | Ok value =>
          if streq key (str "idleTimeout") then store config set_idle_timeout (parse_u32 value 1 86400)
          else if streq key (str "maxSessions") then
            store config set_max_sessions (parse_size value 1 (QSR_MAX_SESSIONS_DEFAULT * 10))
          else (config, QSR_ERR_INVALID)
      | _ => (config, QSR_ERR_INVALID)
      end
  | _ => (config, QSR_ERR_INVALID)
  end.

Definition parse_sessions (doc : yaml_document) (node : option yaml_node) (config : qsr_config) :
    qsr_config * qsr_status :=
  for_mapping doc node sessions_pair config.

(** The locals [host], [port] and [server_id] of [parse_route_body]. *)
Definition route_locals : Type := list Z * Z * Z.

Definition route_pair (locals : route_locals) (k v : option yaml_node) : route_locals * qsr_status :=
  let '(host, port, server_id) := locals in
  match copy_scalar k 16 with
  | Ok key =>
      if streq key (str "host") then
        match copy_scalar v (QSR_MAX_ADDR_LEN + 1) with
        | Ok value => ((value, port, server_id), if (length value =? 0)%nat then QSR_ERR_INVALID else QSR_OK)
        | _ => (locals, QSR_ERR_INVALID)
        end
      else if streq key (str "port") then
        store locals (fun l port => let '(host, _, server_id) := l in (host, port, server_id))
          (port_text ← copy_scalar v 16; parse_port port_text)
      else if streq key (str "serverId") then
        store locals (fun l sid => let '(host, port, _) := l in (host, port, u8 sid))
          (sid_text ← copy_scalar v 8; parse_u32 sid_text 1 255)
      else (locals, QSR_ERR_INVALID)
  | _ => (locals, QSR_ERR_INVALID)
  end.

Definition parse_route_body (doc : yaml_document) (node : option yaml_node) (config : qsr_config) (sni : list Z) :
    qsr_config * qsr_status :=
  let '((host, port, server_id), status) := for_mapping doc node route_pair ([], 0, 0) in
  if negb (bool_decide (status = QSR_OK)) then (config, status) else
  if (length host =? 0)%nat || (port =? 0) then (config, QSR_ERR_INVALID) else
  let '(routes, status) := qsr_route_table_add (c_routes config) sni host port server_id in
  (set_routes config routes, status).

Definition logging_pair (config : qsr_config) (k v : option yaml_node) : qsr_config * qsr_status :=
  match copy_scalar k 16 with
  | Ok key =>
      match copy_scalar v 16 with
      | Ok value =>
          if streq key (str "connections") then store config set_log_connections (parse_bool value)
          else (config, QSR_ERR_INVALID)
      | _ => (config, QSR_ERR_INVALID)
      end
  | _ => (config, QSR_ERR_INVALID)
  end.

Definition parse_logging (doc : yaml_document) (node : option yaml_node) (config : qsr_config) :
    qsr_config * qsr_status :=
  for_mapping doc node logging_pair config.

Definition cid_encoding_pair (key_hex : list Z) (k v : option yaml_node) : list Z * qsr_status :=
  match copy_scalar k 16 with
  | Ok key =>
      if streq key (str "key") then store key_hex (fun _ hex => hex) (copy_scalar v (QSR_CID_KEY_LEN * 2 + 1))
      else (key_hex, QSR_ERR_INVALID)
  | _ => (key_hex, QSR_ERR_INVALID)
  end.

Definition parse_cid_encoding (doc : yaml_document) (node : option yaml_node) (config : qsr_config) :
    qsr_config * qsr_status :=
  let '(key_hex, status) := for_mapping doc node cid_encoding_pair [] in
  if negb (bool_decide (status = QSR_OK)) then (config, status) else
  if (length key_hex =? 0)%nat then (config, QSR_ERR_INVALID) else
  let '(codec, status) := qsr_cid_codec_init_from_hex key_hex in
  (set_cid_codec config codec, status).

Definition routes_pair (doc : yaml_document) (config : qsr_config) (k v : option yaml_node) : qsr_config * qsr_status :=
  match copy_scalar k (QSR_MAX_HOSTNAME_LEN + 1) with
  | Ok sni => if (length sni =? 0)%nat then (config, QSR_ERR_INVALID) else parse_route_body doc v config sni
  | _ => (config, QSR_ERR_INVALID)
  end.

Definition parse_routes (doc : yaml_document) (node : option yaml_node) (config : qsr_config) :
    qsr_config * qsr_status :=
  for_mapping doc node (routes_pair doc) config.

Definition root_pair (doc : yaml_document) (config : qsr_config) (k v : option yaml_node) : qsr_config * qsr_status :=
  match copy_scalar k 16 with
  | Ok key =>
      if streq key (str "listen") then parse_listen doc v config
      else if streq key (str "sessions") then parse_sessions doc v config
      else if streq key (str "routes") then parse_routes doc v config
      else if streq key (str "cidEncoding") then parse_cid_encoding doc v config
      else if streq key (str "logging") then parse_logging doc v config
      else (config, QSR_ERR_INVALID)
  | _ => (config, QSR_ERR_INVALID)
  end.

Definition parse_root (doc : yaml_document) (config : qsr_config) : qsr_config * qsr_status :=
  match yaml_document_get_root_node doc with
  | None => (config, QSR_OK)
  | node => for_mapping doc node (root_pair doc) config
  end.

(** What [fopen], [yaml_parser_initialize] and [yaml_parser_load] give for a path. *)
Inductive config_source :=
  | FopenFailed (enoent : bool)
  | ParserFailed
  | LoadFailed
  | Loaded (document : yaml_document).

Definition qsr_config_load (open : list Z -> config_source) (path : list Z) : qsr_config * qsr_status :=
  let config := qsr_config_default in
  match open path with
  | FopenFailed enoent => (config, if enoent then QSR_ERR_NOT_FOUND else QSR_ERR_INVALID)
  | ParserFailed => (config, QSR_ERR_INVALID)
  | LoadFailed => (config, QSR_ERR_INVALID)
  | Loaded document => parse_root document config
  end.
End parsers.

(** ** Numerals

    The texts [strtoul] converts, and the number it makes of them. *)

Definition digits_value (acc : Z) (digits : list Z) : Z := foldl (fun acc c => acc * 10 + (c - 48)) acc digits.

Definition starts_with (f : Z -> bool) (text : list Z) : bool :=
  match text with c :: _ => f c | [] => false end.

(** White space, an optional sign, digits, and what is left. *)
Record numeral (text : list Z) (negative : bool) (digits rest : list Z) : Prop := {
  nu_text : exists spaces sign, text = spaces ++ sign ++ digits ++ rest /\ Forall (fun c => isspace c = true) spaces /\
    (if negative then sign = [45] else sign = [] \/ sign = [43]);
  nu_digits : digits <> [] /\ Forall (fun c => isdigit c = true) digits;
  nu_rest : starts_with isdigit rest = false;
}.

(** The value of a numeral: a minus sign negates modulo 2^64. *)
Definition numeral_value (negative : bool) (digits : list Z) : Z :=
  if negative then u64 (- digits_value 0 digits) else digits_value 0 digits.

Lemma isdigit_spec c : isdigit c = true <-> 48 <= c <= 57.
Proof. unfold isdigit. rewrite andb_true_iff, !Z.leb_le. done. Qed.

Lemma isdigit_other c : isdigit c = true -> isspace c = false /\ c <> 45 /\ c <> 43.
Proof. rewrite isdigit_spec. unfold isspace. intros. split; [zbool|lia]. Qed.

Lemma digits_value_nonneg digits : forall acc, 0 <= acc -> Forall (fun c => isdigit c = true) digits ->
  0 <= digits_value acc digits.
Proof.
  induction digits as [|c digits IH]; intros acc Ha Hd; [done|]. inversion_clear Hd as [|? ? Hc Hr].
  apply isdigit_spec in Hc. apply IH; [lia|done].
Qed.

Lemma skip_spaces_app spaces text : Forall (fun c => isspace c = true) spaces -> starts_with isspace text = false ->
  skip_spaces (spaces ++ text) = text.
Proof.
  induction 1 as [|c spaces Hc _ IH]; intros Ht; cbn [app skip_spaces]; [|by rewrite Hc; apply IH].
  destruct text as [|c text]; [done|]. cbn in *. by rewrite Ht.
Qed.

Lemma skip_spaces_split text : exists spaces, Forall (fun c => isspace c = true) spaces /\ text = spaces ++ skip_spaces text.
Proof.
  induction text as [|c text (spaces & Hs & Ht)]; [by exists []|]. cbn [skip_spaces]. destruct (isspace c) eqn:E.
  - exists (c :: spaces). split; [by constructor|]. cbn. by f_equal.
  - by exists [].
Qed.

Lemma read_digits_app digits rest : forall acc, Forall (fun c => isdigit c = true) digits ->
  starts_with isdigit rest = false -> read_digits acc (digits ++ rest) = (digits_value acc digits, rest).
Proof.
  induction digits as [|c digits IH]; intros acc Hd Hr; cbn [app read_digits].
  - destruct rest as [|c rest]; [done|]. cbn in *. by rewrite Hr.
  - inversion_clear Hd as [|? ? Hc Hd']. rewrite Hc. by apply IH.
Qed.

Lemma read_digits_split text : exists digits rest, Forall (fun c => isdigit c = true) digits /\
  starts_with isdigit rest = false /\ text = digits ++ rest.
Proof.
  induction text as [|c text (digits & rest & Hd & Hr & ->)]; [by exists [], []|]. destruct (isdigit c) eqn:E.
  - exists (c :: digits), rest. split_and!; [by constructor|done..].
  - by exists [], (c :: digits ++ rest).
Qed.

(** A numeral is what is read: the sign, then the digits. *)
Lemma numeral_read text negative digits rest : numeral text negative digits rest ->
  read_sign (skip_spaces text) = (negative, digits ++ rest) /\
  read_digits 0 (digits ++ rest) = (digits_value 0 digits, rest).
Proof.
  intros [(spaces & sign & -> & Hs & Hsign) [Hne Hd] Hr]. split; [|by apply read_digits_app].
  destruct digits as [|d digits]; [done|]. inversion_clear Hd as [|? ? Hd1 _].
  destruct (isdigit_other d Hd1) as (Hsp & Hm & Hp).
  rewrite skip_spaces_app; [|done|destruct negative; [by subst|by destruct Hsign as [-> | ->]]].
  destruct negative; [by subst|]. destruct Hsign as [-> | ->]; [|done]. cbn [app read_sign].
  by rewrite (proj2 (Z.eqb_neq _ _) Hm), (proj2 (Z.eqb_neq _ _) Hp).
Qed.

Lemma read_numeral text negative digits rest : read_sign (skip_spaces text) = (negative, digits ++ rest) ->
  Forall (fun c => isdigit c = true) digits -> digits <> [] -> starts_with isdigit rest = false ->
  numeral text negative digits rest.
Proof.
  intros Es Hd Hne Hr. split; [|done..]. destruct (skip_spaces_split text) as (spaces & Hs & Ht). exists spaces.
  rewrite Ht. destruct (skip_spaces text) as [|c text']; [cbn in Es; simplify_eq; by destruct digits|].
  cbn in Es. destruct (c =? 45) eqn:E; bool_to_prop; simplify_eq; [by exists [45]|].
  destruct (c =? 43) eqn:E'; bool_to_prop; simplify_eq; [exists [43]; auto|].
  exists []. split_and!; [cbn; congruence|done|by left].
Qed.

(** A text starts with a numeral or [strtoul] converts nothing. *)
Lemma strtoul_spec text :
  (exists negative digits rest, numeral text negative digits rest /\
     (length rest < length text)%nat /\
     strtoul text = if ULONG_MAX <? digits_value 0 digits then (ULONG_MAX, rest, true)
                    else (numeral_value negative digits, rest, false)) \/
  (forall negative digits rest, ~ numeral text negative digits rest) /\ strtoul text = (0, text, false).
Proof.
  unfold strtoul. destruct (read_sign (skip_spaces text)) as [negative ds] eqn:Es.
  destruct (read_digits_split ds) as (digits & rest & Hd & Hr & ->). rewrite read_digits_app by done.
  destruct (decide (digits = [])) as [->|Hne].
  - right. cbn [app] in *. rewrite Nat.eqb_refl. split; [|done]. intros n d r Hn.
    destruct (numeral_read _ _ _ _ Hn) as [Hs _]. rewrite Es in Hs. injection Hs as _ ->.
    destruct (nu_digits _ _ _ _ Hn) as [Hne Hd']. destruct Hd'; [done|]. cbn in Hr. congruence.
  - left. exists negative, digits, rest. pose proof (read_numeral _ _ _ _ Es Hd Hne Hr) as Hn.
    assert (0 < length digits)%nat by (destruct digits; cbn; [done|lia]). split_and!; [done| |].
    + destruct (nu_text _ _ _ _ Hn) as (spaces & sign & -> & _). rewrite !length_app. lia.
    + rewrite (proj2 (Nat.eqb_neq _ _)) by (rewrite length_app; lia). unfold numeral_value. by split_if.
Qed.

Lemma numeral_functional text n1 d1 r1 n2 d2 r2 : numeral text n1 d1 r1 -> numeral text n2 d2 r2 ->
  n1 = n2 /\ d1 = d2 /\ r1 = r2.
Proof.
  intros [Hs1 Hr1]%numeral_read [Hs2 Hr2]%numeral_read. rewrite Hs1 in Hs2. injection Hs2 as <- Heq.
  rewrite <- Heq, Hr1 in Hr2. injection Hr2 as _ <-. split_and!; [done| |done]. by apply app_inv_tail in Heq.
Qed.

(** The whole text is a numeral in range and one of the allowed suffixes. *)
Definition number_in (suffixes : list (list Z)) (text : list Z) (min max v : Z) : Prop :=
  exists negative digits suffix, numeral text negative digits suffix /\ suffix ∈ suffixes /\
    digits_value 0 digits <= ULONG_MAX /\ v = numeral_value negative digits /\ min <= v <= max.

Lemma number_in_ok suffixes text min max v : number_in suffixes text min max v ->
  (length text =? 0)%nat = false /\
  exists rest, strtoul text = (v, rest, false) /\ rest ∈ suffixes /\ (length rest =? length text)%nat = false /\
    (v <? min) = false /\ (max <? v) = false.
Proof.
  intros (n & d & suffix & Hn & Hin & Hmax & -> & Hv).
  destruct (strtoul_spec text) as [(n' & d' & r' & Hn' & Hl & Hst)|[Hno _]]; [|by destruct (Hno _ _ _ Hn)].
  destruct (numeral_functional _ _ _ _ _ _ _ Hn Hn') as (<- & <- & <-).
  rewrite (proj2 (Z.ltb_ge _ _)) in Hst by lia.
  split; [apply Nat.eqb_neq; lia|]. exists suffix. rewrite Hst. split_and!; [done..|apply Nat.eqb_neq; lia|zbool|zbool].
Qed.

Lemma parse_u32_spec text min max v : 0 <= min -> max < 2 ^ 32 ->
  parse_u32 text min max = Ok v <-> number_in [[]; str "s"] text min max v.
Proof.
  intros Hmin Hmax. unfold parse_u32. split.
  - destruct (length text =? 0)%nat eqn:E0; [done|].
    destruct (strtoul_spec text) as [(n & d & r & Hn & Hl & Hst)|[_ Hst]]; rewrite Hst.
    2: { by rewrite Nat.eqb_refl. }
    destruct (ULONG_MAX <? digits_value 0 d) eqn:E; [done|]. cbn [orb].
    destruct (_ || _ || _) eqn:Er; [done|]. destruct (_ && _) eqn:Es; [done|]. intros [= <-]. bool_to_prop.
    exists n, d, r. rewrite wrap_small by lia. split_and!; try done; try lia.
    destruct Es as [Es|Es]; bool_to_prop.
    + apply Nat.eqb_eq, nil_length_inv in Es. subst. left.
    + unfold streq in Es. bool_to_prop. subst. right. left.
  - intros (-> & rest & -> & Hin & -> & Hlo & Hhi)%number_in_ok. rewrite Hlo, Hhi. cbn [orb]. bool_to_prop.
    rewrite wrap_small by lia. apply elem_of_cons in Hin as [->|[->|[]%elem_of_nil]%elem_of_cons]; done.
Qed.

Lemma parse_size_spec text min max v :
  parse_size text min max = Ok v <-> number_in [[]] text min max v.
Proof.
  unfold parse_size. split.
  - destruct (length text =? 0)%nat eqn:E0; [done|].
    destruct (strtoul_spec text) as [(n & d & r & Hn & Hl & Hst)|[_ Hst]]; rewrite Hst.
    2: { by rewrite Nat.eqb_refl. }
    destruct (ULONG_MAX <? digits_value 0 d) eqn:E; [done|]. cbn [orb].
    destruct (_ || _ || _ || _) eqn:Er; [done|]. intros [= <-]. bool_to_prop.
    exists n, d, r. split_and!; try done; try lia.
    match goal with H : (length r =? 0)%nat = true |- _ => apply Nat.eqb_eq, nil_length_inv in H end. subst. left.
  - intros (-> & rest & -> & Hin & -> & Hlo & Hhi)%number_in_ok. rewrite Hlo, Hhi. cbn [orb].
    apply elem_of_cons in Hin as [->|[]%elem_of_nil]. done.
Qed.

Lemma parse_u32_status text min max s : parse_u32 text min max = Fail s -> s = QSR_ERR_INVALID.
Proof. unfold parse_u32. destruct (strtoul text) as [[value rest] errno]. intros. repeat split_if; congruence. Qed.

Lemma parse_size_status text min max s : parse_size text min max = Fail s -> s = QSR_ERR_INVALID.
Proof. unfold parse_size. destruct (strtoul text) as [[value rest] errno]. intros. repeat split_if; congruence. Qed.

Lemma copy_scalar_spec node n v : 0 <= n < 2 ^ 63 ->
  copy_scalar node n = Ok v -> node = Some (YAML_SCALAR_NODE v) /\ ~ 0 ∈ v /\ (Zlen v < 2 ^ 63 -> Zlen v < n).
Proof.
  intros Hn. unfold copy_scalar. destruct node as [[value| |]|]; try done.
  destruct (n <? uadd (Zlen value) 1) eqn:E; [done|]. case_bool_decide as Hz; [done|]. intros [= <-].
  bool_to_prop. split_and!; [done..|]. intros Hl. pose proof (Zlen_nonneg value).
  rewrite uadd_small in E by lia. lia.
Qed.

(** ** What a loaded configuration satisfies *)

(** A non-empty NUL-terminated string in an array of [size] bytes. *)
Definition cstring (size : Z) (s : list Z) : Prop := s <> [] /\ ~ 0 ∈ s /\ Zlen s < size.

Record entry_ok (e : route_entry) : Prop := {
  eo_sni : cstring (QSR_MAX_HOSTNAME_LEN + 1) (e_sni e);
  eo_host : cstring (QSR_MAX_ADDR_LEN + 1) (e_host e);
  eo_port : 1 <= e_port e <= 65535;
  eo_server_id : 0 <= e_server_id e <= 255;
}.

Section loading.
Context `{KeyedHash} `{Yaml}.

(** Every field in its range, and a route table made of well-formed entries. *)
Record config_ok (c : qsr_config) : Prop := {
  co_listen : cstring QSR_MAX_LISTEN_ADDR_LEN (c_listen_udp c);
  co_idle : 1 <= c_idle_timeout_seconds c <= 86400;
  co_max : 1 <= c_max_sessions c <= 1000000;
  co_routes : exists entries, configure entries = Some (c_routes c) /\ Forall entry_ok entries;
  co_codec : if cc_enabled (c_cid_codec c) then Zlen (cc_key (c_cid_codec c)) = QSR_CID_KEY_LEN
             else c_cid_codec c = codec0;
}.

Lemma config_ok_routes c : config_ok c -> route_wf (c_routes c).
Proof.
  intros Hok. destruct (co_routes c Hok) as (entries & Hc & He).
  apply (configure_spec entries) in Hc; [apply Hc|]. eapply list.Forall_impl; [exact He|]. intros e [_ _ _ Hs]. lia.
Qed.

Lemma config_ok_default : config_ok qsr_config_default.
Proof.
  split; cbn; unfold QSR_MAX_SESSIONS_DEFAULT; try lia; try done.
  - split_and!; [done| |done]. rewrite !elem_of_cons, elem_of_nil. lia.
  - by exists [].
Qed.

(** An object is smaller than half the address space, so a scalar's length plus one does not wrap. *)
Class YamlLaws : Prop := {
  yaml_scalar_length doc i v : yaml_document_get_node doc i = Some (YAML_SCALAR_NODE v) -> Zlen v < 2 ^ 63;
}.

Lemma for_pairs_inv {S} (P : S -> Prop) doc body pairs : forall (s s' : S),
  (forall s k v s', P s -> body s (yaml_document_get_node doc k) (yaml_document_get_node doc v) = (s', QSR_OK) -> P s') ->
  P s -> for_pairs doc body pairs s = (s', QSR_OK) -> P s'.
Proof.
  induction pairs as [|[k v] pairs IH]; intros s s' Hb Hs; cbn [for_pairs]; [by intros [= <-]|].
  destruct (body s _ _) as [s1 status] eqn:Eb. case_bool_decide as Hst; [|by intros [= _ ?]].
  subst status. apply IH; [done|by eapply Hb].
Qed.

Lemma for_mapping_inv {S} (P : S -> Prop) doc node body (s s' : S) :
  (forall s k v s', P s -> body s (yaml_document_get_node doc k) (yaml_document_get_node doc v) = (s', QSR_OK) -> P s') ->
  P s -> for_mapping doc node body s = (s', QSR_OK) -> P s'.
Proof. unfold for_mapping. destruct node as [[]|]; try done. apply for_pairs_inv. Qed.

Context `{YamlLaws}.

Lemma copy_scalar_get doc i n v : 0 <= n < 2 ^ 63 ->
  copy_scalar (yaml_document_get_node doc i) n = Ok v -> ~ 0 ∈ v /\ Zlen v < n.
Proof. intros Hn Hc. apply copy_scalar_spec in Hc as (Hg & Hz & Hl); [|done]. apply yaml_scalar_length in Hg. auto. Qed.

Lemma copy_scalar_string doc i n v : 0 <= n < 2 ^ 63 -> (length v =? 0)%nat = false ->
  copy_scalar (yaml_document_get_node doc i) n = Ok v -> cstring n v.
Proof. intros Hn He Hc%copy_scalar_get; [|done]. split; [|done]. by intros ->. Qed.

Lemma listen_inv doc c k v c' : config_ok c ->
  listen_pair c (yaml_document_get_node doc k) (yaml_document_get_node doc v) = (c', QSR_OK) -> config_ok c'.
Proof.
  intros Hok. unfold listen_pair. destruct (copy_scalar _ 16); [|done..]. split_if; [done|].
  destruct (copy_scalar (yaml_document_get_node doc v) _) eqn:E; [|done..]. split_if; [done|]. intros [= <-].
  destruct Hok. split; cbn; [|done..]. by eapply copy_scalar_string.
Qed.

Lemma sessions_inv doc c k v c' : config_ok c ->
  sessions_pair c (yaml_document_get_node doc k) (yaml_document_get_node doc v) = (c', QSR_OK) -> config_ok c'.
Proof.
  intros Hok. unfold sessions_pair. destruct (copy_scalar _ 32); [|done..]. destruct (copy_scalar _ 32) as [value| |]; [|done..].
  split_if; [|split_if; [|done]]; unfold store.
  - destruct (parse_u32 _ _ _) as [n|s|] eqn:E; [|apply parse_u32_status in E; by subst|done]. intros [= <-].
    apply parse_u32_spec in E as (? & ? & ? & _ & _ & _ & _ & ?); [|lia..]. destruct Hok. by split.
  - destruct (parse_size _ _ _) as [n|s|] eqn:E; [|apply parse_size_status in E; by subst|done]. intros [= <-].
    apply parse_size_spec in E as (? & ? & ? & _ & _ & _ & _ & ?). unfold QSR_MAX_SESSIONS_DEFAULT in *. destruct Hok. by split.
Qed.

Lemma logging_inv doc c k v c' : config_ok c ->
  logging_pair c (yaml_document_get_node doc k) (yaml_document_get_node doc v) = (c', QSR_OK) -> config_ok c'.
Proof.
  intros Hok. unfold logging_pair. destruct (copy_scalar _ 16); [|done..]. destruct (copy_scalar _ 16) as [value| |]; [|done..].
  split_if; [|done]. unfold store, parse_bool. repeat split_if; [..|done]; intros [= <-]; destruct Hok; by split.
Qed.

(** The locals of [parse_route_body] while it runs. *)
Definition locals_ok (l : route_locals) : Prop :=
  let '(host, port, server_id) := l in
  (host = [] \/ cstring (QSR_MAX_ADDR_LEN + 1) host) /\ 0 <= port <= 65535 /\ 0 <= server_id <= 255.

Lemma route_pair_inv doc l k v l' : locals_ok l ->
  route_pair l (yaml_document_get_node doc k) (yaml_document_get_node doc v) = (l', QSR_OK) -> locals_ok l'.
Proof.
  destruct l as [[host port] sid]. intros (Hh & Hp & Hs). unfold route_pair.
  destruct (copy_scalar (yaml_document_get_node doc k) 16); [|done..].
  split_if; [|split_if; [|split_if; [|done]]]; unfold store.
  - destruct (copy_scalar _ _) as [value| |] eqn:E; [|done..]. split_if; intros [=]. subst. split_and!; try lia.
    right. by eapply copy_scalar_string.
  - destruct (copy_scalar _ 16) as [text|s|] eqn:E; cbn [mbind outcome_bind].
    2: { unfold copy_scalar in E. intros [=]. subst. by repeat case_match. }
    2: done.
    unfold parse_port. destruct (parse_u32 _ _ _) as [n|s|] eqn:E'; cbn [mbind outcome_bind]; [|apply parse_u32_status in E'; by subst|done].
    apply parse_u32_spec in E' as (? & ? & ? & _ & _ & _ & _ & ?); [|lia..]. rewrite wrap_small by lia. intros [= <-]. split_and!; lia || done.
  - destruct (copy_scalar _ 8) as [text|s|] eqn:E; cbn [mbind outcome_bind].
    2: { unfold copy_scalar in E. intros [=]. subst. by repeat case_match. }
    2: done.
    destruct (parse_u32 _ _ _) as [n|s|] eqn:E'; [|apply parse_u32_status in E'; by subst|done].
    apply parse_u32_spec in E' as (? & ? & ? & _ & _ & _ & _ & ?); [|lia..]. rewrite wrap_small by lia. intros [= <-]. split_and!; lia || done.
Qed.

Lemma configure_snoc entries e : configure (entries ++ [e]) = add_entry (configure entries) e.
Proof. unfold configure. by rewrite foldl_app. Qed.

(** The new table is the old one's entries and one more. *)
Lemma route_body_inv doc c node sni c' : config_ok c -> cstring (QSR_MAX_HOSTNAME_LEN + 1) sni ->
  parse_route_body doc node c sni = (c', QSR_OK) -> config_ok c'.
Proof.
  intros Hok Hsni. unfold parse_route_body.
  destruct (for_mapping doc node route_pair ([], 0, 0)) as [[[host port] sid] status] eqn:E. case_bool_decide as Hst; cbn [negb]; [|by intros [= _ ?]].
  subst status. assert (locals_ok (host, port, sid)) as (Hh & Hp & Hs).
  { revert E. apply (for_mapping_inv locals_ok); [intros; by eapply route_pair_inv|]. split; [by left|lia]. }
  split_if; [done|]. bool_to_prop. destruct Hh as [->|Hh]; [done|].
  destruct Hok as [Hl Hi Hm (entries & Hc & He) Hcodec]. set (e := {| e_sni := sni; e_host := host; e_port := port; e_server_id := sid |}).
  pose proof (configure_snoc entries e) as Hsn. rewrite Hc in Hsn. cbn in Hsn.
  destruct (qsr_route_table_add _ _ _ _ _) as [routes status]. intros [= <- ->]. rewrite bool_decide_eq_true_2 in Hsn by done.
  split; cbn; [done..| |done]. exists (entries ++ [e]). split; [done|]. apply Forall_app. split; [done|]. constructor; [|done].
  split; cbn; [done..|lia|lia].
Qed.

Lemma cid_encoding_inv doc c node c' : config_ok c -> parse_cid_encoding doc node c = (c', QSR_OK) -> config_ok c'.
Proof.
  intros Hok. unfold parse_cid_encoding. destruct (for_mapping _ _ _ _) as [hex status]. case_bool_decide; cbn [negb]; [|by intros [= _ ?]].
  split_if; [done|]. pose proof (key_from_hex_spec hex) as Hk. destruct (qsr_cid_codec_init_from_hex hex) as [codec st]. intros [= <- ->].
  destruct Hk as [(_ & Hen & _ & Hlen)|(? & _)]; [|done]. destruct Hok. split; cbn; [done..|]. by rewrite Hen.
Qed.

Lemma routes_inv doc c k v c' : config_ok c ->
  routes_pair doc c (yaml_document_get_node doc k) (yaml_document_get_node doc v) = (c', QSR_OK) -> config_ok c'.
Proof.
  intros Hok. unfold routes_pair. destruct (copy_scalar _ _) eqn:E; [|done..]. split_if; [done|].
  apply route_body_inv; [done|]. by eapply copy_scalar_string.
Qed.

Lemma root_inv doc c k v c' : config_ok c ->
  root_pair doc c (yaml_document_get_node doc k) (yaml_document_get_node doc v) = (c', QSR_OK) -> config_ok c'.
Proof.
  intros Hok. unfold root_pair. destruct (copy_scalar _ 16); [|done..].
  split_if; [|split_if; [|split_if; [|split_if; [|split_if; [|done]]]]].
  - apply for_mapping_inv; [|done]. intros. by eapply listen_inv.
  - apply for_mapping_inv; [|done]. intros. by eapply sessions_inv.
  - apply for_mapping_inv; [|done]. intros. by eapply routes_inv.
  - by apply cid_encoding_inv.
  - apply for_mapping_inv; [|done]. intros. by eapply logging_inv.
Qed.

Lemma load_ok open path c : qsr_config_load open path = (c, QSR_OK) -> config_ok c.
Proof.
  unfold qsr_config_load. destruct (open path) as [[]| | |doc]; try done. unfold parse_root.
  destruct (yaml_document_get_root_node doc) as [node|]; [|intros [= <-]; apply config_ok_default].
  apply for_mapping_inv; [|apply config_ok_default]. intros. by eapply root_inv.
Qed.
End loading.

(** ** Settings as a document

    The canonical document of a list of settings, and what loading it gives. *)

(** The decimal digits of [n], most significant first; [fuel] digits at most. *)
Fixpoint decimal_loop (fuel : nat) (n : Z) (acc : list Z) : list Z :=
  match fuel with
  | O => acc
  | S fuel => if n <? 10 then (n + 48) :: acc else decimal_loop fuel (n / 10) ((n mod 10 + 48) :: acc)
  end.

Definition decimal (n : Z) : list Z := decimal_loop 20 n [].

Lemma digits_value_app acc a b : digits_value acc (a ++ b) = digits_value (digits_value acc a) b.
Proof. apply foldl_app. Qed.

Lemma decimal_loop_spec fuel : forall n acc, 0 <= n < 10 ^ Z.of_nat fuel ->
  exists d, decimal_loop fuel n acc = d ++ acc /\ (d <> [] \/ fuel = O) /\
    Forall (fun c => isdigit c = true) d /\ digits_value 0 d = n /\
    forall k, n < 10 ^ Z.of_nat k -> (0 < k)%nat -> (length d <= k)%nat.
Proof.
  induction fuel as [|fuel IH]; intros n acc Hn.
  { change (10 ^ Z.of_nat 0) with 1 in Hn. exists []. split_and!; [done|by right|done|cbn; lia|cbn; lia]. }
  cbn [decimal_loop]. rewrite Nat2Z.inj_succ, Z.pow_succ_r in Hn by lia.
  destruct (n <? 10) eqn:E; bool_to_prop.
  - exists [n + 48]. split_and!; [done|by left| |cbn; lia|cbn; lia].
    constructor; [|done]. apply isdigit_spec. lia.
  - destruct (IH (n / 10) ((n mod 10 + 48) :: acc)) as (d & -> & Hne & Hd & Hv & Hl); [dlia|].
    exists (d ++ [n mod 10 + 48]). split_and!.
    + by rewrite <- app_assoc.
    + left. by destruct d.
    + apply Forall_app. split; [done|]. constructor; [|done]. apply isdigit_spec. dlia.
    + rewrite digits_value_app, Hv. cbn. dlia.
    + intros k Hk Hk0. destruct k as [|k]; [lia|]. rewrite Nat2Z.inj_succ, Z.pow_succ_r in Hk by lia.
      rewrite length_app. cbn. destruct (decide (k = O)) as [->|]; [change (10 ^ Z.of_nat 0) with 1 in Hk; lia|].
      specialize (Hl k ltac:(dlia) ltac:(lia)). lia.
Qed.

Lemma decimal_spec n : 0 <= n < 10 ^ 20 ->
  decimal n <> [] /\ Forall (fun c => isdigit c = true) (decimal n) /\ digits_value 0 (decimal n) = n /\
  forall k, n < 10 ^ Z.of_nat k -> (0 < k)%nat -> (length (decimal n) <= k)%nat.
Proof.
  intros Hn. destruct (decimal_loop_spec 20 n [] Hn) as (d & He & Hne & Hd & Hv & Hl).
  unfold decimal. rewrite He, app_nil_r. split_and!; [by destruct Hne|done..].
Qed.

Lemma decimal_number_in suffixes n suffix min max : 0 <= min -> max < 2 ^ 63 -> min <= n <= max ->
  suffix ∈ suffixes -> starts_with isdigit suffix = false -> number_in suffixes (decimal n ++ suffix) min max n.
Proof.
  intros Hmin Hmax Hn Hin Hs. destruct (decimal_spec n) as (Hne & Hd & Hv & _); [lia|].
  exists false, (decimal n), suffix. split_and!; try done; try (unfold ULONG_MAX; lia).
  split; [|done..]. exists [], []. split_and!; [done..|by left].
Qed.

Lemma decimal_scalar (k : nat) n : (0 < k)%nat -> 0 <= n < 10 ^ 20 -> n < 10 ^ Z.of_nat k ->
  cstring (Z.of_nat k + 1) (decimal n).
Proof.
  intros Hk Hn Hlt. destruct (decimal_spec n Hn) as (Hne & Hd & _ & Hl). split_and!; [done| |].
  - intros Hin. rewrite list.Forall_forall in Hd. specialize (Hd 0 Hin). done.
  - specialize (Hl k Hlt Hk). unfold Zlen. lia.
Qed.

(** A document without node numbers; a node [represents] it if its descendants do. *)
Inductive ytree :=
  | YScalar (value : list Z)
  | YMapping (pairs : list (list Z * ytree)).

Section roundtrip.
Context `{KeyedHash} `{Yaml}.

Inductive represents (doc : yaml_document) : option yaml_node -> ytree -> Prop :=
  | represents_scalar v : represents doc (Some (YAML_SCALAR_NODE v)) (YScalar v)
  | represents_mapping pairs kvs :
      represents_pairs doc pairs kvs -> represents doc (Some (YAML_MAPPING_NODE pairs)) (YMapping kvs)
with represents_pairs (doc : yaml_document) : list (Z * Z) -> list (list Z * ytree) -> Prop :=
  | represents_nil : represents_pairs doc [] []
  | represents_cons k v pairs key value kvs :
      yaml_document_get_node doc k = Some (YAML_SCALAR_NODE key) ->
      represents doc (yaml_document_get_node doc v) value ->
      represents_pairs doc pairs kvs -> represents_pairs doc ((k, v) :: pairs) ((key, value) :: kvs).

(** Settings: [se_cid_key] is the hexadecimal key of [cidEncoding] when there is one. *)
Record settings := {
  se_listen : list Z;
  se_idle : Z;
  se_max : Z;
  se_log : bool;
  se_cid_key : option (list Z);
  se_routes : list route_entry;
}.

Definition entry_tree (e : route_entry) : list Z * ytree :=
  (e_sni e, YMapping (
    [(str "host", YScalar (e_host e)); (str "port", YScalar (decimal (e_port e)))] ++
    (if e_server_id e =? 0 then [] else [(str "serverId", YScalar (decimal (e_server_id e)))]))).

Definition settings_tree (s : settings) : ytree := YMapping (
  [(str "listen", YMapping [(str "udp", YScalar (se_listen s))]);
   (str "sessions", YMapping [(str "idleTimeout", YScalar (decimal (se_idle s) ++ str "s"));
                              (str "maxSessions", YScalar (decimal (se_max s)))]);
   (str "logging", YMapping [(str "connections", YScalar (if se_log s then str "true" else str "false"))]);
   (str "routes", YMapping (entry_tree <$> se_routes s))] ++
  match se_cid_key s with
  | Some hex => [(str "cidEncoding", YMapping [(str "key", YScalar hex)])]
  | None => []
  end).

Record settings_ok (s : settings) : Prop := {
  so_listen : cstring QSR_MAX_LISTEN_ADDR_LEN (se_listen s);
  so_idle : 1 <= se_idle s <= 86400;
  so_max : 1 <= se_max s <= 1000000;
  so_entries : Forall entry_ok (se_routes s);
  so_key : match se_cid_key s with Some hex => ~ 0 ∈ hex | None => True end;
}.

Lemma copy_scalar_represents doc node v n : represents doc node (YScalar v) -> ~ 0 ∈ v -> Zlen v < n -> n < 2 ^ 63 ->
  copy_scalar node n = Ok v.
Proof.
  intros Hr Hz Hl Hn. inversion_clear Hr. unfold copy_scalar. pose proof (Zlen_nonneg v).
  rewrite uadd_small, (proj2 (Z.ltb_ge _ _)), bool_decide_eq_false_2 by (lia || done). done.
Qed.

Lemma copy_cstring doc node v n m : represents doc node (YScalar v) -> cstring m v -> m <= n -> n < 2 ^ 63 ->
  copy_scalar node n = Ok v.
Proof. intros Hr (_ & Hz & Hl) Hm Hn. eapply copy_scalar_represents; [done..|lia|done]. Qed.

Lemma for_mapping_nil {S} doc node body (s : S) : represents doc node (YMapping []) -> for_mapping doc node body s = (s, QSR_OK).
Proof. intros Hr. inversion_clear Hr as [|? ? Hp]. by inversion_clear Hp. Qed.

(** One pair of a represented mapping at a time. *)
Lemma for_pairs_cons {S} doc body pairs key value kvs (s s1 : S) :
  represents_pairs doc pairs ((key, value) :: kvs) ->
  (forall k v, represents doc k (YScalar key) -> represents doc v value -> body s k v = (s1, QSR_OK)) ->
  exists pairs', represents_pairs doc pairs' kvs /\ for_pairs doc body pairs s = for_pairs doc body pairs' s1.
Proof.
  intros Hr Hb. inversion_clear Hr as [|k v pairs' ? ? ? Hk Hv Hps]. exists pairs'. split; [done|].
  cbn [for_pairs]. by rewrite Hb by (rewrite ?Hk; done || constructor).
Qed.

Lemma for_mapping_cons {S} doc node body key value kvs (s s1 : S) :
  represents doc node (YMapping ((key, value) :: kvs)) ->
  (forall k v, represents doc k (YScalar key) -> represents doc v value -> body s k v = (s1, QSR_OK)) ->
  exists node', represents doc node' (YMapping kvs) /\ for_mapping doc node body s = for_mapping doc node' body s1.
Proof.
  intros Hr Hb. inversion_clear Hr as [|pairs ? Hp]. destruct (for_pairs_cons doc body pairs key value kvs s s1 Hp Hb) as (pairs' & Hr & He).
  exists (Some (YAML_MAPPING_NODE pairs')). split; [by constructor|done].
Qed.

End roundtrip.

(** One pair of a represented mapping, after which the state is [s1]; the end of the mapping. *)
Ltac pair_to Hr s1 :=
  let node' := fresh "node" in
  eapply (for_mapping_cons _ _ _ _ _ _ _ s1) in Hr as (node' & Hr & ->).
Ltac pairs_end Hr := rewrite (for_mapping_nil _ _ _ _ Hr); reflexivity.

(** A key the code compares with: short, and not another of the literals. *)
Ltac key_step Hk := erewrite (copy_scalar_represents _ _ _ _ Hk);
  [ | apply (bool_decide_unpack _); by vm_compute | vm_compute; reflexivity | lia].

Section represented.
Context `{KeyedHash} `{Yaml}.

Lemma listen_represents doc node c s : represents doc node (YMapping [(str "udp", YScalar s)]) ->
  cstring QSR_MAX_LISTEN_ADDR_LEN s -> parse_listen doc node c = (set_listen_udp c s, QSR_OK).
Proof.
  intros Hr Hs. unfold parse_listen. pair_to Hr (set_listen_udp c s); [pairs_end Hr|].
  intros k v Hk Hv. unfold listen_pair. key_step Hk. change (streq _ _) with true. cbn [negb].
  rewrite (copy_cstring _ _ _ _ _ Hv Hs) by done. by destruct s, Hs.
Qed.

Lemma decimal_suffixed_scalar (k : nat) n suffix : (0 < k)%nat -> 0 <= n < 10 ^ 20 -> n < 10 ^ Z.of_nat k -> ~ 0 ∈ suffix ->
  cstring (Z.of_nat k + 1 + Zlen suffix) (decimal n ++ suffix).
Proof.
  intros Hk Hn Hlt Hs. destruct (decimal_scalar k n Hk Hn Hlt) as (Hne & Hz & Hl). split_and!.
  - by destruct (decimal n).
  - rewrite elem_of_app. tauto.
  - rewrite Zlen_app. lia.
Qed.

Lemma sessions_represents doc node c idle max :
  represents doc node (YMapping [(str "idleTimeout", YScalar (decimal idle ++ str "s")); (str "maxSessions", YScalar (decimal max))]) ->
  1 <= idle <= 86400 -> 1 <= max <= 1000000 ->
  parse_sessions doc node c = (set_max_sessions (set_idle_timeout c idle) max, QSR_OK).
Proof.
  intros Hr Hi Hm. unfold parse_sessions. pair_to Hr (set_idle_timeout c idle);
    [pair_to Hr (set_max_sessions (set_idle_timeout c idle) max); [pairs_end Hr|]|];
    intros k v Hk Hv; unfold sessions_pair, QSR_MAX_SESSIONS_DEFAULT; key_step Hk.
  - rewrite (copy_cstring _ _ _ _ _ Hv (decimal_scalar 7 max ltac:(lia) ltac:(lia) ltac:(lia))) by done.
    change (streq (str "maxSessions") (str "idleTimeout")) with false. change (streq (str "maxSessions") (str "maxSessions")) with true.
    cbv iota. rewrite (proj2 (parse_size_spec _ _ _ max)); [done|]. rewrite <- (app_nil_r (decimal max)).
    by apply decimal_number_in; [lia..|left|].
  - rewrite (copy_cstring _ _ _ _ _ Hv (decimal_suffixed_scalar 5 idle (str "s") ltac:(lia) ltac:(lia) ltac:(lia) ltac:(by apply (bool_decide_unpack _)))) by done.
    change (streq (str "idleTimeout") (str "idleTimeout")) with true. cbv iota.
    rewrite (proj2 (parse_u32_spec _ 1 86400 idle ltac:(lia) ltac:(lia))); [done|].
    by apply decimal_number_in; [lia..|right; left|].
Qed.

Lemma logging_represents doc node c (log : bool) :
  represents doc node (YMapping [(str "connections", YScalar (if log then str "true" else str "false"))]) ->
  parse_logging doc node c = (set_log_connections c log, QSR_OK).
Proof.
  intros Hr. unfold parse_logging. pair_to Hr (set_log_connections c log); [pairs_end Hr|].
  intros k v Hk Hv. unfold logging_pair. key_step Hk. destruct log; by key_step Hv.
Qed.

Lemma cid_encoding_represents doc node c hex codec : represents doc node (YMapping [(str "key", YScalar hex)]) ->
  ~ 0 ∈ hex -> qsr_cid_codec_init_from_hex hex = (codec, QSR_OK) ->
  parse_cid_encoding doc node c = (set_cid_codec c codec, QSR_OK).
Proof.
  intros Hr Hz Hc. unfold parse_cid_encoding. assert (Zlen hex = 32) as Hl.
  { unfold qsr_cid_codec_init_from_hex in Hc. destruct (Zlen hex =? QSR_CID_KEY_LEN * 2) eqn:E; [by bool_to_prop|done]. }
  assert (for_mapping doc node cid_encoding_pair [] = (hex, QSR_OK)) as ->.
  { pair_to Hr hex; [pairs_end Hr|]. intros k v Hk Hv. unfold cid_encoding_pair. key_step Hk.
    change (streq _ _) with true. cbv iota. rewrite (copy_scalar_represents _ _ _ _ Hv) by (done || (unfold QSR_CID_KEY_LEN; lia)). done. }
  cbn [negb]. rewrite bool_decide_eq_true_2 by done. cbn [negb]. rewrite Hc.
  rewrite (proj2 (Nat.eqb_neq _ _)) by (unfold Zlen in Hl; lia). done.
Qed.

(** The fields of a route body arrive in the locals. *)
Lemma route_body_represents doc node c e routes : represents doc node (entry_tree e).2 -> entry_ok e ->
  qsr_route_table_add (c_routes c) (e_sni e) (e_host e) (e_port e) (e_server_id e) = (routes, QSR_OK) ->
  parse_route_body doc node c (e_sni e) = (set_routes c routes, QSR_OK).
Proof.
  intros Hr [Hsni Hhost Hport Hsid] Hadd. unfold parse_route_body.
  assert (for_mapping doc node route_pair ([], 0, 0) = ((e_host e, e_port e, e_server_id e), QSR_OK)) as ->.
  { unfold entry_tree in Hr. cbn [snd] in Hr. cbn [app] in Hr.
    pair_to Hr (e_host e, 0, 0).
    - pair_to Hr (e_host e, e_port e, 0).
      + destruct (e_server_id e =? 0) eqn:E; bool_to_prop; [rewrite E; pairs_end Hr|].
        pair_to Hr (e_host e, e_port e, e_server_id e); [pairs_end Hr|]. intros k v Hk Hv. unfold route_pair. key_step Hk.
        change (streq (str "serverId") (str "host")) with false. change (streq (str "serverId") (str "port")) with false.
        change (streq (str "serverId") (str "serverId")) with true. cbv iota.
        rewrite (copy_cstring _ _ _ _ _ Hv (decimal_scalar 3 (e_server_id e) ltac:(lia) ltac:(lia) ltac:(lia))) by done.
        cbn [mbind outcome_bind].
        rewrite (proj2 (parse_u32_spec _ 1 255 (e_server_id e) ltac:(lia) ltac:(lia))).
        * unfold store. by rewrite wrap_small by lia.
        * rewrite <- (app_nil_r (decimal _)). by apply decimal_number_in; [lia..|left|].
      + intros k v Hk Hv. unfold route_pair. key_step Hk.
        change (streq (str "port") (str "host")) with false. change (streq (str "port") (str "port")) with true. cbv iota.
        rewrite (copy_cstring _ _ _ _ _ Hv (decimal_scalar 5 (e_port e) ltac:(lia) ltac:(lia) ltac:(lia))) by done.
        cbn [mbind outcome_bind]. unfold parse_port.
        rewrite (proj2 (parse_u32_spec _ 1 65535 (e_port e) ltac:(lia) ltac:(lia))).
        * cbn [mbind outcome_bind store]. by rewrite wrap_small by lia.
        * rewrite <- (app_nil_r (decimal _)). by apply decimal_number_in; [lia..|left|].
    - intros k v Hk Hv. unfold route_pair. key_step Hk. change (streq (str "host") (str "host")) with true. cbv iota.
      rewrite (copy_cstring _ _ _ _ _ Hv Hhost) by done. by destruct (e_host e), Hhost. }
  rewrite bool_decide_eq_true_2 by done. cbn [negb]. rewrite Hadd.
  replace (_ || _) with false; [done|]. symmetry. apply orb_false_iff. split; [by destruct (e_host e), Hhost|zbool].
Qed.

Lemma routes_represents doc entries : forall node c routes, represents doc node (YMapping (entry_tree <$> entries)) ->
  Forall entry_ok entries -> foldl add_entry (Some (c_routes c)) entries = Some routes ->
  parse_routes doc node c = (set_routes c routes, QSR_OK).
Proof.
  unfold parse_routes. induction entries as [|e entries IH]; intros node c routes Hr Hok Hf.
  - cbn in Hf. simplify_eq. cbn [fmap list_fmap] in Hr. rewrite (for_mapping_nil _ _ _ _ Hr). by destruct c.
  - inversion_clear Hok as [|? ? He Hes]. cbn [foldl] in Hf. unfold add_entry at 2 in Hf. cbn [mbind option_bind] in Hf.
    destruct (qsr_route_table_add _ _ _ _ _) as [r1 st] eqn:Ea. case_bool_decide as Hst.
    2: { exfalso. clear -Hf. induction entries as [|x l IH]; [done|]. by apply IH. }
    subst st. change (entry_tree <$> e :: entries) with (entry_tree e :: (entry_tree <$> entries)) in Hr.
    unfold entry_tree at 1 in Hr.
    pair_to Hr (set_routes c r1).
    + by rewrite (IH _ (set_routes c r1) routes).
    + intros k v Hk Hv. unfold routes_pair. rewrite (copy_cstring _ _ _ _ _ Hk (eo_sni e He)) by done.
      rewrite (proj2 (Nat.eqb_neq _ _)) by (destruct (eo_sni e He) as [? _]; by destruct (e_sni e)).
      by apply route_body_represents.
Qed.
End represented.

(** What the settings become. *)
Definition settings_config (s : settings) (routes : qsr_route_table) (codec : qsr_cid_codec) : qsr_config := {|
  c_listen_udp := se_listen s; c_idle_timeout_seconds := se_idle s; c_max_sessions := se_max s;
  c_log_connections := se_log s; c_routes := routes; c_cid_codec := codec |}.

(** ** Properties *)

Section properties.
Context `{KeyedHash} `{Yaml}.

Lemma settings_load open path doc s routes codec :
  open path = Loaded doc -> represents doc (yaml_document_get_root_node doc) (settings_tree s) ->
  settings_ok s -> configure (se_routes s) = Some routes ->
  match se_cid_key s with
  | Some hex => qsr_cid_codec_init_from_hex hex = (codec, QSR_OK)
  | None => codec = codec0
  end ->
  qsr_config_load open path = (settings_config s routes codec, QSR_OK).
Proof.
  intros Ho Hr [Hl Hi Hm He Hk] Hroutes Hcodec. unfold qsr_config_load. rewrite Ho. unfold parse_root.
  destruct (yaml_document_get_root_node doc) as [node|]; [|inversion Hr]. unfold settings_tree in Hr. cbn [app] in Hr.
  pair_to Hr (set_listen_udp qsr_config_default (se_listen s)).
  2: { intros k v Hkey Hv. unfold root_pair. key_step Hkey. by apply listen_represents. }
  pair_to Hr (set_max_sessions (set_idle_timeout (set_listen_udp qsr_config_default (se_listen s)) (se_idle s)) (se_max s)).
  2: { intros k v Hkey Hv. unfold root_pair. key_step Hkey. by apply sessions_represents. }
  set (c2 := set_max_sessions _ _) in *. pair_to Hr (set_log_connections c2 (se_log s)).
  2: { intros k v Hkey Hv. unfold root_pair. key_step Hkey. by apply logging_represents. }
  pair_to Hr (set_routes (set_log_connections c2 (se_log s)) routes).
  2: { intros k v Hkey Hv. unfold root_pair. key_step Hkey. by eapply routes_represents. }
  destruct (se_cid_key s) as [hex|] eqn:Ek; [|subst codec; rewrite (for_mapping_nil _ _ _ _ Hr); done].
  pair_to Hr (set_cid_codec (set_routes (set_log_connections c2 (se_log s)) routes) codec).
  - rewrite (for_mapping_nil _ _ _ _ Hr). done.
  - intros k v Hkey Hv. unfold root_pair. key_step Hkey. by eapply cid_encoding_represents.
Qed.

(** C23: a configuration that loads has every field in its range, a
    well-formed route table built from well-formed routes, and either a full key or no encoding. *)
Theorem config_load_ok `{!YamlLaws} open path config :
  qsr_config_load open path = (config, QSR_OK) -> config_ok config /\ route_wf (c_routes config).
Proof. intros Hl%load_ok. split; [done|by apply config_ok_routes]. Qed.


(** C25: a number is read exactly when the text is a numeral in range: white
    space, a sign, digits, and for the 32-bit fields an optional [s] at the end. *)
Theorem config_numbers_exact text min max v : 0 <= min -> max < 2 ^ 32 ->
  (parse_u32 text min max = Ok v <-> number_in [[]; str "s"] text min max v) /\
  (parse_size text min max = Ok v <-> number_in [[]] text min max v).
Proof. intros. split; [by apply parse_u32_spec|apply parse_size_spec]. Qed.
End properties.

(** ** Witnesses *)

Section examples.
Local Existing Instance sum_hash.

(** Documents as node arrays, numbered from 1 as in libyaml; the first is the root. *)
Definition demo_node (doc : list yaml_node) (i : Z) : option yaml_node :=
  if 0 <? i then doc !! (Z.to_nat i - 1)%nat else None.

Local Instance demo_yaml : Yaml := {|
  yaml_document := { doc : list yaml_node | forallb (fun n => if n is YAML_SCALAR_NODE v then Zlen v <? 100 else true) doc = true };
  yaml_document_get_node := fun doc => demo_node (proj1_sig doc);
  yaml_document_get_root_node := fun doc => demo_node (proj1_sig doc) 1 |}.

Local Instance demo_yaml_laws : YamlLaws.
Proof.
  split. intros [doc Hd] i v Hg. cbn in Hg. unfold demo_node in Hg. split_if; [|done].
  rewrite forallb_forall in Hd. apply list_elem_of_lookup_2 in Hg. apply list_elem_of_In in Hg.
  specialize (Hd _ Hg). cbn in Hd. bool_to_prop. lia.
Qed.

Definition demo_settings : settings := {|
  se_listen := str ":8443"; se_idle := 30; se_max := 5000; se_log := true; se_cid_key := None;
  se_routes := [demo_entry] |}.

(** The document of the settings, node by node. *)
Definition demo_nodes : list yaml_node := [
  YAML_MAPPING_NODE [(2, 3); (6, 7); (12, 13); (16, 17)];
  YAML_SCALAR_NODE (str "listen"); YAML_MAPPING_NODE [(4, 5)]; YAML_SCALAR_NODE (str "udp"); YAML_SCALAR_NODE (str ":8443");
  YAML_SCALAR_NODE (str "sessions"); YAML_MAPPING_NODE [(8, 9); (10, 11)];
  YAML_SCALAR_NODE (str "idleTimeout"); YAML_SCALAR_NODE (str "30s"); YAML_SCALAR_NODE (str "maxSessions"); YAML_SCALAR_NODE (str "5000");
  YAML_SCALAR_NODE (str "logging"); YAML_MAPPING_NODE [(14, 15)]; YAML_SCALAR_NODE (str "connections"); YAML_SCALAR_NODE (str "true");
  YAML_SCALAR_NODE (str "routes"); YAML_MAPPING_NODE [(18, 19)];
  YAML_SCALAR_NODE (str "A.b"); YAML_MAPPING_NODE [(20, 21); (22, 23); (24, 25)];
  YAML_SCALAR_NODE (str "host"); YAML_SCALAR_NODE (str "h"); YAML_SCALAR_NODE (str "port"); YAML_SCALAR_NODE (str "443");
  YAML_SCALAR_NODE (str "serverId"); YAML_SCALAR_NODE (str "7")].

Definition demo_document : yaml_document := exist _ demo_nodes eq_refl.

Ltac represent :=
  lazymatch goal with
  | |- represents _ _ _ => cbn; constructor; represent
  | |- represents_pairs _ _ _ => cbn; constructor; represent
  | |- _ => try reflexivity
  end.

Lemma demo_represents : represents demo_document (yaml_document_get_root_node demo_document) (settings_tree demo_settings).
Proof.
  change (settings_tree demo_settings) with (ltac:(let t := eval vm_compute in (settings_tree demo_settings) in exact t)).
  represent.
Qed.

Lemma demo_settings_ok : settings_ok demo_settings.
Proof.
  split; cbn; try lia; try done.
  - split_and!; [done|by apply (bool_decide_unpack _)|done].
  - constructor; [|done]. split; cbn; try lia; split_and!; done || by apply (bool_decide_unpack _).
Qed.


Lemma config_load_ok_witness : exists config, qsr_config_load (fun _ => Loaded demo_document) [] = (config, QSR_OK) /\
  config_ok config /\ route_wf (c_routes config).
Proof.
  destruct demo_configured as [routes Hr]. exists (settings_config demo_settings routes codec0).
  assert (Hl : qsr_config_load (fun _ => Loaded demo_document) [] = (settings_config demo_settings routes codec0, QSR_OK)).
  { exact (settings_load _ _ _ demo_settings routes codec0 eq_refl demo_represents demo_settings_ok Hr eq_refl). }
  split; [exact Hl|exact (config_load_ok _ _ _ Hl)].
Defined.
End examples.

(** A minus sign makes a large magnitude small, and the suffix is optional. *)
Lemma config_numbers_exact_witness :
  parse_u32 (str "443s") 1 65535 = Ok 443 /\ number_in [[]; str "s"] (str "443s") 1 65535 443.
Proof.
  split; [vm_compute; reflexivity|].
  apply (config_numbers_exact (str "443s") 1 65535 443); [lia|lia|vm_compute; reflexivity].
Defined.
