(* ===== verification/LogText.v ===== *)
(** * Text of the logs

    The printed forms that [src/udp.c] and [src/runtime.c] share: socket
    addresses ([format_addr], [format_backend]) and the line of the packet
    debugging that [QSR_ENABLE_PACKET_DEBUG] compiles in. [inet_ntop] prints an IPv4 address as the four numbers between dots; the
    notation of an IPv6 address is a parameter (class [InetNtop]). *)

From Stdlib Require Import String.
From S2P Require Import Prelude Hash QuicInitial SessionKey RouteTable Config.
#[local] Open Scope Z_scope.

(** ** Addresses *)

Definition INET6_ADDRSTRLEN : Z := 46.

(** [sizeof(struct sockaddr_in)] and [sizeof(struct sockaddr_in6)] *)
Definition SOCKADDR_IN_SIZE : Z := 16.
Definition SOCKADDR_IN6_SIZE : Z := 28.

(** [inet_ntop(AF_INET6, ...)] on the 16 bytes of an address. *)
Class InetNtop := inet_ntop6 : list Z -> list Z.

(** The notation of RFC 4291 tells addresses apart, has only hexadecimal digits,
    colons and dots, and fits [INET6_ADDRSTRLEN] with its terminator. *)
Class InetNtopLaws `{InetNtop} : Prop := {
  ntop6_inj a b : bytes_ok a -> bytes_ok b -> Zlen a = 16 -> Zlen b = 16 -> inet_ntop6 a = inet_ntop6 b -> a = b;
  ntop6_chars a : Forall (fun c => 46 <= c <= 58 \/ 65 <= c <= 70 \/ 97 <= c <= 102) (inet_ntop6 a);
  ntop6_len a : Zlen (inet_ntop6 a) < INET6_ADDRSTRLEN;
}.

(** [inet_ntop(AF_INET, ...)] *)
Definition inet_ntop4 (a : list Z) : list Z :=
  decimal (byte_at a 0) ++ str "." ++ decimal (byte_at a 1) ++ str "." ++ decimal (byte_at a 2) ++ str "." ++ decimal (byte_at a 3).

(** The fields of [struct sockaddr_in] and [struct sockaddr_in6]; the port is in network byte order. *)
Definition sin_port (addr : list Z) : Z := byte_at addr 2 * 256 + byte_at addr 3.
Definition sin_addr (addr : list Z) : list Z := take 4 (drop 4 addr).
Definition sin6_addr (addr : list Z) : list Z := take 16 (drop 8 addr).

(** [IN6_IS_ADDR_V4MAPPED] *)
Definition v4mapped (ip : list Z) : bool := bool_decide (take 12 ip = zeros 10 ++ [255; 255]).

(** [snprintf(out, out_len, ...)]: the string that is in [out] behind it. *)
Definition snprintf (out_len : Z) (text : list Z) : list Z := take (Z.to_nat (out_len - 1)) text.

(** "%d" *)
Definition signed_decimal (n : Z) : list Z := if n <? 0 then 45 :: decimal (- n) else decimal n.

(** The formats ["%s:%u"] and ["[%s]:%u"]. *)
Definition host_port (host : list Z) (port : Z) : list Z := host ++ str ":" ++ decimal port.
Definition bracketed (host : list Z) : list Z := str "[" ++ host ++ str "]".

Section format.
Context `{InetNtop}.

Definition format_addr (addr : list Z) (addr_len out_len : Z) : list Z :=
  if (ss_family addr =? AF_INET) && (SOCKADDR_IN_SIZE <=? addr_len) then
    snprintf out_len (host_port (inet_ntop4 (sin_addr addr)) (sin_port addr))
  else if (ss_family addr =? AF_INET6) && (SOCKADDR_IN6_SIZE <=? addr_len) then
    if v4mapped (sin6_addr addr)
    then snprintf out_len (host_port (inet_ntop4 (drop 12 (sin6_addr addr))) (sin_port addr))
    else snprintf out_len (host_port (bracketed (inet_ntop6 (sin6_addr addr))) (sin_port addr))
  else snprintf out_len (str "?").

(** The same without the case of IPv4-mapped addresses. *)
Definition format_backend (addr : list Z) (addr_len out_len : Z) : list Z :=
  if (ss_family addr =? AF_INET) && (SOCKADDR_IN_SIZE <=? addr_len) then
    snprintf out_len (host_port (inet_ntop4 (sin_addr addr)) (sin_port addr))
  else if (ss_family addr =? AF_INET6) && (SOCKADDR_IN6_SIZE <=? addr_len) then
    snprintf out_len (host_port (bracketed (inet_ntop6 (sin6_addr addr))) (sin_port addr))
  else snprintf out_len (str "?").

(** ** Packet debugging *)

(** [packet_debug_enabled]: what the environment variable [QSR_DEBUG_PACKETS] says. *)
Definition packet_debug_enabled (value : option (list Z)) : bool :=
  match value with
  | Some value => negb (bool_decide (value = [])) && negb (streq value (str "0"))
  | None => false
  end.

Definition packet_kind (packet : ptr) (packet_len : Z) : outcome (list Z) :=
  if packet_len =? 0 then Ok (str "empty") else
  b0 ← load packet 0;
  if Z.land b0 0x80 =? 0 then Ok (if negb (Z.land b0 0x40 =? 0) then str "short" else str "short-no-fixed") else
  if Z.land b0 0x40 =? 0 then Ok (str "long-no-fixed") else
  if packet_len <? 5 then Ok (str "long-truncated") else
  b1 ← load packet 1; b2 ← load packet 2; b3 ← load packet 3; b4 ← load packet 4;
  let version := Z.lor (Z.lor (Z.lor (Z.shiftl b1 24) (Z.shiftl b2 16)) (Z.shiftl b3 8)) b4 in
  let type_bits := Z.land b0 0x30 in
  let both v t := (version =? v) && (type_bits =? t) in
  Ok (if both QSR_QUIC_V1 0x00 || both QSR_QUIC_V2 0x10 then str "initial"
      else if both QSR_QUIC_V1 0x30 || both QSR_QUIC_V2 0x00 then str "retry"
      else if both QSR_QUIC_V1 0x20 || both QSR_QUIC_V2 0x30 then str "handshake"
      else str "long").

(** The line; [dest] is [None] for a null pointer. *)
Definition packet_debug_decision (enabled : bool) (decision : list Z) (packet : ptr) (packet_len : Z) (source : list Z)
    (source_len : Z) (dest : option (list Z)) (dest_len : Z) (source_is_backend : bool) (status : Z) : outcome (list Z) :=
  if negb enabled then Ok [] else
  let src := format_addr source source_len (INET6_ADDRSTRLEN + 16) in
  let dst := match dest with Some dest => format_addr dest dest_len (INET6_ADDRSTRLEN + 16) | None => str "?" end in
  kind ← packet_kind packet packet_len;
  Ok (str "qsr packet decision=" ++ decision ++ str " kind=" ++ kind ++ str " len=" ++ decimal packet_len ++
      str " src=" ++ src ++ str " src_backend=" ++ decimal (if source_is_backend then 1 else 0) ++
      str " dst=" ++ dst ++ str " status=" ++ decimal status ++ [10]).
End format.

(** ** Lemmas *)

(** *** Decimal numbers *)

Lemma decimal_inj a b : 0 <= a < 10 ^ 20 -> 0 <= b < 10 ^ 20 -> decimal a = decimal b -> a = b.
Proof.
  intros Ha Hb He. destruct (decimal_spec a Ha) as (_ & _ & <- & _), (decimal_spec b Hb) as (_ & _ & <- & _). by rewrite He.
Qed.

Lemma decimal_digits n c : 0 <= n < 10 ^ 20 -> c ∈ decimal n -> 48 <= c <= 57.
Proof.
  intros Hn Hc. destruct (decimal_spec n Hn) as (_ & Hd & _). rewrite list.Forall_forall in Hd. specialize (Hd c Hc).
  unfold isdigit in Hd. bool_to_prop. lia.
Qed.

Lemma decimal_short n k : 0 <= n < 10 ^ 20 -> (0 < k)%nat -> n < 10 ^ Z.of_nat k -> Zlen (decimal n) <= Z.of_nat k.
Proof. intros Hn Hk Hlt. destruct (decimal_spec n Hn) as (_ & _ & _ & Hl). specialize (Hl k Hlt Hk). unfold Zlen. lia. Qed.

(** *** IPv4 *)

Lemma byte_at_ok l i : bytes_ok l -> is_byte (byte_at l i).
Proof.
  intros Hl. unfold byte_at. destruct (l !! i) as [b|] eqn:E; cbn; [|unfold is_byte; lia]. by apply (Forall_lookup_1 _ _ _ _ Hl E).
Qed.

(** A number and the dot behind it. *)
Lemma dotted_inj a b r s : is_byte a -> is_byte b -> decimal a ++ str "." ++ r = decimal b ++ str "." ++ s -> a = b /\ r = s.
Proof.
  unfold is_byte. intros Ha Hb He.
  assert (Hno : forall n, 0 <= n < 256 -> 46 ∉ decimal n) by (intros n Hn Hin; apply decimal_digits in Hin; lia).
  apply (sep_inj 46) in He as [He ->]; [|auto..]. split; [|done]. by apply decimal_inj in He; [|lia..].
Qed.

Lemma ntop4_inj a b : bytes_ok a -> bytes_ok b -> Zlen a = 4 -> Zlen b = 4 -> inet_ntop4 a = inet_ntop4 b -> a = b.
Proof.
  intros Ha Hb Hla Hlb He. unfold Zlen in *.
  destruct a as [|a0 [|a1 [|a2 [|a3 []]]]]; try (cbn in Hla; lia). destruct b as [|b0 [|b1 [|b2 [|b3 []]]]]; try (cbn in Hlb; lia).
  pose proof (fun i => byte_at_ok _ i Ha) as Hba. pose proof (fun i => byte_at_ok _ i Hb) as Hbb.
  pose proof (Hba 0%nat). pose proof (Hba 1%nat). pose proof (Hba 2%nat). pose proof (Hba 3%nat).
  pose proof (Hbb 0%nat). pose proof (Hbb 1%nat). pose proof (Hbb 2%nat). pose proof (Hbb 3%nat).
  unfold inet_ntop4 in He. cbn in * |-.
  apply dotted_inj in He as [-> He]; [|done..]. apply dotted_inj in He as [-> He]; [|done..].
  apply dotted_inj in He as [-> He]; [|done..]. unfold is_byte in *. apply decimal_inj in He; [by subst|lia..].
Qed.

Lemma ntop4_chars a c : bytes_ok a -> c ∈ inet_ntop4 a -> 46 <= c <= 57.
Proof.
  intros Ha Hc. assert (Hd : forall i, c ∈ decimal (byte_at a i) -> 46 <= c <= 57).
  { intros i Hin. destruct (byte_at_ok a i Ha). apply decimal_digits in Hin; lia. }
  unfold inet_ntop4 in Hc. change (str ".") with [46] in Hc.
  repeat (apply elem_of_app in Hc as [Hc|Hc]; [by eauto || (apply list_elem_of_singleton in Hc; lia)|]). eauto.
Qed.

Lemma ntop4_len a : bytes_ok a -> Zlen (inet_ntop4 a) <= 15.
Proof.
  intros Ha. unfold inet_ntop4. rewrite !Zlen_app. change (Zlen (str ".")) with 1.
  assert (Hd : forall i, Zlen (decimal (byte_at a i)) <= 3).
  { intros i. destruct (byte_at_ok a i Ha). apply (decimal_short _ 3); [lia|lia|cbn; lia]. }
  pose proof (Hd 0%nat). pose proof (Hd 1%nat). pose proof (Hd 2%nat). pose proof (Hd 3%nat). lia.
Qed.

Lemma elem_host_port host port c : c ∈ host_port host port -> c ∈ host \/ c = 58 \/ c ∈ decimal port.
Proof.
  unfold host_port. rewrite !elem_of_app. intros [?|[Hc|?]]; [auto| |auto]. apply list_elem_of_singleton in Hc. cbn in Hc. auto.
Qed.

Lemma elem_bracketed host c : c ∈ bracketed host -> c ∈ host \/ c = 91 \/ c = 93.
Proof.
  unfold bracketed. rewrite !elem_of_app. intros [Hc|[?|Hc]]; [|auto|]; apply list_elem_of_singleton in Hc; cbn in Hc; auto.
Qed.

(** *** Endpoints *)

(** What an address says about its peer; an IPv4-mapped address is the IPv4 address. *)
Inductive endpoint :=
  | Endpoint4 (ip : list Z) (port : Z)
  | Endpoint6 (ip : list Z) (port : Z)
  | NoEndpoint.

Definition endpoint_of (addr : list Z) (addr_len : Z) : endpoint :=
  if (ss_family addr =? AF_INET) && (SOCKADDR_IN_SIZE <=? addr_len) then Endpoint4 (sin_addr addr) (sin_port addr)
  else if (ss_family addr =? AF_INET6) && (SOCKADDR_IN6_SIZE <=? addr_len) then
    if v4mapped (sin6_addr addr) then Endpoint4 (drop 12 (sin6_addr addr)) (sin_port addr)
    else Endpoint6 (sin6_addr addr) (sin_port addr)
  else NoEndpoint.

Definition endpoint_ok (e : endpoint) : Prop :=
  match e with
  | Endpoint4 ip port => bytes_ok ip /\ Zlen ip = 4 /\ 0 <= port < 65536
  | Endpoint6 ip port => bytes_ok ip /\ Zlen ip = 16 /\ 0 <= port < 65536
  | NoEndpoint => True
  end.

Lemma bytes_ok_take n l : bytes_ok l -> bytes_ok (take n l).
Proof. apply Forall_take. Qed.

Lemma bytes_ok_drop n l : bytes_ok l -> bytes_ok (drop n l).
Proof. apply Forall_drop. Qed.

Lemma endpoint_of_ok addr addr_len : bytes_ok addr -> Zlen addr = SOCKADDR_SIZE -> endpoint_ok (endpoint_of addr addr_len).
Proof.
  intros Hb Hl. unfold SOCKADDR_SIZE, Zlen in *.
  assert (Hp : 0 <= sin_port addr < 65536).
  { unfold sin_port. destruct (byte_at_ok addr 2 Hb), (byte_at_ok addr 3 Hb). lia. }
  unfold endpoint_of, sin_addr, sin6_addr. repeat split_if; cbn; unfold Zlen; rewrite ?length_drop, ?length_take, ?length_drop;
    try (split_and!; [|lia..]); auto using bytes_ok_take, bytes_ok_drop.
Qed.

Section format_theory.
Context `{InetNtop} `{laws : !InetNtopLaws}.

(** The text of an endpoint. *)
Definition endpoint_text (e : endpoint) : list Z :=
  match e with
  | Endpoint4 ip port => host_port (inet_ntop4 ip) port
  | Endpoint6 ip port => host_port (bracketed (inet_ntop6 ip)) port
  | NoEndpoint => str "?"
  end.

Lemma endpoint_text_len e : endpoint_ok e -> 0 < Zlen (endpoint_text e) <= 53.
Proof using laws.
  destruct e as [ip port|ip port|]; cbn [endpoint_ok endpoint_text]; [intros (Hb & _ & Hp)..|done].
  all: pose proof (decimal_short port 5 ltac:(lia) ltac:(lia) ltac:(cbn; lia)); pose proof (Zlen_nonneg (decimal port)).
  all: unfold host_port, bracketed; rewrite !Zlen_app; change (Zlen (str ":")) with 1; change (Zlen (str "[")) with 1; change (Zlen (str "]")) with 1.
  - pose proof (ntop4_len ip Hb). pose proof (Zlen_nonneg (inet_ntop4 ip)). lia.
  - pose proof (ntop6_len ip) as Hl. unfold INET6_ADDRSTRLEN in Hl. pose proof (Zlen_nonneg (inet_ntop6 ip)). lia.
Qed.

(** No character of an address is a space or a control character. *)
Lemma endpoint_text_chars e c : endpoint_ok e -> c ∈ endpoint_text e -> 32 < c < 127.
Proof using laws.
  destruct e as [ip port|ip port|]; cbn [endpoint_ok endpoint_text]; [intros (Hb & _ & Hp) Hc..|].
  3: { intros _ Hc. apply list_elem_of_singleton in Hc. cbn in Hc. lia. }
  all: apply elem_host_port in Hc as [Hc|[->|Hc]]; [|lia|apply decimal_digits in Hc; lia].
  - apply ntop4_chars in Hc; [lia|done].
  - apply elem_bracketed in Hc as [Hc|[->| ->]]; [|lia..].
    pose proof (ntop6_chars ip) as Hf. rewrite list.Forall_forall in Hf. specialize (Hf c Hc). lia.
Qed.

Lemma endpoint_text_inj e1 e2 : endpoint_ok e1 -> endpoint_ok e2 -> endpoint_text e1 = endpoint_text e2 -> e1 = e2.
Proof using laws.
  assert (H4 : forall ip, bytes_ok ip -> 58 ∉ inet_ntop4 ip) by (intros ip Hb Hc; apply ntop4_chars in Hc; [lia|done]).
  assert (H6 : forall ip, 93 ∉ 91 :: inet_ntop6 ip).
  { intros ip [?|Hc]%elem_of_cons; [lia|]. pose proof (ntop6_chars ip) as Hf. rewrite list.Forall_forall in Hf. specialize (Hf 93 Hc). lia. }
  assert (Hd : forall ip r port2 e, bytes_ok ip -> 0 <= port2 < 65536 -> host_port (inet_ntop4 ip) port2 = e :: r -> 48 <= e <= 57).
  { intros ip r port2 e Hb _. unfold host_port, inet_ntop4. destruct (byte_at_ok ip 0 Hb).
    destruct (decimal_spec (byte_at ip 0) ltac:(lia)) as (Hne & _). destruct (decimal (byte_at ip 0)) as [|x l] eqn:E; [done|].
    rewrite <- app_comm_cons. intros Hh%(f_equal head). cbn [head] in Hh. injection Hh as <-.
    apply (decimal_digits (byte_at ip 0)); [lia|rewrite E; left]. }
  destruct e1 as [ip1 p1|ip1 p1|], e2 as [ip2 p2|ip2 p2|]; cbn [endpoint_ok endpoint_text]; try done.
  - intros (Hb1 & Hl1 & Hp1) (Hb2 & Hl2 & Hp2) He. unfold host_port in He. apply (sep_inj 58) in He as [He Hp]; [|auto..].
    apply ntop4_inj in He; [|done..]. apply decimal_inj in Hp; [|lia..]. by subst.
  - intros (Hb1 & _ & Hp1) _ He. unfold host_port at 2, bracketed in He. cbn in He. apply Hd in He; [lia|done..].
  - intros (Hb1 & _ & Hp1) _ He. cbn in He. apply Hd in He; [lia|done..].
  - intros _ (Hb2 & _ & Hp2) He. symmetry in He. unfold host_port at 2, bracketed in He. cbn in He. apply Hd in He; [lia|done..].
  - intros (Hb1 & Hl1 & Hp1) (Hb2 & Hl2 & Hp2) He. unfold host_port, bracketed in He.
    rewrite <- !app_assoc in He. cbn [app] in He. change (str "[" ++ ?x) with (91 :: x) in He. rewrite !app_comm_cons in He.
    apply (sep_inj 93) in He as [He Hp]; [|apply H6..]. injection He as He. injection Hp as Hp.
    apply ntop6_inj in He; [|done..]. apply decimal_inj in Hp; [|lia..]. by subst.
  - intros _ (Hb2 & _ & Hp2) He. symmetry in He. cbn in He. apply Hd in He; [lia|done..].
Qed.

Lemma snprintf_fits n text : Zlen text < n -> snprintf n text = text.
Proof using. intros Hl. unfold snprintf, Zlen in *. apply take_ge. lia. Qed.

(** In a buffer of 54 bytes no address is cut. *)
Lemma format_addr_text addr addr_len out_len : bytes_ok addr -> Zlen addr = SOCKADDR_SIZE -> 54 <= out_len ->
  format_addr addr addr_len out_len = endpoint_text (endpoint_of addr addr_len).
Proof using laws.
  intros Hb Hl Ho. pose proof (endpoint_text_len _ (endpoint_of_ok addr addr_len Hb Hl)) as Hlen. revert Hlen.
  unfold format_addr, endpoint_of. repeat split_if; cbn [endpoint_text]; intros; apply snprintf_fits; lia.
Qed.
End format_theory.

(** *** Kinds of packets *)

(** RFC 9000 and RFC 9369: the type of a long header, where the debug line names it. *)
Definition long_kind (version type_bits : Z) : list Z :=
  if type_bits =? (if version =? QSR_QUIC_V1 then 0x00 else 0x10) then str "initial"
  else if type_bits =? (if version =? QSR_QUIC_V1 then 0x30 else 0x00) then str "retry"
  else if type_bits =? (if version =? QSR_QUIC_V1 then 0x20 else 0x30) then str "handshake"
  else str "long".

Lemma packet_kind_long p len h : qsr_quic_parse_long_header p len = Ok h ->
  (h_version h = QSR_QUIC_V1 \/ h_version h = QSR_QUIC_V2) /\ packet_kind p len = Ok (long_kind (h_version h) (h_type_bits h)).
Proof.
  intros Hp. unfold qsr_quic_parse_long_header in Hp. cbv zeta in Hp. inv_ok. bool_to_prop.
  cbn [h_version h_type_bits].
  match goal with E : load p 0 = Ok ?b0, E1 : load p 1 = Ok ?b1, E2 : load p 2 = Ok ?b2, E3 : load p 3 = Ok ?b3, E4 : load p 4 = Ok ?b4 |- _ =>
    unfold packet_kind; rewrite E, E1, E2, E3, E4; cbn [mbind outcome_bind];
    change (Z.lor (Z.lor (Z.lor (Z.shiftl b1 24) (Z.shiftl b2 16)) (Z.shiftl b3 8)) b4) with (be32 b1 b2 b3 b4);
    set (v := be32 b1 b2 b3 b4) in * end.
  rewrite (proj2 (Z.eqb_neq len 0)), (proj2 (Z.ltb_ge len 5)) by lia.
  repeat match goal with H : Z.land _ _ <> 0 |- _ => rewrite (proj2 (Z.eqb_neq _ _) H) end.
  assert (Hv : v = QSR_QUIC_V1 \/ v = QSR_QUIC_V2) by (match goal with Hv : _ \/ _ |- _ => destruct Hv as [Hv%negb_false_iff%Z.eqb_eq|Hv%negb_false_iff%Z.eqb_eq]; auto end).
  split; [done|]. f_equal. unfold long_kind. clearbody v.
  destruct Hv as [-> | ->]; unfold QSR_QUIC_V1, QSR_QUIC_V2; cbn; by rewrite ?orb_false_r.
Qed.

Lemma packet_kind_no_fault p len : readable p len -> no_fault (packet_kind p len).
Proof.
  intros Hr. pose proof Hr as (? & ? & ?). unfold packet_kind. destruct (len =? 0) eqn:E0; [done|]. bool_to_prop.
  apply no_fault_bind; [apply (load_no_fault p len); [done|lia]|]. intros b0 _. repeat (split_if; [done|]). bool_to_prop.
  repeat (apply no_fault_bind; [apply (load_no_fault p len); [done|lia]|]; intros ? _). done.
Qed.

(** ** Properties *)

(** The debug line never reads outside the datagram, and it calls [initial]
    what the router handles as one: every packet whose Initial header is
    accepted; among the packets with a supported long header, those of the type
    that RFC 9000 and RFC 9369 give to an Initial. *)
Theorem packet_kind_agrees p len : readable p len ->
  no_fault (packet_kind p len) /\
  (forall i, qsr_quic_parse_initial p len = Ok i -> packet_kind p len = Ok (str "initial")) /\
  (forall h, qsr_quic_parse_long_header p len = Ok h ->
    packet_kind p len = Ok (str "initial") <-> h_type_bits h = expected_initial_type_bits (h_version h)).
Proof.
  intros Hr. split; [by apply packet_kind_no_fault|].
  assert (Hh : forall h, qsr_quic_parse_long_header p len = Ok h ->
    packet_kind p len = Ok (str "initial") <-> h_type_bits h = expected_initial_type_bits (h_version h)).
  { intros h Hp. destruct (packet_kind_long p len h Hp) as [Hv ->]. unfold long_kind, expected_initial_type_bits.
    destruct Hv as [-> | ->]; cbn; repeat split_if; bool_to_prop; split; intros; done. }
  split; [|exact Hh]. intros i Hi. unfold qsr_quic_parse_initial in Hi. inv_ok. bool_to_prop. by apply (Hh a).
Qed.

Section properties.
Context `{InetNtop} `{laws : !InetNtopLaws}.

(** An address in the log stands for its peer. The text is never cut in the
    code's buffers and holds no space and no control character; two addresses
    print the same text exactly when they are the same IP address and port, an
    IPv4 peer of a dual-stack socket being the IPv4 address it is; a backend is
    printed the same way, except that an IPv4-mapped one keeps its IPv6 form. *)
Theorem format_addr_exact a la b lb n : bytes_ok a -> bytes_ok b -> Zlen a = SOCKADDR_SIZE -> Zlen b = SOCKADDR_SIZE ->
  INET6_ADDRSTRLEN + 8 <= n ->
  0 < Zlen (format_addr a la n) < INET6_ADDRSTRLEN + 8 /\ Forall (fun c => 32 < c < 127) (format_addr a la n) /\
  (format_addr a la n = format_addr b lb n <-> endpoint_of a la = endpoint_of b lb) /\
  format_backend a la n =
    match endpoint_of a la with
    | Endpoint4 _ _ => if ss_family a =? AF_INET then format_addr a la n
                       else host_port (bracketed (inet_ntop6 (sin6_addr a))) (sin_port a)
    | _ => format_addr a la n
    end.
Proof using laws.
  intros Ha Hb Hla Hlb Hn. unfold INET6_ADDRSTRLEN in *. rewrite !format_addr_text by (done || lia).
  pose proof (endpoint_of_ok a la Ha Hla) as Hea. pose proof (endpoint_of_ok b lb Hb Hlb) as Heb.
  pose proof (endpoint_text_len _ Hea). split; [lia|]. split; [|split; [split|]].
  - apply list.Forall_forall. intros c. by apply endpoint_text_chars.
  - by apply endpoint_text_inj.
  - by intros ->.
  - rewrite <- (format_addr_text a la n) by (done || lia). unfold format_backend, format_addr, endpoint_of.
    destruct ((ss_family a =? AF_INET) && _) eqn:E4; [bool_to_prop; by rewrite (proj2 (Z.eqb_eq _ _)) by done|].
    destruct ((ss_family a =? AF_INET6) && _) eqn:E6; [|done]. destruct (v4mapped _); [|done].
    bool_to_prop. rewrite (proj2 (Z.eqb_neq _ _)) by (unfold AF_INET, AF_INET6 in *; lia). apply snprintf_fits.
    assert (Hok : endpoint_ok (Endpoint6 (sin6_addr a) (sin_port a))).
    { pose proof (endpoint_of_ok a la Ha Hla) as Hx. unfold sin_port. split; [|split; [|split]].
      - by apply bytes_ok_take, bytes_ok_drop.
      - unfold sin6_addr, Zlen, SOCKADDR_SIZE in *. rewrite length_take, length_drop. lia.
      - destruct (byte_at_ok a 2 Ha). destruct (byte_at_ok a 3 Ha). lia.
      - destruct (byte_at_ok a 2 Ha), (byte_at_ok a 3 Ha). lia. }
    pose proof (endpoint_text_len _ Hok) as Hl. cbn [endpoint_text] in Hl. lia.
Qed.
End properties.

(** ** Witnesses *)

(** An IPv6 address as its 32 hexadecimal digits. *)
Definition demo_digit (n : Z) : Z := if n <? 10 then 48 + n else 87 + n.

Fixpoint demo_ntop6 (ip : list Z) : list Z :=
  match ip with
  | b :: ip => [demo_digit (Z.land (Z.shiftr b 4) 15); demo_digit (Z.land b 15)] ++ demo_ntop6 ip
  | [] => []
  end.

Definition demo_inet : InetNtop := fun ip => demo_ntop6 (take 16 ip).

Lemma demo_digit_range n : 0 <= n < 16 -> 48 <= demo_digit n <= 57 \/ 97 <= demo_digit n <= 102.
Proof. unfold demo_digit. intros. split_if; bool_to_prop; lia. Qed.

Lemma demo_digit_inj a b : 0 <= a < 16 -> 0 <= b < 16 -> demo_digit a = demo_digit b -> a = b.
Proof. unfold demo_digit. intros. repeat split_if; bool_to_prop; lia. Qed.

Lemma nibble_range x : 0 <= Z.land x 15 < 16.
Proof. change 15 with (2 ^ 4 - 1). rewrite land_ones_mod by lia. apply Z.mod_pos_bound. lia. Qed.

Lemma nibbles_byte b : is_byte b -> b = Z.land (Z.shiftr b 4) 15 * 16 + Z.land b 15.
Proof.
  unfold is_byte. intros Hb. change 15 with (2 ^ 4 - 1). rewrite !land_ones_mod by lia. rewrite Z.shiftr_div_pow2 by lia.
  change (2 ^ 4) with 16. dlia.
Qed.

Lemma demo_ntop6_inj a : forall b, bytes_ok a -> bytes_ok b -> demo_ntop6 a = demo_ntop6 b -> a = b.
Proof.
  induction a as [|x a IH]; intros [|y b] Ha Hb He; try done. cbn in He. injection He as H1 H2 He.
  apply bytes_ok_cons in Ha as [Hx Ha]. apply bytes_ok_cons in Hb as [Hy Hb]. f_equal; [|by apply IH].
  apply demo_digit_inj in H1, H2; try apply nibble_range. rewrite (nibbles_byte x), (nibbles_byte y) by done. congruence.
Qed.

Lemma demo_inet_laws : InetNtopLaws (H := demo_inet).
Proof.
  split; unfold inet_ntop6, demo_inet.
  - intros a b Ha Hb Hla Hlb He. unfold Zlen in *. rewrite !take_ge in He by lia. by apply demo_ntop6_inj.
  - intros a. induction (take 16 a) as [|b l IH]; [constructor|]. cbn [demo_ntop6 app].
    pose proof (demo_digit_range _ (nibble_range (Z.shiftr b 4))). pose proof (demo_digit_range _ (nibble_range b)).
    constructor; [lia|constructor; [lia|exact IH]].
  - intros a. assert (Hl : forall l, Zlen (demo_ntop6 l) = 2 * Zlen l).
    { induction l as [|b l IH]; [done|]. cbn [demo_ntop6 app]. rewrite !Zlen_cons, IH. lia. }
    rewrite Hl. unfold Zlen. rewrite length_take. unfold INET6_ADDRSTRLEN. lia.
Qed.

(** 192.0.2.1, port 443, as an IPv4 address and as a mapped one. *)
Definition demo_v4 : list Z := [2; 0; 1; 187; 192; 0; 2; 1] ++ zeros 120.
Definition demo_mapped : list Z := [10; 0; 1; 187; 0; 0; 0; 0] ++ zeros 10 ++ [255; 255; 192; 0; 2; 1] ++ zeros 104.

Lemma format_addr_exact_witness :
  format_addr (H := demo_inet) demo_v4 16 62 = str "192.0.2.1:443" /\
  format_addr (H := demo_inet) demo_v4 16 62 = format_addr (H := demo_inet) demo_mapped 28 62.
Proof.
  destruct (format_addr_exact (H := demo_inet) (laws := demo_inet_laws) demo_v4 16 demo_mapped 28 62) as (_ & _ & He & _);
    [bytes_concrete|bytes_concrete|reflexivity|reflexivity|vm_compute; discriminate|].
  split; [vm_compute; reflexivity|]. apply He. vm_compute. reflexivity.
Defined.

Lemma packet_kind_agrees_witness :
  no_fault (packet_kind (Ptr [0xc3; 0; 0; 0; 1] 0) 5) /\ packet_kind (Ptr [0xc3; 0; 0; 0; 1] 0) 5 = Ok (str "initial").
Proof.
  split; [|vm_compute; reflexivity]. apply (packet_kind_agrees (Ptr [0xc3; 0; 0; 0; 1] 0) 5). repeat split; vm_compute; congruence.
Defined.
