(* ===== verification/QuicCrypto.v ===== *)
(** * Initial packet protection

    [src/quic_crypto.c]: the client Initial keys of QUIC v1 and v2, removal of
    header protection and decryption. The OpenSSL operations are the class
    [Crypto]; what is verified is everything around them: labels, offsets,
    lengths, the packet number, the nonce and the associated data. *)

From Stdlib Require Import String Ascii.
From S2P Require Import Prelude Hash QuicInitial.
#[local] Open Scope Z_scope.

(** ** OpenSSL

    Each operation is the sequence of EVP calls of one helper; [None] when a
    call fails. *)
Class Crypto := {
  (** HKDF-SHA256 extract: salt, key *)
  evp_hkdf_extract : list Z -> list Z -> option (list Z);
  (** HKDF-SHA256 expand: secret, info, length *)
  evp_hkdf_expand : list Z -> list Z -> Z -> option (list Z);
  (** AES-128-ECB of one block: key, block *)
  evp_aes_ecb : list Z -> list Z -> option (list Z);
  (** AES-128-GCM decryption: key, nonce, associated data, ciphertext, tag *)
  evp_gcm_open : list Z -> list Z -> list Z -> list Z -> list Z -> option (list Z);
}.

(** The bytes of a C string literal. *)
Definition c_string (s : string) : list Z := (fun c => Z.of_N (N_of_ascii c)) <$> list_ascii_of_string s.

Definition INT_MAX : Z := 2 ^ 31 - 1.
Definition UINT16_MAX : Z := 2 ^ 16 - 1.

(** ** Keys *)

Definition quic_v1_initial_salt : list Z :=
  [0x38; 0x76; 0x2c; 0xf7; 0xf5; 0x59; 0x34; 0xb3; 0x4d; 0x17;
   0x9a; 0xe6; 0xa4; 0xc8; 0x0c; 0xad; 0xcc; 0xbb; 0x7f; 0x0a].
Definition quic_v2_initial_salt : list Z :=
  [0x0d; 0xed; 0xe3; 0xde; 0xf7; 0x00; 0xa6; 0xdb; 0x81; 0x93;
   0x81; 0xbe; 0x6e; 0x26; 0x9d; 0xcb; 0xf9; 0xbd; 0x2e; 0xd9].

Record qsr_quic_keying := {
  kg_salt : list Z;
  kg_key_label : string;
  kg_iv_label : string;
  kg_hp_label : string;
}.

Definition keying_for_version (version : Z) : outcome qsr_quic_keying :=
  if version =? QSR_QUIC_V1 then
    Ok {| kg_salt := quic_v1_initial_salt; kg_key_label := "quic key"; kg_iv_label := "quic iv"; kg_hp_label := "quic hp" |}
  else if version =? QSR_QUIC_V2 then
    Ok {| kg_salt := quic_v2_initial_salt; kg_key_label := "quicv2 key"; kg_iv_label := "quicv2 iv"; kg_hp_label := "quicv2 hp" |}
  else Fail QSR_ERR_UNSUPPORTED.

Record qsr_initial_keys := {
  ik_key : list Z;
  ik_iv : list Z;
  ik_hp : list Z;
}.

Section crypto.
Context `{Crypto}.

(** [EVP_PKEY_derive(ctx, out, &len) == 1 && len == out_len] *)
Definition derived (out : option (list Z)) (out_len : Z) : outcome (list Z) :=
  match out with
  | Some out => if Zlen out =? out_len then Ok out else Fail QSR_ERR_INVALID
  | None => Fail QSR_ERR_INVALID
  end.

Definition hkdf_extract (salt key : list Z) (out_len : Z) : outcome (list Z) := derived (evp_hkdf_extract salt key) out_len.

Definition hkdf_expand (secret info : list Z) (out_len : Z) : outcome (list Z) :=
  derived (evp_hkdf_expand secret info out_len) out_len.

(** The first [4 + prefix_len + label_len] bytes of [info]. *)
Definition expand_info (label : list Z) (out_len : Z) : list Z :=
  let prefix := c_string "tls13 " in
  [u8 (Z.shiftr out_len 8); u8 out_len; u8 (Zlen prefix + Zlen label)] ++ prefix ++ label ++ [0].

Definition hkdf_expand_label (secret : list Z) (label : string) (out_len : Z) : outcome (list Z) :=
  let label := c_string label in
  let prefix_len := Zlen (c_string "tls13 ") in
  if (255 <? prefix_len + Zlen label) || (64 <? 4 + prefix_len + Zlen label) || (UINT16_MAX <? out_len)
  then Fail QSR_ERR_INVALID
  else hkdf_expand secret (expand_info label out_len) out_len.

Definition qsr_quic_initial_client_keys (version : Z) (dcid : list Z) (dcid_len : Z) : outcome qsr_initial_keys :=
  if (dcid_len =? 0) || (QSR_MAX_QUIC_CID_LEN <? dcid_len) then Fail QSR_ERR_INVALID else
  keying ← or_fail QSR_ERR_UNSUPPORTED (keying_for_version version);
  or_fail QSR_ERR_INVALID (
    initial_secret ← hkdf_extract (kg_salt keying) (take (Z.to_nat dcid_len) dcid) 32;
    client_secret ← hkdf_expand_label initial_secret "client in" 32;
    key ← hkdf_expand_label client_secret (kg_key_label keying) 16;
    iv ← hkdf_expand_label client_secret (kg_iv_label keying) 12;
    hp ← hkdf_expand_label client_secret (kg_hp_label keying) 16;
    Ok {| ik_key := key; ik_iv := iv; ik_hp := hp |}).

(** ** Decryption *)

Definition aes_ecb_mask (key : list Z) (sample : ptr) : outcome (list Z) :=
  block ← load_bytes sample 16;
  derived (evp_aes_ecb key block) 16.

Definition aes_gcm_open (key nonce aad : list Z) (aad_len : Z) (ciphertext : ptr) (ciphertext_len : Z) : outcome (list Z) :=
  if (ciphertext_len <? 16) || (INT_MAX <? aad_len) || (INT_MAX <? usub ciphertext_len 16) then Fail QSR_ERR_INVALID else
  let encrypted_len := usub ciphertext_len 16 in
  encrypted ← load_bytes ciphertext encrypted_len;
  tag ← load_bytes (ptr_add ciphertext encrypted_len) 16;
  match evp_gcm_open key nonce aad encrypted tag with
  | Some plaintext => Ok plaintext
  | None => Fail QSR_ERR_INVALID
  end.

(** [for (i = 0; i < pn_len; i++)]: unmask a byte of the packet number in the
    header copy and append it to the number. *)
Fixpoint packet_number_loop (mask header : list Z) (offset : Z) (n i : nat) (packet_number : Z) : list Z * Z :=
  match n with
  | O => (header, packet_number)
  | S n =>
      let at_ := (Z.to_nat offset + i)%nat in
      let b := Z.lxor (byte_at header at_) (byte_at mask (i + 1)) in
      packet_number_loop mask (<[at_ := b]> header) offset n (i + 1)%nat (Z.lor (u64 (Z.shiftl packet_number 8)) b)
  end.

(** [for (i = 0; i < 8; i++) nonce[11 - i] ^= (uint8_t)(packet_number >> (i * 8));] *)
Fixpoint nonce_loop (nonce : list Z) (packet_number : Z) (n i : nat) : list Z :=
  match n with
  | O => nonce
  | S n =>
      let at_ := (12 - 1 - i)%nat in
      nonce_loop (<[at_ := Z.lxor (byte_at nonce at_) (u8 (Z.shiftr packet_number (Z.of_nat i * 8)))]> nonce)
        packet_number n (i + 1)%nat
  end.

(** The decrypted payload, [out->data[0 .. out->len)]. *)
Definition qsr_quic_decrypt_initial (packet : ptr) (packet_len : Z) (initial : qsr_quic_initial) : outcome (list Z) :=
  if (i_dcid_len initial =? 0) || (packet_len <? uadd (uadd (i_packet_number_offset initial) 4) 16) ||
     (i_payload_len initial <? QSR_MIN_INITIAL_PAYLOAD_LEN) then Fail QSR_ERR_INVALID else
  keys ← qsr_quic_initial_client_keys (i_version initial) (i_dcid initial) (i_dcid_len initial);
  if QSR_MAX_DATAGRAM_SIZE <? packet_len then Fail QSR_ERR_INVALID else
  header ← load_bytes packet packet_len;
  mask ← or_fail QSR_ERR_INVALID (aes_ecb_mask (ik_hp keys) (ptr_add packet (uadd (i_packet_number_offset initial) 4)));
  let header := <[0%nat := Z.lxor (byte_at header 0) (Z.land (byte_at mask 0) 0x0f)]> header in
  let pn_len := Z.land (byte_at header 0) 0x03 + 1 in
  if (i_payload_len initial <? pn_len) || (packet_len <? uadd (i_packet_number_offset initial) pn_len)
  then Fail QSR_ERR_INVALID else
  let '(header, packet_number) := packet_number_loop mask header (i_packet_number_offset initial) (Z.to_nat pn_len) 0 0 in
  let nonce := nonce_loop (ik_iv keys) packet_number 8 0 in
  let aad_len := uadd (i_packet_number_offset initial) pn_len in
  let ciphertext_len := usub (i_payload_len initial) pn_len in
  if (QSR_MAX_CLIENT_HELLO_SIZE <? ciphertext_len) || (packet_len <? uadd aad_len ciphertext_len)
  then Fail QSR_ERR_INVALID else
  aes_gcm_open (ik_key keys) nonce (take (Z.to_nat aad_len) header) aad_len (ptr_add packet aad_len) ciphertext_len.
End crypto.

(** ** Protection, as the sender does it (RFC 9001 §5.3 and §5.4) *)

(** What OpenSSL documents of its operations, with [gcm_seal] the encryption
    that [evp_gcm_open] undoes. *)
Class CryptoLaws `{Crypto} := {
  gcm_seal : list Z -> list Z -> list Z -> list Z -> list Z * list Z;
  gcm_seal_length : forall key nonce aad plaintext,
    Zlen (gcm_seal key nonce aad plaintext).1 = Zlen plaintext /\ Zlen (gcm_seal key nonce aad plaintext).2 = 16;
  gcm_open_seal : forall key nonce aad plaintext, Zlen key = 16 -> Zlen nonce = 12 ->
    evp_gcm_open key nonce aad (gcm_seal key nonce aad plaintext).1 (gcm_seal key nonce aad plaintext).2 = Some plaintext;
  aes_ecb_block : forall key block, Zlen key = 16 -> Zlen block = 16 ->
    exists mask, evp_aes_ecb key block = Some mask /\ Zlen mask = 16 /\ bytes_ok mask;
  hkdf_extract_32 : forall salt key, exists secret, evp_hkdf_extract salt key = Some secret /\ Zlen secret = 32;
  hkdf_expand_length : forall secret info n, 0 <= n <= 255 * 32 ->
    exists out, evp_hkdf_expand secret info n = Some out /\ Zlen out = n;
}.

(** The nonce: the IV xor the packet number, right-aligned. *)
Definition nonce_of (iv : list Z) (packet_number : Z) : list Z := zip_with Z.lxor iv (be_bytes 12 packet_number).

Section protect.
Context `{CryptoLaws}.

Definition seal_payload (keys : qsr_initial_keys) (header pn plaintext : list Z) : list Z :=
  let '(c, tag) := gcm_seal (ik_key keys) (nonce_of (ik_iv keys) (be_val 0 pn)) (header ++ pn) plaintext in c ++ tag.

Definition header_mask (keys : qsr_initial_keys) (pn sealed : list Z) : list Z :=
  default [] (evp_aes_ecb (ik_hp keys) (take 16 (drop (4 - length pn) sealed))).

(** The packet: [header] up to the packet number, [pn] the packet number bytes. *)
Definition protect (keys : qsr_initial_keys) (header pn plaintext : list Z) : list Z :=
  let sealed := seal_payload keys header pn plaintext in
  let mask := header_mask keys pn sealed in
  <[0%nat := Z.lxor (byte_at header 0) (Z.land (byte_at mask 0) 0x0f)]> header ++
  zip_with Z.lxor pn (drop 1 mask) ++ sealed.

(** *** Lemmas *)

Lemma seal_payload_length keys header pn plaintext :
  Zlen (seal_payload keys header pn plaintext) = Zlen plaintext + 16.
Proof.
  unfold seal_payload. pose proof (gcm_seal_length (ik_key keys) (nonce_of (ik_iv keys) (be_val 0 pn)) (header ++ pn) plaintext) as [H1 H2].
  destruct (gcm_seal _ _ _ _) as [c tag]. cbn in *. rewrite Zlen_app. lia.
Qed.

Lemma length_12 (l : list Z) : Zlen l = 12 -> exists a b c d e f g h i j k m, l = [a; b; c; d; e; f; g; h; i; j; k; m].
Proof.
  unfold Zlen. intros Hl. do 12 (destruct l as [|? l]; [cbn in Hl; lia|]). destruct l; [|cbn in Hl; lia]. by repeat eexists.
Qed.

Lemma nonce_loop_spec iv pn : Zlen iv = 12 -> 0 <= pn < 2 ^ 64 -> nonce_loop iv pn 8 0 = nonce_of iv pn.
Proof.
  intros Hiv Hpn. destruct (length_12 iv Hiv) as (a & b & c & d & e & f & g & h & i & j & k & m & ->).
  assert (Hhi : forall n, (8 <= n)%nat -> (pn / 256 ^ Z.of_nat n) mod 256 = 0).
  { intros n Hn. rewrite Z.div_small; [done|]. split; [lia|]. apply Z.lt_le_trans with (2 ^ 64); [lia|].
    change 256 with (2 ^ 8). rewrite <- Z.pow_mul_r by lia. apply Z.pow_le_mono_r; lia. }
  assert (Hlo : forall n, u8 (Z.shiftr pn (Z.of_nat n * 8)) = (pn / 256 ^ Z.of_nat n) mod 256).
  { intros n. rewrite Z.shiftr_div_pow2 by lia. unfold wrap. rewrite (Z.mul_comm _ 8), Z.pow_mul_r by lia. done. }
  unfold nonce_of. cbn [nonce_loop be_bytes zip_with byte_at lookup list_lookup default insert list_insert Nat.sub Nat.add].
  rewrite !Hlo, !(Hhi 11%nat), !(Hhi 10%nat), !(Hhi 9%nat), !(Hhi 8%nat), !Z.lxor_0_r by lia. done.
Qed.

Lemma lxor_lxor a b : Z.lxor (Z.lxor a b) b = a.
Proof. by rewrite Z.lxor_assoc, Z.lxor_nilpotent, Z.lxor_0_r. Qed.

(** Unmasking gives the packet number bytes back, and their value. *)
Lemma packet_number_loop_spec mask pn : forall pre post offset i acc,
  bytes_ok pn -> (i + 1 + length pn <= length mask)%nat -> length pre = (Z.to_nat offset + i)%nat ->
  0 <= acc < 2 ^ (8 * Z.of_nat i) -> (i + length pn <= 8)%nat ->
  packet_number_loop mask (pre ++ zip_with Z.lxor pn (drop (i + 1) mask) ++ post) offset (length pn) i acc =
    (pre ++ pn ++ post, be_val acc pn).
Proof.
  induction pn as [|b pn IH]; intros pre post offset i acc Hb Hm Hpre Hacc Hi; [done|].
  autorewrite with bytes in Hb. destruct Hb as [Hb Hpn]. unfold is_byte in Hb.
  cbn [length] in *. destruct (lookup_lt_is_Some_2 mask (i + 1)) as [x Hx]; [lia|].
  rewrite (drop_S _ _ _ Hx). cbn [zip_with packet_number_loop app].
  assert (Hat : byte_at (pre ++ Z.lxor b x :: zip_with Z.lxor pn (drop (S (i + 1)) mask) ++ post) (Z.to_nat offset + i) = Z.lxor b x).
  { unfold byte_at. rewrite lookup_app_r by lia. by replace (_ - _)%nat with 0%nat by lia. }
  assert (Hmx : byte_at mask (i + 1) = x) by (unfold byte_at; by rewrite Hx).
  rewrite Hat, Hmx, lxor_lxor. rewrite <- Hpre, insert_app_r_alt, Nat.sub_diag by lia. cbn [insert list_insert].
  assert (H8 : 2 ^ (8 * Z.of_nat (i + 1)) = 2 ^ (8 * Z.of_nat i) * 256)
    by (rewrite Nat2Z.inj_add, Z.mul_add_distr_l, Z.pow_add_r by lia; done).
  assert (2 ^ (8 * Z.of_nat (i + 1)) <= 2 ^ 64) by (apply Z.pow_le_mono_r; lia).
  assert (Hn : Z.lor (u64 (Z.shiftl acc 8)) b = acc * 256 + b).
  { rewrite wrap_small by (rewrite Z.shiftl_mul_pow2 by lia; lia). by rewrite lor_shiftl_add. }
  rewrite Hn. specialize (IH (pre ++ [b]) post offset (i + 1)%nat (acc * 256 + b)).
  replace (S (i + 1)) with (i + 1 + 1)%nat by lia.
  replace (pre ++ b :: _) with ((pre ++ [b]) ++ zip_with Z.lxor pn (drop (i + 1 + 1) mask) ++ post) by (by rewrite <- app_assoc).
  rewrite IH; [by rewrite <- app_assoc|done|lia|rewrite length_app; cbn; lia|lia|lia].
Qed.

Lemma derived_length out n l : derived out n = Ok l -> Zlen l = n.
Proof using. clear. unfold derived. destruct out; [|done]. split_if; [|done]. bool_to_prop. congruence. Qed.

Lemma expand_label_length secret label n l : hkdf_expand_label secret label n = Ok l -> Zlen l = n.
Proof using. unfold hkdf_expand_label. split_if; [done|]. apply derived_length. Qed.

Lemma client_keys_length version dcid dcid_len keys :
  qsr_quic_initial_client_keys version dcid dcid_len = Ok keys ->
  Zlen (ik_key keys) = 16 /\ Zlen (ik_iv keys) = 12 /\ Zlen (ik_hp keys) = 16 /\ 0 < dcid_len <= 20 \/ dcid_len < 0.
Proof using.
  unfold qsr_quic_initial_client_keys. intros Hk. inv_ok. bool_to_prop. unfold QSR_MAX_QUIC_CID_LEN in *.
  repeat match goal with E : hkdf_expand_label _ _ _ = Ok _ |- _ => apply expand_label_length in E end.
  cbn. destruct (decide (dcid_len < 0)); [by right|left]. split_and!; lia.
Qed.

(** Opening what was sealed, wherever it stands in a buffer. *)
Lemma gcm_open_sealed key nonce aad aad_len plaintext prefix rest text len : Zlen key = 16 -> Zlen nonce = 12 ->
  text = (gcm_seal key nonce aad plaintext).1 ++ (gcm_seal key nonce aad plaintext).2 ->
  len = Zlen plaintext + 16 -> aad_len <= INT_MAX -> Zlen plaintext <= INT_MAX ->
  aes_gcm_open key nonce aad aad_len (Ptr (prefix ++ text ++ rest) (Zlen prefix)) len = Ok plaintext.
Proof.
  intros Hk Hn -> -> Ha Hl. pose proof (Zlen_nonneg plaintext). unfold INT_MAX in *.
  destruct (gcm_seal_length key nonce aad plaintext) as [Hc Ht]. pose proof (gcm_open_seal key nonce aad plaintext Hk Hn) as Ho.
  destruct (gcm_seal key nonce aad plaintext) as [c tag]. cbn [fst snd] in *. unfold aes_gcm_open, INT_MAX.
  rewrite !usub_small by lia. rewrite !(proj2 (Z.ltb_ge _ _)) by lia. cbn [orb].
  replace (Zlen plaintext + 16 - 16) with (Zlen c) by lia. rewrite <- !app_assoc.
  rewrite load_bytes_app by done. cbn [mbind outcome_bind]. unfold ptr_add. cbn [p_buf p_off].
  rewrite (app_assoc prefix), load_bytes_app by (rewrite ?Zlen_app; lia). cbn [mbind outcome_bind]. by rewrite Ho.
Qed.

(** Unmasking the first byte of a header whose first byte is masked. *)
Lemma unmask_first header t m : 0 < Zlen header ->
  let h := <[0%nat := Z.lxor (byte_at header 0) m]> header ++ t in
  <[0%nat := Z.lxor (byte_at h 0) m]> h = header ++ t.
Proof using.
  clear. destruct header as [|b header]; [done|]. intros _. cbn. by rewrite lxor_lxor.
Qed.

Section decrypt.
Context (keys : qsr_initial_keys) (header pn plaintext rest : list Z) (i : qsr_quic_initial).
Hypothesis keys_of : qsr_quic_initial_client_keys (i_version i) (i_dcid i) (i_dcid_len i) = Ok keys.
Hypothesis dcid_len : 0 <= i_dcid_len i.
Hypothesis header_bytes : bytes_ok (header ++ pn).
Hypothesis pn_bytes : 1 <= Zlen pn <= 4.
Hypothesis header_pn : 0 < Zlen header /\ Z.land (byte_at header 0) 3 = Zlen pn - 1.
Hypothesis pn_offset : i_packet_number_offset i = Zlen header.
Hypothesis payload : i_payload_len i = Zlen pn + Zlen plaintext + 16.
Hypothesis payload_min : QSR_MIN_INITIAL_PAYLOAD_LEN <= i_payload_len i.

#[local] Abbreviation sealed := (seal_payload keys header pn plaintext).
#[local] Abbreviation mask := (header_mask keys pn sealed).
#[local] Abbreviation packet := (protect keys header pn plaintext ++ rest).
Hypothesis packet_size : Zlen packet <= QSR_MAX_DATAGRAM_SIZE.

Lemma mask_ok : Zlen mask = 16 /\ aes_ecb_mask (ik_hp keys) (ptr_add (Ptr packet 0) (Zlen header + 4)) = Ok mask.
Proof using keys_of dcid_len pn_bytes payload payload_min.
  destruct (client_keys_length _ _ _ _ keys_of) as [(_ & _ & Hhp & _)|]; [|lia].
  pose proof (seal_payload_length keys header pn plaintext) as Hs. unfold QSR_MIN_INITIAL_PAYLOAD_LEN in *.
  assert (Hsample : Zlen (take 16 (drop (4 - length pn) sealed)) = 16)
    by (unfold Zlen in *; rewrite length_take, length_drop; lia).
  destruct (aes_ecb_block (ik_hp keys) (take 16 (drop (4 - length pn) sealed)) Hhp Hsample) as (m & Hm & Hml & _).
  assert (Hmask : mask = m) by (unfold header_mask; by rewrite Hm).
  assert (Hzip : Zlen (zip_with Z.lxor pn (drop 1 mask)) = Zlen pn).
  { rewrite Hmask. unfold Zlen in *. rewrite length_zip_with, length_drop. lia. }
  split; [by rewrite Hmask|]. unfold aes_ecb_mask.
  assert (Hl : load_bytes (ptr_add (Ptr packet 0) (Zlen header + 4)) 16 = Ok (take 16 (drop (4 - length pn) sealed))).
  { unfold protect. cbv zeta. set (h := <[0%nat := _]> header). assert (Hh : Zlen h = Zlen header) by (unfold Zlen, h; by rewrite length_insert).
    replace ((h ++ zip_with Z.lxor pn (drop 1 mask) ++ sealed) ++ rest) with
      ((h ++ zip_with Z.lxor pn (drop 1 mask) ++ take (4 - length pn) sealed) ++ take 16 (drop (4 - length pn) sealed) ++
        (drop 16 (drop (4 - length pn) sealed) ++ rest)).
    - apply load_bytes_app; [|done]. rewrite !Zlen_app, Hzip, Hh. unfold Zlen in *. rewrite length_take. cbn [p_off]. lia.
    - rewrite <- !app_assoc. do 2 f_equal. rewrite (app_assoc (take 16 _)), take_drop, app_assoc, take_drop. done. }
  rewrite Hl. cbn [mbind outcome_bind]. rewrite Hm. unfold derived. rewrite Hml. by rewrite Hmask.
Qed.

Lemma decrypt_protect : qsr_quic_decrypt_initial (Ptr packet 0) (Zlen packet) i = Ok plaintext.
Proof using keys_of dcid_len header_bytes pn_bytes header_pn pn_offset payload payload_min packet_size.
  destruct mask_ok as [Hml Hmask]. destruct (client_keys_length _ _ _ _ keys_of) as [(Hkey & Hiv & _ & Hdl)|]; [|lia].
  destruct header_pn as [Hh0 Hpn0]. pose proof (seal_payload_length keys header pn plaintext) as Hs.
  assert (Hzip : Zlen (zip_with Z.lxor pn (drop 1 mask)) = Zlen pn).
  { unfold Zlen in *. rewrite length_zip_with, length_drop. lia. }
  assert (Hpk : Zlen packet = Zlen header + Zlen pn + Zlen sealed + Zlen rest).
  { unfold protect. cbv zeta. rewrite !Zlen_app, Hzip. unfold Zlen. rewrite length_insert. lia. }
  pose proof (Zlen_nonneg rest). pose proof (Zlen_nonneg plaintext). unfold QSR_MAX_DATAGRAM_SIZE, QSR_MIN_INITIAL_PAYLOAD_LEN in *.
  unfold qsr_quic_decrypt_initial. rewrite keys_of, pn_offset.
  rewrite (proj2 (Z.eqb_neq (i_dcid_len i) 0)) by lia. rewrite !(uadd_small (Zlen header)), uadd_small by lia.
  unfold QSR_MIN_INITIAL_PAYLOAD_LEN, QSR_MAX_DATAGRAM_SIZE.
  rewrite (proj2 (Z.ltb_ge (Zlen packet) _)) by lia. rewrite (proj2 (Z.ltb_ge (i_payload_len i) _)) by lia. cbn [orb mbind outcome_bind].
  rewrite (proj2 (Z.ltb_ge 1500 _)) by lia.
  assert (Hload : load_bytes (Ptr packet 0) (Zlen packet) = Ok packet).
  { pose proof (load_bytes_app [] packet [] 0 (Zlen packet) eq_refl eq_refl) as Hlb. by rewrite app_nil_r in Hlb. }
  rewrite Hload. cbn [mbind outcome_bind]. rewrite Hmask. cbn [or_fail mbind outcome_bind].
  assert (Hpacket : packet = <[0%nat := Z.lxor (byte_at header 0) (Z.land (byte_at mask 0) 0x0f)]> header ++
    zip_with Z.lxor pn (drop 1 mask) ++ sealed ++ rest).
  { unfold protect. cbv zeta. by rewrite <- !app_assoc. }
  assert (Hfirst : <[0%nat := Z.lxor (byte_at packet 0) (Z.land (byte_at mask 0) 0x0f)]> packet =
    header ++ zip_with Z.lxor pn (drop 1 mask) ++ sealed ++ rest).
  { rewrite Hpacket. by apply unmask_first. }
  rewrite Hfirst.
  assert (Hb0 : byte_at (header ++ zip_with Z.lxor pn (drop 1 mask) ++ sealed ++ rest) 0 = byte_at header 0).
  { unfold byte_at. rewrite lookup_app_l; [done|unfold Zlen in *; lia]. }
  rewrite Hb0, Hpn0. replace (Zlen pn - 1 + 1) with (Zlen pn) by lia.
  rewrite (proj2 (Z.ltb_ge (i_payload_len i) _)) by lia. rewrite uadd_small by lia.
  rewrite (proj2 (Z.ltb_ge (Zlen packet) _)) by lia. cbn [orb].
  autorewrite with bytes in header_bytes. destruct header_bytes as [_ Hpnb].
  replace (Z.to_nat (Zlen pn)) with (length pn) by (unfold Zlen; lia).
  pose proof (packet_number_loop_spec mask pn header (sealed ++ rest) (Zlen header) 0 0 Hpnb) as Hloop.
  change (0 + 1)%nat with 1%nat in Hloop. rewrite Hloop; [|unfold Zlen in *; lia..]. clear Hloop.
  assert (Hval : 0 <= be_val 0 pn < 2 ^ 64).
  { pose proof (be_val_bound pn 0 0 ltac:(lia) Hpnb ltac:(lia)) as Hbv.
    assert (2 ^ (0 + 8 * Zlen pn) <= 2 ^ 64) by (apply Z.pow_le_mono_r; lia). lia. }
  rewrite nonce_loop_spec by done. rewrite !usub_small by lia.
  rewrite (proj2 (Z.ltb_ge _ (i_payload_len i - Zlen pn))) by (unfold QSR_MAX_CLIENT_HELLO_SIZE; lia).
  rewrite uadd_small by lia. rewrite (proj2 (Z.ltb_ge (Zlen packet) _)) by lia. cbn [orb].
  replace (Z.to_nat (Zlen header + Zlen pn)) with (length (header ++ pn)) by (rewrite length_app; unfold Zlen; lia).
  rewrite app_assoc, take_app_length. unfold ptr_add. cbn [p_buf p_off]. rewrite Z.add_0_l, Hpacket.
  set (h' := <[0%nat := _]> header). assert (Hh' : Zlen h' = Zlen header) by (unfold Zlen, h'; by rewrite length_insert).
  replace (Zlen header + Zlen pn) with (Zlen (h' ++ zip_with Z.lxor pn (drop 1 mask))) at 2 by (rewrite Zlen_app; lia).
  rewrite app_assoc. apply gcm_open_sealed; [done| |unfold seal_payload; by destruct (gcm_seal _ _ _ _)|unfold INT_MAX; lia..].
  unfold nonce_of, Zlen in *. rewrite length_zip_with, length_be_bytes. lia.
Qed.
End decrypt.
End protect.

(** *** Keys exist, decryption stays in bounds *)

Lemma expand_label_ok `{CryptoLaws} secret label n :
  Zlen (c_string label) <= 54 -> 0 <= n <= 255 -> exists out, hkdf_expand_label secret label n = Ok out.
Proof.
  intros Hl Hn. unfold hkdf_expand_label. change (Zlen (c_string "tls13 ")) with 6. unfold UINT16_MAX.
  rewrite !(proj2 (Z.ltb_ge _ _)) by lia. cbn [orb].
  destruct (hkdf_expand_length secret (expand_info (c_string label) n) n ltac:(lia)) as (out & Ho & Hlen).
  exists out. unfold hkdf_expand, derived. rewrite Ho, Hlen. by rewrite Z.eqb_refl.
Qed.

Lemma client_keys_ok `{CryptoLaws} version dcid dcid_len : version = QSR_QUIC_V1 \/ version = QSR_QUIC_V2 ->
  0 < dcid_len <= 20 -> exists keys, qsr_quic_initial_client_keys version dcid dcid_len = Ok keys.
Proof.
  intros Hv Hd. unfold qsr_quic_initial_client_keys. rewrite (proj2 (Z.eqb_neq _ _)) by lia.
  unfold QSR_MAX_QUIC_CID_LEN. rewrite (proj2 (Z.ltb_ge _ _)) by lia. cbn [orb].
  assert (Hk : exists k, keying_for_version version = Ok k /\ Zlen (c_string (kg_key_label k)) <= 54 /\
    Zlen (c_string (kg_iv_label k)) <= 54 /\ Zlen (c_string (kg_hp_label k)) <= 54).
  { unfold keying_for_version. destruct Hv as [-> | ->]; (eexists; split; [reflexivity|]); vm_compute; split_and!; congruence. }
  destruct Hk as (k & -> & Hk1 & Hk2 & Hk3). cbn [or_fail mbind outcome_bind].
  destruct (hkdf_extract_32 (kg_salt k) (take (Z.to_nat dcid_len) dcid)) as (s & Hs & Hsl).
  unfold hkdf_extract, derived at 1. rewrite Hs, Hsl. cbn [Z.eqb Pos.eqb mbind outcome_bind].
  destruct (expand_label_ok s "client in" 32) as [c ->]; [vm_compute; congruence|lia|]. cbn [mbind outcome_bind].
  destruct (expand_label_ok c (kg_key_label k) 16 Hk1) as [key ->]; [lia|]. cbn [mbind outcome_bind].
  destruct (expand_label_ok c (kg_iv_label k) 12 Hk2) as [iv ->]; [lia|]. cbn [mbind outcome_bind].
  destruct (expand_label_ok c (kg_hp_label k) 16 Hk3) as [hp ->]; [lia|]. by eexists.
Qed.

Lemma derived_no_fault out n : no_fault (derived out n).
Proof. unfold derived. destruct out; [split_if|]; done. Qed.

Lemma client_keys_no_fault `{Crypto} version dcid dcid_len : no_fault (qsr_quic_initial_client_keys version dcid dcid_len).
Proof.
  unfold qsr_quic_initial_client_keys, hkdf_extract, hkdf_expand_label, hkdf_expand, keying_for_version.
  split_if; [done|]. apply no_fault_bind; [repeat split_if; done|]. intros k _. apply no_fault_or_fail.
  repeat first [ apply no_fault_bind; [|intros ? _] | split_if | apply derived_no_fault | done ].
Qed.

Lemma decrypt_no_fault `{Crypto} p len i : readable p len -> 0 <= i_packet_number_offset i < 2 ^ 32 ->
  0 <= i_payload_len i < 2 ^ 32 -> no_fault (qsr_quic_decrypt_initial p len i).
Proof.
  intros Hr Ho Hp. pose proof Hr as (? & ? & ?). unfold qsr_quic_decrypt_initial.
  rewrite (uadd_small (i_packet_number_offset i) 4), uadd_small by lia.
  destruct (_ || _) eqn:E; [done|]. bool_to_prop. unfold QSR_MIN_INITIAL_PAYLOAD_LEN in *.
  apply no_fault_bind; [apply client_keys_no_fault|]. intros keys _. destruct (QSR_MAX_DATAGRAM_SIZE <? len) eqn:E1; [done|].
  unfold QSR_MAX_DATAGRAM_SIZE in *. bool_to_prop.
  apply no_fault_bind; [apply (load_bytes_no_fault _ len); [done|lia]|]. intros header _.
  apply no_fault_bind.
  { apply no_fault_or_fail. unfold aes_ecb_mask. apply no_fault_bind; [|intros; apply derived_no_fault].
    apply (load_bytes_no_fault _ (len - (i_packet_number_offset i + 4))); [apply readable_add; [done|lia]|lia]. }
  intros mask _. cbv zeta. set (b0 := byte_at (<[0%nat := _]> header) 0).
  assert (Hpn : 0 <= Z.land b0 3 < 4) by (change 3 with (2 ^ 2 - 1); rewrite (land_ones_mod b0 2) by lia; apply Z.mod_pos_bound; lia).
  set (pn_len := Z.land b0 3 + 1) in *. rewrite uadd_small by lia.
  destruct (_ || _) eqn:E2; [done|]. bool_to_prop. destruct (packet_number_loop _ _ _ _ _ _) as [h n].
  rewrite !usub_small by lia. destruct (_ || _) eqn:E3; [done|]. bool_to_prop. unfold QSR_MAX_CLIENT_HELLO_SIZE in *.
  rewrite uadd_small in * by lia. unfold aes_gcm_open. destruct (_ || _) eqn:E4; [done|]. bool_to_prop.
  rewrite (usub_small _ 16) in * by lia.
  assert (Hra : readable (ptr_add p (i_packet_number_offset i + pn_len)) (len - (i_packet_number_offset i + pn_len)))
    by (apply readable_add; [done|lia]).
  apply no_fault_bind; [apply (load_bytes_no_fault _ _ _ Hra); lia|]. intros e _.
  apply no_fault_bind; [|intros tag _; by destruct (evp_gcm_open _ _ _ _ _)].
  apply (load_bytes_no_fault _ (len - (i_packet_number_offset i + pn_len) - (i_payload_len i - pn_len - 16)));
    [apply readable_add; [done|lia]|lia].
Qed.

(** ** Properties *)

(** C39: a packet protected under the client Initial keys of its version and
    connection ID is decrypted to its plaintext, for packet numbers of one to four bytes and with
    other packets behind it in the datagram. *)
Theorem decrypt_initial_roundtrip `{CryptoLaws} i header pn plaintext rest :
  i_version i = QSR_QUIC_V1 \/ i_version i = QSR_QUIC_V2 -> 0 < i_dcid_len i <= 20 ->
  bytes_ok (header ++ pn) -> 1 <= Zlen pn <= 4 ->
  0 < Zlen header -> Z.land (byte_at header 0) 3 = Zlen pn - 1 ->
  i_packet_number_offset i = Zlen header -> i_payload_len i = Zlen pn + Zlen plaintext + 16 ->
  QSR_MIN_INITIAL_PAYLOAD_LEN <= i_payload_len i ->
  exists keys, qsr_quic_initial_client_keys (i_version i) (i_dcid i) (i_dcid_len i) = Ok keys /\
    (Zlen (protect keys header pn plaintext ++ rest) <= QSR_MAX_DATAGRAM_SIZE ->
     qsr_quic_decrypt_initial (Ptr (protect keys header pn plaintext ++ rest) 0)
       (Zlen (protect keys header pn plaintext ++ rest)) i = Ok plaintext).
Proof.
  intros Hv Hd Hb Hpn Hh Hp Ho Hl Hmin. destruct (client_keys_ok (i_version i) (i_dcid i) (i_dcid_len i) Hv Hd) as [keys Hk].
  exists keys. split; [done|]. intros Hz. by apply decrypt_protect; [|lia|..].
Qed.

(** Decrypting an Initial that the parser accepted never reads outside the
    datagram, whatever OpenSSL returns. *)
Theorem decrypt_initial_safe `{Crypto} p len i :
  readable p len -> bytes_ok (p_buf p) -> qsr_quic_parse_initial p len = Ok i ->
  no_fault (qsr_quic_decrypt_initial p len i).
Proof.
  intros Hr Hb Hi. destruct (parse_initial_spec p len i Hr Hb Hi) as [Hok _]. pose proof Hr as (? & ? & ?).
  destruct Hok. apply decrypt_no_fault; [done|lia..].
Qed.

(** ** Witnesses *)

(** A toy suite: sealing appends a zero tag, everything else is zeros. *)
#[local] Instance demo_crypto : Crypto := {|
  evp_hkdf_extract _ _ := Some (zeros 32);
  evp_hkdf_expand _ _ n := Some (zeros n);
  evp_aes_ecb _ _ := Some (replicate 16 5);
  evp_gcm_open _ _ _ c tag := if bool_decide (tag = zeros 16) then Some c else None;
|}.

#[local] Program Instance demo_laws : CryptoLaws := {|
  gcm_seal _ _ _ plaintext := (plaintext, zeros 16);
|}.
Next Obligation. done. Qed.
Next Obligation. intros. cbn [evp_gcm_open demo_crypto snd fst]. by rewrite bool_decide_eq_true_2. Qed.
Next Obligation. eexists. split_and!; [reflexivity|reflexivity|bytes_concrete]. Qed.
Next Obligation. by eexists. Qed.
Next Obligation. eexists. split; [reflexivity|]. unfold Zlen. rewrite length_zeros. lia. Qed.

Definition demo_header : list Z := 0xc1 :: replicate 19 2.

Definition demo_initial : qsr_quic_initial :=
  mk_initial QSR_QUIC_V1 (cid_array sample_dcid) 8 (cid_array []) 0 16 0 20 48 20.

Lemma decrypt_initial_roundtrip_witness :
  exists keys, qsr_quic_initial_client_keys QSR_QUIC_V1 (cid_array sample_dcid) 8 = Ok keys /\
    qsr_quic_decrypt_initial (Ptr (protect keys demo_header [0; 1] (replicate 30 6) ++ [7]) 0)
      (Zlen (protect keys demo_header [0; 1] (replicate 30 6) ++ [7])) demo_initial = Ok (replicate 30 6).
Proof.
  destruct (decrypt_initial_roundtrip demo_initial demo_header [0; 1] (replicate 30 6) [7]) as (keys & Hk & Hd);
    [by left|split; vm_compute; congruence|bytes_concrete|z_concrete|reflexivity|reflexivity|reflexivity|reflexivity|z_concrete|].
  exists keys. split; [exact Hk|]. apply Hd. vm_compute in Hk. injection Hk as <-. vm_compute. congruence.
Defined.

Lemma decrypt_initial_safe_witness :
  no_fault (qsr_quic_decrypt_initial (Ptr sample_initial 0) (Zlen sample_initial)
    (mk_initial QSR_QUIC_V1 (cid_array sample_dcid) 8 (cid_array []) 0 16 0 18 40 18)).
Proof. apply decrypt_initial_safe; [z_concrete|bytes_concrete|reflexivity]. Defined.
