(* ===== verification/Runtime.v ===== *)
(** * The runtime and its hot reload

    [src/runtime.c]: the configuration in force, the session table and the flow
    table, and the reload that replaces the routes while they are in use. What
    the kernel answers (inotify, [read]) is a parameter, as are the file and
    the resolver; what is printed is a list of lines. *)

From Stdlib Require Import String.
From stdpp Require Import gmap.
From S2P Require Import Prelude Hash SessionKey Probe SessionTable FlowTable RouteTable CidCodec Config LogText.
#[local] Open Scope Z_scope.

(** ** Data *)

(** [config_path] is [None] for a null pointer. *)
Record qsr_runtime := {
  run_config : qsr_config;
  run_sessions : qsr_session_table;
  run_flows : qsr_flow_table;
  run_config_path : option (list Z);
  run_inotify_fd : Z;
}.

Definition QSR_FLOWS_PER_SESSION_DIVISOR : Z := 4.
Definition QSR_FLOW_CAPACITY_MIN : Z := 256.
Definition PATH_MAX : Z := 4096.

Definition run_set_config (r : qsr_runtime) (c : qsr_config) : qsr_runtime := {|
  run_config := c; run_sessions := run_sessions r; run_flows := run_flows r;
  run_config_path := run_config_path r; run_inotify_fd := run_inotify_fd r |}.
Definition run_set_sessions (r : qsr_runtime) (t : qsr_session_table) : qsr_runtime := {|
  run_config := run_config r; run_sessions := t; run_flows := run_flows r;
  run_config_path := run_config_path r; run_inotify_fd := run_inotify_fd r |}.
Definition run_set_flows (r : qsr_runtime) (t : qsr_flow_table) : qsr_runtime := {|
  run_config := run_config r; run_sessions := run_sessions r; run_flows := t;
  run_config_path := run_config_path r; run_inotify_fd := run_inotify_fd r |}.
Definition run_set_inotify_fd (r : qsr_runtime) (fd : Z) : qsr_runtime := {|
  run_config := run_config r; run_sessions := run_sessions r; run_flows := run_flows r;
  run_config_path := run_config_path r; run_inotify_fd := fd |}.

(** ** Logging *)

(** The address that is printed for a route, when it has one. *)
Definition backend_shown (r : qsr_route) : option (list Z * Z) :=
  if r_backend_resolved r then Some (r_backend_addr r, r_backend_addr_len r) else None.

(** The lines of [log_route_diff], with the backends they show. *)
Inductive diff_line :=
  | RouteAdded (sni : list Z) (new : option (list Z * Z))
  | RouteChanged (sni : list Z) (new old : option (list Z * Z))
  | RouteRemoved (sni : list Z) (old : option (list Z * Z))
  | RouteSummary (added changed removed unchanged : Z).

Section find.

(** [for (i = 0; i < count; i++)]: the index of the route, from [i] with [n] left. *)
Fixpoint find_route_loop (t : qsr_route_table) (sni : list Z) (n : nat) (i : Z) : option Z :=
  match n with
  | O => None
  | S n => if streq (r_sni (route_at t i)) sni then Some i else find_route_loop t sni n (uadd i 1)
  end.

Definition find_route_by_sni (t : qsr_route_table) (sni : list Z) : option Z :=
  find_route_loop t sni (Z.to_nat (rt_count t)) 0.

(** [n->backend_addr_len != o->backend_addr_len || memcmp(...) != 0] *)
Definition backend_differs (n o : qsr_route) : bool :=
  negb (r_backend_addr_len n =? r_backend_addr_len o) ||
  negb (mem_eq (r_backend_addr n) (r_backend_addr o) (r_backend_addr_len n)).

(** The first loop: the lines, and the numbers of routes added, changed and unchanged. *)
Fixpoint diff_new_loop (old_routes new_routes : qsr_route_table) (n : nat) (i added changed unchanged : Z) :
    list diff_line * Z * Z * Z :=
  match n with
  | O => ([], added, changed, unchanged)
  | S n =>
      let r := route_at new_routes i in
      let next := diff_new_loop old_routes new_routes n (uadd i 1) in
      match find_route_by_sni old_routes (r_sni r) with
      | None => let '(lines, a, c, u) := next (uadd added 1) changed unchanged in (RouteAdded (r_sni r) (backend_shown r) :: lines, a, c, u)
      | Some o =>
          if backend_differs r (route_at old_routes o)
          then let '(lines, a, c, u) := next added (uadd changed 1) unchanged in
               (RouteChanged (r_sni r) (backend_shown r) (backend_shown (route_at old_routes o)) :: lines, a, c, u)
          else next added changed (uadd unchanged 1)
      end
  end.

Fixpoint diff_old_loop (old_routes new_routes : qsr_route_table) (n : nat) (i removed : Z) : list diff_line * Z :=
  match n with
  | O => ([], removed)
  | S n =>
      let o := route_at old_routes i in
      if bool_decide (find_route_by_sni new_routes (r_sni o) = None)
      then let '(lines, removed) := diff_old_loop old_routes new_routes n (uadd i 1) (uadd removed 1) in
           (RouteRemoved (r_sni o) (backend_shown o) :: lines, removed)
      else diff_old_loop old_routes new_routes n (uadd i 1) removed
  end.

Definition log_route_diff (old_routes new_routes : qsr_route_table) : list diff_line :=
  let '(new_lines, added, changed, unchanged) :=
    diff_new_loop old_routes new_routes (Z.to_nat (rt_count new_routes)) 0 0 0 0 in
  let '(old_lines, removed) := diff_old_loop old_routes new_routes (Z.to_nat (rt_count old_routes)) 0 0 in
  new_lines ++ old_lines ++ [RouteSummary added changed removed unchanged].
End find.

(** What a reload prints. *)
Inductive reload_line :=
  | ParseFailed (status : qsr_status)
  | ResolveFailed (status : qsr_status)
  | ListenIgnored (old new : list Z)
  | MaxSessionsIgnored (old new : Z)
  | Diff (line : diff_line)
  | Evicted (sessions flows : Z)
  | CidEncodingUpdated (enabled : bool)
  | LoggingUpdated (on : bool)
  | ReloadOk (routes : Z).

(** ** The printed lines *)

Section text.
Context `{InetNtop}.

(** [char addr[INET6_ADDRSTRLEN + 8] = "?"], and [format_backend] into it for a resolved route. *)
Definition backend_text (shown : option (list Z * Z)) : list Z :=
  match shown with
  | Some (addr, addr_len) => format_backend addr addr_len (INET6_ADDRSTRLEN + 8)
  | None => str "?"
  end.

Definition diff_text (line : diff_line) : list Z :=
  match line with
  | RouteAdded sni new => str "reload: + route " ++ sni ++ str " -> " ++ backend_text new ++ [10]
  | RouteChanged sni new old =>
      str "reload: ~ route " ++ sni ++ str " -> " ++ backend_text new ++ str " (was " ++ backend_text old ++ str ")" ++ [10]
  | RouteRemoved sni old => str "reload: - route " ++ sni ++ str " (was " ++ backend_text old ++ str ")" ++ [10]
  | RouteSummary added changed removed unchanged =>
      str "reload: route summary: +" ++ decimal added ++ str " ~" ++ decimal changed ++ str " -" ++ decimal removed ++
      str " =" ++ decimal unchanged ++ [10]
  end.

Definition reload_text (line : reload_line) : list Z :=
  match line with
  | ParseFailed status => str "reload: parse failed (" ++ signed_decimal (status_code status) ++ str ") — keeping previous config" ++ [10]
  | ResolveFailed status =>
      str "reload: backend resolve failed (" ++ signed_decimal (status_code status) ++ str ") — keeping previous config" ++ [10]
  | ListenIgnored old new =>
      str "reload: listen.udp change ignored (requires restart): " ++ old ++ str " -> " ++ new ++ [10]
  | MaxSessionsIgnored old new =>
      str "reload: sessions.maxSessions change ignored (requires restart): " ++ decimal old ++ str " -> " ++ decimal new ++ [10]
  | Diff line => diff_text line
  | Evicted sessions flows =>
      str "reload: " ++ decimal sessions ++ str " sessions and " ++ decimal flows ++ str " flows evicted (backends removed)" ++ [10]
  | CidEncodingUpdated enabled =>
      str "reload: cidEncoding updated (enabled=" ++ decimal (if enabled : bool then 1 else 0) ++ str ")" ++ [10]
  | LoggingUpdated on => str "reload: logging.connections=" ++ str (if on : bool then "on" else "off") ++ [10]
  | ReloadOk routes => str "reload: ok (" ++ decimal routes ++ str " routes total)" ++ [10]
  end.

(** [for (i = 0; i < routes->count; i++)]: the lines from route [i] on, [n] left. *)
Fixpoint log_routes_loop (prefix : list Z) (routes : qsr_route_table) (n : nat) (i : Z) : list (list Z) :=
  match n with
  | O => []
  | S n =>
      let r := route_at routes i in
      (prefix ++ str " route " ++ r_sni r ++ str " -> " ++ backend_text (backend_shown r) ++ [10]) ::
      log_routes_loop prefix routes n (uadd i 1)
  end.

Definition qsr_runtime_log_routes (prefix : list Z) (routes : qsr_route_table) : list (list Z) :=
  log_routes_loop prefix routes (Z.to_nat (rt_count routes)) 0.
End text.

(** ** Inotify *)

(** [inotify_init1], [dirname] and [inotify_add_watch] as the kernel and the C
    library answer: the watch, and the descriptors closed. *)
Definition setup_inotify_watch (inotify_init1 : Z) (inotify_add_watch : list Z -> Z) (dirname : list Z -> list Z)
    (config_path : option (list Z)) : Z * list flow_event :=
  match config_path with
  | None => (-1, [])
  | Some path =>
      let ifd := inotify_init1 in
      if ifd <? 0 then (-1, [])
      else if PATH_MAX <? uadd (Zlen path) 1 then (-1, [CloseFd ifd])
      else if inotify_add_watch (dirname path) <? 0 then (-1, [CloseFd ifd])
      else (ifd, [])
  end.

(** [for (;;)] over [read]: [reads] are its results, then there is nothing to read. *)
Fixpoint drain_loop (reads : list Z) (any : bool) : bool :=
  match reads with
  | n :: reads => if 0 <? n then drain_loop reads true else any
  | [] => any
  end.

Definition drain_inotify (inotify_fd : Z) (reads : list Z) : bool :=
  if inotify_fd <? 0 then false else drain_loop reads false.

(** ** Keep-alive

    The predicate of the session expiry sweep: whether the flow a session
    belongs to still carries traffic. *)

Section runtime.
Context `{KeyedHash}.

Definition keepalive_flow (flows : qsr_flow_table) (session : qsr_session) : option qsr_flow :=
  if negb (s_owner_flow_id session =? 0) then
    match qsr_flow_table_slot flows (Z.to_nat (s_owner_slot session)) with
    | Some candidate => if f_id candidate =? s_owner_flow_id session then Some candidate else None
    | None => None
    end
  else if k_has_tuple (s_key session) && negb (k_has_cids (s_key session)) then
    slot ← qsr_flow_table_get flows (k_client_addr (s_key session)) (k_client_addr_len (s_key session));
    ft_flows flows !! slot
  else None.

Definition qsr_runtime_session_keepalive (flows : qsr_flow_table) (now idle_timeout_seconds : Z) (session : qsr_session) :
    bool :=
  match keepalive_flow flows session with
  | Some flow => now - f_last_seen flow <? idle_timeout_seconds
  | None => false
  end.

(** ** Reload *)

(** [reload_backend_sets_t]: the old routes and the new. *)
Definition should_evict_flow_on_reload (old_routes new_routes : qsr_route_table) (flow : qsr_flow) : bool :=
  qsr_route_table_has_backend old_routes (f_backend_addr flow) (f_backend_addr_len flow) &&
  negb (qsr_route_table_has_backend new_routes (f_backend_addr flow) (f_backend_addr_len flow)).

Definition should_evict_on_reload (old_routes new_routes : qsr_route_table) (session : qsr_session) : bool :=
  qsr_route_table_has_backend old_routes (s_backend_addr session) (s_backend_addr_len session) &&
  negb (qsr_route_table_has_backend new_routes (s_backend_addr session) (s_backend_addr_len session)).

Context `{Yaml} (open : list Z -> config_source) (getaddrinfo : list Z -> Z -> option (list Z)).

(** The tail of [reload_from_path]: the fields taken over from the new configuration. *)
Definition reloaded_config (old new : qsr_config) : qsr_config := {|
  c_listen_udp := c_listen_udp old; c_idle_timeout_seconds := c_idle_timeout_seconds new;
  c_max_sessions := c_max_sessions old; c_log_connections := c_log_connections new;
  c_routes := c_routes new; c_cid_codec := c_cid_codec new |}.

Definition codec_changed (old new : qsr_cid_codec) : bool :=
  negb (eqb (cc_enabled old) (cc_enabled new)) ||
  (cc_enabled new && negb (mem_eq (cc_key old) (cc_key new) QSR_CID_KEY_LEN)).

(** The runtime, the events of the flow table and the lines printed; [None] when
    a table operation has no result. *)
Definition reload_from_path (r : qsr_runtime) : option (qsr_runtime * list flow_event * list reload_line) :=
  let '(new_config, status) := qsr_config_load open (default [] (run_config_path r)) in
  if negb (bool_decide (status = QSR_OK)) then Some (r, [], [ParseFailed status]) else
  let '(routes, status) := qsr_route_table_resolve getaddrinfo (c_routes new_config) in
  let new_config := set_routes new_config routes in
  if negb (bool_decide (status = QSR_OK)) then Some (r, [], [ResolveFailed status]) else
  let old_config := run_config r in
  let ignored :=
    (if streq (c_listen_udp new_config) (c_listen_udp old_config) then []
     else [ListenIgnored (c_listen_udp old_config) (c_listen_udp new_config)]) ++
    (if c_max_sessions new_config =? c_max_sessions old_config then []
     else [MaxSessionsIgnored (c_max_sessions old_config) (c_max_sessions new_config)]) in
  '(sessions, evicted) ← qsr_session_table_evict_if (run_sessions r)
    (Some (should_evict_on_reload (c_routes old_config) (c_routes new_config)));
  '(flows, flows_evicted, ev) ← qsr_flow_table_evict_if (run_flows r)
    (Some (should_evict_flow_on_reload (c_routes old_config) (c_routes new_config)));
  let lines :=
    ignored ++ (Diff <$> log_route_diff (c_routes old_config) (c_routes new_config)) ++
    (if (0 <? evicted) || (0 <? flows_evicted) then [Evicted evicted flows_evicted] else []) ++
    (if codec_changed (c_cid_codec old_config) (c_cid_codec new_config)
     then [CidEncodingUpdated (cc_enabled (c_cid_codec new_config))] else []) ++
    (if eqb (c_log_connections old_config) (c_log_connections new_config) then []
     else [LoggingUpdated (c_log_connections new_config)]) in
  let config := reloaded_config old_config new_config in
  Some (run_set_config (run_set_flows (run_set_sessions r sessions) flows) config, ev,
        lines ++ [ReloadOk (rt_count (c_routes config))]).

Definition qsr_runtime_poll (r : qsr_runtime) (reads : list Z) :
    option (qsr_runtime * list flow_event * list reload_line) :=
  if (run_inotify_fd r <? 0) || bool_decide (run_config_path r = None) then Some (r, [], [])
  else if drain_inotify (run_inotify_fd r) reads then reload_from_path r
  else Some (r, [], []).
End runtime.

(** ** Lifetime *)

Definition flow_capacity (max_sessions : Z) : Z :=
  let flow_capacity := max_sessions / QSR_FLOWS_PER_SESSION_DIVISOR in
  if flow_capacity <? QSR_FLOW_CAPACITY_MIN then QSR_FLOW_CAPACITY_MIN else flow_capacity.

(** [raw] is the caller's object before the call, [watch] what
    [setup_inotify_watch] gives for a path. *)
Definition qsr_runtime_init (calloc : Z -> Z -> bool) (watch : option (list Z) -> Z * list flow_event)
    (raw : qsr_runtime) (config : qsr_config) (config_path : option (list Z)) :
    qsr_runtime * list flow_event * qsr_status :=
  let r := {| run_config := config; run_sessions := run_sessions raw; run_flows := run_flows raw;
              run_config_path := config_path; run_inotify_fd := -1 |} in
  match qsr_session_table_init calloc (Z.to_nat (c_max_sessions config)) with
  | inr status =>
      (if bool_decide (status = QSR_ERR_FULL) then run_set_sessions r (set_sessions (run_sessions raw) []) else r, [], status)
  | inl sessions =>
      let r := run_set_sessions r sessions in
      match qsr_flow_table_init calloc (Z.to_nat (flow_capacity (c_max_sessions config))) with
      | inr status =>
          let r := run_set_flows r (qsr_flow_table_free (run_flows raw)).1 in
          (run_set_sessions r (qsr_session_table_free sessions), [], status)
      | inl flows =>
          let '(fd, ev) := watch config_path in
          (run_set_inotify_fd (run_set_flows r flows) fd, ev, QSR_OK)
      end
  end.

Definition qsr_runtime_inotify_fd (r : qsr_runtime) : Z := run_inotify_fd r.

Definition qsr_runtime_free (r : qsr_runtime) : qsr_runtime * list flow_event :=
  let '(r, ev) := if 0 <=? run_inotify_fd r then (run_set_inotify_fd r (-1), [CloseFd (run_inotify_fd r)]) else (r, []) in
  let '(flows, ev') := qsr_flow_table_free (run_flows r) in
  (run_set_sessions (run_set_flows r flows) (qsr_session_table_free (run_sessions r)), ev ++ ev').

(** ** Lemmas: the printed lines *)

Section text_theory.
Context `{InetNtop}.

(** The line of a route; the address of an unresolved one is shown as a question mark. *)
Definition shown_line (prefix : list Z) (r : qsr_route) : list Z :=
  prefix ++ str " route " ++ r_sni r ++ str " -> " ++ backend_text (backend_shown r) ++ [10].

Lemma log_routes_loop_spec prefix t n : forall i k, 0 <= i -> i + Z.of_nat n < 2 ^ 64 ->
  log_routes_loop prefix t n i !! k = if (k <? n)%nat then Some (shown_line prefix (route_at t (i + Z.of_nat k))) else None.
Proof.
  induction n as [|n IH]; intros i k Hi Hn; cbn [log_routes_loop]; [done|]. rewrite uadd_small by lia.
  destruct k as [|k]; [cbn; by rewrite Z.add_0_r|]. rewrite lookup_cons. cbn iota beta. rewrite IH by lia. change (S k <? S n)%nat with (k <? n)%nat.
  by replace (i + 1 + Z.of_nat k) with (i + Z.of_nat (S k)) by lia.
Qed.

(** [qsr_runtime_log_routes] prints a line for every route, resolved or not, in their order. *)
Lemma log_routes_exact prefix t k : 0 <= rt_count t < 2 ^ 64 ->
  qsr_runtime_log_routes prefix t !! k =
    if Z.of_nat k <? rt_count t then Some (shown_line prefix (route_at t (Z.of_nat k))) else None.
Proof.
  intros Hc. unfold qsr_runtime_log_routes. rewrite log_routes_loop_spec by lia. rewrite Z.add_0_l.
  destruct (k <? Z.to_nat (rt_count t))%nat eqn:E1, (Z.of_nat k <? rt_count t) eqn:E2; try done; exfalso;
    [apply Nat.ltb_lt in E1|apply Nat.ltb_ge in E1]; bool_to_prop; lia.
Qed.
End text_theory.

(** ** Invariants *)

Section theory.
Context `{KeyedHash}.

(** A configuration in force: in range, with a well-formed route table. *)
Record live_config (c : qsr_config) : Prop := {
  lc_listen : cstring QSR_MAX_LISTEN_ADDR_LEN (c_listen_udp c);
  lc_idle : 1 <= c_idle_timeout_seconds c <= 86400;
  lc_max : 1 <= c_max_sessions c <= 1000000;
  lc_routes : route_wf (c_routes c);
  lc_codec : if cc_enabled (c_cid_codec c) then Zlen (cc_key (c_cid_codec c)) = QSR_CID_KEY_LEN
             else c_cid_codec c = codec0;
}.

Record runtime_wf (r : qsr_runtime) : Prop := {
  rn_config : live_config (run_config r);
  rn_sessions : table_wf (run_sessions r);
  rn_flows : flow_wf (run_flows r);
  rn_session_capacity : Z.of_nat (t_capacity (run_sessions r)) = c_max_sessions (run_config r);
  rn_flow_capacity : Z.of_nat (ft_capacity (run_flows r)) = flow_capacity (c_max_sessions (run_config r));
}.

(** The address of an entry is that of a route in force. *)
Definition configured_backend (r : qsr_runtime) (addr : list Z) (len : Z) : Prop :=
  qsr_route_table_has_backend (c_routes (run_config r)) addr len = true.

(** Nothing points anywhere but at the backends of the routes in force. *)
Record backends_configured (r : qsr_runtime) : Prop := {
  bc_sessions : forall k s, contents (run_sessions r) !! k = Some s ->
    configured_backend r (s_backend_addr s) (s_backend_addr_len s);
  bc_flows : forall slot f, ft_flows (run_flows r) !! slot = Some f -> f_used f = true ->
    configured_backend r (f_backend_addr f) (f_backend_addr_len f);
}.

Lemma config_ok_live `{Yaml} c : config_ok c -> live_config c.
Proof. intros Hc. pose proof (config_ok_routes c Hc). by destruct Hc. Qed.

Lemma reloaded_live old new : live_config old -> live_config new -> live_config (reloaded_config old new).
Proof. intros [] []. by split. Qed.

(** What happens to the flows of a table on a reload. *)
Definition flows_kept (old_routes new_routes : qsr_route_table) (flows : list qsr_flow) : list qsr_flow :=
  (fun f => if f_used f && should_evict_flow_on_reload old_routes new_routes f then flow_unused else f) <$> flows.

Definition sessions_kept (old_routes new_routes : qsr_route_table) (m : gmap key_view_t qsr_session) :
    gmap key_view_t qsr_session :=
  filter (fun ks => should_evict_on_reload old_routes new_routes ks.2 = false) m.

(** A configuration [c] with what a reload takes from the file, [new], and what
    it keeps of the configuration before, [old]. *)
Record taken_over (old new c : qsr_config) : Prop := {
  to_listen : c_listen_udp c = c_listen_udp old;
  to_max_sessions : c_max_sessions c = c_max_sessions old;
  to_routes : c_routes c = c_routes new;
  to_idle_timeout : c_idle_timeout_seconds c = c_idle_timeout_seconds new;
  to_codec : c_cid_codec c = c_cid_codec new;
  to_logging : c_log_connections c = c_log_connections new;
}.

Definition live_at (t : qsr_flow_table) (slot : nat) (f : qsr_flow) : Prop := ft_flows t !! slot = Some f /\ f_used f = true.

Lemma evicts_iff old new addr len : indexed old -> indexed new ->
  qsr_route_table_has_backend old addr len && negb (qsr_route_table_has_backend new addr len) = false <->
  ~ (routes_to old addr len /\ ~ routes_to new addr len).
Proof.
  intros Ho Hn. specialize (Ho addr len). specialize (Hn addr len).
  destruct (qsr_route_table_has_backend old addr len), (qsr_route_table_has_backend new addr len); cbn; naive_solver.
Qed.

Lemma evicts_session old new s : indexed old -> indexed new ->
  should_evict_on_reload old new s = false <->
  ~ (routes_to old (s_backend_addr s) (s_backend_addr_len s) /\ ~ routes_to new (s_backend_addr s) (s_backend_addr_len s)).
Proof. apply evicts_iff. Qed.

Lemma evicts_flow old new f : indexed old -> indexed new ->
  should_evict_flow_on_reload old new f = false <->
  ~ (routes_to old (f_backend_addr f) (f_backend_addr_len f) /\ ~ routes_to new (f_backend_addr f) (f_backend_addr_len f)).
Proof. apply evicts_iff. Qed.

Lemma flows_kept_live old new flows slot f :
  flows_kept old new flows !! slot = Some f /\ f_used f = true <->
  (flows !! slot = Some f /\ f_used f = true) /\ should_evict_flow_on_reload old new f = false.
Proof.
  unfold flows_kept. rewrite list_lookup_fmap. destruct (flows !! slot) as [g|]; cbn; [|naive_solver].
  destruct (f_used g) eqn:Hg; cbn; [|split; [intros [[= ->] ?]|intros [[[= ->] ?] _]]; congruence].
  destruct (should_evict_flow_on_reload old new g) eqn:He; split.
  - by intros [[= <-] ?].
  - intros [[[= <-] _] ?]. congruence.
  - by intros [[= <-] ?].
  - by intros [[[= <-] ?] _].
Qed.

Context `{Yaml} `{!YamlLaws} (open : list Z -> config_source) (getaddrinfo : list Z -> Z -> option (list Z)).

(** The configuration the reload reads, when it is usable. *)
Definition reload_config (r : qsr_runtime) : option qsr_config :=
  let '(c, status) := qsr_config_load open (default [] (run_config_path r)) in
  if negb (bool_decide (status = QSR_OK)) then None else
  let '(routes, status) := qsr_route_table_resolve getaddrinfo (c_routes c) in
  if negb (bool_decide (status = QSR_OK)) then None else Some (set_routes c routes).

Lemma reload_config_live r new : reload_config r = Some new -> live_config new.
Proof.
  unfold reload_config. destruct (qsr_config_load _ _) as [c st] eqn:El. case_bool_decide as Hst; [|done]. subst st.
  cbn [negb]. pose proof (load_ok _ _ _ El) as Hok. pose proof (config_ok_routes c Hok) as Hrw.
  pose proof (resolve_spec getaddrinfo (c_routes c) Hrw) as Hres.
  destruct (qsr_route_table_resolve _ _) as [routes st]. case_bool_decide; [|done]. cbn [negb]. intros [= <-].
  apply config_ok_live in Hok as []. split; cbn; try done. apply Hres.
Qed.

Lemma reload_config_indexed r new : reload_config r = Some new -> indexed (c_routes new).
Proof.
  unfold reload_config. destruct (qsr_config_load _ _) as [c st] eqn:El. case_bool_decide as Hst; [|done]. subst st.
  cbn [negb]. pose proof (config_ok_routes c (load_ok _ _ _ El)) as Hrw.
  destruct (qsr_route_table_resolve _ _) as [routes st] eqn:Er. case_bool_decide as Hst; [|done]. subst st. cbn [negb].
  intros [= <-]. by apply (resolve_indexed getaddrinfo (c_routes c)).
Qed.

(** A failed read leaves everything; a good one evicts and takes over. *)
Lemma reload_spec r : runtime_wf r ->
  exists r' ev lines, reload_from_path open getaddrinfo r = Some (r', ev, lines) /\ runtime_wf r' /\
    match reload_config r with
    | None => r' = r /\ ev = [] /\ exists s, s <> QSR_OK /\ (lines = [ParseFailed s] \/ lines = [ResolveFailed s])
    | Some new =>
        run_config r' = reloaded_config (run_config r) new /\
        run_config_path r' = run_config_path r /\ run_inotify_fd r' = run_inotify_fd r /\
        contents (run_sessions r') = sessions_kept (c_routes (run_config r)) (c_routes new) (contents (run_sessions r)) /\
        ft_flows (run_flows r') = flows_kept (c_routes (run_config r)) (c_routes new) (ft_flows (run_flows r)) /\
        closed ev ++ fds (ft_flows (run_flows r')) ≡ₚ fds (ft_flows (run_flows r)) /\
        list.last lines = Some (ReloadOk (rt_count (c_routes new)))
    end.
Proof.
  intros Hwf. pose proof (reload_config_live r) as Hlive. unfold reload_from_path. unfold reload_config in *.
  destruct (qsr_config_load _ _) as [c st]. case_bool_decide as Hst; cbn [negb].
  2: { exists r, [], [ParseFailed st]. split_and!; [done..|]. exists st. auto. }
  destruct (qsr_route_table_resolve _ _) as [routes st2]. case_bool_decide as Hst2; cbn [negb].
  2: { exists r, [], [ResolveFailed st2]. split_and!; [done..|]. exists st2. auto. }
  set (new := set_routes c routes) in *. specialize (Hlive new eq_refl).
  destruct Hwf as [Hc Hs Hf Hsc Hfc].
  destruct (session_evict_if_refines (run_sessions r) (Some (should_evict_on_reload (c_routes (run_config r)) (c_routes new))) Hs)
    as (sessions & n & Es & Hs' & Hcont & Hn). rewrite Es. cbn [mbind option_bind].
  destruct (flow_evict_if_refines (run_flows r) (Some (should_evict_flow_on_reload (c_routes (run_config r)) (c_routes new))) Hf)
    as (flows & m & ev & Ef & Hf' & Hfl & Hm & Hp). rewrite Ef. cbn [mbind option_bind].
  eexists _, ev, _. split; [reflexivity|]. split.
  - split; cbn [run_config run_sessions run_flows run_set_config run_set_flows run_set_sessions].
    + by apply reloaded_live.
    + done.
    + done.
    + cbn [c_max_sessions reloaded_config]. rewrite <- Hsc. f_equal. by eapply evict_if_capacity.
    + cbn [c_max_sessions reloaded_config]. rewrite <- Hfc. f_equal. by eapply flow_evict_if_capacity.
  - split_and!; [done..|exact Hcont|exact Hfl|exact Hp|]. by rewrite last_snoc.
Qed.

(** After a reload everything points at the new routes. *)
Lemma reload_backends r r' ev lines : runtime_wf r -> backends_configured r ->
  reload_from_path open getaddrinfo r = Some (r', ev, lines) -> backends_configured r'.
Proof.
  intros Hwf [Hbs Hbf] Hr. destruct (reload_spec r Hwf) as (r1 & ev1 & l1 & Hr1 & _ & Hcase). rewrite Hr in Hr1.
  injection Hr1 as <- <- <-. destruct (reload_config r) as [new|]; [|destruct Hcase as (-> & _); by split].
  destruct Hcase as (Hc & _ & _ & Hs & Hf & _). split; unfold configured_backend; rewrite Hc; cbn [c_routes reloaded_config].
  - rewrite Hs. intros k s (Hk & He)%map_lookup_filter_Some. specialize (Hbs k s Hk). cbn in He.
    unfold should_evict_on_reload, configured_backend in *. rewrite Hbs in He. by destruct (qsr_route_table_has_backend (c_routes new) _ _).
  - rewrite Hf. unfold flows_kept. intros slot f Hfl Hu. apply list_lookup_fmap_Some in Hfl as (g & -> & Hg).
    destruct (f_used g) eqn:Hug; cbn [andb] in *; [|congruence].
    destruct (should_evict_flow_on_reload _ _ g) eqn:E; [done|]. specialize (Hbf slot g Hg Hug).
    unfold should_evict_flow_on_reload, configured_backend in *. rewrite Hbf in E. by destruct (qsr_route_table_has_backend (c_routes new) _ _).
Qed.
End theory.

(** ** The route diff *)

Section diff.
Context `{KeyedHash}.

Lemma find_route_loop_spec t sni n : forall i, 0 <= i -> i + Z.of_nat n <= QSR_MAX_ROUTES ->
  match find_route_loop t sni n i with
  | Some j => i <= j < i + Z.of_nat n /\ r_sni (route_at t j) = sni
  | None => forall j, i <= j < i + Z.of_nat n -> r_sni (route_at t j) <> sni
  end.
Proof.
  induction n as [|n IH]; intros i Hi Hn; cbn [find_route_loop]; [lia|]. unfold QSR_MAX_ROUTES in *.
  unfold streq. case_bool_decide as He; [split; [lia|done]|]. rewrite uadd_small by lia. specialize (IH (i + 1) ltac:(lia) ltac:(lia)).
  destruct (find_route_loop _ _ _ _); [destruct IH; split; [lia|done]|].
  intros j Hj. destruct (decide (j = i)) as [->|]; [done|apply IH; lia].
Qed.

(** The linear search finds what the index finds. *)
Lemma find_route_spec t sni : route_wf t -> find_route_by_sni t sni = routes_map t !! sni.
Proof.
  intros Hwf. unfold find_route_by_sni. pose proof (rw_count t Hwf) as Hc.
  pose proof (find_route_loop_spec t sni (Z.to_nat (rt_count t)) 0 ltac:(lia) ltac:(lia)) as Hf.
  destruct (find_route_loop _ _ _ _) as [j|].
  - destruct Hf as [Hj <-]. symmetry. apply routes_map_all; [done|lia].
  - destruct (routes_map t !! sni) as [j|] eqn:E; [|done]. apply routes_map_some in E as [Hj He]; [|done].
    destruct (Hf j); [lia|done].
Qed.

(** How a route of the new table compares with the old one. *)
Definition route_line (old_routes : qsr_route_table) (r : qsr_route) : option diff_line :=
  match routes_map old_routes !! r_sni r with
  | None => Some (RouteAdded (r_sni r) (backend_shown r))
  | Some o =>
      if backend_differs r (route_at old_routes o)
      then Some (RouteChanged (r_sni r) (backend_shown r) (backend_shown (route_at old_routes o))) else None
  end.

Definition removed_line (new_routes : qsr_route_table) (o : qsr_route) : option diff_line :=
  if bool_decide (routes_map new_routes !! r_sni o = None) then Some (RouteRemoved (r_sni o) (backend_shown o)) else None.

(** The routes of a table, in order. *)
Definition routes_list (t : qsr_route_table) : list qsr_route := route_at t <$> seqZ 0 (rt_count t).

Definition is_added (l : diff_line) : bool := if l is RouteAdded _ _ then true else false.
Definition is_changed (l : diff_line) : bool := if l is RouteChanged _ _ _ then true else false.

Definition count_if (f : diff_line -> bool) (l : list diff_line) : Z := Zlen (List.filter f l).

Lemma count_if_cons f x l : count_if f (x :: l) = (if f x then 1 else 0) + count_if f l.
Proof. unfold count_if. cbn [List.filter]. destruct (f x); [rewrite Zlen_cons|]; lia. Qed.

Lemma seqZ_step n i : seqZ i (Z.of_nat (S n)) = i :: seqZ (i + 1) (Z.of_nat n).
Proof. rewrite seqZ_cons by lia. f_equal. f_equal; lia. Qed.

Lemma diff_new_loop_spec old new n : route_wf old -> forall i a c u, 0 <= i -> 0 <= a -> 0 <= c -> 0 <= u ->
  i + Z.of_nat n <= QSR_MAX_ROUTES -> a + Z.of_nat n < 2 ^ 32 -> c + Z.of_nat n < 2 ^ 32 -> u + Z.of_nat n < 2 ^ 32 ->
  let lines := omap (route_line old) (route_at new <$> seqZ i (Z.of_nat n)) in
  diff_new_loop old new n i a c u =
    (lines, a + count_if is_added lines, c + count_if is_changed lines, u + (Z.of_nat n - Zlen lines)).
Proof.
  intros Hwf. induction n as [|n IH]; intros i a c u Hi Ha Hc Hu Hn Hma Hmc Hmu lines.
  { cbn. rewrite !Z.add_0_r. done. }
  unfold lines. clear lines. cbn [diff_new_loop]. rewrite find_route_spec by done. unfold QSR_MAX_ROUTES in *.
  rewrite (seqZ_step n i), fmap_cons.
  cbn [omap list_omap]. rewrite !uadd_small by lia. destruct (route_line old (route_at new i)) eqn:El; unfold route_line in El.
  all: destruct (routes_map old !! r_sni (route_at new i)) as [o|]; [destruct (backend_differs _ _)|]; simplify_eq.
  all: rewrite IH by lia; rewrite ?count_if_cons, ?Zlen_cons; cbn [is_added is_changed];
    rewrite !pair_equal_spec; split_and!; try reflexivity; lia.
Qed.

Lemma diff_old_loop_spec old new n : route_wf new -> forall i r, 0 <= i -> 0 <= r ->
  i + Z.of_nat n <= QSR_MAX_ROUTES -> r + Z.of_nat n < 2 ^ 32 ->
  let lines := omap (removed_line new) (route_at old <$> seqZ i (Z.of_nat n)) in
  diff_old_loop old new n i r = (lines, r + Zlen lines).
Proof.
  intros Hwf. induction n as [|n IH]; intros i r Hi Hr Hn Hm lines.
  { cbn. by rewrite Z.add_0_r. }
  unfold lines. clear lines. cbn [diff_old_loop]. rewrite find_route_spec by done. unfold QSR_MAX_ROUTES in *.
  rewrite (seqZ_step n i), fmap_cons.
  cbn [omap list_omap]. rewrite !uadd_small by lia. destruct (removed_line new (route_at old i)) eqn:El; unfold removed_line in El.
  all: case_bool_decide; simplify_eq.
  all: rewrite IH by lia; rewrite ?Zlen_cons, !pair_equal_spec; split; try reflexivity; lia.
Qed.

Lemma diff_spec old new : route_wf old -> route_wf new ->
  let added := omap (route_line old) (routes_list new) in
  let removed := omap (removed_line new) (routes_list old) in
  log_route_diff old new =
    added ++ removed ++ [RouteSummary (count_if is_added added) (count_if is_changed added) (Zlen removed)
                           (rt_count new - Zlen added)].
Proof.
  intros Ho Hn. cbv zeta. unfold log_route_diff, routes_list. pose proof (rw_count old Ho). pose proof (rw_count new Hn).
  unfold QSR_MAX_ROUTES in *.
  pose proof (diff_new_loop_spec old new (Z.to_nat (rt_count new)) Ho 0 0 0 0) as Hnew. rewrite Z2Nat.id in Hnew by lia.
  rewrite Hnew by (unfold QSR_MAX_ROUTES; lia).
  pose proof (diff_old_loop_spec old new (Z.to_nat (rt_count old)) Hn 0 0) as Hold. rewrite Z2Nat.id in Hold by lia.
  rewrite Hold by (unfold QSR_MAX_ROUTES; lia). rewrite !Z.add_0_l. done.
Qed.
End diff.

(** ** Keep-alive and start-up *)

Section lifetime.
Context `{KeyedHash}.

(** The flow in [slot] is the one the session belongs to. *)
Definition session_flow (s : qsr_session) (slot : nat) (f : qsr_flow) : Prop :=
  if s_owner_flow_id s =? 0 then
    k_has_tuple (s_key s) = true /\ k_has_cids (s_key s) = false /\
    fkey f = (k_client_addr_len (s_key s), field (k_client_addr (s_key s)) (k_client_addr_len (s_key s)))
  else slot = Z.to_nat (s_owner_slot s) /\ f_id f = s_owner_flow_id s.

Lemma flow_slot_spec t slot : flow_wf t ->
  qsr_flow_table_slot t slot = (f ← ft_flows t !! slot; if f_used f then Some f else None).
Proof.
  intros Hwf. unfold qsr_flow_table_slot. pose proof (fw_len t Hwf) as Hl. pose proof (fw_cap t Hwf).
  rewrite (proj2 (Nat.eqb_neq _ _)) by lia. cbn [orb]. destruct (ft_flows t !! slot) as [f|] eqn:E; cbn [mbind option_bind].
  - apply lookup_lt_Some in E. rewrite Nat.leb_antisym, (proj2 (Nat.ltb_lt _ _)) by lia. done.
  - by split_if.
Qed.

Lemma keepalive_flow_spec flows s : flow_wf flows -> key_valid (s_key s) = true ->
  match keepalive_flow flows s with
  | Some f => exists slot, ft_flows flows !! slot = Some f /\ f_used f = true /\ session_flow s slot f
  | None => forall slot f, ft_flows flows !! slot = Some f -> f_used f = true -> ~ session_flow s slot f
  end.
Proof.
  intros Hwf Hk. unfold keepalive_flow, session_flow. destruct (s_owner_flow_id s =? 0) eqn:E; cbn [negb].
  - destruct (k_has_tuple (s_key s) && negb (k_has_cids (s_key s))) eqn:Et.
    2: { intros slot f _ _ (Ht & Hc & _). by rewrite Ht, Hc in Et. }
    bool_to_prop. match goal with Ht : k_has_tuple _ = true, Hc : k_has_cids _ = false |- _ => rename Ht into Htup; rename Hc into Hcid end.
    assert (Hcv : client_valid (k_client_addr (s_key s)) (k_client_addr_len (s_key s)) = true).
    { unfold key_valid in Hk. rewrite Htup in Hk. cbn [negb andb] in Hk. unfold client_valid, backend_valid.
      destruct (_ || _ || _); [done|]. destruct (_ || _ || _) eqn:E2 in Hk; [done|]. bool_to_prop.
      rewrite (proj2 (Z.eqb_neq _ _)), (proj2 (Z.ltb_ge _ _)) by done. done. }
    pose proof (flow_get_spec flows (k_client_addr (s_key s)) (k_client_addr_len (s_key s)) Hwf) as Hg. rewrite Hcv in Hg.
    destruct (qsr_flow_table_get _ _ _) as [slot|]; cbn [mbind option_bind].
    + destruct Hg as (f & Hf & Hu & Hkey). rewrite Hf. exists slot. auto.
    + intros slot f Hf Hu (_ & _ & Hkey). by apply (Hg slot f).
  - rewrite flow_slot_spec by done. destruct (ft_flows flows !! Z.to_nat (s_owner_slot s)) as [f|] eqn:Ef; cbn [mbind option_bind].
    + destruct (f_used f) eqn:Eu; [destruct (f_id f =? s_owner_flow_id s) eqn:Ei; bool_to_prop; [by exists (Z.to_nat (s_owner_slot s))|]|];
        intros slot g Hg Hu [-> Hid]; congruence.
    + intros slot g Hg Hu [-> Hid]. congruence.
Qed.

(** The sweep's callback in terms of the flows. *)
Lemma keepalive_exact flows now timeout s : flow_wf flows -> key_valid (s_key s) = true ->
  qsr_runtime_session_keepalive flows now timeout s = true <->
  exists slot f, ft_flows flows !! slot = Some f /\ f_used f = true /\ session_flow s slot f /\ now - f_last_seen f < timeout.
Proof.
  intros Hwf Hk. pose proof (keepalive_flow_spec flows s Hwf Hk) as Hs. unfold qsr_runtime_session_keepalive.
  destruct (keepalive_flow flows s) as [f|].
  - destruct Hs as (slot & Hf & Hu & Ho). rewrite Z.ltb_lt. split; [intros Ht; by exists slot, f|].
    intros (slot' & f' & Hf' & Hu' & Ho' & Ht). enough (f' = f) by congruence.
    unfold session_flow in *. destruct (s_owner_flow_id s =? 0).
    + assert (slot' = slot) as ->; [|congruence]. apply (flow_uniq flows Hwf slot' slot (fkey f)).
      * apply view_lookup. exists f'. split; [done|]. rewrite fslot_used by done. f_equal.
        destruct Ho as (_ & _ & ->), Ho' as (_ & _ & ->). done.
      * apply view_lookup. exists f. split; [done|]. by rewrite fslot_used.
    + destruct Ho as [-> _], Ho' as [-> _]. congruence.
  - split; [done|]. intros (slot & f & Hf & Hu & Ho & _). by destruct (Hs slot f Hf Hu).
Qed.

Lemma flow_capacity_range n : 1 <= n <= 1000000 -> 256 <= flow_capacity n <= 250000.
Proof. intros Hn. unfold flow_capacity, QSR_FLOWS_PER_SESSION_DIVISOR, QSR_FLOW_CAPACITY_MIN. split_if; bool_to_prop; [lia|]. dlia. Qed.

Lemma init_spec calloc watch raw config path :
  (forall n sz, calloc n sz = true -> n * sz < 2 ^ 64) -> live_config config ->
  let '(r, ev, status) := qsr_runtime_init calloc watch raw config path in
  match status with
  | QSR_OK =>
      runtime_wf r /\ run_config r = config /\ contents (run_sessions r) = ∅ /\ fds (ft_flows (run_flows r)) = [] /\
      (run_inotify_fd r, ev) = watch path
  | QSR_ERR_FULL =>
      ev = [] /\ run_inotify_fd r = -1 /\ t_sessions (run_sessions r) = [] /\
      (run_flows r = run_flows raw \/ run_flows r = (qsr_flow_table_free (run_flows raw)).1)
  | _ => False
  end.
Proof.
  intros Hcalloc Hlive. pose proof (lc_max config Hlive) as Hm. pose proof (flow_capacity_range _ Hm) as Hfc.
  unfold qsr_runtime_init. destruct (qsr_session_table_init _ _) as [sessions|st] eqn:Es.
  2: { unfold qsr_session_table_init in Es. rewrite (proj2 (Nat.eqb_neq _ _)) in Es by lia.
       destruct (calloc _ _); [done|]. injection Es as <-. cbn. auto. }
  destruct (init_wf calloc _ sessions Hcalloc Es) as [Hswf Hsc].
  destruct (qsr_flow_table_init _ _) as [flows|st] eqn:Ef.
  2: { unfold qsr_flow_table_init in Ef. rewrite (proj2 (Nat.eqb_neq _ _)) in Ef by lia.
       destruct (_ && _ && _); [done|]. injection Ef as <-. cbn. auto. }
  destruct (flow_init_wf calloc _ flows Hcalloc Ef) as (Hfwf & Hfl & _). destruct (watch path) as [fd ev] eqn:Ew.
  split_and!; [|done|exact Hsc| |done].
  - split; cbn; [done..| |].
    + unfold qsr_session_table_init in Es. repeat split_if; simplify_eq. cbn. lia.
    + unfold qsr_flow_table_init in Ef. repeat split_if; simplify_eq. cbn. lia.
  - cbn. rewrite Hfl. clear. by induction (Z.to_nat _).
Qed.
End lifetime.

(** ** Properties *)

Section properties.
Context `{KeyedHash}.

(** C19: a reload always ends, and is all or nothing. When the file or a backend
    cannot be read nothing changes and no connection is closed. Otherwise the
    routes, timeout, codec and logging flag of the file are in force, the listen
    address and the table size stay; of the sessions and flows exactly those
    are dropped whose address is that of a route before and of none now, all
    others stay as they are, and exactly the descriptors of the dropped flows
    are closed. [indexed], that the index of the routes in force finds their
    addresses, holds of every resolved table and holds again behind the reload. *)
Theorem reload_all_or_nothing `{Yaml} `{!YamlLaws} open getaddrinfo r : runtime_wf r -> indexed (c_routes (run_config r)) ->
  exists r' ev lines, reload_from_path open getaddrinfo r = Some (r', ev, lines) /\ runtime_wf r' /\ indexed (c_routes (run_config r')) /\
    match reload_config open getaddrinfo r with
    | None => r' = r /\ ev = [] /\ exists s, s <> QSR_OK /\ (lines = [ParseFailed s] \/ lines = [ResolveFailed s])
    | Some new =>
        let gone addr len := routes_to (c_routes (run_config r)) addr len /\ ~ routes_to (c_routes new) addr len in
        taken_over (run_config r) new (run_config r') /\
        run_config_path r' = run_config_path r /\ run_inotify_fd r' = run_inotify_fd r /\
        (forall key s, contents (run_sessions r') !! key = Some s <->
           contents (run_sessions r) !! key = Some s /\ ~ gone (s_backend_addr s) (s_backend_addr_len s)) /\
        (forall slot f, live_at (run_flows r') slot f <->
           live_at (run_flows r) slot f /\ ~ gone (f_backend_addr f) (f_backend_addr_len f)) /\
        closed ev ++ fds (ft_flows (run_flows r')) ≡ₚ fds (ft_flows (run_flows r)) /\
        list.last lines = Some (ReloadOk (rt_count (c_routes new)))
    end.
Proof.
  intros Hwf Hold. destruct (reload_spec open getaddrinfo r Hwf) as (r' & ev & lines & Hr & Hwf' & Hcase).
  exists r', ev, lines. split; [done|]. split; [done|]. pose proof (reload_config_indexed open getaddrinfo r) as Hnew.
  destruct (reload_config open getaddrinfo r) as [new|]; [|by destruct Hcase as (-> & Hcase)]. specialize (Hnew new eq_refl).
  destruct Hcase as (Hc & Hp & Hi & Hs & Hf & Hfds & Hl). rewrite Hc. split; [done|]. split_and!; [by split|done|done| | |done|done].
  - intros key s. rewrite Hs. unfold sessions_kept. by rewrite map_lookup_filter_Some, evicts_session.
  - intros slot f. rewrite <- (evicts_flow _ _ f Hold Hnew). unfold live_at. rewrite Hf. apply flows_kept_live.
Qed.

(** C20: polling for configuration changes never leaves a session or flow that
    points at a backend the routes in force do not have. *)
Theorem poll_keeps_backends_configured `{Yaml} `{!YamlLaws} open getaddrinfo r reads r' ev lines :
  runtime_wf r -> backends_configured r ->
  qsr_runtime_poll open getaddrinfo r reads = Some (r', ev, lines) -> backends_configured r'.
Proof.
  intros Hwf Hb. unfold qsr_runtime_poll. split_if; [by intros [= <- _ _]|].
  split_if; [by apply reload_backends|by intros [= <- _ _]].
Qed.

(** C21: the diff printed on a reload: each route of the new table that is new or
    has another backend, each route of the old table that is gone, and the four
    numbers, which add up to the routes there are. *)
Theorem route_diff_exact old new : route_wf old -> route_wf new ->
  let added := omap (route_line old) (routes_list new) in
  let removed := omap (removed_line new) (routes_list old) in
  log_route_diff old new =
    added ++ removed ++ [RouteSummary (count_if is_added added) (count_if is_changed added) (Zlen removed)
                           (rt_count new - Zlen added)].
Proof. apply diff_spec. Qed.

(** The expiry sweep keeps an idle session exactly while its flow is live
    and active: the flow of its slot and generation when it has an owner, the
    flow of its client tuple when it is a tuple entry without one. *)
Theorem session_keepalive_exact flows now timeout s : flow_wf flows -> key_valid (s_key s) = true ->
  qsr_runtime_session_keepalive flows now timeout s = true <->
  exists slot f, ft_flows flows !! slot = Some f /\ f_used f = true /\ session_flow s slot f /\ now - f_last_seen f < timeout.
Proof. apply keepalive_exact. Qed.

(** C22: start-up gives a well-formed runtime with nothing in it, or reports that
    memory is short. In that case nothing is watched and no table is left
    allocated; when the session table is the one that fails, the flow table is
    whatever the caller's object held. *)
Theorem runtime_init_refines calloc watch raw config path :
  (forall n sz, calloc n sz = true -> n * sz < 2 ^ 64) -> live_config config ->
  let '(r, ev, status) := qsr_runtime_init calloc watch raw config path in
  match status with
  | QSR_OK =>
      runtime_wf r /\ run_config r = config /\ contents (run_sessions r) = ∅ /\ fds (ft_flows (run_flows r)) = [] /\
      (run_inotify_fd r, ev) = watch path
  | QSR_ERR_FULL =>
      ev = [] /\ run_inotify_fd r = -1 /\ t_sessions (run_sessions r) = [] /\
      (run_flows r = run_flows raw \/ run_flows r = (qsr_flow_table_free (run_flows raw)).1)
  | _ => False
  end.
Proof. apply init_spec. Qed.
End properties.

(** ** Witnesses *)

Section examples.
Local Existing Instance sum_hash.
Local Existing Instances demo_yaml demo_yaml_laws.

Definition demo_raw : qsr_runtime := {|
  run_config := qsr_config_default; run_sessions := qsr_session_table_free (demo_table 1);
  run_flows := (qsr_flow_table_free demo_flows0).1; run_config_path := None; run_inotify_fd := 0 |}.

Definition demo_small (n sz : Z) : bool := n * sz <? 2 ^ 40.

Lemma demo_small_ok n sz : demo_small n sz = true -> n * sz < 2 ^ 64.
Proof. unfold demo_small. intros ?%Z.ltb_lt. lia. Qed.

Definition demo_config : qsr_config := set_max_sessions qsr_config_default 4.

Lemma demo_live : live_config demo_config.
Proof. destruct (config_ok_live qsr_config_default config_ok_default). split; cbn; done || lia. Qed.

Definition demo_init : qsr_runtime * list flow_event * qsr_status :=
  qsr_runtime_init demo_small (fun _ => (5, [])) demo_raw demo_config (Some [47; 97; 47; 98]).

Definition demo_runtime : qsr_runtime := demo_init.1.1.

Lemma demo_init_ok : demo_init.2 = QSR_OK.
Proof. vm_compute. reflexivity. Qed.

Lemma demo_runtime_wf : runtime_wf demo_runtime.
Proof.
  pose proof (init_spec demo_small (fun _ => (5, [])) demo_raw demo_config (Some [47; 97; 47; 98]) demo_small_ok demo_live) as Hi.
  fold demo_init in Hi. pose proof demo_init_ok as Hok. unfold demo_runtime. destruct demo_init as [[r ev] st].
  cbn in Hok. subst st. apply Hi.
Qed.

Lemma runtime_init_refines_witness : runtime_wf demo_runtime /\ demo_init.2 = QSR_OK.
Proof.
  pose proof (runtime_init_refines demo_small (fun _ => (5, [])) demo_raw demo_config (Some [47; 97; 47; 98]) demo_small_ok demo_live) as Hi.
  fold demo_init in Hi. pose proof demo_init_ok as Hok. unfold demo_runtime. destruct demo_init as [[r ev] st].
  cbn in Hok. subst st. split; [apply Hi|reflexivity].
Defined.

Lemma demo_backends : backends_configured demo_runtime.
Proof.
  pose proof (init_spec demo_small (fun _ => (5, [])) demo_raw demo_config (Some [47; 97; 47; 98]) demo_small_ok demo_live) as Hi.
  fold demo_init in Hi. pose proof demo_init_ok as Hok. unfold demo_runtime. destruct demo_init as [[r ev] st].
  cbn in Hok. subst st. destruct Hi as (_ & _ & Hc & Hf & _). cbn [fst]. split.
  - rewrite Hc. intros k s Hk. by rewrite lookup_empty in Hk.
  - intros slot f Hs Hu. exfalso. assert (Hin : f_fd f ∈ fds (ft_flows (run_flows r))).
    { apply list_elem_of_omap. exists f. rewrite Hu. split; [by eapply list_elem_of_lookup_2|done]. }
    rewrite Hf in Hin. by apply not_elem_of_nil in Hin.
Qed.

Definition demo_open (path : list Z) : config_source := Loaded demo_document.

(** What the demo document sets, as far as it differs from [demo_config]. *)
Lemma demo_reload : exists new, reload_config demo_open demo_getaddrinfo demo_runtime = Some new /\
  c_idle_timeout_seconds new = 30 /\ c_max_sessions new = 5000 /\ rt_count (c_routes new) = 1.
Proof.
  assert (Hc : (fun c => (c_idle_timeout_seconds c, c_max_sessions c, rt_count (c_routes c))) <$>
    reload_config demo_open demo_getaddrinfo demo_runtime = Some (30, 5000, 1)) by (vm_compute; reflexivity).
  destruct (reload_config _ _ _) as [new|]; [|done]. exists new. by injection Hc.
Qed.

Lemma reload_all_or_nothing_witness : exists r' ev lines,
  reload_from_path demo_open demo_getaddrinfo demo_runtime = Some (r', ev, lines) /\ runtime_wf r' /\
  c_idle_timeout_seconds (run_config r') = 30 /\ c_max_sessions (run_config r') = 4 /\ rt_count (c_routes (run_config r')) = 1.
Proof.
  destruct (reload_all_or_nothing demo_open demo_getaddrinfo demo_runtime demo_runtime_wf indexed_empty)
    as (r' & ev & lines & Hr & Hwf & _ & Hcase).
  destruct demo_reload as (new & Hnew & Hidle & _ & Hcount). rewrite Hnew in Hcase. destruct Hcase as ([_ Hmax Hroutes Ht _ _] & _).
  exists r', ev, lines. split_and!; [exact Hr|exact Hwf|by rewrite Ht|rewrite Hmax; reflexivity|by rewrite Hroutes].
Defined.

Lemma demo_poll : exists r' ev lines, qsr_runtime_poll demo_open demo_getaddrinfo demo_runtime [32] = Some (r', ev, lines).
Proof.
  destruct (reload_spec demo_open demo_getaddrinfo demo_runtime demo_runtime_wf) as (r' & ev & lines & Hr & _).
  exists r', ev, lines. exact Hr.
Qed.

Lemma poll_keeps_backends_configured_witness : exists r' ev lines,
  qsr_runtime_poll demo_open demo_getaddrinfo demo_runtime [32] = Some (r', ev, lines) /\ backends_configured r'.
Proof.
  destruct demo_poll as (r' & ev & lines & Hp). exists r', ev, lines. split; [exact Hp|].
  exact (poll_keeps_backends_configured demo_open demo_getaddrinfo demo_runtime [32] r' ev lines demo_runtime_wf demo_backends Hp).
Defined.

Lemma demo_routes : exists t, configure [demo_entry] = Some t /\ route_wf t.
Proof.
  destruct demo_configured as [t Ht]. exists t. split; [exact Ht|].
  apply (configure_spec [demo_entry] ltac:(by repeat constructor) t Ht).
Qed.

Lemma route_diff_exact_witness : exists t, route_wf t /\
  log_route_diff t qsr_route_table_init = omap (removed_line qsr_route_table_init) (routes_list t) ++ [RouteSummary 0 0 (Zlen (omap (removed_line qsr_route_table_init) (routes_list t))) 0].
Proof.
  destruct demo_routes as (t & _ & Hwf). exists t. split; [exact Hwf|].
  exact (route_diff_exact t qsr_route_table_init Hwf init_wf_routes).
Defined.

Definition demo_session : qsr_session := {|
  s_used := true; s_key := qsr_session_tuple_key (Some (demo_addr 1)) 16; s_backend_addr := demo_addr 9;
  s_backend_addr_len := 16; s_last_seen := 100; s_owner_slot := 0; s_owner_flow_id := 1 |}.

Lemma session_keepalive_exact_witness : qsr_runtime_session_keepalive demo_flows1 130 60 demo_session = true.
Proof.
  apply (session_keepalive_exact demo_flows1 130 60 demo_session demo_flows1_wf); [vm_compute; reflexivity|].
  eexists 0%nat, _. split; [vm_compute; reflexivity|]. split; [reflexivity|]. split; [split; reflexivity|vm_compute; reflexivity].
Defined.
End examples.
