(* ===== verification/Sender.v ===== *)
(** * The send queue

    [src/udp.c], lines 65 to 84 and 188 to 261: datagrams queued by reference
    and flushed in runs of equal descriptors, one [sendmmsg] loop per run. A
    queued payload is a pointer, into a receive buffer or into an entry of the
    pending-Initial table; it is read when the queue is flushed. *)

From S2P Require Import Prelude SessionKey.
#[local] Open Scope Z_scope.

(** ** Data *)

Definition QSR_UDP_BATCH_SIZE : nat := 64.

(** What [packet] points at: a receive buffer, or [entries[i].packets[k]]. *)
Inductive payload :=
  | RecvBuffer (p : ptr)
  | PendingPacket (entry k : nat).

Record qsr_udp_send_item := {
  it_packet : payload;
  it_packet_len : Z;
  it_dest : list Z;
  it_dest_len : Z;
  it_fd : Z;
}.

Record qsr_udp_sender := {
  sd_items : list qsr_udp_send_item;
  sd_count : nat;
}.

Definition item0 : qsr_udp_send_item := {|
  it_packet := RecvBuffer (Ptr [] 0); it_packet_len := 0; it_dest := zeros SOCKADDR_SIZE; it_dest_len := 0; it_fd := 0 |}.

Definition sender_init : qsr_udp_sender := {| sd_items := replicate QSR_UDP_BATCH_SIZE item0; sd_count := 0 |}.

(** ** Flushing *)

(** The items one [sendmmsg] loop gets, and its descriptor. *)
Definition send_batch : Type := Z * list qsr_udp_send_item.

Definition item_at (s : qsr_udp_sender) (i : nat) : qsr_udp_send_item := default item0 (sd_items s !! i).

(** [while (end < count && items[end].fd == items[start].fd) end++;] *)
Fixpoint run_end (s : qsr_udp_sender) (fd : Z) (fuel end_ : nat) : nat :=
  match fuel with
  | O => end_
  | S fuel => if (end_ <? sd_count s)%nat && (it_fd (item_at s end_) =? fd) then run_end s fd fuel (end_ + 1)%nat else end_
  end.

(** [while (start < count)]: every run has at least one item, so [count] rounds are enough. *)
Fixpoint flush_loop (s : qsr_udp_sender) (fuel start : nat) : list send_batch :=
  match fuel with
  | O => []
  | S fuel =>
      if (start <? sd_count s)%nat then
        let fd := it_fd (item_at s start) in
        let end_ := run_end s fd (sd_count s) (start + 1)%nat in
        (fd, item_at s <$> seq start (end_ - start)) :: flush_loop s fuel end_
      else []
  end.

(** The queue afterwards and the runs handed to [sendmmsg], in order. *)
Definition sender_flush (s : qsr_udp_sender) : qsr_udp_sender * list send_batch :=
  if (sd_count s =? 0)%nat then (s, [])
  else ({| sd_items := sd_items s; sd_count := 0 |}, flush_loop s (sd_count s) 0).

(** The results of the [sendmmsg] calls: a count, [EINTR], another error. *)
Inductive send_result := Sent (n : nat) | Interrupted | SendFailed.

(** [while (sent < end)] over a run of [end_] items: how many are sent before the
    rest is dropped. [None] when [results] ends before the loop does. *)
Fixpoint send_run (results : list send_result) (sent end_ : nat) : option nat :=
  if (end_ <=? sent)%nat then Some sent else
  match results with
  | [] => None
  | Interrupted :: results => send_run results sent end_
  | SendFailed :: _ => Some sent
  | Sent n :: results => if (n =? 0)%nat then Some sent else send_run results (sent + n) end_
  end.

(** ** Queueing *)

Definition sender_enqueue (s : qsr_udp_sender) (fd : Z) (packet : payload) (packet_len : Z) (dest : list Z) (dest_len : Z) :
    qsr_udp_sender * list send_batch :=
  if QSR_MAX_DATAGRAM_SIZE <? packet_len then (s, []) else
  let '(s, runs) := if (QSR_UDP_BATCH_SIZE <=? sd_count s)%nat then sender_flush s else (s, []) in
  let item := {| it_packet := packet; it_packet_len := packet_len; it_dest := dest; it_dest_len := dest_len; it_fd := fd |} in
  ({| sd_items := <[sd_count s := item]> (sd_items s); sd_count := (sd_count s + 1)%nat |}, runs).

(** ** Lemmas *)

(** The datagrams in the queue, oldest first. *)
Definition queued (s : qsr_udp_sender) : list qsr_udp_send_item := take (sd_count s) (sd_items s).

Record sender_wf (s : qsr_udp_sender) : Prop := {
  sn_items : length (sd_items s) = QSR_UDP_BATCH_SIZE;
  sn_count : (sd_count s <= QSR_UDP_BATCH_SIZE)%nat;
}.

Lemma sender_init_wf : sender_wf sender_init.
Proof. by split; cbn; [|unfold QSR_UDP_BATCH_SIZE; lia]. Qed.

Lemma run_end_spec s fd fuel : forall e, (sd_count s <= e + fuel)%nat -> (e <= sd_count s)%nat ->
  (e <= run_end s fd fuel e <= sd_count s)%nat /\
  (forall i, (e <= i < run_end s fd fuel e)%nat -> it_fd (item_at s i) = fd) /\
  ((run_end s fd fuel e < sd_count s)%nat -> it_fd (item_at s (run_end s fd fuel e)) <> fd).
Proof.
  induction fuel as [|fuel IH]; intros e Hf He; cbn [run_end]; [split_and!; lia|].
  destruct (_ && _) eqn:E.
  - apply andb_true_iff in E as [Hlt%Nat.ltb_lt Hfd%Z.eqb_eq]. destruct (IH (e + 1)%nat) as (? & Hin & ?); [lia..|].
    split_and!; [lia|lia| |done]. intros i Hi. destruct (decide (i = e)) as [->|]; [done|]. apply Hin. lia.
  - split_and!; [lia|lia|lia|]. intros Hlt Hfd. apply andb_false_iff in E as [E%Nat.ltb_ge|E%Z.eqb_neq]; [lia|done].
Qed.

(** Every run has one descriptor, and neighbours differ. *)
Fixpoint runs_ok (runs : list send_batch) : Prop :=
  match runs with
  | [] => True
  | (fd, items) :: runs =>
      items <> [] /\ Forall (fun i => it_fd i = fd) items /\
      match runs with (fd', _) :: _ => fd' <> fd | [] => True end /\ runs_ok runs
  end.

Definition runs_items (runs : list send_batch) : list qsr_udp_send_item := runs ≫= snd.

Lemma queued_slice s start n : sender_wf s -> (start + n <= sd_count s)%nat ->
  item_at s <$> seq start n = take n (drop start (queued s)).
Proof.
  intros Hwf Hn. apply list_eq. intros i. rewrite list_lookup_fmap. unfold item_at, queued. destruct (decide (i < n)%nat) as [Hi|Hi].
  - rewrite lookup_seq_lt, lookup_take_lt, lookup_drop, lookup_take_lt by lia. cbn.
    destruct (lookup_lt_is_Some_2 (sd_items s) (start + i)) as [x ->]; [|done]. destruct Hwf as [-> ?]. lia.
  - rewrite lookup_seq_ge, lookup_take_ge by lia. done.
Qed.

Lemma flush_loop_spec s fuel : sender_wf s -> forall start, (sd_count s <= start + fuel)%nat -> (start <= sd_count s)%nat ->
  runs_items (flush_loop s fuel start) = drop start (queued s) /\ runs_ok (flush_loop s fuel start) /\
  match flush_loop s fuel start with (fd, _) :: _ => fd = it_fd (item_at s start) /\ (start < sd_count s)%nat | [] => start = sd_count s end.
Proof.
  intros Hwf. assert (Hlen : length (queued s) = sd_count s).
  { unfold queued. rewrite length_take. destruct Hwf as [-> ?]. lia. }
  induction fuel as [|fuel IH]; intros start Hf Hs; cbn [flush_loop].
  - rewrite drop_ge by lia. split_and!; [done..|lia].
  - destruct (start <? sd_count s)%nat eqn:E; [apply Nat.ltb_lt in E|apply Nat.ltb_ge in E; rewrite drop_ge by lia; split_and!; [done..|lia]].
    set (fd := it_fd (item_at s start)). destruct (run_end_spec s fd (sd_count s) (start + 1)%nat) as (He & Hin & Hne); [lia..|].
    set (end_ := run_end s fd (sd_count s) (start + 1)%nat) in *. destruct (IH end_) as (Hr & Hok & Hhead); [lia..|].
    split_and!; [|cbn [runs_ok]|done|lia].
    + unfold runs_items in *. cbn [mbind list_bind]. rewrite Hr. cbn [snd]. rewrite queued_slice by (done || lia).
      rewrite <- (take_drop (end_ - start) (drop start (queued s))) at 2. f_equal. rewrite drop_drop. f_equal. lia.
    + split_and!; [| | |done].
      * intros Hnil%(f_equal length). rewrite length_fmap, length_seq in Hnil. cbn in Hnil. lia.
      * apply Forall_fmap, list.Forall_forall. intros i Hi. apply elem_of_seq in Hi. cbn. destruct (decide (i = start)) as [->|]; [done|]. apply Hin. lia.
      * destruct (flush_loop s fuel end_) as [|[fd' ?] ?]; [done|]. destruct Hhead as [-> Hlt]. by apply Hne.
Qed.

(** A flush hands over the whole queue, in order. *)
Lemma flush_spec s : sender_wf s ->
  let '(s', runs) := sender_flush s in
  sender_wf s' /\ queued s' = [] /\ runs_items runs = queued s /\ runs_ok runs.
Proof.
  intros Hwf. unfold sender_flush. destruct (sd_count s =? 0)%nat eqn:E.
  - apply Nat.eqb_eq in E. unfold queued. rewrite E. by rewrite take_0.
  - destruct (flush_loop_spec s (sd_count s) Hwf 0) as (Hr & Hok & _); [lia..|]. rewrite drop_0 in Hr.
    destruct Hwf. split_and!; [split; cbn; [done|lia]|by unfold queued; rewrite take_0|done|done].
Qed.

(** Queueing appends, after a flush when the queue is full. *)
Lemma enqueue_spec s fd packet packet_len dest dest_len : sender_wf s -> packet_len <= QSR_MAX_DATAGRAM_SIZE ->
  let item := {| it_packet := packet; it_packet_len := packet_len; it_dest := dest; it_dest_len := dest_len; it_fd := fd |} in
  let '(s', runs) := sender_enqueue s fd packet packet_len dest dest_len in
  sender_wf s' /\ runs_items runs ++ queued s' = queued s ++ [item] /\ item ∈ queued s' /\
  (forall i, i ∈ queued s' -> i ∈ queued s \/ i = item) /\ runs_ok runs.
Proof.
  intros Hwf Hl item. unfold sender_enqueue. rewrite (proj2 (Z.ltb_ge _ _)) by lia.
  assert (Hadd : forall s1, sender_wf s1 -> (sd_count s1 < QSR_UDP_BATCH_SIZE)%nat ->
    let s2 := {| sd_items := <[sd_count s1 := item]> (sd_items s1); sd_count := (sd_count s1 + 1)%nat |} in
    sender_wf s2 /\ queued s2 = queued s1 ++ [item]).
  { intros s1 [Hi Hc] Hlt. split; [split; cbn; [by rewrite length_insert|lia]|]. unfold queued. cbn.
    rewrite Nat.add_1_r. rewrite (take_S_r _ _ item) by (apply list_lookup_insert_eq; lia).
    by rewrite take_insert_ge by lia. }
  destruct (QSR_UDP_BATCH_SIZE <=? sd_count s)%nat eqn:E.
  - pose proof (flush_spec s Hwf) as Hf. unfold sender_flush in *. apply Nat.leb_le in E.
    rewrite (proj2 (Nat.eqb_neq _ _)) in * by (unfold QSR_UDP_BATCH_SIZE in E; lia).
    set (s1 := {| sd_items := sd_items s; sd_count := 0 |}) in *. cbv beta iota zeta in Hf |- *. fold item.
    destruct Hf as (Hwf1 & Hq1 & Hr & Hok). destruct (Hadd s1 Hwf1) as [Hwf2 Hq2]; [unfold QSR_UDP_BATCH_SIZE; cbn; lia|].
    cbv zeta in Hq2. rewrite Hq1 in Hq2. cbn [app] in Hq2. rewrite Hr, Hq2. split_and!; [done|done|left| |done].
    intros i Hi. rewrite list_elem_of_singleton in Hi. auto.
  - apply Nat.leb_gt in E. destruct (Hadd s Hwf E) as [Hwf2 Hq2]. cbv beta iota zeta in Hq2 |- *. fold item.
    rewrite Hq2. split_and!; [done|done| | |done].
    + apply elem_of_app. right. left.
    + intros i [?|Hi]%elem_of_app; [by left|]. rewrite list_elem_of_singleton in Hi. by right.
Qed.

(** *** The [sendmmsg] loop *)

Definition is_interrupted (r : send_result) : bool := if r is Interrupted then true else false.

(** How many results other than [EINTR] the kernel gives. *)
Definition definite (results : list send_result) : nat :=
  length (List.filter (fun r => negb (is_interrupted r)) results).

(** [sendmmsg] reports no more than it was given. *)
Fixpoint results_fit (results : list send_result) (n : nat) : Prop :=
  match results with
  | [] => True
  | Sent k :: results => (k <= n)%nat /\ results_fit results (n - k)
  | _ :: results => results_fit results n
  end.

Lemma send_run_spec results : forall sent end_, (sent <= end_)%nat -> results_fit results (end_ - sent) ->
  match send_run results sent end_ with
  | Some n => (sent <= n <= end_)%nat
  | None => (definite results < end_ - sent)%nat
  end.
Proof.
  induction results as [|r results IH]; intros sent end_ Hs Hf; cbn [send_run].
  - destruct (end_ <=? sent)%nat eqn:E; [lia|]. apply Nat.leb_gt in E. cbn. lia.
  - destruct (end_ <=? sent)%nat eqn:E; [lia|]. apply Nat.leb_gt in E. destruct r as [k| |]; [|by apply IH|lia].
    destruct Hf as [Hk Hf]. destruct (k =? 0)%nat eqn:Ek; [lia|]. apply Nat.eqb_neq in Ek.
    specialize (IH (sent + k)%nat end_ ltac:(lia)). replace (end_ - (sent + k))%nat with (end_ - sent - k)%nat in IH by lia.
    specialize (IH Hf). destruct (send_run results (sent + k) end_); [lia|]. cbn [definite List.filter is_interrupted negb length].
    unfold definite in *. cbn [List.filter is_interrupted negb length]. lia.
Qed.

(** *** Sequences of datagrams *)

(** Datagrams queued one after the other, and what was flushed on the way. *)
Fixpoint enqueue_all (s : qsr_udp_sender) (items : list qsr_udp_send_item) : qsr_udp_sender * list send_batch :=
  match items with
  | [] => (s, [])
  | i :: items =>
      let '(s, runs) := sender_enqueue s (it_fd i) (it_packet i) (it_packet_len i) (it_dest i) (it_dest_len i) in
      let '(s, runs') := enqueue_all s items in (s, runs ++ runs')
  end.

(** The datagrams that fit. *)
Definition sendable (items : list qsr_udp_send_item) : list qsr_udp_send_item :=
  List.filter (fun i => it_packet_len i <=? QSR_MAX_DATAGRAM_SIZE) items.

Lemma runs_items_app a b : runs_items (a ++ b) = runs_items a ++ runs_items b.
Proof. apply bind_app. Qed.

Lemma enqueue_all_spec items : forall s, sender_wf s ->
  let '(s', runs) := enqueue_all s items in
  sender_wf s' /\ runs_items runs ++ queued s' = queued s ++ sendable items.
Proof.
  induction items as [|i items IH]; intros s Hwf; cbn [enqueue_all]; [by rewrite app_nil_r|].
  cbn [sendable List.filter]. destruct (it_packet_len i <=? QSR_MAX_DATAGRAM_SIZE) eqn:E; bool_to_prop.
  - pose proof (enqueue_spec s (it_fd i) (it_packet i) (it_packet_len i) (it_dest i) (it_dest_len i) Hwf E) as He.
    destruct (sender_enqueue _ _ _ _ _ _) as [s1 r1]. destruct He as (Hwf1 & Hq & _). specialize (IH s1 Hwf1).
    destruct (enqueue_all s1 items) as [s2 r2]. destruct IH as [Hwf2 Hq2]. split; [done|].
    rewrite runs_items_app, <- app_assoc, Hq2, app_assoc, Hq, <- app_assoc. by destruct i.
  - unfold sender_enqueue. rewrite (proj2 (Z.ltb_lt _ _)) by lia. specialize (IH s Hwf).
    by destruct (enqueue_all s items).
Qed.

(** ** Properties *)

(** C27: the queue is a FIFO that loses nothing: whatever is queued, with the
    flushes a full queue makes and a last one, is handed to the kernel in the
    order of queueing, less the datagrams above 1500 bytes; the queue is then empty. *)
Theorem sender_fifo s items : sender_wf s ->
  let '(s1, runs) := enqueue_all s items in
  let '(s2, last) := sender_flush s1 in
  sender_wf s2 /\ queued s2 = [] /\ runs_items (runs ++ last) = queued s ++ sendable items /\ runs_ok last.
Proof.
  intros Hwf. pose proof (enqueue_all_spec items s Hwf) as He. destruct (enqueue_all s items) as [s1 runs].
  destruct He as [Hwf1 Hq]. pose proof (flush_spec s1 Hwf1) as Hf. destruct (sender_flush s1) as [s2 last].
  destruct Hf as (Hwf2 & Hq2 & Hr & Hok). split_and!; [done..| |done]. by rewrite runs_items_app, Hr, Hq.
Qed.

(** C28: the loop that transmits a run ends as soon as the kernel has given as
    many answers other than [EINTR] as there are datagrams, and it has then
    sent a prefix of the run, each datagram at most once. *)
Theorem send_run_terminates results n : results_fit results n -> (n <= definite results)%nat ->
  exists sent, send_run results 0 n = Some sent /\ (sent <= n)%nat.
Proof.
  intros Hf Hd. pose proof (send_run_spec results 0 n ltac:(lia)) as Hs. rewrite Nat.sub_0_r in Hs.
  specialize (Hs Hf). destruct (send_run results 0 n) as [sent|]; [|lia]. exists sent. split; [done|lia].
Qed.

(** ** Witnesses *)

Definition demo_item (fd : Z) : qsr_udp_send_item := {|
  it_packet := RecvBuffer (Ptr [1; 2; 3] 0); it_packet_len := 3; it_dest := demo_addr 9; it_dest_len := 16; it_fd := fd |}.

Lemma sender_fifo_witness :
  sender_wf (sender_flush (enqueue_all sender_init (demo_item <$> [4; 4; 5])).1).1 /\
  runs_items ((enqueue_all sender_init (demo_item <$> [4; 4; 5])).2 ++ (sender_flush (enqueue_all sender_init (demo_item <$> [4; 4; 5])).1).2)
    = demo_item <$> [4; 4; 5].
Proof.
  pose proof (sender_fifo sender_init (demo_item <$> [4; 4; 5]) sender_init_wf) as Hs.
  destruct (enqueue_all _ _) as [s1 runs]. cbn [fst snd]. destruct (sender_flush s1) as [s2 last]. cbn [fst snd].
  destruct Hs as (Hwf & _ & Hr & _). split; [exact Hwf|exact Hr].
Defined.

Lemma send_run_terminates_witness :
  exists sent, send_run [Interrupted; Sent 2; Interrupted; Sent 1; SendFailed] 0 3 = Some sent /\ (sent <= 3)%nat.
Proof. apply send_run_terminates; [repeat split; vm_compute; repeat constructor|vm_compute; repeat constructor]. Defined.
