(* ===== verification/Process.v ===== *)
(** * The process and its sockets

    [src/udp.c], lines 118 to 186 and 1163 to 1245: signal handlers, the clock,
    descriptor flags, the limit of open descriptors, the options of the
    listening socket, and the buffers that [recvmmsg] fills. What the kernel
    answers is an argument; the calls made are part of the result. *)

From Stdlib Require Import String.
From S2P Require Import Prelude Hash SessionKey RouteTable Config Sender.
#[local] Open Scope Z_scope.

(** ** Signals and the clock *)

Definition SIGINT : Z := 2.
Definition SIGPIPE : Z := 13.
Definition SIGTERM : Z := 15.

Inductive sa_handler := HandleSignal | SIG_IGN.

(** The handler: the value of [g_stop] behind it. *)
Definition handle_signal (sig g_stop : Z) : Z := 1.

(** The calls of [sigaction], in order. *)
Definition install_signal_handlers : list (Z * sa_handler) :=
  [(SIGINT, HandleSignal); (SIGTERM, HandleSignal); (SIGPIPE, SIG_IGN)].

(** What a signal does under these actions: [g_stop] behind it, or the default
    action, which ends the process, for any other. *)
Definition deliver (actions : list (Z * sa_handler)) (sig g_stop : Z) : option Z :=
  match List.find (fun a => a.1 =? sig) actions with
  | Some (_, HandleSignal) => Some (handle_signal sig g_stop)
  | Some (_, SIG_IGN) => Some g_stop
  | None => None
  end.

(** [clock_gettime(CLOCK_MONOTONIC, ...)] gives the seconds or fails. *)
Definition monotonic_now (clock_gettime : option Z) (time : Z) : Z :=
  match clock_gettime with
  | Some tv_sec => tv_sec
  | None => time
  end.

(** ** Descriptors *)

Definition O_NONBLOCK : Z := 2048.

(** [getfl] is what [fcntl(fd, F_GETFL, 0)] returns, [setfl flags] whether [F_SETFL] succeeds. *)
Definition set_nonblocking (getfl : Z) (setfl : Z -> bool) : qsr_status :=
  if (getfl <? 0) || negb (setfl (Z.lor getfl O_NONBLOCK)) then QSR_ERR_INVALID else QSR_OK.

Definition RLIM_INFINITY : Z := 2 ^ 64 - 1.
Definition QSR_NOFILE_SLACK : Z := 32.

Record rlimit := { rlim_cur : Z; rlim_max : Z }.

(** [getrlimit] by call. The request made with [setrlimit], if any, and the
    limit that the warning prints, if there is one. *)
Definition raise_nofile_limit (getrlimit : nat -> option rlimit) (flow_capacity : Z) : option rlimit * option Z :=
  match getrlimit 0%nat with
  | None => (None, None)
  | Some rl =>
      let '(rl, request) :=
        if rlim_cur rl <? rlim_max rl then
          let rl := {| rlim_cur := rlim_max rl; rlim_max := rlim_max rl |} in
          (default rl (getrlimit 1%nat), Some rl)
        else (rl, None) in
      let limit := rlim_cur rl in
      (request, if negb (limit =? RLIM_INFINITY) && (limit <? uadd flow_capacity QSR_NOFILE_SLACK) then Some limit else None)
  end.

(** ** The listening socket *)

Definition SOL_SOCKET : Z := 1.
Definition SO_REUSEADDR : Z := 2.
Definition SO_SNDBUF : Z := 7.
Definition SO_RCVBUF : Z := 8.
Definition SO_REUSEPORT : Z := 15.
Definition IPPROTO_UDP : Z := 17.
Definition IPPROTO_IPV6 : Z := 41.
Definition IPV6_V6ONLY : Z := 26.
Definition UDP_GRO : Z := 104.

(** A call of [setsockopt]: level, option and value. *)
Definition sockopt : Type := Z * Z * Z.

(** The status, the calls in order, and whether the missing [SO_REUSEPORT] is reported. *)
Definition configure_socket (setsockopt : sockopt -> bool) (ai_family : Z) : qsr_status * list sockopt * bool :=
  let reuseaddr := (SOL_SOCKET, SO_REUSEADDR, 1) in
  if negb (setsockopt reuseaddr) then (QSR_ERR_INVALID, [reuseaddr], false) else
  let buffer_size := 4 * 1024 * 1024 in
  let reuseport := (SOL_SOCKET, SO_REUSEPORT, 1) in
  (QSR_OK,
   [reuseaddr; (SOL_SOCKET, SO_RCVBUF, buffer_size); (SOL_SOCKET, SO_SNDBUF, buffer_size); reuseport] ++
   (if ai_family =? AF_INET6 then [(IPPROTO_IPV6, IPV6_V6ONLY, 0)] else []) ++ [(IPPROTO_UDP, UDP_GRO, 1)],
   negb (setsockopt reuseport)).

(** ** The receive batch *)

Definition QSR_UDP_RECV_BUFFER_SIZE : Z := 16 * 1024.
Definition QSR_UDP_RECV_CMSG_SIZE : Z := 64.

(** [iov_base] is an offset into [recv_buffers]. *)
Record iovec := { iov_base : Z; iov_len : Z }.

(** A header: [msg_iov] and [msg_name] are indices, [msg_control] is an offset into [cmsg_buffers]. *)
Record mmsghdr := {
  msg_iov : nat;
  msg_iovlen : Z;
  msg_name : nat;
  msg_control : Z;
  msg_len : Z;
  msg_namelen : Z;
  msg_controllen : Z;
  msg_flags : Z;
}.

Record qsr_recv_batch := {
  rb_recv_buffers : list Z;
  rb_cmsg_buffers : list Z;
  rb_sources : list (list Z);
  rb_iovecs : list iovec;
  rb_messages : list mmsghdr;
}.

(** Null pointers in every field. *)
Definition recv_batch_free (batch : qsr_recv_batch) : qsr_recv_batch := {|
  rb_recv_buffers := []; rb_cmsg_buffers := []; rb_sources := []; rb_iovecs := []; rb_messages := [] |}.

Definition slot_iovec (i : nat) : iovec := {|
  iov_base := Z.of_nat i * QSR_UDP_RECV_BUFFER_SIZE; iov_len := QSR_UDP_RECV_BUFFER_SIZE |}.

Definition slot_message (i : nat) : mmsghdr := {|
  msg_iov := i; msg_iovlen := 1; msg_name := i; msg_control := Z.of_nat i * QSR_UDP_RECV_CMSG_SIZE;
  msg_len := 0; msg_namelen := 0; msg_controllen := 0; msg_flags := 0 |}.

(** [calloc n size] is whether the allocation succeeds; the sizes of the structures are those of 64-bit Linux. *)
Definition recv_batch_init (calloc : Z -> Z -> bool) : qsr_recv_batch * qsr_status :=
  let n := Z.of_nat QSR_UDP_BATCH_SIZE in
  if calloc n QSR_UDP_RECV_BUFFER_SIZE && calloc n QSR_UDP_RECV_CMSG_SIZE && calloc n SOCKADDR_SIZE && calloc n 16 && calloc n 64
  then ({| rb_recv_buffers := zeros (n * QSR_UDP_RECV_BUFFER_SIZE); rb_cmsg_buffers := zeros (n * QSR_UDP_RECV_CMSG_SIZE);
           rb_sources := replicate QSR_UDP_BATCH_SIZE (zeros SOCKADDR_SIZE);
           rb_iovecs := slot_iovec <$> seq 0 QSR_UDP_BATCH_SIZE; rb_messages := slot_message <$> seq 0 QSR_UDP_BATCH_SIZE |}, QSR_OK)
  else (recv_batch_free {| rb_recv_buffers := []; rb_cmsg_buffers := []; rb_sources := []; rb_iovecs := []; rb_messages := [] |}, QSR_ERR_FULL).

(** The headers as [drain_socket] resets them before [recvmmsg]. *)
Definition reset_message (m : mmsghdr) : mmsghdr := {|
  msg_iov := msg_iov m; msg_iovlen := msg_iovlen m; msg_name := msg_name m; msg_control := msg_control m;
  msg_len := 0; msg_namelen := SOCKADDR_SIZE; msg_controllen := QSR_UDP_RECV_CMSG_SIZE; msg_flags := 0 |}.

Definition set_messages (batch : qsr_recv_batch) (l : list mmsghdr) : qsr_recv_batch := {|
  rb_recv_buffers := rb_recv_buffers batch; rb_cmsg_buffers := rb_cmsg_buffers batch; rb_sources := rb_sources batch;
  rb_iovecs := rb_iovecs batch; rb_messages := l |}.

Definition reset_batch (batch : qsr_recv_batch) : qsr_recv_batch := set_messages batch (reset_message <$> rb_messages batch).

(** The kernel's side of [recvmmsg]: a message is stored where its header points, cut to the length of its vector. *)
Definition store_message (batch : qsr_recv_batch) (i : nat) (data source : list Z) : option qsr_recv_batch :=
  m ← rb_messages batch !! i;
  v ← rb_iovecs batch !! msg_iov m;
  let data := take (Z.to_nat (iov_len v)) data in
  Some {| rb_recv_buffers := memcpy_at (rb_recv_buffers batch) (Z.to_nat (iov_base v)) data;
          rb_cmsg_buffers := rb_cmsg_buffers batch;
          rb_sources := <[msg_name m := source]> (rb_sources batch);
          rb_iovecs := rb_iovecs batch;
          rb_messages := <[i := {| msg_iov := msg_iov m; msg_iovlen := msg_iovlen m; msg_name := msg_name m; msg_control := msg_control m;
            msg_len := Zlen data; msg_namelen := Zlen source; msg_controllen := msg_controllen m; msg_flags := msg_flags m |}]>
            (rb_messages batch) |}.

(** [&batch->recv_buffers[i * QSR_UDP_RECV_BUFFER_SIZE]], up to the length of the message. *)
Definition stored_datagram (batch : qsr_recv_batch) (i : nat) : list Z :=
  let len := default 0 (msg_len <$> rb_messages batch !! i) in
  range (Ptr (rb_recv_buffers batch) (Z.of_nat i * QSR_UDP_RECV_BUFFER_SIZE)) len.

(** ** Counters

    [src/metrics.c]; nothing of the program updates them yet. *)

Record qsr_metrics := {
  datagrams_in : Z;
  datagrams_out : Z;
  parse_failures : Z;
  unknown_sni : Z;
  sessions_active : Z;
}.

Definition qsr_metrics_init (metrics : qsr_metrics) : qsr_metrics :=
  {| datagrams_in := 0; datagrams_out := 0; parse_failures := 0; unknown_sni := 0; sessions_active := 0 |}.

(** ** Lemmas *)

(** *** Flags and limits *)

Lemma nonblocking_bits flags i : 0 <= i -> Z.testbit (Z.lor flags O_NONBLOCK) i = Z.testbit flags i || (i =? 11).
Proof.
  intros Hi. change O_NONBLOCK with (2 ^ 11). rewrite Z.lor_spec, Z.pow2_bits_eqb by lia. by rewrite (Z.eqb_sym 11 i).
Qed.

(** The limit in force behind the call, when the kernel answers: [setrlimit] either takes effect or not. *)
Definition limits (before : rlimit) (granted : bool) (call : nat) : option rlimit :=
  Some (if granted && (0 <? call)%nat then {| rlim_cur := rlim_max before; rlim_max := rlim_max before |} else before).

(** *** The batch *)

Definition slot_offset (i : nat) : nat := i * Z.to_nat QSR_UDP_RECV_BUFFER_SIZE.

Record batch_ok (b : qsr_recv_batch) : Prop := {
  bo_buffers : length (rb_recv_buffers b) = slot_offset QSR_UDP_BATCH_SIZE;
  bo_sources : length (rb_sources b) = QSR_UDP_BATCH_SIZE;
  bo_iovecs : rb_iovecs b = slot_iovec <$> seq 0 QSR_UDP_BATCH_SIZE;
  bo_messages : length (rb_messages b) = QSR_UDP_BATCH_SIZE;
  bo_slots : forall i m, rb_messages b !! i = Some m ->
    msg_iov m = i /\ msg_name m = i /\ 0 <= msg_len m <= QSR_UDP_RECV_BUFFER_SIZE;
}.

Lemma recv_batch_spec calloc batch : recv_batch_init calloc = (batch, QSR_OK) -> batch_ok batch.
Proof.
  unfold recv_batch_init. split_if; [|done]. intros Hb. apply (f_equal fst) in Hb. cbn [fst] in Hb. rewrite <- Hb. clear Hb. split; cbn [rb_recv_buffers rb_sources rb_iovecs rb_messages].
  - rewrite length_zeros. unfold slot_offset, QSR_UDP_RECV_BUFFER_SIZE. rewrite Z2Nat.inj_mul by lia. by rewrite Nat2Z.id.
  - by rewrite length_replicate.
  - done.
  - by rewrite length_fmap, length_seq.
  - intros i m Hm. apply list_lookup_fmap_Some in Hm as (j & -> & Hj%lookup_seq). cbn. unfold QSR_UDP_RECV_BUFFER_SIZE. lia.
Qed.

Lemma reset_batch_spec batch : batch_ok batch -> batch_ok (reset_batch batch).
Proof.
  intros [? ? ? ? Hs]. split; cbn; try done; [by rewrite length_fmap|].
  intros i m Hm. apply list_lookup_fmap_Some in Hm as (m0 & -> & Hm). destruct (Hs i m0 Hm) as (? & ? & _).
  cbn. unfold QSR_UDP_RECV_BUFFER_SIZE. lia.
Qed.

Lemma slots_apart i j : i <> j -> (slot_offset i + Z.to_nat QSR_UDP_RECV_BUFFER_SIZE <= slot_offset j)%nat \/
  (slot_offset j + Z.to_nat QSR_UDP_RECV_BUFFER_SIZE <= slot_offset i)%nat.
Proof. unfold slot_offset. generalize (Z.to_nat QSR_UDP_RECV_BUFFER_SIZE). intros n Hij. nia. Qed.

Lemma slot_inside i : (i < QSR_UDP_BATCH_SIZE)%nat -> (slot_offset i + Z.to_nat QSR_UDP_RECV_BUFFER_SIZE <= slot_offset QSR_UDP_BATCH_SIZE)%nat.
Proof. unfold slot_offset. generalize (Z.to_nat QSR_UDP_RECV_BUFFER_SIZE). intros n. nia. Qed.

(** Reading a slot, as a list. *)
Lemma stored_datagram_eq batch i m : rb_messages batch !! i = Some m ->
  stored_datagram batch i = take (Z.to_nat (msg_len m)) (drop (slot_offset i) (rb_recv_buffers batch)).
Proof.
  intros Hm. unfold stored_datagram. rewrite Hm. cbn [fmap option_fmap option_map default]. unfold range. cbn [p_buf p_off].
  change (id ?x) with x. unfold slot_offset, QSR_UDP_RECV_BUFFER_SIZE. rewrite Z2Nat.inj_mul, Nat2Z.id by lia. done.
Qed.

(** Bytes outside of what is copied stay. *)
Lemma memcpy_apart dst off src o n : (off + length src <= length dst)%nat ->
  (o + n <= off)%nat \/ (off + length src <= o)%nat -> take n (drop o (memcpy_at dst off src)) = take n (drop o dst).
Proof.
  intros Hl Ho. apply list_eq. intros i. destruct (decide (i < n)%nat) as [Hi|Hi]; [|by rewrite !lookup_take_ge by lia].
  rewrite !lookup_take_lt, !lookup_drop, lookup_memcpy_at by lia. rewrite decide_False by lia. done.
Qed.

Lemma memcpy_inside dst off src : (off + length src <= length dst)%nat -> take (length src) (drop off (memcpy_at dst off src)) = src.
Proof.
  intros Hl. apply list_eq. intros i. destruct (decide (i < length src)%nat) as [Hi|Hi].
  - rewrite lookup_take_lt, lookup_drop, lookup_memcpy_at, decide_True by lia. f_equal. lia.
  - rewrite lookup_take_ge by lia. symmetry. apply lookup_ge_None. lia.
Qed.

(** Storing a message fills its slot and no other. *)
Lemma store_message_spec batch i data source : batch_ok batch -> (i < QSR_UDP_BATCH_SIZE)%nat ->
  exists batch', store_message batch i data source = Some batch' /\ batch_ok batch' /\
    stored_datagram batch' i = take (Z.to_nat QSR_UDP_RECV_BUFFER_SIZE) data /\ rb_sources batch' !! i = Some source /\
    forall j, j <> i -> stored_datagram batch' j = stored_datagram batch j /\ rb_sources batch' !! j = rb_sources batch !! j.
Proof.
  intros [Hb Hs Hv Hm Hsl] Hi. unfold store_message.
  destruct (lookup_lt_is_Some_2 (rb_messages batch) i) as [m Em]; [lia|]. destruct (Hsl i m Em) as (Hiov & Hname & Hlen).
  rewrite Em. cbn [mbind option_bind]. rewrite Hiov, Hv, list_lookup_fmap, lookup_seq_lt by done. cbn [fmap option_fmap option_map mbind option_bind].
  rewrite Hname. cbn [iov_len iov_base slot_iovec Nat.add]. set (bytes := take _ data).
  assert (Hbl : (length bytes <= Z.to_nat QSR_UDP_RECV_BUFFER_SIZE)%nat) by (subst bytes; rewrite length_take; lia).
  assert (Hoff : Z.to_nat (Z.of_nat i * QSR_UDP_RECV_BUFFER_SIZE) = slot_offset i).
  { unfold slot_offset, QSR_UDP_RECV_BUFFER_SIZE. by rewrite Z2Nat.inj_mul, Nat2Z.id by lia. }
  rewrite Hoff. pose proof (slot_inside i Hi) as Hin. eexists. split; [reflexivity|]. split.
  - split; cbn [rb_recv_buffers rb_sources rb_iovecs rb_messages]; [|by rewrite length_insert|done|by rewrite length_insert|].
    + rewrite <- Hb. apply length_memcpy_at. lia.
    + intros j m' Hm'. apply list_lookup_insert_Some in Hm' as [(<- & <- & _)|[_ Hm']]; [|by apply Hsl].
      cbn. unfold Zlen. split_and!; [done..|lia|]. unfold QSR_UDP_RECV_BUFFER_SIZE in *. lia.
  - split_and!.
    + erewrite stored_datagram_eq by (cbn [rb_messages]; apply list_lookup_insert_eq; lia).
      cbn [msg_len rb_recv_buffers]. unfold Zlen. rewrite Nat2Z.id. apply memcpy_inside. lia.
    + cbn. apply list_lookup_insert_eq. lia.
    + intros j Hj. cbn [rb_sources]. rewrite list_lookup_insert_ne by done. split; [|done].
      destruct (rb_messages batch !! j) as [m'|] eqn:Ej.
      * rewrite (stored_datagram_eq batch j m') by done. erewrite stored_datagram_eq by (cbn [rb_messages]; by rewrite list_lookup_insert_ne).
        cbn [rb_recv_buffers]. apply memcpy_apart; [lia|]. destruct (Hsl j m' Ej) as (_ & _ & ?).
        destruct (slots_apart j i Hj); unfold QSR_UDP_RECV_BUFFER_SIZE in *; lia.
      * unfold stored_datagram. cbn [rb_messages]. rewrite list_lookup_insert_ne by done. by rewrite Ej.
Qed.

(** One [recvmmsg]: messages into the slots from [i] on. *)
Fixpoint store_messages (batch : qsr_recv_batch) (i : nat) (l : list (list Z * list Z)) : option qsr_recv_batch :=
  match l with
  | [] => Some batch
  | (data, source) :: l => batch ← store_message batch i data source; store_messages batch (i + 1) l
  end.

Lemma store_messages_spec l : forall batch i, batch_ok batch -> (i + length l <= QSR_UDP_BATCH_SIZE)%nat ->
  exists batch', store_messages batch i l = Some batch' /\ batch_ok batch' /\
    (forall k, (k < i)%nat -> stored_datagram batch' k = stored_datagram batch k /\ rb_sources batch' !! k = rb_sources batch !! k) /\
    (forall k data source, l !! k = Some (data, source) ->
      stored_datagram batch' (i + k) = take (Z.to_nat QSR_UDP_RECV_BUFFER_SIZE) data /\ rb_sources batch' !! (i + k)%nat = Some source).
Proof.
  induction l as [|[data source] l IH]; intros batch i Hok Hl; cbn [store_messages].
  - exists batch. by split_and!.
  - cbn [length] in Hl. destruct (store_message_spec batch i data source Hok) as (b1 & -> & Hok1 & Hd & Hs & Hoth); [lia|].
    cbn [mbind option_bind]. destruct (IH b1 (i + 1)%nat Hok1) as (b2 & -> & Hok2 & Hbelow & Hat); [lia|].
    exists b2. split_and!; [done..| |].
    + intros k Hk. destruct (Hbelow k) as [-> ->]; [lia|]. apply Hoth. lia.
    + intros [|k] d s Hk; cbn in Hk.
      * injection Hk as <- <-. rewrite Nat.add_0_r. destruct (Hbelow i) as [-> ->]; [lia|]. done.
      * replace (i + S k)%nat with (i + 1 + k)%nat by lia. by apply Hat.
Qed.

(** ** Properties *)

(** After [install_signal_handlers] an interrupt or a termination asks the loop
    to stop, a broken pipe changes nothing, and no other signal is touched. *)
Theorem signals_exact sig g_stop :
  deliver install_signal_handlers sig g_stop =
    if bool_decide (sig = SIGINT \/ sig = SIGTERM) then Some 1 else if sig =? SIGPIPE then Some g_stop else None.
Proof.
  unfold deliver, install_signal_handlers. cbn [List.find fst]. unfold SIGINT, SIGTERM, SIGPIPE.
  rewrite !(Z.eqb_sym _ sig). case_bool_decide as Hs; repeat split_if; bool_to_prop; try done; exfalso; lia.
Qed.

(** [set_nonblocking] succeeds exactly when both calls do, and then the flags
    of the descriptor are those it had and [O_NONBLOCK]. *)
Theorem set_nonblocking_exact getfl setfl :
  (set_nonblocking getfl setfl = QSR_OK <-> 0 <= getfl /\ setfl (Z.lor getfl O_NONBLOCK) = true) /\
  forall i, 0 <= i -> Z.testbit (Z.lor getfl O_NONBLOCK) i = Z.testbit getfl i || (i =? 11).
Proof.
  split; [|intros; by apply nonblocking_bits]. unfold set_nonblocking. destruct (getfl <? 0) eqn:E; cbn [orb]; bool_to_prop.
  - split; [done|lia].
  - destruct (setfl _); cbn [negb]; split; intros; try done; by destruct_and!.
Qed.

(** The limit of open descriptors is never lowered, it is raised to the hard
    limit whenever the kernel grants it, and the operator is warned exactly
    when the limit in force is too low for the flow table. *)
Theorem nofile_limit_exact before granted flow_capacity :
  0 <= rlim_cur before <= rlim_max before -> rlim_max before <= RLIM_INFINITY -> 0 <= flow_capacity <= 250000 ->
  let '(request, warning) := raise_nofile_limit (limits before granted) flow_capacity in
  let after := if granted then rlim_max before else rlim_cur before in
  (request = if rlim_cur before <? rlim_max before then Some {| rlim_cur := rlim_max before; rlim_max := rlim_max before |} else None) /\
  (warning = if bool_decide (after <> RLIM_INFINITY /\ after < flow_capacity + QSR_NOFILE_SLACK) then Some after else None).
Proof.
  intros Hb Hm Hf. unfold raise_nofile_limit, limits. cbn [Nat.ltb Nat.leb]. rewrite andb_false_r. cbn [default]. change (id ?x) with x.
  rewrite uadd_small by (unfold QSR_NOFILE_SLACK; lia).
  assert (Hw : forall x, (if negb (x =? RLIM_INFINITY) && (x <? flow_capacity + QSR_NOFILE_SLACK) then Some x else None) =
    if bool_decide (x <> RLIM_INFINITY /\ x < flow_capacity + QSR_NOFILE_SLACK) then Some x else None).
  { intros x. case_bool_decide as Hx; destruct (x =? RLIM_INFINITY) eqn:E1, (x <? flow_capacity + QSR_NOFILE_SLACK) eqn:E2;
      cbn [negb andb]; bool_to_prop; try done; exfalso; lia || tauto. }
  destruct (rlim_cur before <? rlim_max before) eqn:E; bool_to_prop; rewrite andb_true_r || idtac; destruct granted; cbn [rlim_cur]; (split; [done|]); rewrite Hw; try done.
  by replace (rlim_max before) with (rlim_cur before) by lia.
Qed.

(** The receive buffers. What [recv_batch_init] sets up, [recvmmsg] fills
    without one message touching another: of up to 64 messages, slot [i] holds
    exactly message [i], cut to its 16 KiB, and its source, and the batch is
    ready for the next round. *)
Theorem recv_batch_separate calloc batch l : recv_batch_init calloc = (batch, QSR_OK) -> (length l <= QSR_UDP_BATCH_SIZE)%nat ->
  exists batch', store_messages (reset_batch batch) 0 l = Some batch' /\ batch_ok batch' /\
    forall i data source, l !! i = Some (data, source) ->
      stored_datagram batch' i = take (Z.to_nat QSR_UDP_RECV_BUFFER_SIZE) data /\ rb_sources batch' !! i = Some source.
Proof.
  intros Hb Hl. pose proof (reset_batch_spec _ (recv_batch_spec calloc batch Hb)) as Hok.
  destruct (store_messages_spec l (reset_batch batch) 0 Hok Hl) as (b & He & Hok' & _ & Hat). by exists b.
Qed.

(** ** Witnesses *)

Lemma nofile_limit_exact_witness :
  raise_nofile_limit (limits {| rlim_cur := 1024; rlim_max := 4096 |} true) 25000 =
    (Some {| rlim_cur := 4096; rlim_max := 4096 |}, Some 4096).
Proof.
  pose proof (nofile_limit_exact {| rlim_cur := 1024; rlim_max := 4096 |} true 25000 ltac:(cbn; lia) ltac:(vm_compute; discriminate) ltac:(lia)) as Hn.
  destruct (raise_nofile_limit _ _) as [request warning]. cbv zeta in Hn. destruct Hn as [-> ->].
  vm_compute. reflexivity.
Defined.

Lemma recv_batch_separate_witness : exists batch batch',
  store_messages (reset_batch batch) 0 [([1; 2; 3], zeros 128); ([4], zeros 128)] = Some batch' /\
  stored_datagram batch' 0 = [1; 2; 3] /\ stored_datagram batch' 1 = [4].
Proof.
  destruct (recv_batch_init (fun _ _ => true)) as [batch st] eqn:Hb.
  assert (st = QSR_OK) as ->. { unfold recv_batch_init in Hb. cbn [andb] in Hb. injection Hb as _ <-. reflexivity. }
  destruct (recv_batch_separate (fun _ _ => true) batch [([1; 2; 3], zeros 128); ([4], zeros 128)] Hb) as (batch' & He & _ & Hat).
  { cbn. unfold QSR_UDP_BATCH_SIZE. lia. }
  exists batch, batch'. split; [exact He|]. split.
  - destruct (Hat 0%nat _ _ eq_refl) as [-> _]. reflexivity.
  - destruct (Hat 1%nat _ _ eq_refl) as [-> _]. reflexivity.
Defined.
