(* ===== verification/Pending.v ===== *)
(** * Pending Initials

    [src/udp.c], lines 86 to 105 and 443 to 527: the table of connections whose
    ClientHello is not complete yet. An entry keeps the datagrams received so
    far and the CRYPTO stream they make; the table has 64 of them and replaces
    the next one round-robin when all are used. *)

From S2P Require Import Prelude Hash SessionKey QuicInitial QuicFrames.
#[local] Open Scope Z_scope.

(** ** Data *)

Definition QSR_PENDING_INITIAL_CAPACITY : nat := 64.
Definition QSR_PENDING_INITIAL_MAX_PACKETS : nat := 8.
Definition QSR_PENDING_INITIAL_IDLE_SECONDS : Z := 5.

Record qsr_pending_initial := {
  pe_used : bool;
  pe_source : list Z;
  pe_source_len : Z;
  pe_dcid : list Z;
  pe_dcid_len : Z;
  pe_scid : list Z;
  pe_scid_len : Z;
  pe_cid_key : qsr_session_key;
  pe_crypto : qsr_crypto_stream;
  pe_packets : list (list Z);
  pe_packet_lens : list Z;
  pe_packet_count : nat;
  pe_last_seen : Z;
}.

Record qsr_pending_initial_table := {
  pt_entries : list qsr_pending_initial;
  pt_next_evict : Z;
}.

(** A zero-filled stream, entry, table. *)
Definition crypto0 : qsr_crypto_stream := {|
  cs_data := zeros QSR_MAX_CLIENT_HELLO_SIZE; cs_received := zeros QSR_MAX_CLIENT_HELLO_SIZE; cs_len := 0;
  cs_first_received := 0; cs_last_received := 0 |}.

Definition pending0 : qsr_pending_initial := {|
  pe_used := false; pe_source := zeros SOCKADDR_SIZE; pe_source_len := 0;
  pe_dcid := zeros QSR_MAX_QUIC_CID_LEN; pe_dcid_len := 0; pe_scid := zeros QSR_MAX_QUIC_CID_LEN; pe_scid_len := 0;
  pe_cid_key := session_key0; pe_crypto := crypto0;
  pe_packets := replicate QSR_PENDING_INITIAL_MAX_PACKETS (zeros QSR_MAX_DATAGRAM_SIZE);
  pe_packet_lens := replicate QSR_PENDING_INITIAL_MAX_PACKETS 0; pe_packet_count := 0; pe_last_seen := 0 |}.

Definition pending_table0 : qsr_pending_initial_table := {|
  pt_entries := replicate QSR_PENDING_INITIAL_CAPACITY pending0; pt_next_evict := 0 |}.

Definition pending_set_entries (t : qsr_pending_initial_table) (l : list qsr_pending_initial) : qsr_pending_initial_table := {|
  pt_entries := l; pt_next_evict := pt_next_evict t |}.

Definition pending_set_last_seen (e : qsr_pending_initial) (now : Z) : qsr_pending_initial := {|
  pe_used := pe_used e; pe_source := pe_source e; pe_source_len := pe_source_len e; pe_dcid := pe_dcid e;
  pe_dcid_len := pe_dcid_len e; pe_scid := pe_scid e; pe_scid_len := pe_scid_len e; pe_cid_key := pe_cid_key e;
  pe_crypto := pe_crypto e; pe_packets := pe_packets e; pe_packet_lens := pe_packet_lens e;
  pe_packet_count := pe_packet_count e; pe_last_seen := now |}.
Definition pending_set_crypto (e : qsr_pending_initial) (crypto : qsr_crypto_stream) : qsr_pending_initial := {|
  pe_used := pe_used e; pe_source := pe_source e; pe_source_len := pe_source_len e; pe_dcid := pe_dcid e;
  pe_dcid_len := pe_dcid_len e; pe_scid := pe_scid e; pe_scid_len := pe_scid_len e; pe_cid_key := pe_cid_key e;
  pe_crypto := crypto; pe_packets := pe_packets e; pe_packet_lens := pe_packet_lens e;
  pe_packet_count := pe_packet_count e; pe_last_seen := pe_last_seen e |}.
Definition pending_set_packets (e : qsr_pending_initial) (packets : list (list Z)) (lens : list Z) (count : nat) :
    qsr_pending_initial := {|
  pe_used := pe_used e; pe_source := pe_source e; pe_source_len := pe_source_len e; pe_dcid := pe_dcid e;
  pe_dcid_len := pe_dcid_len e; pe_scid := pe_scid e; pe_scid_len := pe_scid_len e; pe_cid_key := pe_cid_key e;
  pe_crypto := pe_crypto e; pe_packets := packets; pe_packet_lens := lens;
  pe_packet_count := count; pe_last_seen := pe_last_seen e |}.

(** ** Operations *)

Definition pending_initial_matches (e : qsr_pending_initial) (source : list Z) (source_len : Z) (initial : qsr_quic_initial) : bool :=
  pe_used e && (pe_source_len e =? source_len) && mem_eq (pe_source e) source source_len &&
  (pe_dcid_len e =? i_dcid_len initial) && (pe_scid_len e =? i_scid_len initial) &&
  mem_eq (pe_dcid e) (i_dcid initial) (i_dcid_len initial) && mem_eq (pe_scid e) (i_scid initial) (i_scid_len initial).

(** [for (i = 0; i < QSR_PENDING_INITIAL_CAPACITY; i++)] up to the first entry that passes [f]. *)
Fixpoint find_entry (f : qsr_pending_initial -> bool) (l : list qsr_pending_initial) (i : nat) : option nat :=
  match l with
  | [] => None
  | e :: l => if f e then Some i else find_entry f l (i + 1)%nat
  end.

(** The assignments to a zeroed entry. *)
Definition pending_new (source : list Z) (source_len : Z) (initial : qsr_quic_initial) (now : Z) : qsr_pending_initial := {|
  pe_used := true; pe_source := source; pe_source_len := source_len;
  pe_dcid := memcpy_at (pe_dcid pending0) 0 (field (i_dcid initial) (i_dcid_len initial)); pe_dcid_len := i_dcid_len initial;
  pe_scid := memcpy_at (pe_scid pending0) 0 (field (i_scid initial) (i_scid_len initial)); pe_scid_len := i_scid_len initial;
  pe_cid_key := qsr_session_cid_key (Some (i_dcid initial)) (i_dcid_len initial) (Some (i_scid initial)) (i_scid_len initial);
  pe_crypto := qsr_crypto_stream_init;
  pe_packets := pe_packets pending0; pe_packet_lens := pe_packet_lens pending0; pe_packet_count := 0;
  pe_last_seen := now |}.

(** The table and the index of the entry returned. *)
Definition pending_initial_get (t : qsr_pending_initial_table) (source : list Z) (source_len : Z) (initial : qsr_quic_initial)
    (now : Z) : qsr_pending_initial_table * nat :=
  match find_entry (fun e => pending_initial_matches e source source_len initial) (pt_entries t) 0 with
  | Some i => (pending_set_entries t (alter (fun e => pending_set_last_seen e now) i (pt_entries t)), i)
  | None =>
      match find_entry (fun e => negb (pe_used e)) (pt_entries t) 0 with
      | Some i => (pending_set_entries t (<[i := pending_new source source_len initial now]> (pt_entries t)), i)
      | None =>
          let i := Z.to_nat (pt_next_evict t mod Z.of_nat QSR_PENDING_INITIAL_CAPACITY) in
          ({| pt_entries := <[i := pending_new source source_len initial now]> (pt_entries t);
              pt_next_evict := uadd (pt_next_evict t) 1 |}, i)
      end
  end.

(** [entry] is given by its index. *)
Definition pending_initial_remove (t : qsr_pending_initial_table) (entry : nat) : qsr_pending_initial_table :=
  if (entry <? QSR_PENDING_INITIAL_CAPACITY)%nat then pending_set_entries t (<[entry := pending0]> (pt_entries t)) else t.

Definition pending_initial_expire (t : qsr_pending_initial_table) (now : Z) : qsr_pending_initial_table :=
  pending_set_entries t
    ((fun e => if pe_used e && (QSR_PENDING_INITIAL_IDLE_SECONDS <=? now - pe_last_seen e) then pending0 else e) <$> pt_entries t).

(** [packets[i][0 .. packet_lens[i])] *)
Definition pending_packet (e : qsr_pending_initial) (i : nat) : list Z :=
  field (default [] (pe_packets e !! i)) (default 0 (pe_packet_lens e !! i)).

(** [for (i = 0; i < packet_count; i++)]: whether the packet is already there. *)
Definition pending_has_packet (e : qsr_pending_initial) (packet : list Z) (packet_len : Z) : bool :=
  existsb (fun i => (default 0 (pe_packet_lens e !! i) =? packet_len) &&
                    mem_eq (default [] (pe_packets e !! i)) packet packet_len) (seq 0 (pe_packet_count e)).

(** [packet] is the [packet_len] bytes at the pointer. *)
Definition pending_initial_append_packet (e : qsr_pending_initial) (packet : list Z) (packet_len : Z) : qsr_pending_initial :=
  if QSR_MAX_DATAGRAM_SIZE <? packet_len then e
  else if pending_has_packet e packet packet_len then e
  else if (QSR_PENDING_INITIAL_MAX_PACKETS <=? pe_packet_count e)%nat then e
  else pending_set_packets e
    (alter (fun p => memcpy_at p 0 (field packet packet_len)) (pe_packet_count e) (pe_packets e))
    (<[pe_packet_count e := packet_len]> (pe_packet_lens e)) (pe_packet_count e + 1)%nat.

(** ** Well-formed tables *)

(** The connection an entry is for: the client's address and the two IDs. *)
Definition pending_key : Type := list Z * (list Z * list Z).

Definition initial_key (source : list Z) (source_len : Z) (initial : qsr_quic_initial) : pending_key :=
  (field source source_len, (field (i_dcid initial) (i_dcid_len initial), field (i_scid initial) (i_scid_len initial))).

Definition entry_key (e : qsr_pending_initial) : pending_key :=
  (field (pe_source e) (pe_source_len e), (field (pe_dcid e) (pe_dcid_len e), field (pe_scid e) (pe_scid_len e))).

(** The datagrams an entry holds, in the order they came. *)
Definition entry_packets (e : qsr_pending_initial) : list (list Z) := pending_packet e <$> seq 0 (pe_packet_count e).

Record entry_wf (e : qsr_pending_initial) : Prop := {
  ew_source : Zlen (pe_source e) = SOCKADDR_SIZE;
  ew_source_len : 0 <= pe_source_len e <= SOCKADDR_SIZE;
  ew_dcid : Zlen (pe_dcid e) = QSR_MAX_QUIC_CID_LEN;
  ew_dcid_len : 0 <= pe_dcid_len e <= QSR_MAX_QUIC_CID_LEN;
  ew_scid : Zlen (pe_scid e) = QSR_MAX_QUIC_CID_LEN;
  ew_scid_len : 0 <= pe_scid_len e <= QSR_MAX_QUIC_CID_LEN;
  ew_cid_key : pe_cid_key e = qsr_session_cid_key (Some (pe_dcid e)) (pe_dcid_len e) (Some (pe_scid e)) (pe_scid_len e);
  ew_crypto : stream_wf (pe_crypto e);
  ew_crypto_bytes : bytes_ok (cs_data (pe_crypto e));
  ew_packets : length (pe_packets e) = QSR_PENDING_INITIAL_MAX_PACKETS;
  ew_arrays : Forall (fun p => Zlen p = QSR_MAX_DATAGRAM_SIZE) (pe_packets e);
  ew_lens : length (pe_packet_lens e) = QSR_PENDING_INITIAL_MAX_PACKETS;
  ew_lens_ok : Forall (fun n => 0 <= n <= QSR_MAX_DATAGRAM_SIZE) (pe_packet_lens e);
  ew_count : (pe_packet_count e <= QSR_PENDING_INITIAL_MAX_PACKETS)%nat;
  ew_distinct : NoDup (entry_packets e);
}.

Record pending_wf (t : qsr_pending_initial_table) : Prop := {
  pw_length : length (pt_entries t) = QSR_PENDING_INITIAL_CAPACITY;
  pw_next : 0 <= pt_next_evict t;
  pw_entry : forall i e, pt_entries t !! i = Some e -> if pe_used e then entry_wf e else e = pending0;
  pw_unique : forall i j e f, pt_entries t !! i = Some e -> pt_entries t !! j = Some f ->
    pe_used e = true -> pe_used f = true -> entry_key e = entry_key f -> i = j;
}.

(** ** Lemmas *)

Lemma find_entry_spec f l : forall i,
  match find_entry f l i with
  | Some j => exists e, (i <= j)%nat /\ l !! (j - i)%nat = Some e /\ f e = true
  | None => forall j e, l !! j = Some e -> f e = false
  end.
Proof.
  induction l as [|e l IH]; intros i; cbn [find_entry]; [done|]. destruct (f e) eqn:E.
  - exists e. rewrite Nat.sub_diag. split_and!; [lia|done..].
  - specialize (IH (i + 1)%nat). destruct (find_entry f l (i + 1)) as [j|].
    + destruct IH as (x & Hj & Hx & Hf). exists x. split_and!; [lia| |done].
      by replace (j - i)%nat with (S (j - (i + 1))) by lia.
    + intros [|j] x Hx; cbn in Hx; [by simplify_eq|by eapply IH].
Qed.

Lemma field_eq_iff a b n m : 0 <= n <= Zlen a -> 0 <= m <= Zlen b ->
  field a n = field b m <-> n = m /\ mem_eq a b n = true.
Proof.
  intros Hn Hm. unfold mem_eq. rewrite bool_decide_eq_true. split; [|by intros [-> ?]].
  intros He. assert (n = m) as <-; [|done]. apply (f_equal Zlen) in He. by rewrite !Zlen_field in He.
Qed.

(** An Initial as the parser leaves it, and its sender's address. *)
Definition initial_fits (source : list Z) (source_len : Z) (initial : qsr_quic_initial) : Prop :=
  Zlen source = SOCKADDR_SIZE /\ 0 <= source_len <= SOCKADDR_SIZE /\
  Zlen (i_dcid initial) = QSR_MAX_QUIC_CID_LEN /\ 0 <= i_dcid_len initial <= QSR_MAX_QUIC_CID_LEN /\
  Zlen (i_scid initial) = QSR_MAX_QUIC_CID_LEN /\ 0 <= i_scid_len initial <= QSR_MAX_QUIC_CID_LEN.

Lemma matches_key e source source_len initial : entry_wf e -> pe_used e = true -> initial_fits source source_len initial ->
  pending_initial_matches e source source_len initial = true <-> entry_key e = initial_key source source_len initial.
Proof.
  intros Hwf Hu (Hs & Hsl & Hd & Hdl & Hc & Hcl). destruct Hwf. unfold pending_initial_matches, entry_key, initial_key, pending_key.
  rewrite Hu. cbn [andb]. rewrite !andb_true_iff, !Z.eqb_eq, !pair_equal_spec.
  rewrite !field_eq_iff by lia. split.
  - intros (((((-> & ?) & ->) & ->) & ?) & ?). auto.
  - intros ((-> & ?) & (-> & ?) & -> & ?). auto 10.
Qed.

Lemma init_bytes : bytes_ok (cs_data qsr_crypto_stream_init).
Proof. apply bytes_ok_zeros. Qed.

Lemma pending_new_wf source source_len initial now : initial_fits source source_len initial ->
  entry_wf (pending_new source source_len initial now) /\
  entry_key (pending_new source source_len initial now) = initial_key source source_len initial /\
  entry_packets (pending_new source source_len initial now) = [].
Proof.
  intros (Hs & Hsl & Hd & Hdl & Hc & Hcl). split_and!; [|unfold entry_key, initial_key; cbn [pe_source pe_source_len pe_dcid pe_dcid_len pe_scid pe_scid_len pending_new];
    rewrite !field_memcpy by lia; done|done].
  split; cbn [pe_source pe_source_len pe_dcid pe_dcid_len pe_scid pe_scid_len pe_cid_key pe_crypto pe_packets pe_packet_lens
              pe_packet_count pending_new]; try done; try lia.
  - rewrite Zlen_memcpy_field; [done| |lia]. change (Zlen (pe_dcid pending0)) with 20. unfold QSR_MAX_QUIC_CID_LEN in *. lia.
  - rewrite Zlen_memcpy_field; [done| |lia]. change (Zlen (pe_scid pending0)) with 20. unfold QSR_MAX_QUIC_CID_LEN in *. lia.
  - unfold qsr_session_cid_key. cbn [is_none_ptr default]. change (id ?x) with x. rewrite !field_memcpy by lia. done.
  - apply init_wf_stream.
  - apply init_bytes.
  - apply Forall_replicate. unfold Zlen. by rewrite length_zeros.
  - apply Forall_replicate. unfold QSR_MAX_DATAGRAM_SIZE. lia.
  - constructor.
Qed.

Lemma pending_used t i e : pending_wf t -> pt_entries t !! i = Some e -> pe_used e = true -> entry_wf e.
Proof. intros Hwf He Hu. pose proof (pw_entry t Hwf i e He) as Hx. by rewrite Hu in Hx. Qed.

(** Replacing one entry by one whose key no other entry has. *)
Lemma pending_insert_wf t i e next : pending_wf t -> (i < QSR_PENDING_INITIAL_CAPACITY)%nat -> entry_wf e -> pe_used e = true ->
  0 <= next ->
  (forall j f, j <> i -> pt_entries t !! j = Some f -> pe_used f = true -> entry_key f <> entry_key e) ->
  pending_wf {| pt_entries := <[i := e]> (pt_entries t); pt_next_evict := next |}.
Proof.
  intros Hwf Hi He Hu Hn Hk. destruct Hwf as [Hl _ Hent Huniq]. split; cbn.
  - by rewrite length_insert.
  - done.
  - intros j f Hf. apply list_lookup_insert_Some in Hf as [(_ & <- & _)|[_ Hf]]; [by rewrite Hu|by apply (Hent j)].
  - intros j k f g Hf Hg Huf Hug Hkey.
    apply list_lookup_insert_Some in Hf as [(<- & <- & _)|[Hne Hf]]; apply list_lookup_insert_Some in Hg as [(<- & <- & _)|[Hne' Hg]]; try done.
    + by destruct (Hk k g).
    + by destruct (Hk j f).
    + by apply (Huniq j k f g).
Qed.

(** Changing an entry but not its key. *)
Lemma pending_update_wf t i e f : pending_wf t -> pt_entries t !! i = Some e -> pe_used e = true ->
  entry_wf f -> pe_used f = true -> entry_key f = entry_key e -> pending_wf (pending_set_entries t (<[i := f]> (pt_entries t))).
Proof.
  intros Hwf He Hu Hf Huf Hk. apply pending_insert_wf; [done| |done..|apply Hwf|].
  - rewrite <- (pw_length t Hwf). by apply lookup_lt_Some in He.
  - intros j g Hj Hg Hug Heq. apply Hj. apply (pw_unique t Hwf j i g e); [done..|congruence].
Qed.

(** What [pending_initial_get] found in slot [i], if it found something. *)
Inductive got (t : qsr_pending_initial_table) (source : list Z) (source_len : Z) (initial : qsr_quic_initial) (now : Z) (i : nat) :
    qsr_pending_initial -> Prop :=
  | got_old e : pt_entries t !! i = Some e -> pe_used e = true -> entry_key e = initial_key source source_len initial ->
      got t source source_len initial now i (pending_set_last_seen e now)
  | got_new :
      (forall j f, pt_entries t !! j = Some f -> pe_used f = true -> entry_key f <> initial_key source source_len initial) ->
      (pt_entries t !! i = Some pending0 \/
       (forall j f, pt_entries t !! j = Some f -> pe_used f = true) /\
       i = Z.to_nat (pt_next_evict t mod Z.of_nat QSR_PENDING_INITIAL_CAPACITY)) ->
      got t source source_len initial now i (pending_new source source_len initial now).

Lemma pending_get_spec t source source_len initial now : pending_wf t -> initial_fits source source_len initial ->
  let '(t', i) := pending_initial_get t source source_len initial now in
  pending_wf t' /\ exists e, got t source source_len initial now i e /\ pt_entries t' = <[i := e]> (pt_entries t) /\
    (i < QSR_PENDING_INITIAL_CAPACITY)%nat /\ entry_wf e /\ pe_used e = true /\ entry_key e = initial_key source source_len initial.
Proof.
  intros Hwf Hfit. unfold pending_initial_get.
  pose proof (find_entry_spec (fun e => pending_initial_matches e source source_len initial) (pt_entries t) 0) as Hf.
  destruct (find_entry _ (pt_entries t) 0) as [i|].
  - destruct Hf as (e & _ & He & Hm). rewrite Nat.sub_0_r in He. assert (Hu : pe_used e = true).
    { unfold pending_initial_matches in Hm. by destruct (pe_used e). }
    pose proof (pending_used t i e Hwf He Hu) as Hew. apply matches_key in Hm; [|done..].
    assert (Hew' : entry_wf (pending_set_last_seen e now)) by (destruct Hew; by split).
    rewrite (list_alter_at _ _ _ e He). split; [by eapply pending_update_wf|].
    exists (pending_set_last_seen e now). split_and!; [by apply (got_old _ _ _ _ _ _ e)|done| |done..].
    rewrite <- (pw_length t Hwf). by apply lookup_lt_Some in He.
  - assert (Hno : forall j f, pt_entries t !! j = Some f -> pe_used f = true -> entry_key f <> initial_key source source_len initial).
    { intros j f Hj Hu Hk. rewrite <- (matches_key f source source_len initial (pending_used t j f Hwf Hj Hu) Hu Hfit) in Hk.
      by rewrite (Hf j f Hj) in Hk. }
    destruct (pending_new_wf source source_len initial now Hfit) as (Hnw & Hnk & _).
    pose proof (find_entry_spec (fun e => negb (pe_used e)) (pt_entries t) 0) as Hf2.
    destruct (find_entry _ (pt_entries t) 0) as [i|].
    + destruct Hf2 as (e & _ & He & Hm). rewrite Nat.sub_0_r in He. apply negb_true_iff in Hm.
      assert (Hi : (i < QSR_PENDING_INITIAL_CAPACITY)%nat) by (rewrite <- (pw_length t Hwf); by apply lookup_lt_Some in He).
      split; [apply pending_insert_wf; [done..|apply Hwf|]; rewrite Hnk; intros; by eapply Hno|].
      exists (pending_new source source_len initial now). split_and!; try done. apply got_new; [done|].
      left. pose proof (pw_entry t Hwf i e He) as Hx. rewrite Hm in Hx. by subst.
    + set (i := Z.to_nat _). assert (Hi : (i < QSR_PENDING_INITIAL_CAPACITY)%nat).
      { unfold i, QSR_PENDING_INITIAL_CAPACITY. pose proof (Z.mod_pos_bound (pt_next_evict t) 64 ltac:(lia)). cbn. lia. }
      split; [apply pending_insert_wf; [done..|apply wrap_range; lia|]; rewrite Hnk; intros; by eapply Hno|].
      exists (pending_new source source_len initial now). split_and!; try done. apply got_new; [done|].
      right. split; [|done]. intros j f Hj. specialize (Hf2 j f Hj). by apply negb_false_iff in Hf2.
Qed.

Lemma pending_remove_wf t i : pending_wf t -> pending_wf (pending_initial_remove t i).
Proof.
  intros Hwf. unfold pending_initial_remove. split_if; [|done]. destruct Hwf as [Hl Hn Hent Huniq]. split; cbn.
  - by rewrite length_insert.
  - done.
  - intros j f Hf. apply list_lookup_insert_Some in Hf as [(_ & <- & _)|[_ Hf]]; [done|by apply (Hent j)].
  - intros j k f g Hf Hg Huf Hug Hkey.
    apply list_lookup_insert_Some in Hf as [(_ & <- & _)|[_ Hf]]; [done|].
    apply list_lookup_insert_Some in Hg as [(_ & <- & _)|[_ Hg]]; [done|]. by apply (Huniq j k f g).
Qed.

Lemma pending_expire_wf t now : pending_wf t -> pending_wf (pending_initial_expire t now).
Proof.
  intros [Hl Hn Hent Huniq]. split; cbn; [by rewrite length_fmap|done|..].
  - intros j f Hf. apply list_lookup_fmap_Some in Hf as (g & -> & Hg). specialize (Hent j g Hg). by destruct (pe_used g && _).
  - intros j k f g Hf Hg Huf Hug Hkey. apply list_lookup_fmap_Some in Hf as (f' & -> & Hf), Hg as (g' & -> & Hg).
    repeat split_if; try done. by apply (Huniq j k f' g').
Qed.

(** *** Datagrams of an entry *)

Lemma pending_packet_ok e i : entry_wf e -> (i < QSR_PENDING_INITIAL_MAX_PACKETS)%nat ->
  exists p n, pe_packets e !! i = Some p /\ pe_packet_lens e !! i = Some n /\ Zlen p = QSR_MAX_DATAGRAM_SIZE /\
    0 <= n <= QSR_MAX_DATAGRAM_SIZE /\ pending_packet e i = field p n.
Proof.
  intros Hwf Hi. destruct (lookup_lt_is_Some_2 (pe_packets e) i) as [p Hp]; [by rewrite (ew_packets e Hwf)|].
  destruct (lookup_lt_is_Some_2 (pe_packet_lens e) i) as [n Hn]; [by rewrite (ew_lens e Hwf)|].
  exists p, n. unfold pending_packet. rewrite Hp, Hn. split_and!; try done.
  - by apply (Forall_lookup_1 _ _ _ _ (ew_arrays e Hwf) Hp).
  - apply (Forall_lookup_1 _ _ _ _ (ew_lens_ok e Hwf) Hn).
  - apply (Forall_lookup_1 _ _ _ _ (ew_lens_ok e Hwf) Hn).
Qed.

Lemma pending_has_packet_spec e packet : entry_wf e ->
  pending_has_packet e packet (Zlen packet) = true <-> packet ∈ entry_packets e.
Proof.
  intros Hwf. unfold pending_has_packet, entry_packets. rewrite existsb_exists, list_elem_of_fmap.
  split.
  - intros (i & Hi%list_elem_of_In & Hm). exists i. split; [|done]. apply elem_of_seq in Hi.
    destruct (pending_packet_ok e i Hwf) as (p & n & Hp & Hn & Hlp & Hln & ->); [pose proof (ew_count e Hwf); lia|].
    rewrite Hp, Hn in Hm. cbn [default] in Hm. change (id ?x) with x in Hm. bool_to_prop. subst n.
    rewrite <- (field_all packet) at 1. symmetry. apply field_eq_iff; [lia|pose proof (Zlen_nonneg packet); lia|done].
  - intros (i & Heq & Hi). exists i. split; [by apply list_elem_of_In|]. apply elem_of_seq in Hi.
    destruct (pending_packet_ok e i Hwf) as (p & n & Hp & Hn & Hlp & Hln & Hpk); [pose proof (ew_count e Hwf); lia|].
    rewrite Hpk in Heq. rewrite Hp, Hn. cbn [default]. change (id ?x) with x. symmetry in Heq.
    rewrite <- (field_all packet) in Heq. apply field_eq_iff in Heq as [-> ->]; [|lia|pose proof (Zlen_nonneg packet); lia].
    by rewrite Z.eqb_refl.
Qed.

(** Whether an entry takes another datagram. *)
Definition takes_packet (e : qsr_pending_initial) (packet : list Z) : bool :=
  (Zlen packet <=? QSR_MAX_DATAGRAM_SIZE) && negb (bool_decide (packet ∈ entry_packets e)) &&
  (pe_packet_count e <? QSR_PENDING_INITIAL_MAX_PACKETS)%nat.

Lemma append_spec e packet : entry_wf e ->
  let e' := pending_initial_append_packet e packet (Zlen packet) in
  entry_wf e' /\ pe_used e' = pe_used e /\ entry_key e' = entry_key e /\ pe_crypto e' = pe_crypto e /\
  pe_last_seen e' = pe_last_seen e /\ pe_cid_key e' = pe_cid_key e /\
  entry_packets e' = entry_packets e ++ (if takes_packet e packet then [packet] else []).
Proof.
  intros Hwf. cbv zeta. unfold pending_initial_append_packet, takes_packet. pose proof (Zlen_nonneg packet).
  destruct (QSR_MAX_DATAGRAM_SIZE <? Zlen packet) eqn:El; bool_to_prop.
  { rewrite (proj2 (Z.leb_gt _ _)) by lia. cbn [andb]. by rewrite app_nil_r. }
  rewrite (proj2 (Z.leb_le _ _)) by lia. cbn [andb].
  destruct (pending_has_packet e packet (Zlen packet)) eqn:Eh.
  { apply pending_has_packet_spec in Eh; [|done]. rewrite bool_decide_eq_true_2 by done. cbn [negb andb]. by rewrite app_nil_r. }
  assert (Hnin : packet ∉ entry_packets e) by (intros Hin; apply pending_has_packet_spec in Hin; congruence).
  rewrite bool_decide_eq_false_2 by done. cbn [negb andb].
  destruct (QSR_PENDING_INITIAL_MAX_PACKETS <=? pe_packet_count e)%nat eqn:Ec.
  { apply Nat.leb_le in Ec. rewrite (proj2 (Nat.ltb_ge _ _)) by lia. by rewrite app_nil_r. }
  apply Nat.leb_gt in Ec. rewrite (proj2 (Nat.ltb_lt _ _)) by lia.
  destruct (pending_packet_ok e (pe_packet_count e) Hwf Ec) as (p & n & Hp & Hn & Hlp & Hln & _).
  rewrite field_all, (list_alter_at _ _ _ p Hp).
  set (e' := pending_set_packets _ _ _ _).
  assert (Hpk : entry_packets e' = entry_packets e ++ [packet]).
  { unfold entry_packets, e'. cbn [pe_packet_count pending_set_packets]. rewrite seq_app, fmap_app. cbn [seq fmap list_fmap Nat.add].
    f_equal; [apply list_fmap_ext|f_equal].
    - intros i x Hx. apply lookup_seq in Hx as [-> Hx]. unfold pending_packet. cbn [pe_packets pe_packet_lens pending_set_packets Nat.add].
      by rewrite !list_lookup_insert_ne by lia.
    - unfold pending_packet. cbn [pe_packets pe_packet_lens pending_set_packets].
      rewrite !list_lookup_insert_eq by (by eapply lookup_lt_Some). cbn [default]. change (id ?x) with x.
      unfold field, Zlen. rewrite Nat2Z.id. apply memcpy_at_0_take. }
  split_and!; [|done..|exact Hpk].
  pose proof Hpk as Hpk'. destruct Hwf as [Hw1 Hw2 Hw3 Hw4 Hw5 Hw6 Hw7 Hw8 Hw9 Hw10 Hw11 Hw12 Hw13 Hw14 Hw15]. split; try done.
  - cbn. by rewrite length_insert.
  - cbn. apply Forall_insert; [done|]. unfold Zlen. rewrite length_memcpy_at by (unfold Zlen in *; lia). done.
  - cbn. by rewrite length_insert.
  - cbn. apply Forall_insert; [done|lia].
  - cbn. lia.
  - rewrite Hpk'. apply list.NoDup_app. split_and!; [done| |apply list.NoDup_singleton].
    intros x Hx Hx'. rewrite list_elem_of_singleton in Hx'. by subst.
Qed.

Lemma set_crypto_wf e crypto : entry_wf e -> stream_wf crypto -> bytes_ok (cs_data crypto) ->
  entry_wf (pending_set_crypto e crypto) /\ entry_packets (pending_set_crypto e crypto) = entry_packets e.
Proof. intros [] ? ?. by split; [split|]. Qed.

(** ** Properties *)

(** C26: the table implements a bounded map from connections (client address and
    the two connection IDs) to entries: the entry of a known connection is found
    and refreshed, a new connection gets a fresh entry in a free slot or, when
    there is none, in place of the next one of the round; no other entry changes. *)
Theorem pending_get_refines t source source_len initial now : pending_wf t -> initial_fits source source_len initial ->
  let '(t', i) := pending_initial_get t source source_len initial now in
  pending_wf t' /\ exists e, got t source source_len initial now i e /\ pt_entries t' = <[i := e]> (pt_entries t) /\
    (i < QSR_PENDING_INITIAL_CAPACITY)%nat /\ entry_wf e /\ pe_used e = true /\ entry_key e = initial_key source source_len initial.
Proof. apply pending_get_spec. Qed.

(** An entry collects up to eight distinct datagrams of at most 1500 bytes,
    byte for byte and in order of arrival; any other is ignored. *)
Theorem pending_append_collects e packet : entry_wf e ->
  let e' := pending_initial_append_packet e packet (Zlen packet) in
  entry_wf e' /\ pe_used e' = pe_used e /\ entry_key e' = entry_key e /\ pe_crypto e' = pe_crypto e /\
  pe_last_seen e' = pe_last_seen e /\ pe_cid_key e' = pe_cid_key e /\
  entry_packets e' = entry_packets e ++ (if takes_packet e packet then [packet] else []).
Proof. apply append_spec. Qed.

(** ** Witnesses *)

Definition demo_initial_cids : qsr_quic_initial :=
  mk_initial QSR_QUIC_V1 (cid_array sample_dcid) 8 (cid_array []) 0 16 0 18 40 18.

Lemma pending_table0_wf : pending_wf pending_table0.
Proof.
  split; [done|done| |].
  - intros i e He. by apply lookup_replicate in He as [-> _].
  - intros i j e f He _ Hu. by apply lookup_replicate in He as [-> _].
Qed.

Lemma demo_initial_fits : initial_fits (demo_addr 1) 16 demo_initial_cids.
Proof. unfold initial_fits, SOCKADDR_SIZE, QSR_MAX_QUIC_CID_LEN. cbn [demo_initial_cids i_dcid i_dcid_len i_scid i_scid_len]. split_and!; done || lia. Qed.

Lemma pending_get_refines_witness :
  pending_wf (pending_initial_get pending_table0 (demo_addr 1) 16 demo_initial_cids 100).1.
Proof.
  pose proof (pending_get_refines pending_table0 (demo_addr 1) 16 demo_initial_cids 100 pending_table0_wf demo_initial_fits) as Hg.
  destruct (pending_initial_get _ _ _ _ _) as [t i]. destruct Hg as [Hwf _]. exact Hwf.
Defined.

Lemma pending_append_collects_witness :
  entry_packets (pending_initial_append_packet (pending_new (demo_addr 1) 16 demo_initial_cids 100) sample_initial (Zlen sample_initial)) =
    [sample_initial].
Proof.
  destruct (pending_new_wf (demo_addr 1) 16 demo_initial_cids 100 demo_initial_fits) as (Hwf & _ & _).
  destruct (pending_append_collects _ sample_initial Hwf) as (_ & _ & _ & _ & _ & _ & Hp). exact Hp.
Defined.
