(* ===== verification/Upstream.v ===== *)
(** * Upstream flows

    [src/udp.c], lines 356 to 441 and 823 to 912: the connection log, opening
    the socket of a flow, and finding or creating the flow of a client. What
    the code calls and prints is a list of events, in order; the answers of
    [socket] and [epoll_ctl] are arguments. *)

From Stdlib Require Import String.
From stdpp Require Import gmap.
From S2P Require Import Prelude Hash SessionKey Probe FlowTable RouteTable Config LogText.
#[local] Open Scope Z_scope.

(** ** Connection logging *)

(** The string in a NUL-terminated array. *)
Fixpoint cstr (l : list Z) : list Z :=
  match l with
  | c :: l => if c =? 0 then [] else c :: cstr l
  | [] => []
  end.

Definition flow_close_reason_name (reason : qsr_flow_close_reason) : list Z :=
  match reason with
  | QSR_FLOW_CLOSE_IDLE => str "idle"
  | QSR_FLOW_CLOSE_EVICTED => str "evicted"
  | QSR_FLOW_CLOSE_FILTERED => str "reload"
  | QSR_FLOW_CLOSE_REMOVED => str "error"
  | QSR_FLOW_CLOSE_SHUTDOWN => str "shutdown"
  end.

Definition hex_digit (n : Z) : Z := default 0 (str "0123456789abcdef" !! Z.to_nat n).

(** The string written to an array of [out_len] bytes. *)
Definition format_cid (cid : list Z) (cid_len out_len : Z) : list Z :=
  if (cid_len =? 0) || (out_len <? cid_len * 2 + 1) then str "-"
  else field cid cid_len ≫= fun b => [hex_digit (Z.shiftr b 4); hex_digit (Z.land b 0x0f)].

(** A line of the connection log; the addresses are those [format_addr] is
    given. A close has a reason and a duration. *)
Record conn_line := {
  cl_src : list Z * Z;
  cl_sni : list Z;
  cl_scid : list Z;
  cl_backend : list Z * Z;
  cl_close : option (list Z * Z);
}.

Definition conn_line_of (flow : qsr_flow) (close : option (list Z * Z)) : conn_line := {|
  cl_src := (f_client_addr flow, f_client_addr_len flow);
  cl_sni := if byte_at (f_sni flow) 0 =? 0 then str "?" else cstr (f_sni flow);
  cl_scid := format_cid (f_scid flow) (f_scid_len flow) (QSR_MAX_QUIC_CID_LEN * 2 + 1);
  cl_backend := (f_backend_addr flow, f_backend_addr_len flow);
  cl_close := close |}.

Definition conn_log_open (flow : qsr_flow) : conn_line := conn_line_of flow None.

Definition conn_log_close (flow : qsr_flow) (reason : list Z) (now : Z) : conn_line :=
  let duration := if (0 <? f_opened_at flow) && (f_opened_at flow <=? now) then now - f_opened_at flow else 0 in
  conn_line_of flow (Some (reason, duration)).

(** The printed line. *)
Definition conn_text `{InetNtop} (line : conn_line) : list Z :=
  let src := format_addr (cl_src line).1 (cl_src line).2 (INET6_ADDRSTRLEN + 16) in
  let backend := format_addr (cl_backend line).1 (cl_backend line).2 (INET6_ADDRSTRLEN + 16) in
  match cl_close line with
  | None =>
      str "conn: open src=" ++ src ++ str " sni=" ++ cl_sni line ++ str " scid=" ++ cl_scid line ++
      str " backend=" ++ backend ++ [10]
  | Some (reason, duration) =>
      str "conn: close src=" ++ src ++ str " sni=" ++ cl_sni line ++ str " scid=" ++ cl_scid line ++
      str " backend=" ++ backend ++ str " reason=" ++ reason ++ str " duration=" ++ decimal duration ++ str "s" ++ [10]
  end.

(** What the flow table's close hook prints, [now] being its own reading of the clock. *)
Definition conn_close_callback (log_connections : bool) (flow : qsr_flow) (reason : qsr_flow_close_reason) (now : Z) :
    list conn_line :=
  if negb log_connections then [] else [conn_log_close flow (flow_close_reason_name reason) now].

(** Calls of the close hook and of [close], log lines, and runs handed to
    [sendmmsg]: a descriptor with the bytes and the destination of each datagram;
    [SocketOpened] is a [socket] that returned a descriptor. *)
Inductive event :=
  | SocketOpened (fd : Z)
  | FlowEvent (e : flow_event)
  | ConnLog (line : conn_line)
  | SendRun (fd : Z) (datagrams : list (list Z * list Z)).

(** ** Fields of a flow *)

Definition flow_set_backend (flow : qsr_flow) (backend : list Z) (backend_len : Z) : qsr_flow := {|
  f_used := f_used flow; f_fd := f_fd flow; f_client_addr := f_client_addr flow; f_client_addr_len := f_client_addr_len flow;
  f_backend_addr := backend; f_backend_addr_len := backend_len; f_last_seen := f_last_seen flow; f_id := f_id flow;
  f_opened_at := f_opened_at flow; f_scid_len := f_scid_len flow; f_scid := f_scid flow; f_sni := f_sni flow |}.

(** [flow->last_seen = now] *)
Definition flow_touch (flow : qsr_flow) (now : Z) : qsr_flow := {|
  f_used := f_used flow; f_fd := f_fd flow; f_client_addr := f_client_addr flow; f_client_addr_len := f_client_addr_len flow;
  f_backend_addr := f_backend_addr flow; f_backend_addr_len := f_backend_addr_len flow; f_last_seen := now; f_id := f_id flow;
  f_opened_at := f_opened_at flow; f_scid_len := f_scid_len flow; f_scid := f_scid flow; f_sni := f_sni flow |}.

(** [sni] and [scid] are [None] for null pointers; [snprintf] writes at most
    [sizeof(flow->sni) - 1] characters and a NUL. *)
Definition flow_set_conn_metadata (flow : qsr_flow) (sni scid : option (list Z)) (scid_len now : Z) : qsr_flow :=
  let store_scid :=
    match scid with Some _ => (0 <? scid_len) && (scid_len <=? QSR_MAX_QUIC_CID_LEN) | None => false end in
  {| f_used := f_used flow; f_fd := f_fd flow; f_client_addr := f_client_addr flow; f_client_addr_len := f_client_addr_len flow;
     f_backend_addr := f_backend_addr flow; f_backend_addr_len := f_backend_addr_len flow; f_last_seen := f_last_seen flow;
     f_id := f_id flow; f_opened_at := now;
     f_scid_len := if store_scid then u8 scid_len else f_scid_len flow;
     f_scid := if store_scid then memcpy_at (f_scid flow) 0 (field (default [] scid) scid_len) else f_scid flow;
     f_sni := match sni with
              | Some name => memcpy_at (f_sni flow) 0 (take (Z.to_nat QSR_MAX_HOSTNAME_LEN) (cstr name) ++ [0])
              | None => f_sni flow
              end |}.

(** ** Sockets and flows *)

(** What [socket] returns: a descriptor, [EMFILE] or [ENFILE], another error. *)
Inductive socket_result := SocketFd (fd : Z) | SocketExhausted | SocketFailed.

Section upstream.
Context `{KeyedHash}.

(** [for (attempt = 0; attempt < 2; attempt++)], [n] attempts left; the last component is -1 on failure. *)
Fixpoint socket_attempts (socket : nat -> socket_result) (n attempt : nat) (flows : qsr_flow_table) :
    option (qsr_flow_table * Z * list event) :=
  match n with
  | O => Some (flows, -1, [])
  | S n =>
      match socket attempt with
      | SocketFd fd => Some (flows, fd, [SocketOpened fd])
      | SocketExhausted =>
          if (attempt =? 0)%nat then
            '(flows, evicted, ev) ← qsr_flow_table_evict_oldest flows;
            if evicted =? 1 then
              '(flows, fd, ev') ← socket_attempts socket n (attempt + 1)%nat flows;
              Some (flows, fd, (FlowEvent <$> ev) ++ ev')
            else Some (flows, -1, FlowEvent <$> ev)
          else Some (flows, -1, [])
      | SocketFailed => Some (flows, -1, [])
      end
  end.

Definition flow_socket_open (socket : Z -> nat -> socket_result) (flows : qsr_flow_table) (family : Z) :
    option (qsr_flow_table * Z * list event) :=
  socket_attempts (socket family) 2 0 flows.

(** [flow->backend_addr_len != backend_len || memcmp(...) != 0] *)
Definition backend_changed (flow : qsr_flow) (backend : list Z) (backend_len : Z) : bool :=
  negb (f_backend_addr_len flow =? backend_len) || negb (mem_eq (f_backend_addr flow) backend backend_len).

(** The flow found: re-aim it when its backend differs, and touch it. *)
Definition flow_reuse (flow : qsr_flow) (log_connections : bool) (backend : list Z) (backend_len now : Z)
    (sni scid : option (list Z)) (scid_len : Z) : qsr_flow * list event :=
  if backend_changed flow backend backend_len then
    let flow' := flow_set_conn_metadata (flow_set_backend flow backend backend_len) sni scid scid_len now in
    (flow_touch flow' now,
     if log_connections then [ConnLog (conn_log_close flow (str "reroute") now); ConnLog (conn_log_open flow')] else [])
  else (flow_touch flow now, []).

(** The table, the slot of the flow ([None] for a null return) and the events.
    [epoll_add fd slot] is whether [epoll_ctl] succeeds. *)
Definition flow_acquire (socket : Z -> nat -> socket_result) (epoll_add : Z -> nat -> bool) (log_connections : bool)
    (flows : qsr_flow_table) (client : list Z) (client_len : Z) (backend : list Z) (backend_len now : Z)
    (sni scid : option (list Z)) (scid_len : Z) : option (qsr_flow_table * option nat * list event) :=
  match qsr_flow_table_get flows client client_len with
  | Some slot =>
      flow ← ft_flows flows !! slot;
      let '(flow, ev) := flow_reuse flow log_connections backend backend_len now sni scid scid_len in
      Some (ft_set_flows flows (<[slot := flow]> (ft_flows flows)), Some slot, ev)
  | None =>
      '(flows, fd, ev0) ← flow_socket_open socket flows (ss_family backend);
      if fd <? 0 then Some (flows, None, ev0) else
      '(flows, slot, ev1) ← qsr_flow_table_put flows client client_len backend backend_len fd now;
      match slot with
      | None => Some (flows, None, ev0 ++ (FlowEvent <$> (ev1 ++ [CloseFd fd])))
      | Some slot =>
          let flows := ft_set_flows flows
            (alter (fun flow => flow_set_conn_metadata flow sni scid scid_len now) slot (ft_flows flows)) in
          if negb (epoll_add fd slot) then
            '(flows, ev2) ← qsr_flow_table_remove flows slot;
            Some (flows, None, ev0 ++ (FlowEvent <$> (ev1 ++ ev2)))
          else
            flow ← ft_flows flows !! slot;
            Some (flows, Some slot,
                  ev0 ++ (FlowEvent <$> ev1) ++ (if log_connections then [ConnLog (conn_log_open flow)] else []))
      end
  end.
End upstream.

(** ** Lemmas *)

Section theory.
Context `{KeyedHash}.

(** Every flow in use sends to an address that [P] holds of. *)
Definition flows_aim (P : list Z -> Z -> Prop) (t : qsr_flow_table) : Prop :=
  forall slot f, ft_flows t !! slot = Some f -> f_used f = true -> P (f_backend_addr f) (f_backend_addr_len f).

(** The flow of the client with the tuple [k], if it has one. *)
Definition client_flow (t : qsr_flow_table) (k : Z * list Z) (slot : nat) (f : qsr_flow) : Prop :=
  ft_flows t !! slot = Some f /\ f_used f = true /\ fkey f = k.

Lemma client_flow_lookup t k slot f : flow_wf t -> client_flow t k slot f -> flows_of t !! k = Some f.
Proof. intros Hwf (Hf & Hu & <-). apply flows_of_lookup; [done|]. exists slot. by rewrite fslot_used. Qed.

Lemma no_client_flow t k : flow_wf t -> (forall slot f, ~ client_flow t k slot f) -> flows_of t !! k = None.
Proof.
  intros Hwf Hno. destruct (flows_of t !! k) as [f|] eqn:E; [|done].
  apply flows_of_lookup in E as (slot & Hf & Hk); [|done]. unfold fslot in Hk. destruct (f_used f) eqn:Hu; [|done].
  destruct (Hno slot f). by injection Hk.
Qed.

(** The events of the flow table in a list. *)
Definition flow_events (ev : list event) : list flow_event := omap (fun e => if e is FlowEvent e then Some e else None) ev.

Lemma flow_events_app a b : flow_events (a ++ b) = flow_events a ++ flow_events b.
Proof. apply omap_app. Qed.

Lemma flow_events_fmap ev : flow_events (FlowEvent <$> ev) = ev.
Proof. induction ev as [|e ev IH]; [done|]. unfold flow_events in *. cbn. f_equal. exact IH. Qed.

Lemma flow_events_log (b : bool) line : flow_events (if b then [ConnLog line] else []) = [].
Proof. by destruct b. Qed.

(** The descriptors that [socket] returned, in order. *)
Definition sockets (ev : list event) : list Z := omap (fun e => if e is SocketOpened fd then Some fd else None) ev.

Lemma sockets_app a b : sockets (a ++ b) = sockets a ++ sockets b.
Proof. apply omap_app. Qed.

Lemma sockets_fmap (ev : list flow_event) : sockets (FlowEvent <$> ev) = [].
Proof. by induction ev. Qed.

Lemma sockets_log (b : bool) line : sockets (if b then [ConnLog line] else []) = [].
Proof. by destruct b. Qed.

(** Nothing but datagrams is sent: no descriptor comes or goes. *)
Definition only_sends (ev : list event) : Prop := Forall (fun e => if e is SendRun _ _ then True else False) ev.

Lemma only_sends_app a b : only_sends a -> only_sends b -> only_sends (a ++ b).
Proof. apply Forall_app_2. Qed.

Lemma only_sends_flow ev : only_sends ev -> flow_events ev = [].
Proof. by induction 1 as [|[] ev]. Qed.

Lemma only_sends_sockets ev : only_sends ev -> sockets ev = [].
Proof. by induction 1 as [|[] ev]. Qed.

(** The descriptors the table held and those [socket] returned are those that
    were closed and those the table holds. *)
Definition accounts (t t' : qsr_flow_table) (ev : list event) : Prop :=
  closed (flow_events ev) ++ fds (ft_flows t') ≡ₚ sockets ev ++ fds (ft_flows t).

Lemma accounts_refl t : accounts t t [].
Proof. unfold accounts. reflexivity. Qed.

Lemma accounts_fmap t t' ev : closed ev ++ fds (ft_flows t') ≡ₚ fds (ft_flows t) -> accounts t t' (FlowEvent <$> ev).
Proof. unfold accounts. by rewrite flow_events_fmap, sockets_fmap. Qed.

Lemma accounts_trans t1 t2 t3 ev1 ev2 : accounts t1 t2 ev1 -> accounts t2 t3 ev2 -> accounts t1 t3 (ev1 ++ ev2).
Proof.
  unfold accounts. intros H1 H2. rewrite flow_events_app, sockets_app, closed_app, <- !app_assoc, H2.
  transitivity (sockets ev2 ++ (closed (flow_events ev1) ++ fds (ft_flows t2))); [solve_Permutation|]. rewrite H1. solve_Permutation.
Qed.

Lemma accounts_sends t t' ev : only_sends ev -> fds (ft_flows t') ≡ₚ fds (ft_flows t) -> accounts t t' ev.
Proof. intros Hs Hp. unfold accounts. by rewrite only_sends_flow, only_sends_sockets. Qed.

(** No flow is left to free, or the process has no descriptor left: when the
    table and the kernel make room for one client at another's cost. *)
Definition pressed (socket : Z -> nat -> socket_result) (t : qsr_flow_table) : Prop :=
  ft_free_count t = 0%nat \/ exists family, socket family 0%nat = SocketExhausted.

(** The flows of everyone but [k] are in [t'] what they are in [t], save that
    of the slot [v]: under pressure it is gone, and it is one of those of the scan
    window that none of the window was used before. *)
Definition spares (socket : Z -> nat -> socket_result) (t t' : qsr_flow_table) (k : Z * list Z) (v : option nat) : Prop :=
  (forall slot f, ft_flows t !! slot = Some f -> f_used f = true -> fkey f <> k -> v <> Some slot -> ft_flows t' !! slot = Some f) /\
  if v is Some slot then pressed socket t /\ exists f, flow_victim t slot f else True.

(** What one [socket] loop leaves: the flows that were there, less at most one. *)
Record opens (exhausted : Prop) (t t' : qsr_flow_table) (opened : list Z) (fd : Z) (ev : list event) : Prop := {
  op_wf : flow_wf t';
  op_config : same_config t t';
  op_flows : forall slot f, ft_flows t' !! slot = Some f -> f_used f = true -> ft_flows t !! slot = Some f;
  op_fds : closed (flow_events ev) ++ fds (ft_flows t') ≡ₚ fds (ft_flows t);
  op_opened : opened = if fd <? 0 then [] else [fd];
  op_sockets : sockets ev = opened;
  op_evicts : ft_flows t' = ft_flows t /\ (fd <? 0 = false -> t' = t) \/
    exhausted /\ (0 < ft_free_count t')%nat /\ exists v f, flow_victim t v f /\ ft_flows t' = <[v := flow_unused]> (ft_flows t);
}.

(** The descriptors that [socket] returns to one [flow_socket_open]. *)
Definition socket_opened (socket : nat -> socket_result) (t : qsr_flow_table) : list Z :=
  match socket 0%nat with
  | SocketFd fd => [fd]
  | SocketFailed => []
  | SocketExhausted =>
      match qsr_flow_table_evict_oldest t with
      | Some (_, 1, _) => match socket 1%nat with SocketFd fd => [fd] | _ => [] end
      | _ => []
      end
  end.

(** The kernel returns descriptors that are open nowhere else: none that the
    table holds when [socket] is called. *)
Record fresh_fds (socket : nat -> socket_result) (t : qsr_flow_table) : Prop := {
  ff_nonneg : forall n fd, socket n = SocketFd fd -> 0 <= fd;
  ff_first : forall fd, socket 0%nat = SocketFd fd -> fd ∉ fds (ft_flows t);
  ff_second : forall fd t' n ev, socket 1%nat = SocketFd fd -> qsr_flow_table_evict_oldest t = Some (t', n, ev) ->
    fd ∉ fds (ft_flows t');
}.

(** What [socket] adds to the events. *)
Definition socket_event (fd : Z) : list event := if fd <? 0 then [] else [SocketOpened fd].

Lemma sockets_event fd : sockets (socket_event fd) = if fd <? 0 then [] else [fd].
Proof. unfold socket_event. by destruct (fd <? 0). Qed.

Lemma closed_event fd : flow_events (socket_event fd) = [].
Proof. unfold socket_event. by destruct (fd <? 0). Qed.

Lemma opens_refl exhausted t fd : flow_wf t -> opens exhausted t t (if fd <? 0 then [] else [fd]) fd (socket_event fd).
Proof. intros Hwf. split; try done; [by rewrite closed_event|by rewrite sockets_event|by left]. Qed.

Lemma evict_opens (exhausted : Prop) t t' n ev fd : flow_wf t -> exhausted -> n = 1 \/ fd <? 0 = true -> qsr_flow_table_evict_oldest t = Some (t', n, ev) ->
  opens exhausted t t' (if fd <? 0 then [] else [fd]) fd ((FlowEvent <$> ev) ++ socket_event fd).
Proof.
  intros Hwf Hex Hfd He. pose proof (evict_oldest_drops t t' n ev Hwf He) as [Hwf' Hp].
  destruct (evict_oldest_spec t Hwf) as (t1 & m & ev1 & He1 & _ & Hcfg & Hcnt & Hcase). rewrite He in He1. injection He1 as <- <- <-.
  pose proof (fw_count t Hwf) as Hc. pose proof (fw_count t' Hwf') as Hc'. pose proof Hcfg as (Hcap & _). rewrite Hcap in Hc'.
  split; [done..| |by rewrite flow_events_app, flow_events_fmap, closed_event, app_nil_r|done|by rewrite sockets_app, sockets_fmap, sockets_event|].
  - intros slot f Hf Hu. destruct Hcase as [(_ & _ & Hfl & _)|(_ & v & g & _ & _ & Hfl)]; rewrite Hfl in Hf; [done|].
    by apply list_lookup_insert_Some in Hf as [(_ & <- & _)|[_ Hf]].
  - destruct Hcase as [(-> & _ & Hfl & _)|(-> & v & g & Hv & _ & Hfl)]; [left; split; [done|]; destruct Hfd as [?|Hfd]; [done|congruence]|].
    right. split; [done|]. split; [lia|by exists v, g].
Qed.

Lemma socket_open_spec socket t family : flow_wf t -> fresh_fds (socket family) t ->
  exists t' fd ev, flow_socket_open socket t family = Some (t', fd, ev) /\
    opens (socket family 0%nat = SocketExhausted) t t' (socket_opened (socket family) t) fd ev /\ (fd <? 0 = false -> fd ∉ fds (ft_flows t')).
Proof.
  intros Hwf [Hnn Hf0 Hf1]. unfold flow_socket_open, socket_opened. cbn [socket_attempts Nat.eqb Nat.add].
  assert (Hfd : forall n fd, socket family n = SocketFd fd -> fd <? 0 = false) by (intros n fd Hs; specialize (Hnn n fd Hs); lia).
  destruct (socket family 0%nat) as [fd| |] eqn:E0.
  - exists t, fd, [SocketOpened fd]. pose proof (opens_refl (SocketFd fd = SocketExhausted) t fd Hwf) as Ho. unfold socket_event in Ho.
    rewrite (Hfd _ _ E0) in Ho. auto.
  - destruct (qsr_flow_table_evict_oldest t) as [[[t1 n] ev]|] eqn:He.
    2: { destruct (evict_oldest_spec t Hwf) as (? & ? & ? & He1 & _). congruence. }
    cbn [mbind option_bind]. pose proof (fun fd Hn => evict_opens (SocketExhausted = SocketExhausted) t t1 n ev fd Hwf eq_refl Hn He) as Ho.
    assert (Hnone : opens (SocketExhausted = SocketExhausted) t t1 [] (-1) (FlowEvent <$> ev)) by (specialize (Ho (-1) (or_intror eq_refl)); by rewrite app_nil_r in Ho).
    destruct (n =? 1) eqn:En; bool_to_prop.
    + subst n. destruct (socket family 1%nat) as [fd| |] eqn:E1; cbn [mbind option_bind]; rewrite ?app_nil_r.
      * eexists t1, fd, _. specialize (Ho fd (or_introl eq_refl)). unfold socket_event in Ho. rewrite (Hfd _ _ E1) in Ho. eauto.
      * by exists t1, (-1), (FlowEvent <$> ev).
      * by exists t1, (-1), (FlowEvent <$> ev).
    + exists t1, (-1), (FlowEvent <$> ev). split_and!; [done| |done].
      replace (match n with 1 => _ | _ => _ end) with (@nil Z); [done|]. by destruct n as [|[]|].
  - exists t, (-1), []. split_and!; [done|by apply (opens_refl _ t (-1))|done].
Qed.

(** *** The flow of a client *)

Lemma metadata_identity f sni scid scid_len now : same_identity f (flow_set_conn_metadata f sni scid scid_len now).
Proof. done. Qed.

Lemma reuse_spec f log backend backend_len now sni scid scid_len f' ev :
  flow_reuse f log backend backend_len now sni scid scid_len = (f', ev) ->
  same_identity f f' /\ f_fd f' = f_fd f /\ f_last_seen f' = now /\
  f_backend_addr_len f' = backend_len /\ field (f_backend_addr f') backend_len = field backend backend_len /\
  (if backend_changed f backend backend_len
   then f_backend_addr f' = backend /\
        ev = if log then [ConnLog (conn_log_close f (str "reroute") now); ConnLog (conn_log_open f')] else []
   else f' = flow_touch f now /\ ev = []).
Proof.
  unfold flow_reuse, backend_changed. destruct (negb _ || negb _) eqn:E; intros [= <- <-]; bool_to_prop.
  - split_and!; done.
  - unfold mem_eq in *. bool_to_prop. cbn. split_and!; try done.
Qed.

(** Replacing a flow by one with the same descriptor. *)
Lemma replace_fds l slot f g : l !! slot = Some f -> f_used f = true -> f_used g = true -> f_fd g = f_fd f ->
  fds (<[slot := g]> l) ≡ₚ fds l.
Proof.
  intros Hf Hu Hg Hfd. apply (Permutation_cons_inv (a := f_fd f)). rewrite (refresh_fds l slot f g) by done. by rewrite Hfd.
Qed.

(** A flow of its own for [k], aimed at the backend, freshly seen. *)
Record serves (t : qsr_flow_table) (k : Z * list Z) (backend : list Z) (backend_len now : Z) (slot : nat) (f : qsr_flow) : Prop := {
  sv_flow : client_flow t k slot f;
  sv_backend_len : f_backend_addr_len f = backend_len;
  sv_backend : field (f_backend_addr f) backend_len = field backend backend_len;
  sv_last_seen : f_last_seen f = now;
}.

(** Where a new flow comes from: a descriptor of [socket] that epoll accepted. *)
Definition opened_flow (socket : nat -> socket_result) (epoll_add : Z -> nat -> bool) (t : qsr_flow_table) (slot : nat)
    (f : qsr_flow) : Prop :=
  f_id f = ft_next_id t /\ f_fd f ∈ socket_opened socket t /\ epoll_add (f_fd f) slot = true.

(** What [flow_acquire] does, in terms of the client's flow before. *)
Record acquired (socket : Z -> nat -> socket_result) (epoll_add : Z -> nat -> bool) (t : qsr_flow_table)
    (k : Z * list Z) (backend : list Z) (backend_len now : Z) (t' : qsr_flow_table) (r : option nat) : Prop := {
  aq_wf : flow_wf t';
  aq_capacity : ft_capacity t' = ft_capacity t;
  aq_on_close : ft_on_close t' = ft_on_close t;
  aq_next : ft_next_id t <= ft_next_id t' <= ft_next_id t + 1;
  aq_aim : forall P, P backend backend_len -> flows_aim P t -> flows_aim P t';
  aq_others : forall slot f, ft_flows t' !! slot = Some f -> f_used f = true -> r <> Some slot -> ft_flows t !! slot = Some f;
  aq_spares : exists v, spares socket t t' k v;
  aq_result : match r with
    | Some slot => exists f, serves t' k backend backend_len now slot f /\
        ((exists g, client_flow t k slot g /\ same_identity g f /\ f_fd f = f_fd g) \/
         (flows_of t !! k = None /\ opened_flow (socket (ss_family backend)) epoll_add t slot f))
    | None => flows_of t !! k = None /\ flows_of t' !! k = None
    end;
}.

Lemma opens_none exhausted t t' opened fd ev k : flow_wf t -> opens exhausted t t' opened fd ev -> flows_of t !! k = None -> flows_of t' !! k = None.
Proof.
  intros Hwf [Hwf' _ Hfl _ _ _ _] Hn. apply no_client_flow; [done|]. intros slot f (Hf & Hu & Hk).
  rewrite (client_flow_lookup t k slot f) in Hn; [done..|]. split_and!; [by apply Hfl|done..].
Qed.

(** An existing flow is re-aimed and touched. *)
Lemma acquire_existing socket epoll_add log t client client_len backend backend_len now sni scid scid_len slot f :
  flow_wf t -> client_valid client client_len = true -> client_flow t (client_len, field client client_len) slot f ->
  qsr_flow_table_get t client client_len = Some slot ->
  exists t' ev, flow_acquire socket epoll_add log t client client_len backend backend_len now sni scid scid_len =
      Some (t', Some slot, ev) /\
    acquired socket epoll_add t (client_len, field client client_len) backend backend_len now t' (Some slot) /\
    closed (flow_events ev) ++ fds (ft_flows t') ≡ₚ fds (ft_flows t) /\ sockets ev = [].
Proof.
  intros Hwf Hv Hcf Hget. pose proof Hcf as (Hf & Hu & Hk). unfold flow_acquire. rewrite Hget, Hf. cbn [mbind option_bind].
  destruct (flow_reuse f log backend backend_len now sni scid scid_len) as [f' ev] eqn:Er.
  destruct (reuse_spec _ _ _ _ _ _ _ _ _ _ Er) as (Hi & Hfd & Hls & Hbl & Hb & Hcase).
  pose proof Hi as (Hu' & Hca & Hcl & Hid). rewrite Hu in Hu'. pose proof (used_fd t slot f Hwf Hf Hu).
  eexists _, ev. split; [reflexivity|]. split.
  - assert (Hkf : fkey f' = fkey f) by (unfold fkey; by rewrite Hca, Hcl).
    split; cbn [ft_capacity ft_on_close ft_next_id ft_flows ft_set_flows]; try done.
    + apply (replace_wf t slot f f'); [done..|lia].
    + lia.
    + intros P HP Hall s g Hg Hug. cbn in Hg. apply list_lookup_insert_Some in Hg as [(<- & <- & _)|[_ Hg]]; [|by apply (Hall s g)].
      rewrite Hbl. destruct (backend_changed f backend backend_len) eqn:Ec; [destruct Hcase as [-> _]; done|].
      destruct Hcase as [-> _]. cbn in Hbl |- *. rewrite <- Hbl. by apply (Hall slot f).
    + intros s g Hg _ Hne. by apply list_lookup_insert_Some in Hg as [(<- & _)|[_ Hg]].
    + exists None. split; [|done]. intros s g Hg Hug Hne _. cbn. rewrite list_lookup_insert_ne; [done|]. intros <-. congruence.
    + exists f'. split; [|left; exists f; by split_and!]. split; [|done..]. split_and!; [|done|by rewrite Hkf].
      cbn. apply list_lookup_insert_eq. by apply lookup_lt_Some in Hf.
  - assert (flow_events ev = [] /\ sockets ev = []) as [-> ->] by (destruct (backend_changed _ _ _); destruct Hcase as [_ ->]; by destruct log).
    split; [|done]. cbn. by apply (replace_fds _ slot f).
Qed.

(** The flow of a slot is rewritten in place. *)
Lemma replace_acquired t slot f g : flow_wf t -> ft_flows t !! slot = Some f -> f_used f = true -> same_identity f g ->
  f_fd g = f_fd f ->
  flow_wf (ft_set_flows t (<[slot := g]> (ft_flows t))) /\ fds (<[slot := g]> (ft_flows t)) ≡ₚ fds (ft_flows t).
Proof.
  intros Hwf Hf Hu Hi Hfd. pose proof (used_fd t slot f Hwf Hf Hu). pose proof Hi as (Hu' & _). rewrite Hu in Hu'.
  split; [apply (replace_wf t slot f g); [done..|lia]|by apply (replace_fds _ slot f)].
Qed.

(** No flow for the client: the others may be fewer. *)
Lemma acquired_none socket epoll_add t t' k backend backend_len now : flow_wf t -> flow_wf t' ->
  ft_capacity t' = ft_capacity t -> ft_on_close t' = ft_on_close t -> ft_next_id t <= ft_next_id t' <= ft_next_id t + 1 ->
  (forall s f, ft_flows t' !! s = Some f -> f_used f = true -> ft_flows t !! s = Some f) -> (exists v, spares socket t t' k v) ->
  flows_of t !! k = None -> acquired socket epoll_add t k backend backend_len now t' None.
Proof.
  intros Hwf Hwf' Hc Ho Hn Hsub Hsp Hnone. split; [done..| |intros; by apply Hsub|done|].
  - intros P _ Ht s g Hg Hu. by apply (Ht s g); [apply Hsub|].
  - split; [done|]. apply no_client_flow; [done|]. intros s g (Hg & Hu & Hk).
    rewrite (client_flow_lookup t k s g) in Hnone; [done..|]. by split_and!; [apply Hsub|..].
Qed.

(** What a [put] for an absent client does to the flows in use. *)
Lemma put_fresh_flows t client client_len backend backend_len fd now :
  flow_wf t -> ft_next_id t + 1 < 2 ^ 64 -> put_args_valid client client_len backend_len fd = true ->
  flows_of t !! (client_len, field client client_len) = None ->
  exists t' slot ev, qsr_flow_table_put t client client_len backend backend_len fd now = Some (t', Some slot, ev) /\
    flow_wf t' /\ ft_capacity t' = ft_capacity t /\ ft_on_close t' = ft_on_close t /\ ft_next_id t' = ft_next_id t + 1 /\
    ft_flows t' !! slot = Some (flow_new client client_len backend backend_len fd now (ft_next_id t)) /\
    (forall s g, ft_flows t' !! s = Some g -> f_used g = true -> s <> slot -> ft_flows t !! s = Some g) /\
    exists fl fev, frees_slot t fl fev /\ fl !! slot = Some flow_unused /\ forall s, s <> slot -> ft_flows t' !! s = fl !! s.
Proof.
  intros Hwf Hid Ha Hnone. destruct (flow_put_spec t client client_len backend backend_len fd now Hwf Hid Ha)
    as (t' & slot & ev & Hput & Hwf' & Hcap & Hoc & Hm). rewrite Hnone in Hm. destruct Hm as (fl & Hfr & Hun & Hfl & Hni).
  exists t', slot, ev. split_and!; [done..| | |exists fl, ev; split_and!; [done..|intros s Hne; rewrite Hfl; by apply list_lookup_insert_ne]].
  - rewrite Hfl. apply list_lookup_insert_eq. by apply lookup_lt_Some in Hun.
  - intros s g Hg Hu Hne. rewrite Hfl, list_lookup_insert_ne in Hg by done.
    destruct Hfr as [_|v f _ _]; [done|]. by apply list_lookup_insert_Some in Hg as [(_ & <- & _)|[_ Hg]].
Qed.


(** A flow that epoll refuses is removed again. *)
Lemma acquire_refused socket epoll_add t t' slot f k backend backend_len now :
  flow_wf t -> flow_wf t' -> ft_flows t' !! slot = Some f -> f_used f = true ->
  ft_capacity t' = ft_capacity t -> ft_on_close t' = ft_on_close t -> ft_next_id t <= ft_next_id t' <= ft_next_id t + 1 ->
  (forall s g, ft_flows t' !! s = Some g -> f_used g = true -> s <> slot -> ft_flows t !! s = Some g) ->
  (exists v, spares socket t t' k v) -> fkey f = k -> flows_of t !! k = None ->
  exists t2 ev2, qsr_flow_table_remove t' slot = Some (t2, ev2) /\
    acquired socket epoll_add t k backend backend_len now t2 None /\
    closed ev2 ++ fds (ft_flows t2) ≡ₚ fds (ft_flows t').
Proof.
  intros Hwf Hwf' Hf Hu Hc Ho Hn Hold [v [Hsp Hv]] Hkf Hnone. unfold qsr_flow_table_remove. rewrite Hf, Hu.
  destruct (remove_spec t' slot f QSR_FLOW_CLOSE_REMOVED Hwf' Hf Hu) as (t2 & -> & Hwf2 & Hfl & (Hc2 & Ho2 & Hn2) & _).
  eexists t2, _. split; [reflexivity|]. split.
  - apply acquired_none; try done; [congruence|congruence|lia| |].
    + rewrite Hfl. intros s g Hg Hug. apply list_lookup_insert_Some in Hg as [(_ & <- & _)|[Hne Hg]]; [done|]. by apply Hold.
    + exists v. split; [|done]. intros s g Hg Hug Hne Hvs. specialize (Hsp s g Hg Hug Hne Hvs). rewrite Hfl.
      rewrite list_lookup_insert_ne; [done|]. intros <-. rewrite Hf in Hsp. injection Hsp as ->. done.
  - rewrite Hfl, (fds_clear (ft_flows t') slot f) by (done || apply (used_fd t' slot f Hwf' Hf Hu)). done.
Qed.

(** What the two steps before the flow is entered leave of the others' flows. *)
Lemma opened_put_spares socket family t t1 t2 opened fd ev fl fev slot k : fd <? 0 = false ->
  opens (socket family 0%nat = SocketExhausted) t t1 opened fd ev ->
  frees_slot t1 fl fev -> fl !! slot = Some flow_unused -> (forall s, s <> slot -> ft_flows t2 !! s = fl !! s) ->
  exists v, spares socket t t2 k v.
Proof.
  intros Hfd [_ _ _ _ _ _ Hev] Hfr Hun H2.
  assert (Hslot : forall s f, fl !! s = Some f -> f_used f = true -> ft_flows t2 !! s = Some f).
  { intros s f Hf Hu. rewrite H2; [done|]. intros ->. rewrite Hun in Hf. by injection Hf as <-. }
  destruct Hev as [[_ Heq]|(Hex & Hfc & v & f & Hv & Hfl)]; [specialize (Heq Hfd) as ->|].
  - destruct Hfr as [_|v f H0 Hv].
    + exists None. split; [|done]. intros s g Hg Hu _ _. by apply Hslot.
    + exists (Some v). split; [|split; [by left|by exists f]].
      intros s g Hg Hu _ Hne. apply Hslot; [|done]. by rewrite list_lookup_insert_ne by congruence.
  - destruct Hfr as [_|v' f' H0 _]; [|lia]. exists (Some v). split; [|split; [right; by exists family|by exists f]].
    intros s g Hg Hu _ Hne. apply Hslot; [|done]. by rewrite Hfl, list_lookup_insert_ne by congruence.
Qed.

(** What is left of the others' flows when the client gets none. *)
Lemma opened_spares socket family t t1 opened fd ev k :
  opens (socket family 0%nat = SocketExhausted) t t1 opened fd ev -> exists v, spares socket t t1 k v.
Proof.
  intros [_ _ _ _ _ _ [[Hfl _]|(Hex & _ & v & f & Hv & Hfl)]].
  - exists None. split; [|done]. by rewrite Hfl.
  - exists (Some v). split; [|split; [right; by exists family|by exists f]].
    intros s g Hg _ _ Hne. by rewrite Hfl, list_lookup_insert_ne by congruence.
Qed.

Lemma acquire_new socket epoll_add log t client client_len backend backend_len now sni scid scid_len :
  flow_wf t -> ft_next_id t + 1 < 2 ^ 64 -> fresh_fds (socket (ss_family backend)) t ->
  qsr_flow_table_get t client client_len = None -> flows_of t !! (client_len, field client client_len) = None ->
  exists t' r ev, flow_acquire socket epoll_add log t client client_len backend backend_len now sni scid scid_len =
      Some (t', r, ev) /\
    acquired socket epoll_add t (client_len, field client client_len) backend backend_len now t' r /\
    closed (flow_events ev) ++ fds (ft_flows t') ≡ₚ socket_opened (socket (ss_family backend)) t ++ fds (ft_flows t) /\
    sockets ev = socket_opened (socket (ss_family backend)) t.
Proof.
  intros Hwf Hid Hfresh Hget Hnone. unfold flow_acquire. rewrite Hget. set (k := (client_len, field client client_len)) in *.
  destruct (socket_open_spec socket t (ss_family backend) Hwf Hfresh) as (t1 & fd & ev0 & -> & Hop & Hnew).
  pose proof (opens_none _ _ _ _ _ _ k Hwf Hop Hnone) as Hnone1. pose proof Hop as [Hwf1 (Hc1 & Ho1 & Hn1) Hfl1 Hp1 Hopd Hsk _].
  pose proof (opened_spares socket _ t t1 _ fd ev0 k Hop) as Hspa1.
  cbn [mbind option_bind]. rewrite Hopd in Hsk |- *. destruct (fd <? 0) eqn:Efd.
  { exists t1, None, ev0. split; [done|]. split; [|done]. apply acquired_none; try done; lia. }
  specialize (Hnew eq_refl).
  destruct (put_args_valid client client_len backend_len fd) eqn:Ea.
  2: { assert (qsr_flow_table_put t1 client client_len backend backend_len fd now = Some (t1, None, [])) as ->
         by (unfold qsr_flow_table_put; by rewrite put_guard_eq, Ea).
       cbn [mbind option_bind]. eexists t1, None, _. split; [reflexivity|].
       rewrite sockets_app, sockets_fmap, app_nil_r, flow_events_app, flow_events_fmap, closed_app. cbn [closed omap list_omap app].
       split; [apply acquired_none; try done; lia|]. split; [|done].
       rewrite <- app_assoc. rewrite <- Hp1. cbn. by rewrite Permutation_middle. }
  destruct (put_fresh_flows t1 client client_len backend backend_len fd now Hwf1 ltac:(lia) Ea Hnone1)
    as (t2 & slot & ev1 & Hput & Hwf2 & Hc2 & Ho2 & Hn2 & Hslot & Hfl2 & fl & fev & Hfr & Hun & Hsame). rewrite Hput.
  pose proof (opened_put_spares socket _ t t1 t2 _ fd ev0 fl fev slot k Efd Hop Hfr Hun Hsame) as [v [Hsp2 Hv2]].
  destruct (put_owns _ _ _ _ _ _ _ _ _ _ Hwf1 ltac:(lia) Hnew Hput) as [_ Hp2]. cbn [mbind option_bind].
  set (f0 := flow_new client client_len backend backend_len fd now (ft_next_id t1)) in *.
  set (f := flow_set_conn_metadata f0 sni scid scid_len now).
  rewrite (list_alter_at _ _ _ f0) by done. fold f.
  destruct (replace_acquired t2 slot f0 f Hwf2 Hslot eq_refl (metadata_identity _ _ _ _ _) eq_refl) as [Hwf3 Hp3].
  set (t3 := ft_set_flows t2 (<[slot := f]> (ft_flows t2))) in *.
  assert (Hf : ft_flows t3 !! slot = Some f) by (apply list_lookup_insert_eq; by apply lookup_lt_Some in Hslot).
  assert (Hold : forall s g, ft_flows t3 !! s = Some g -> f_used g = true -> s <> slot -> ft_flows t !! s = Some g).
  { intros s g Hg Hu Hne. apply Hfl1; [|done]. apply (Hfl2 s g); [|done..]. cbn in Hg. by rewrite list_lookup_insert_ne in Hg. }
  assert (Hall : forall P, P backend backend_len -> flows_aim P t -> flows_aim P t3).
  { intros P HP Ht s g Hg Hu. destruct (decide (s = slot)) as [->|Hne]; [|by apply (Ht s g); [apply Hold|]].
    rewrite Hf in Hg. by injection Hg as <-. }
  assert (Hkf : fkey f = k) by done.
  assert (Hspa : exists v, spares socket t t3 k v).
  { exists v. split; [|done]. intros s g Hg Hu Hne Hvs. cbn. rewrite list_lookup_insert_ne; [by apply Hsp2|].
    intros <-. specialize (Hsp2 slot g Hg Hu Hne Hvs). rewrite Hslot in Hsp2. injection Hsp2 as <-. done. }
  assert (Hperm : closed (flow_events ev0) ++ closed ev1 ++ fds (ft_flows t3) ≡ₚ [fd] ++ fds (ft_flows t)).
  { change (ft_flows t3) with (<[slot := f]> (ft_flows t2)). rewrite Hp3, Hp2, <- Hp1.
    cbn. by rewrite Permutation_middle. }
  destruct (epoll_add fd slot) eqn:Eep; cbn [negb].
  - rewrite Hf. cbn [mbind option_bind]. eexists t3, (Some slot), _. split; [reflexivity|]. split.
    + split; [done|cbn; congruence|cbn; congruence|cbn; lia|done|intros s g ? ? Hne; apply Hold; congruence|done|].
      exists f. split; [by split|]. right. split; [done|]. split; [cbn; congruence|]. rewrite Hopd.
      split; [by apply list_elem_of_singleton|done].
    + rewrite !sockets_app, sockets_fmap, sockets_log, !flow_events_app, flow_events_fmap, flow_events_log, !app_nil_r.
      rewrite closed_app, <- app_assoc. done.
  - destruct (acquire_refused socket epoll_add t t3 slot f k backend backend_len now Hwf Hwf3 Hf eq_refl)
      as (t4 & ev2 & -> & Hacq & Hp4); [cbn; congruence|cbn; congruence|cbn; lia|done..|].
    cbn [mbind option_bind]. eexists t4, None, _. split; [reflexivity|]. split; [exact Hacq|].
    rewrite sockets_app, sockets_fmap, app_nil_r, flow_events_app, flow_events_fmap, !closed_app, <- !app_assoc, Hp4. done.
Qed.

(** The descriptors [flow_acquire] gets from the kernel: none for a client that has a flow. *)
Definition acquire_opened (socket : Z -> nat -> socket_result) (t : qsr_flow_table) (client : list Z) (client_len : Z)
    (backend : list Z) : list Z :=
  if qsr_flow_table_get t client client_len is Some _ then [] else socket_opened (socket (ss_family backend)) t.

Lemma acquire_spec socket epoll_add log t client client_len backend backend_len now sni scid scid_len :
  flow_wf t -> ft_next_id t + 1 < 2 ^ 64 -> client_valid client client_len = true -> fresh_fds (socket (ss_family backend)) t ->
  exists t' r ev, flow_acquire socket epoll_add log t client client_len backend backend_len now sni scid scid_len =
      Some (t', r, ev) /\
    acquired socket epoll_add t (client_len, field client client_len) backend backend_len now t' r /\
    closed (flow_events ev) ++ fds (ft_flows t') ≡ₚ acquire_opened socket t client client_len backend ++ fds (ft_flows t) /\
    sockets ev = acquire_opened socket t client client_len backend.
Proof.
  intros Hwf Hid Hv Hfresh. pose proof (flow_get_spec t client client_len Hwf) as Hget. rewrite Hv in Hget.
  unfold acquire_opened. destruct (qsr_flow_table_get t client client_len) as [slot|] eqn:E.
  - destruct Hget as (f & Hf & Hu & Hk).
    destruct (acquire_existing socket epoll_add log t client client_len backend backend_len now sni scid scid_len slot f
      Hwf Hv ltac:(done) E) as (t' & ev & ? & ? & ? & ?). by exists t', (Some slot), ev.
  - apply acquire_new; [done..|]. apply no_client_flow; [done|]. intros slot f (Hf & Hu & Hk). by apply (Hget slot f).
Qed.
End theory.

(** ** Lemmas: the connection log *)

Section log_theory.
Context `{InetNtop} `{laws : !InetNtopLaws}.

(** A field of a line: printable, without spaces. *)
Definition token (l : list Z) : Prop := Forall (fun c => 32 < c < 127) l.

(** A line whose fields are fit to print. *)
Record line_ok (line : conn_line) : Prop := {
  li_src : bytes_ok (cl_src line).1 /\ Zlen (cl_src line).1 = SOCKADDR_SIZE;
  li_sni : token (cl_sni line);
  li_scid : token (cl_scid line);
  li_backend : bytes_ok (cl_backend line).1 /\ Zlen (cl_backend line).1 = SOCKADDR_SIZE;
  li_close : if cl_close line is Some (reason, duration) then token reason /\ 0 <= duration < 10 ^ 20 else True;
}.

(** The label of a field starts with a space, which ends the field in front of it. *)
Lemma token_inj x y label r s : token x -> token y -> label <> [] -> default 0 (head label) <= 32 ->
  x ++ label ++ r = y ++ label ++ s -> x = y /\ r = s.
Proof using.
  intros Hx Hy Hl Hc He. destruct label as [|c label]; [done|]. cbn [default head] in Hc. change (id c) with c in Hc.
  assert (Hno : forall l, token l -> ~ c ∈ l).
  { intros l Hf Hin. unfold token in Hf. rewrite list.Forall_forall in Hf. specialize (Hf c Hin). cbn in Hf. lia. }
  change ((c :: label) ++ ?x) with (c :: (label ++ x)) in He. apply sep_inj in He as [-> He]; [|auto..].
  by apply app_inv_head in He.
Qed.

Lemma conn_text_spec line : line_ok line ->
  conn_text line =
    let head := endpoint_text (endpoint_of (cl_src line).1 (cl_src line).2) ++ str " sni=" ++ cl_sni line ++ str " scid=" ++
      cl_scid line ++ str " backend=" ++ endpoint_text (endpoint_of (cl_backend line).1 (cl_backend line).2) in
    match cl_close line with
    | None => str "conn: open src=" ++ head ++ [10]
    | Some (reason, duration) =>
        str "conn: close src=" ++ head ++ str " reason=" ++ reason ++ str " duration=" ++ decimal duration ++ str "s" ++ [10]
    end.
Proof using laws.
  intros [[Hs1 Hs2] _ _ [Hb1 Hb2] _]. unfold conn_text, INET6_ADDRSTRLEN. rewrite !format_addr_text by (done || lia).
  destruct (cl_close line) as [[reason duration]|]; cbv zeta; by rewrite <- !app_assoc.
Qed.

Lemma addr_token addr addr_len : bytes_ok addr -> Zlen addr = SOCKADDR_SIZE -> token (endpoint_text (endpoint_of addr addr_len)).
Proof using laws.
  intros Hb Hl. apply list.Forall_forall. intros c Hc. eapply endpoint_text_chars; [|exact Hc]. by apply endpoint_of_ok.
Qed.

Lemma decimal_token n : 0 <= n < 10 ^ 20 -> token (decimal n).
Proof using. intros Hn. apply list.Forall_forall. intros c Hc. apply decimal_digits in Hc; lia. Qed.

(** What a line tells. *)
Definition line_content (line : conn_line) : endpoint * list Z * list Z * endpoint * option (list Z * Z) :=
  (endpoint_of (cl_src line).1 (cl_src line).2, cl_sni line, cl_scid line,
   endpoint_of (cl_backend line).1 (cl_backend line).2, cl_close line).

Lemma conn_text_inj a b : line_ok a -> line_ok b -> conn_text a = conn_text b -> line_content a = line_content b.
Proof using laws.
  intros Ha Hb. rewrite !conn_text_spec by done. destruct Ha as [[Hs1 Hs2] Hn Hc [Hb1 Hb2] Hr], Hb as [[Hs1' Hs2'] Hn' Hc' [Hb1' Hb2'] Hr'].
  pose proof (addr_token _ (cl_src a).2 Hs1 Hs2) as Ht1. pose proof (addr_token _ (cl_src b).2 Hs1' Hs2') as Ht1'.
  pose proof (addr_token _ (cl_backend a).2 Hb1 Hb2) as Ht2. pose proof (addr_token _ (cl_backend b).2 Hb1' Hb2') as Ht2'.
  assert (Hinj : forall x lx y ly, bytes_ok x -> Zlen x = SOCKADDR_SIZE -> bytes_ok y -> Zlen y = SOCKADDR_SIZE ->
    endpoint_text (endpoint_of x lx) = endpoint_text (endpoint_of y ly) -> endpoint_of x lx = endpoint_of y ly).
  { intros x lx y ly ? ? ? ? ?. apply endpoint_text_inj; by try apply endpoint_of_ok. }
  unfold line_content. cbv zeta. intros He.
  destruct (cl_close a) as [[ra da]|] eqn:Ea, (cl_close b) as [[rb db]|] eqn:Eb; try (cbn in He; discriminate He);
    rewrite <- ?app_assoc in He; apply app_inv_head in He;
    apply token_inj in He as [H1 He]; try done; apply token_inj in He as [H2 He]; try done;
    apply token_inj in He as [H3 He]; try done; apply Hinj in H1; try done; rewrite H1, H2, H3.
  - apply token_inj in He as [H4 He]; try done. apply Hinj in H4; try done. rewrite H4.
    destruct Hr as [Hra Hda], Hr' as [Hrb Hdb]. apply token_inj in He as [-> He]; try done.
    change (str "s" ++ [10]) with ([115; 10] : list Z) in He. apply (sep_inj 115) in He as [He _];
      [apply decimal_inj in He; [by subst|lia..]| |]; intros Hin; apply decimal_digits in Hin; lia.
  - apply app_inv_tail, Hinj in He; try done. by rewrite He.
Qed.

(** One line break, at the end. *)
Lemma conn_text_line line : line_ok line -> exists body, conn_text line = body ++ [10] /\ Forall (fun c => 32 <= c < 127) body.
Proof using laws.
  intros Hok. rewrite conn_text_spec by done. destruct Hok as [[Hs1 Hs2] Hn Hc [Hb1 Hb2] Hr].
  pose proof (addr_token _ (cl_src line).2 Hs1 Hs2) as Ht1. pose proof (addr_token _ (cl_backend line).2 Hb1 Hb2) as Ht2.
  assert (Ht : forall l, token l -> Forall (fun c => 32 <= c < 127) l) by (intros l Hl; eapply list.Forall_impl; [exact Hl|]; cbn; lia).
  assert (Hlit : forall s, forallb (fun c => (32 <=? c) && (c <? 127)) (str s) = true -> Forall (fun c => 32 <= c < 127) (str s)).
  { intros s Hf. apply list.Forall_forall. intros c Hin. rewrite forallb_forall in Hf. apply list_elem_of_In in Hin. specialize (Hf c Hin). lia. }
  destruct (cl_close line) as [[reason duration]|]; cbv zeta; eexists; (split; [rewrite !app_assoc; reflexivity|]); rewrite <- !app_assoc.
  - destruct Hr as [Hr Hd]. pose proof (decimal_token duration Hd). repeat (apply Forall_app; split); auto.
  - repeat (apply Forall_app; split); auto.
Qed.
End log_theory.

(** ** Properties *)

(** C18: the connection log can be read back, and no client can forge a line of
    it. A line whose fields are fit to print is one line of printable
    characters, and its text determines everything it tells: the endpoints of
    the client and the backend, the server name, the connection ID, whether the
    connection was opened or closed, the reason and the duration. *)
Theorem conn_text_exact `{InetNtop} `{!InetNtopLaws} a b : line_ok a -> line_ok b ->
  (exists body, conn_text a = body ++ [10] /\ Forall (fun c => 32 <= c < 127) body) /\
  (conn_text a = conn_text b <-> line_content a = line_content b).
Proof.
  intros Ha Hb. split; [by apply conn_text_line|]. split; [by apply conn_text_inj|].
  unfold line_content. intros [= H1 H2 H3 H4 H5]. rewrite !conn_text_spec by done. by rewrite H1, H2, H3, H4, H5.
Qed.

Section properties.
Context `{KeyedHash}.

(** C17: [flow_acquire] always returns, and leaves a well-formed table. A client
    that has a flow keeps it - slot, id and descriptor - re-aimed at the
    backend and touched; a client that has none gets one with a fresh id on a
    descriptor of [socket] that epoll accepted, or none at all; the flows of
    others stay as they are, but for at most one that is evicted, which happens
    only when the table is full or descriptors have run out. On every path, failures included, no descriptor is
    leaked or closed twice: those the table held and those [socket] returned,
    which the events list, are those closed and those the table holds. *)
Theorem flow_acquire_refines socket epoll_add log t client client_len backend backend_len now sni scid scid_len :
  flow_wf t -> ft_next_id t + 1 < 2 ^ 64 -> client_valid client client_len = true -> fresh_fds (socket (ss_family backend)) t ->
  exists t' r ev, flow_acquire socket epoll_add log t client client_len backend backend_len now sni scid scid_len =
      Some (t', r, ev) /\
    acquired socket epoll_add t (client_len, field client client_len) backend backend_len now t' r /\
    closed (flow_events ev) ++ fds (ft_flows t') ≡ₚ acquire_opened socket t client client_len backend ++ fds (ft_flows t) /\
    sockets ev = acquire_opened socket t client client_len backend.
Proof. apply acquire_spec. Qed.

(** When the descriptors are exhausted, [flow_socket_open] closes exactly one
    flow - one of the scan window that none is older than - and asks once more;
    a second refusal, or a table without flows, is the error return -1. *)
Theorem flow_socket_open_recycles socket t family :
  flow_wf t -> socket family 0%nat = SocketExhausted ->
  exists t' fd ev, flow_socket_open socket t family = Some (t', fd, ev) /\ flow_wf t' /\
    (((forall g, ~ flow_in_window t g) /\ fd = -1 /\ ev = [] /\ ft_flows t' = ft_flows t) \/
     exists v f, flow_victim t v f /\ ft_flows t' = <[v := flow_unused]> (ft_flows t) /\
       flow_events ev = close_flow t f QSR_FLOW_CLOSE_EVICTED /\
       fd = match socket family 1%nat with SocketFd fd => fd | _ => -1 end).
Proof.
  intros Hwf E0. unfold flow_socket_open. cbn [socket_attempts Nat.eqb Nat.add]. rewrite E0.
  destruct (evict_oldest_spec t Hwf) as (t1 & n & ev & -> & Hwf1 & _ & _ & Hcase). cbn [mbind option_bind].
  destruct Hcase as [(-> & -> & Hfl & Hno)|(-> & v & f & Hv & -> & Hfl)].
  - exists t1, (-1), []. split_and!; [done..|]. by left.
  - change (1 =? 1) with true. cbn iota.
    destruct (socket family 1%nat) as [fd| |]; cbn [mbind option_bind]; rewrite ?app_nil_r;
      eexists t1, _, _; (split; [reflexivity|]); (split; [done|]); right; exists v, f;
      rewrite ?flow_events_app, flow_events_fmap, ?app_nil_r; done.
Qed.
End properties.

(** ** Witnesses *)

Section examples.
Local Existing Instance sum_hash.

Definition demo_socket (family : Z) (attempt : nat) : socket_result := if (attempt =? 0)%nat then SocketExhausted else SocketFd 8.

Lemma demo_socket_fresh family : fresh_fds (demo_socket family) demo_flows1.
Proof.
  split.
  - intros [|n] fd; cbn; [done|]. by intros [= <-].
  - done.
  - intros fd t' n ev Hfd He. cbn in Hfd. injection Hfd as <-.
    pose proof (evict_oldest_drops demo_flows1 t' n ev demo_flows1_wf He) as [_ Hp]. intros Hin.
    assert (Hin7 : 8 ∈ closed ev ++ fds (ft_flows t')) by (apply elem_of_app; by right).
    rewrite Hp in Hin7. vm_compute in Hin7. by apply list_elem_of_singleton in Hin7.
Qed.

Lemma flow_acquire_refines_witness : exists t' r ev,
  flow_acquire demo_socket (fun _ _ => true) true demo_flows1 (demo_addr 2) 16 (demo_addr 9) 16 101 None None 0 = Some (t', r, ev) /\
  flow_wf t'.
Proof.
  destruct (flow_acquire_refines demo_socket (fun _ _ => true) true demo_flows1 (demo_addr 2) 16 (demo_addr 9) 16 101 None None 0
    demo_flows1_wf eq_refl eq_refl (demo_socket_fresh _)) as (t' & r & ev & He & Ha & _).
  exists t', r, ev. split; [exact He|exact (aq_wf _ _ _ _ _ _ _ _ _ Ha)].
Defined.

Lemma flow_socket_open_recycles_witness : exists t' fd ev,
  flow_socket_open demo_socket demo_flows1 AF_INET = Some (t', fd, ev) /\ flow_wf t'.
Proof.
  destruct (flow_socket_open_recycles demo_socket demo_flows1 AF_INET demo_flows1_wf eq_refl) as (t' & fd & ev & He & Hwf & _).
  exists t', fd, ev. split; [exact He|exact Hwf].
Defined.

(** The two lines of a connection from 192.0.2.1. *)
Definition demo_line (close : option (list Z * Z)) : conn_line := {|
  cl_src := (demo_v4, 16);
  cl_sni := str "dns.test";
  cl_scid := format_cid [1; 2; 255] 3 (QSR_MAX_QUIC_CID_LEN * 2 + 1);
  cl_backend := (demo_mapped, 28);
  cl_close := close |}.

Lemma demo_line_ok close : (if close is Some (reason, duration) then token reason /\ 0 <= duration < 10 ^ 20 else True) ->
  line_ok (demo_line close).
Proof.
  intros Hc. split; cbn [demo_line cl_src cl_sni cl_scid cl_backend cl_close fst]; [by split; [bytes_concrete|]| | |by split; [bytes_concrete|]|done].
  all: unfold token; vm_compute; repeat constructor.
Qed.

Lemma conn_text_exact_witness :
  conn_text (H := demo_inet) (demo_line None) =
    str "conn: open src=192.0.2.1:443 sni=dns.test scid=0102ff backend=192.0.2.1:443" ++ [10] /\
  conn_text (H := demo_inet) (demo_line None) <> conn_text (H := demo_inet) (demo_line (Some (str "idle", 30))).
Proof.
  destruct (conn_text_exact (H := demo_inet) (H0 := demo_inet_laws) (demo_line None) (demo_line (Some (str "idle", 30)))) as [_ He].
  - by apply demo_line_ok.
  - apply demo_line_ok. split; [unfold token; vm_compute; repeat constructor|lia].
  - split; [vm_compute; reflexivity|]. intros Heq. apply He in Heq. discriminate Heq.
Defined.
End examples.
