(* ===== verification/Routing.v ===== *)
(** * Finding the backend of a client packet

    [src/udp.c], lines 529 to 799: routing an Initial by its server name, the
    aliases learned from long headers, and the lookups that recognise the
    packets of a known connection. Operations on the session table return
    [None] for an access out of bounds or a table operation without a result. *)

From stdpp Require Import gmap.
From S2P Require Import Prelude Hash QuicInitial SessionKey Probe SessionTable FlowTable QuicFrames Hostname TlsClientHello RouteTable CidCodec Config QuicCrypto Pending Upstream.
#[local] Open Scope Z_scope.

(** ** The listen address *)

(** [strrchr], as an offset. *)
Fixpoint strrchr (s : list Z) (c : Z) : option nat :=
  match s with
  | [] => None
  | x :: s =>
      match strrchr s c with
      | Some i => Some (S i)
      | None => if x =? c then Some 0%nat else None
      end
  end.

(** ":" *)
Definition COLON : Z := 58.

(** The strings written to [host] and [port]. *)
Definition split_listen (listen : list Z) (host_len port_len : Z) : outcome (list Z * list Z) :=
  match strrchr listen COLON with
  | None => Fail QSR_ERR_INVALID
  | Some colon =>
      let port := drop (colon + 1) listen in
      if (host_len <=? Z.of_nat colon) || (port_len <=? Zlen port) then Fail QSR_ERR_INVALID
      else Ok (take colon listen, port)
  end.

(** ** Reading packets *)

(** [packet[i]] *)
Definition peek (packet : ptr) (i : Z) : option Z :=
  match load packet i with Ok b => Some b | _ => None end.

(** The [n] bytes at [packet]. *)
Definition read_bytes (packet : ptr) (n : Z) : option (list Z) :=
  match load_bytes packet n with Ok l => Some l | _ => None end.

(** [if (f(...) != QSR_OK) return;]: [Some None] when the call fails. *)
Definition attempt {A} (m : outcome A) : option (option A) :=
  match m with
  | Ok a => Some (Some a)
  | Fail _ => Some None
  | Fault => None
  end.

(** [packet_len == 0 || (packet[0] & 0x80) == 0 || (packet[0] & 0x40) == 0] *)
Definition not_long_header (packet : ptr) (packet_len : Z) : option bool :=
  if packet_len =? 0 then Some true else
  b0 ← peek packet 0;
  Some ((Z.land b0 0x80 =? 0) || (Z.land b0 0x40 =? 0)).

Section routing.
Context `{KeyedHash} `{Crypto}.

(** ** Initials by server name *)

(** The backend with its length, and [sni_out]. *)
Definition route_crypto_stream (config : qsr_config) (crypto : qsr_crypto_stream) : outcome (list Z * Z * list Z) :=
  let contiguous_len := qsr_crypto_stream_contiguous_len crypto in
  if contiguous_len =? 0 then Fail QSR_ERR_TRUNCATED else
  sni ← qsr_tls_client_hello_sni (Ptr (cs_data crypto) 0) contiguous_len;
  match qsr_route_table_lookup (c_routes config) (cstr sni) with
  | None => Fail QSR_ERR_NOT_FOUND
  | Some index =>
      let route := route_at (c_routes config) index in
      if negb (r_backend_resolved route) then Fail QSR_ERR_INVALID
      else Ok (r_backend_addr route, r_backend_addr_len route, sni)
  end.

(** The entry the datagram was added to, with the stream merged in. *)
Definition pending_add (pending : qsr_pending_initial_table) (entry : nat) (packet : list Z) (packet_len : Z)
    (crypto : qsr_crypto_stream) : qsr_pending_initial_table :=
  pending_set_entries pending
    (alter (fun e =>
       let e := pending_initial_append_packet e packet packet_len in
       pending_set_crypto e (qsr_crypto_stream_merge (pe_crypto e) crypto)) entry (pt_entries pending)).

(** The pending table, [pending_entry] (as an index), [cid_key], and what [route_crypto_stream] returns. *)
Definition route_initial_datagram (config : qsr_config) (pending_initials : qsr_pending_initial_table) (packet : ptr)
    (packet_len : Z) (initial : qsr_quic_initial) (source : list Z) (source_len now : Z) :
    qsr_pending_initial_table * option nat * qsr_session_key * outcome (list Z * Z * list Z) :=
  let cid_key := qsr_session_cid_key (Some (i_dcid initial)) (i_dcid_len initial) (Some (i_scid initial)) (i_scid_len initial) in
  match qsr_quic_decrypt_initial packet packet_len initial with
  | Ok plaintext =>
      let '(crypto, status) := qsr_quic_extract_crypto (Ptr plaintext 0) (Zlen plaintext) qsr_crypto_stream_init in
      match status with
      | Ok _ =>
          let '(pending_initials, entry) := pending_initial_get pending_initials source source_len initial now in
          let pending_initials := pending_add pending_initials entry (range packet packet_len) packet_len crypto in
          let e := default pending0 (pt_entries pending_initials !! entry) in
          (pending_initials, Some entry, pe_cid_key e, route_crypto_stream config (pe_crypto e))
      | Fail s => (pending_initials, None, cid_key, Fail s)
      | Fault => (pending_initials, None, cid_key, Fault)
      end
  | Fail s => (pending_initials, None, cid_key, Fail s)
  | Fault => (pending_initials, None, cid_key, Fault)
  end.

(** ** Aliases *)

Definition put_alias (sessions : qsr_session_table) (key : qsr_session_key) (dest : addr_arg)
    (dest_len now owner_slot owner_flow_id : Z) : option qsr_session_table :=
  if k_has_cids key || k_has_tuple key then
    fst <$> qsr_session_table_put_owned sessions key dest dest_len now owner_slot owner_flow_id
  else Some sessions.

Definition learn_client_long_header_cids (sessions : qsr_session_table) (packet : ptr) (packet_len : Z) (backend : addr_arg)
    (backend_len now owner_slot owner_flow_id : Z) : option qsr_session_table :=
  skip ← not_long_header packet packet_len;
  if skip : bool then Some sessions else
  parsed ← attempt (qsr_quic_parse_long_header packet packet_len);
  match parsed with
  | None => Some sessions
  | Some header =>
      let dcid_key := qsr_session_single_cid_key (h_dcid header) (h_dcid_len header) in
      let pair_key := qsr_session_cid_key (Some (h_dcid header)) (h_dcid_len header) (Some (h_scid header)) (h_scid_len header) in
      sessions ← put_alias sessions dcid_key backend backend_len now owner_slot owner_flow_id;
      put_alias sessions pair_key backend backend_len now owner_slot owner_flow_id
  end.

Definition learn_backend_scid (sessions : qsr_session_table) (packet : ptr) (packet_len : Z) (backend : addr_arg)
    (backend_len now owner_slot owner_flow_id : Z) : option qsr_session_table :=
  skip ← not_long_header packet packet_len;
  if skip : bool then Some sessions else
  parsed ← attempt (qsr_quic_parse_long_header packet packet_len);
  match parsed with
  | None => Some sessions
  | Some header =>
      let scid_key := qsr_session_single_cid_key (h_scid header) (h_scid_len header) in
      put_alias sessions scid_key backend backend_len now owner_slot owner_flow_id
  end.

Definition bind_client_tuple (sessions : qsr_session_table) (new_tuple_key : qsr_session_key) (backend : addr_arg)
    (backend_len now : Z) : option qsr_session_table :=
  fst <$> qsr_session_table_put sessions new_tuple_key backend backend_len now.

(** ** Lookups

    A session found is its slot; [Some None] is a null return. *)

(** [&table->sessions[i]] *)
Definition session_at (sessions : qsr_session_table) (i : nat) : qsr_session := default session0 (t_sessions sessions !! i).

(** Whether the session points at a backend of the routes in force. *)
Definition session_configured (config : qsr_config) (s : qsr_session) : bool :=
  qsr_route_table_has_backend (c_routes config) (s_backend_addr s) (s_backend_addr_len s).

Definition lookup_long_header_request_dcid (runtime_config : qsr_config) (sessions : qsr_session_table)
    (initial : qsr_quic_initial) : option nat :=
  let dcid_key := qsr_session_single_cid_key (i_dcid initial) (i_dcid_len initial) in
  match qsr_session_table_get sessions dcid_key with
  | Some session => if session_configured runtime_config (session_at sessions session) then Some session else None
  | None => None
  end.

(** [cid_len] is [QSR_MIN_LEARNED_CID_LEN - 1 + n]. *)
Fixpoint short_cid_loop (sessions : qsr_session_table) (packet : ptr) (learned_lengths : Z) (n : nat) : option (option nat) :=
  match n with
  | O => Some None
  | S m =>
      let cid_len := QSR_MIN_LEARNED_CID_LEN - 1 + Z.of_nat n in
      if negb (learned_lengths =? 0) && (Z.land learned_lengths (Z.shiftl 1 cid_len) =? 0)
      then short_cid_loop sessions packet learned_lengths m
      else
        cid ← read_bytes (ptr_add packet 1) cid_len;
        match qsr_session_table_get sessions (qsr_session_single_cid_key cid cid_len) with
        | Some session => Some (Some session)
        | None => short_cid_loop sessions packet learned_lengths m
        end
  end.

Definition lookup_short_header_cid (sessions : qsr_session_table) (packet : ptr) (packet_len : Z) : option (option nat) :=
  if packet_len <? 1 + QSR_MIN_LEARNED_CID_LEN then Some None else
  b0 ← peek packet 0;
  if negb (Z.land b0 0x80 =? 0) || (Z.land b0 0x40 =? 0) then Some None else
  let max_cid_len := if packet_len - 1 <? QSR_MAX_QUIC_CID_LEN then packet_len - 1 else QSR_MAX_QUIC_CID_LEN in
  short_cid_loop sessions packet (qsr_session_table_cid_len_mask sessions)
    (Z.to_nat (max_cid_len - (QSR_MIN_LEARNED_CID_LEN - 1))).

Definition lookup_long_header_dcid (sessions : qsr_session_table) (packet : ptr) (packet_len : Z) : option (option nat) :=
  if packet_len <? 7 then Some None else
  b0 ← peek packet 0;
  if (Z.land b0 0x80 =? 0) || (Z.land b0 0x40 =? 0) then Some None else
  b1 ← peek packet 1; b2 ← peek packet 2; b3 ← peek packet 3; b4 ← peek packet 4;
  let version := be32 b1 b2 b3 b4 in
  if negb (version =? QSR_QUIC_V1) && negb (version =? QSR_QUIC_V2) then Some None else
  dcid_len ← peek packet 5;
  if (dcid_len <? QSR_MIN_LEARNED_CID_LEN) || (QSR_MAX_QUIC_CID_LEN <? dcid_len) || (packet_len <=? 6 + dcid_len)
  then Some None else
  cid ← read_bytes (ptr_add packet 6) dcid_len;
  Some (qsr_session_table_get sessions (qsr_session_single_cid_key cid dcid_len)).

(** ** Encoded connection IDs *)

Context (aes_128_ctr : list Z -> list Z -> list Z -> option (list Z)).

Definition try_decode_dcid_server_id (codec : qsr_cid_codec) (packet : ptr) (packet_len : Z) : outcome Z :=
  if negb (cc_enabled codec) || (packet_len <? 1) then Fail QSR_ERR_INVALID else
  b0 ← load packet 0;
  if negb (Z.land b0 0x80 =? 0) then
    if (Z.land b0 0x40 =? 0) || (packet_len <? 7) then Fail QSR_ERR_INVALID else
    dcid_len ← load packet 5;
    if negb (dcid_len =? QSR_CID_ENCODED_LEN) || (packet_len <? 6 + dcid_len) then Fail QSR_ERR_INVALID else
    qsr_cid_codec_decode aes_128_ctr codec (ptr_add packet 6) dcid_len
  else if (Z.land b0 0x40 =? 0) || (packet_len <? 1 + QSR_CID_ENCODED_LEN) then Fail QSR_ERR_INVALID
  else qsr_cid_codec_decode aes_128_ctr codec (ptr_add packet 1) QSR_CID_ENCODED_LEN.

(** The table and the session. *)
Definition lookup_encoded_cid (runtime_config : qsr_config) (sessions : qsr_session_table) (packet : ptr) (packet_len : Z)
    (tuple_key : qsr_session_key) (now : Z) : option (qsr_session_table * option nat) :=
  if negb (cc_enabled (c_cid_codec runtime_config)) then Some (sessions, None) else
  decoded ← attempt (try_decode_dcid_server_id (c_cid_codec runtime_config) packet packet_len);
  match decoded with
  | None => Some (sessions, None)
  | Some server_id =>
      match qsr_route_table_lookup_by_server_id (c_routes runtime_config) server_id with
      | None => Some (sessions, None)
      | Some index =>
          let route := route_at (c_routes runtime_config) index in
          if negb (r_backend_resolved route) then Some (sessions, None) else
          sessions ← bind_client_tuple sessions tuple_key (AddrVal (r_backend_addr route)) (r_backend_addr_len route) now;
          Some (sessions, qsr_session_table_get sessions tuple_key)
      end
  end.
End routing.

(** ** Lemmas: the session table *)

Section sessions.
Context `{KeyedHash}.

(** Every entry points at an address that [P] holds of. *)
Definition sessions_aim (P : list Z -> Z -> Prop) (t : qsr_session_table) : Prop :=
  forall k s, contents t !! k = Some s -> P (s_backend_addr s) (s_backend_addr_len s).

(** Room for [n] more entries without an eviction, whatever the pressure. *)
Definition roomy (n : Z) (t : qsr_session_table) : Prop :=
  forall m, 0 <= m < n -> t_count t + m < Z.of_nat (t_capacity t) /\
    (Z.of_nat (t_capacity t) < QSR_PRESSURE_EVICT_MIN_CAPACITY \/
     (t_count t + m) * 100 < Z.of_nat (t_capacity t) * QSR_PRESSURE_EVICT_LOAD_PERCENT).

Lemma roomy_weaken n m t : m <= n -> roomy n t -> roomy m t.
Proof. intros ? Hr k ?. apply Hr. lia. Qed.

(** A table with at most [n] entries more has less room by [n]. *)
Lemma roomy_grown n m t t' : 0 <= n -> t_capacity t' = t_capacity t -> t_count t' <= t_count t + n -> roomy (m + n) t -> roomy m t'.
Proof.
  intros Hn Hcap Hcnt Hr k Hk. destruct (Hr (k + n) ltac:(lia)) as [Hlt Hp]. rewrite Hcap.
  unfold QSR_PRESSURE_EVICT_LOAD_PERCENT in *. lia.
Qed.

Lemma roomy_no_pressure t : table_wf t -> roomy 1 t -> t_count t < Z.of_nat (t_capacity t) /\ pressure_evict_needed t = false.
Proof.
  intros Hwf Hr. destruct (Hr 0 ltac:(lia)) as [Hlt Hp]. split; [lia|]. pose proof (count_small t Hwf).
  unfold pressure_evict_needed, QSR_PRESSURE_EVICT_MIN_CAPACITY, QSR_PRESSURE_EVICT_LOAD_PERCENT in *.
  apply andb_false_iff. destruct Hp; [left|right]; zbool. rewrite !wrap_small; lia.
Qed.

(** The entry of [k] points at this address. *)
Definition leads (t : qsr_session_table) (k : key_view_t) (addr : list Z) (len : Z) : Prop :=
  exists s, contents t !! k = Some s /\ s_backend_addr s = addr /\ s_backend_addr_len s = len.

(** What a number of calls of [put] for one backend makes of a table: at most [n]
    entries more; when there is room for them, the entries for the backend stay. *)
Record puts (n : Z) (addr : list Z) (len : Z) (t t' : qsr_session_table) : Prop := {
  pu_wf : table_wf t';
  pu_capacity : t_capacity t' = t_capacity t;
  pu_count : t_count t' <= t_count t + n;
  pu_aim : forall P, P addr len -> sessions_aim P t -> sessions_aim P t';
  pu_keeps : roomy n t -> forall k, leads t k addr len -> leads t' k addr len;
}.

Lemma roomy_puts n m addr len t t' : 0 <= n -> puts n addr len t t' -> roomy (m + n) t -> roomy m t'.
Proof. intros ? []. by apply roomy_grown. Qed.

Lemma puts_refl n addr len t : 0 <= n -> table_wf t -> puts n addr len t t.
Proof. split; [done|done|lia|done|done]. Qed.

Lemma puts_trans n m addr len t1 t2 t3 : 0 <= n -> 0 <= m -> puts n addr len t1 t2 -> puts m addr len t2 t3 ->
  puts (n + m) addr len t1 t3.
Proof.
  intros Hn Hm Hp [? ? ? Hb Hkb]. pose proof Hp as [? ? ? Ha Hka]. split; [done|congruence|lia| |].
  - intros P HP Ht. by apply Hb, Ha.
  - intros Hr k Hk. apply Hkb; [apply (roomy_puts n m _ _ _ _ Hn Hp); by rewrite Z.add_comm|].
    apply Hka; [by apply (roomy_weaken (n + m)); [lia|]|done].
Qed.

Lemma puts_weaken n m addr len t t' : n <= m -> puts n addr len t t' -> puts m addr len t t'.
Proof. intros ? [? ? ? ? Hk]. split; [done|done|lia|done|]. intros Hr. apply Hk. by apply (roomy_weaken m). Qed.

(** A refused call changes nothing. *)
Lemma put_refused t key addr len now os oid : table_wf t -> key_valid key && backend_valid (read_addr t addr) len = false ->
  qsr_session_table_put_owned t key addr len now os oid = Some (t, QSR_ERR_INVALID).
Proof.
  intros Hwf E. unfold qsr_session_table_put_owned. cbn [session_table_put_internal]. rewrite (live_guard t Hwf). cbn [orb].
  apply andb_false_iff in E as [->| ->]; [done|by rewrite orb_true_r].
Qed.

Lemma put_puts t key addr len now os oid : table_wf t ->
  exists t' st, qsr_session_table_put_owned t key (AddrVal addr) len now os oid = Some (t', st) /\ puts 1 addr len t t' /\
    if key_valid key && backend_valid addr len
    then st = QSR_OK /\ exists s, contents t' !! key_view key = Some s /\ s_backend_addr s = addr /\ s_backend_addr_len s = len /\
           s_last_seen s = now /\ (oid <> 0 -> s_owner_slot s = os /\ s_owner_flow_id s = oid)
    else st = QSR_ERR_INVALID /\ t' = t.
Proof.
  intros Hwf. destruct (key_valid key && backend_valid addr len) eqn:E.
  2: { exists t, QSR_ERR_INVALID. split_and!; [by apply put_refused|by apply puts_refl|done..]. }
  apply andb_true_iff in E as [Hk Hb].
  destruct (put_spec 0 t key addr len now os oid Hwf Hk Hb) as (t' & Hput & Hwf' & Hcap & Hm).
  exists t', QSR_OK. split; [exact Hput|]. split; [|split; [done|]].
  - split; [done|done| | |].
    + rewrite (wf_count t Hwf), (wf_count t' Hwf'). destruct (contents t !! key_view key) as [s|] eqn:El.
      * rewrite Hm, map_size_insert_Some by eauto. lia.
      * destruct Hm as (t1 & Hroom & ->). pose proof (makes_room_subset _ _ Hroom) as Hsub.
        rewrite map_size_insert_None by (by eapply lookup_weaken_None). apply map_subseteq_size in Hsub. lia.
    + intros P HP Ht k s Hs. destruct (contents t !! key_view key) as [s0|] eqn:El.
      * rewrite Hm in Hs. apply lookup_insert_Some in Hs as [[_ <-]|[_ Hs]]; [done|by apply (Ht k)].
      * destruct Hm as (t1 & Hroom & Hc). rewrite Hc in Hs. apply lookup_insert_Some in Hs as [[_ <-]|[_ Hs]]; [done|].
        apply (Ht k). eapply lookup_weaken; [done|by apply makes_room_subset].
    + intros Hr k (s & Hs & <- & <-). destruct (roomy_no_pressure t Hwf Hr) as [Hlt Hnp]. unfold leads.
      destruct (decide (k = key_view key)) as [->|Hne].
      * rewrite Hs in Hm. rewrite Hm, lookup_insert_eq. by eexists.
      * exists s. split; [|done]. destruct (contents t !! key_view key) as [s0|]; [by rewrite Hm, lookup_insert_ne|].
        destruct Hm as (t1 & [_ _ Hc|Hfull _|? Hp' _ _ _ _ _] & ->); [|lia|congruence]. by rewrite lookup_insert_ne, Hc.
  - destruct (contents t !! key_view key) as [s0|] eqn:El.
    + rewrite Hm, lookup_insert_eq. eexists. split; [done|]. unfold refreshed. cbn. split_and!; [done..|].
      intros Ho. by rewrite (proj2 (Z.eqb_neq oid 0)).
    + destruct Hm as (t1 & Hroom & ->). rewrite lookup_insert_eq. by eexists.
Qed.

(** While there is room, a [put] through a pointer to a live entry's own
    address is the [put] of that address, and the entry keeps it. *)
Lemma put_slot t i s key len now os oid : table_wf t -> roomy 1 t -> t_sessions t !! i = Some s -> s_used s = true ->
  len = s_backend_addr_len s ->
  exists t' st s', qsr_session_table_put_owned t key (AddrSlot i) len now os oid = Some (t', st) /\
    qsr_session_table_put_owned t key (AddrVal (s_backend_addr s)) len now os oid = Some (t', st) /\
    t_sessions t' !! i = Some s' /\ s_used s' = true /\ s_backend_addr s' = s_backend_addr s /\
    s_backend_addr_len s' = s_backend_addr_len s /\ s_key s' = s_key s.
Proof.
  intros Hwf Hr Hs Hu Hlen. destruct (roomy_no_pressure t Hwf Hr) as [Hlt Hnp].
  assert (Hread : read_addr t (AddrSlot i) = s_backend_addr s) by (cbn; by rewrite Hs).
  destruct (key_valid key && backend_valid (s_backend_addr s) len) eqn:E.
  2: { exists t, QSR_ERR_INVALID, s. rewrite !put_refused; [by split_and!|done|done|done|by rewrite Hread]. }
  apply andb_true_iff in E as [Hk Hb]. unfold qsr_session_table_put_owned. cbn [session_table_put_internal].
  rewrite (live_guard t Hwf), Hread. cbn [read_addr]. rewrite Hk, Hb. cbn [negb orb].
  change (put_attempts _ 2 t key (AddrSlot i)) with (put_attempts (evict_oldest (session_table_put_internal 0)) 2 t key (AddrSlot i)).
  cbn [put_attempts]. change (2 =? 2)%nat with true. rewrite Hnp, !andb_false_r. cbn iota.
  pose proof (probe_contents t key Hwf) as Hp. destruct (session_probe t key) as [[j []]|] eqn:Ep.
  - destruct Hp as (x & Hx & _).
    assert (He : update_at t j (AddrSlot i) len now os oid = update_at t j (AddrVal (s_backend_addr s)) len now os oid)
      by (unfold update_at; by rewrite Hread).
    rewrite He. destruct (decide (i = j)) as [<-|Hne]; eexists _, _, _; (split; [done|]); (split; [done|]);
      unfold update_at; cbn [read_addr t_sessions set_sessions].
    + rewrite list_lookup_alter_eq, Hs. cbn [fmap option_fmap option_map]. split; [reflexivity|]. cbn. by split_and!.
    + rewrite list_lookup_alter_ne, Hs by done. by split_and!.
  - assert (He : insert_at t j key (AddrSlot i) len now os oid = insert_at t j key (AddrVal (s_backend_addr s)) len now os oid)
      by (unfold insert_at; by rewrite Hread).
    rewrite He. exists (insert_at t j key (AddrVal (s_backend_addr s)) len now os oid), QSR_OK, s. split_and!; [done|done| |done..].
    unfold insert_at. cbn [t_sessions set_masks set_count set_sessions]. rewrite list_lookup_insert_ne; [done|]. intros ->.
    rewrite session_probe_eq in Ep. pose proof (fr_cap t (wf_frame t Hwf)) as Hcap.
    apply probe_false in Ep as (_ & Hv & _); [|by apply shome_lt]. unfold view in Hv. rewrite Hs in Hv. cbn in Hv.
    unfold skey in Hv. by rewrite Hu in Hv.
  - destruct Hp as [_ Hfull]. rewrite (wf_count t Hwf) in Hlt. lia.
Qed.
End sessions.

(** ** Lemmas: packets *)

Section packets.
Context (packet : ptr) (packet_len : Z) (readable_packet : readable packet packet_len) (packet_bytes : bytes_ok (p_buf packet)).

Lemma peek_ok i : 0 <= i < packet_len -> exists b, peek packet i = Some b /\ load packet i = Ok b /\ is_byte b.
Proof using readable_packet packet_bytes.
  intros Hi. pose proof (load_no_fault packet packet_len i readable_packet Hi) as Hn. unfold peek, no_fault in *.
  destruct (load packet i) as [b|s|] eqn:E; [|unfold load in E; by destruct (_ && _)|done].
  exists b. split_and!; [done..|by eapply load_byte].
Qed.

Lemma read_bytes_ok o n : 0 <= o -> 0 <= n -> o + n <= packet_len ->
  read_bytes (ptr_add packet o) n = Some (range (ptr_add packet o) n) /\ Zlen (range (ptr_add packet o) n) = n.
Proof using readable_packet.
  intros Ho Hn Hl. destruct readable_packet as (Hoff & Hlen & Hbuf). unfold read_bytes, load_bytes, range, ptr_add. cbn [p_off p_buf].
  replace (_ && _) with true by (symmetry; zbool). split; [done|]. unfold Zlen in *. rewrite length_take, length_drop. lia.
Qed.

Lemma not_long_header_ok : exists b, not_long_header packet packet_len = Some b.
Proof using readable_packet packet_bytes.
  unfold not_long_header. destruct (packet_len =? 0) eqn:E; [by eexists|]. bool_to_prop.
  destruct (peek_ok 0) as (b & -> & _); [destruct readable_packet; lia|]. by eexists.
Qed.

Lemma attempt_ok {A} (m : outcome A) : no_fault m -> exists r, attempt m = Some r.
Proof using. unfold no_fault. destruct m; [by eexists..|done]. Qed.

Lemma parse_attempt : exists r, attempt (qsr_quic_parse_long_header packet packet_len) = Some r.
Proof using readable_packet packet_bytes. by apply attempt_ok, parse_long_header_no_fault. Qed.

Context `{KeyedHash}.

Lemma put_alias_puts t key addr len now os oid : table_wf t ->
  exists t', put_alias t key (AddrVal addr) len now os oid = Some t' /\ puts 1 addr len t t'.
Proof using.
  intros Hwf. unfold put_alias. destruct (_ || _); [|exists t; split; [done|by apply puts_refl]].
  destruct (put_puts t key addr len now os oid Hwf) as (t' & st & -> & Hp & _). by exists t'.
Qed.

Lemma put_alias_slot t i s key len now os oid : table_wf t -> roomy 1 t -> t_sessions t !! i = Some s -> s_used s = true ->
  len = s_backend_addr_len s ->
  exists t' s', put_alias t key (AddrSlot i) len now os oid = Some t' /\
    put_alias t key (AddrVal (s_backend_addr s)) len now os oid = Some t' /\
    t_sessions t' !! i = Some s' /\ s_used s' = true /\ s_backend_addr s' = s_backend_addr s /\
    s_backend_addr_len s' = s_backend_addr_len s /\ s_key s' = s_key s.
Proof using.
  intros Hwf Hr Hs Hu Hlen. unfold put_alias. destruct (_ || _); [|exists t, s; by split_and!].
  destruct (put_slot t i s key len now os oid Hwf Hr Hs Hu Hlen) as (t' & st & s' & -> & -> & ?). by exists t', s'.
Qed.

Lemma learn_client_puts t addr len now os oid : table_wf t ->
  exists t', learn_client_long_header_cids t packet packet_len (AddrVal addr) len now os oid = Some t' /\ puts 2 addr len t t'.
Proof using readable_packet packet_bytes.
  intros Hwf. pose proof (puts_refl 2 addr len t ltac:(lia) Hwf) as Hrefl. unfold learn_client_long_header_cids.
  destruct not_long_header_ok as (b & ->). cbn [mbind option_bind]. destruct b; [by exists t|].
  destruct parse_attempt as (h & ->). cbn [mbind option_bind]. destruct h as [h|]; [|by exists t].
  destruct (put_alias_puts t (qsr_session_single_cid_key (h_dcid h) (h_dcid_len h)) addr len now os oid Hwf) as (t1 & -> & Hp1).
  cbn [mbind option_bind].
  destruct (put_alias_puts t1 (qsr_session_cid_key (Some (h_dcid h)) (h_dcid_len h) (Some (h_scid h)) (h_scid_len h))
    addr len now os oid (pu_wf _ _ _ _ _ Hp1)) as (t2 & -> & Hp2).
  exists t2. split; [done|]. exact (puts_trans 1 1 _ _ _ _ _ ltac:(done) ltac:(done) Hp1 Hp2).
Qed.

Lemma learn_client_slot t i s len now os oid : table_wf t -> roomy 2 t -> t_sessions t !! i = Some s -> s_used s = true ->
  len = s_backend_addr_len s ->
  exists t' s', learn_client_long_header_cids t packet packet_len (AddrSlot i) len now os oid = Some t' /\
    learn_client_long_header_cids t packet packet_len (AddrVal (s_backend_addr s)) len now os oid = Some t' /\
    t_sessions t' !! i = Some s' /\ s_used s' = true /\ s_backend_addr s' = s_backend_addr s /\
    s_backend_addr_len s' = s_backend_addr_len s /\ s_key s' = s_key s.
Proof using readable_packet packet_bytes.
  intros Hwf Hr Hs Hu Hlen. unfold learn_client_long_header_cids.
  destruct not_long_header_ok as (b & ->). cbn [mbind option_bind]. destruct b; [exists t, s; by split_and!|].
  destruct parse_attempt as (h & ->). cbn [mbind option_bind]. destruct h as [h|]; [|exists t, s; by split_and!].
  destruct (put_alias_slot t i s (qsr_session_single_cid_key (h_dcid h) (h_dcid_len h)) len now os oid Hwf
    (roomy_weaken 2 1 t ltac:(lia) Hr) Hs Hu Hlen) as (t1 & s1 & -> & Hv1 & Hs1 & Hu1 & Ha1 & Hl1 & Hk1). rewrite Hv1. cbn [mbind option_bind].
  destruct (put_alias_puts t (qsr_session_single_cid_key (h_dcid h) (h_dcid_len h)) (s_backend_addr s) len now os oid Hwf)
    as (t1' & Hv1' & Hp1). rewrite Hv1 in Hv1'. injection Hv1' as <-.
  destruct (put_alias_slot t1 i s1 (qsr_session_cid_key (Some (h_dcid h)) (h_dcid_len h) (Some (h_scid h)) (h_scid_len h)) len now os oid
    (pu_wf _ _ _ _ _ Hp1) (roomy_puts 1 1 _ _ _ _ ltac:(lia) Hp1 Hr) Hs1 Hu1 ltac:(congruence)) as (t2 & s2 & Hx & Hy & Hs2 & Hu2 & Ha2 & Hl2 & Hk2).
  rewrite Ha1 in Hy. exists t2, s2. split_and!; [done..|congruence|congruence|congruence].
Qed.

Lemma learn_backend_puts t addr len now os oid : table_wf t ->
  exists t', learn_backend_scid t packet packet_len (AddrVal addr) len now os oid = Some t' /\ puts 1 addr len t t'.
Proof using readable_packet packet_bytes.
  intros Hwf. pose proof (puts_refl 1 addr len t ltac:(lia) Hwf) as Hrefl. unfold learn_backend_scid.
  destruct not_long_header_ok as (b & ->). cbn [mbind option_bind]. destruct b; [by exists t|].
  destruct parse_attempt as (h & ->). cbn [mbind option_bind]. destruct h as [h|]; [|by exists t]. by apply put_alias_puts.
Qed.

Lemma bind_tuple_puts t key addr len now : table_wf t ->
  exists t', bind_client_tuple t key (AddrVal addr) len now = Some t' /\ puts 1 addr len t t' /\
    (qsr_session_table_get t' key = None -> t' = t).
Proof using.
  intros Hwf. destruct (put_puts t key addr len now 0 0 Hwf) as (t' & st & Hp & Hpu & Hm). exists t'. split_and!; [|done|].
  - unfold bind_client_tuple. change (qsr_session_table_put t key (AddrVal addr) len now) with
      (qsr_session_table_put_owned t key (AddrVal addr) len now 0 0). by rewrite Hp.
  - intros Hn. pose proof (get_spec t' key (pu_wf _ _ _ _ _ Hpu)) as Hg.
    destruct (key_valid key); cbn [andb] in Hm; [|by destruct Hm]. rewrite Hn in Hg.
    destruct (backend_valid addr len); [|by destruct Hm]. destruct Hm as (_ & s & Hs & _). congruence.
Qed.

(** *** The scan over connection-ID lengths

    The scan without the length mask: the longest prefix that is a learned alias. *)
Fixpoint longest_cid (t : qsr_session_table) (n : nat) : option nat :=
  match n with
  | O => None
  | S m =>
      let cid_len := QSR_MIN_LEARNED_CID_LEN - 1 + Z.of_nat n in
      match qsr_session_table_get t (qsr_session_single_cid_key (range (ptr_add packet 1) cid_len) cid_len) with
      | Some session => Some session
      | None => longest_cid t m
      end
  end.

(** The mask has the length of every alias that can be found. *)
Lemma mask_covers t cid i : table_wf t -> QSR_MIN_LEARNED_CID_LEN <= Zlen cid <= QSR_MAX_QUIC_CID_LEN ->
  qsr_session_table_get t (qsr_session_single_cid_key cid (Zlen cid)) = Some i ->
  Z.testbit (qsr_session_table_cid_len_mask t) (Zlen cid) = true.
Proof using.
  intros Hwf Hl Hg. pose proof (get_spec t (qsr_session_single_cid_key cid (Zlen cid)) Hwf) as Hs.
  destruct (key_valid _); [|congruence]. rewrite Hg in Hs. destruct Hs as (s & Hi & Hc).
  destruct (contents_used t _ s Hwf Hc) as [Hu Hk]. rewrite single_cid_key_view in Hk by done.
  destruct (fr_entry t (wf_frame t Hwf) i s Hi Hu) as (_ & _ & Hm). unfold key_view in Hk.
  injection Hk as Ht Hcids _ Hd Hsc _ _ _. rewrite <- Hd in Hm.
  destruct Hm as [Hm _]; [|exact Hm]. unfold mask_entry. rewrite <- Hcids, <- Hd.
  unfold QSR_MIN_LEARNED_CID_LEN, QSR_MAX_QUIC_CID_LEN in *. cbn. zbool.
Qed.

Lemma land_testbit m n : 0 <= n -> (Z.land m (Z.shiftl 1 n) =? 0) = negb (Z.testbit m n).
Proof using. intros Hn. rewrite Z.shiftl_1_l. by apply land_bit. Qed.

Lemma short_cid_loop_spec t n : table_wf t -> Z.of_nat n <= 13 -> 8 + Z.of_nat n <= packet_len ->
  short_cid_loop t packet (qsr_session_table_cid_len_mask t) n = Some (longest_cid t n).
Proof using readable_packet.
  intros Hwf. induction n as [|n IH]; intros Hn Hlen; [done|]. cbn [short_cid_loop longest_cid].
  unfold QSR_MIN_LEARNED_CID_LEN. set (l := 8 - 1 + Z.of_nat (S n)).
  assert (Hl : 8 <= l <= 20) by lia. destruct (read_bytes_ok 1 l) as [Hrd Hz]; [lia..|].
  rewrite land_testbit by lia. pose proof (mask_covers t (range (ptr_add packet 1) l)) as Hm. rewrite Hz in Hm.
  destruct (negb (_ =? 0) && negb (Z.testbit _ l)) eqn:E.
  - rewrite IH by lia. destruct (qsr_session_table_get t _) as [i|] eqn:Eg; [|done]. bool_to_prop.
    rewrite (Hm i) in * by done. done.
  - rewrite Hrd. cbn [mbind option_bind]. destruct (qsr_session_table_get t _) as [i|]; [done|]. apply IH; lia.
Qed.

(** A short header with at least 8 bytes behind the first. *)
Definition short_header : bool := negb (Z.testbit (default 0 (peek packet 0)) 7) && Z.testbit (default 0 (peek packet 0)) 6.

Lemma lookup_short_header_spec t : table_wf t ->
  lookup_short_header_cid t packet packet_len =
    Some (if short_header && (9 <=? packet_len) then longest_cid t (Z.to_nat (Z.min (packet_len - 1) 20 - 7)) else None).
Proof using readable_packet packet_bytes.
  intros Hwf. unfold lookup_short_header_cid, short_header, QSR_MIN_LEARNED_CID_LEN, QSR_MAX_QUIC_CID_LEN.
  destruct (packet_len <? 1 + 8) eqn:E; bool_to_prop.
  { rewrite (proj2 (Z.leb_gt 9 packet_len)), andb_false_r by lia. done. }
  rewrite (proj2 (Z.leb_le 9 packet_len)), andb_true_r by lia.
  destruct (peek_ok 0 ltac:(lia)) as (b & -> & _). cbn [mbind option_bind default]. change (id b) with b.
  change 0x80 with (2 ^ 7). change 0x40 with (2 ^ 6). rewrite !land_bit by lia.
  destruct (Z.testbit b 7), (Z.testbit b 6); cbn [negb orb andb]; try done.
  replace (if packet_len - 1 <? 20 then packet_len - 1 else 20) with (Z.min (packet_len - 1) 20)
    by (destruct (packet_len - 1 <? 20) eqn:?; bool_to_prop; lia).
  change (8 - 1) with 7. apply short_cid_loop_spec; [done|lia..].
Qed.

Lemma longest_cid_get t n i : table_wf t -> longest_cid t n = Some i -> exists s, t_sessions t !! i = Some s /\ s_used s = true.
Proof using.
  intros Hwf. induction n as [|n IH]; [done|]. cbn [longest_cid].
  destruct (qsr_session_table_get t _) as [j|] eqn:E; [|done]. intros [= ->]. by eapply get_slot.
Qed.

(** Either scan returns whatever the table holds, and finds what [get] finds. *)
Lemma lookup_long_header_total t (live : nat -> Prop) : (forall key i, qsr_session_table_get t key = Some i -> live i) ->
  exists r, lookup_long_header_dcid t packet packet_len = Some r /\ forall i, r = Some i -> live i.
Proof using readable_packet packet_bytes.
  intros Hget. unfold lookup_long_header_dcid.
  destruct (packet_len <? 7) eqn:E; [by exists None|]. bool_to_prop.
  destruct (peek_ok 0 ltac:(lia)) as (b0 & -> & _), (peek_ok 1 ltac:(lia)) as (b1 & -> & _), (peek_ok 2 ltac:(lia)) as (b2 & -> & _),
    (peek_ok 3 ltac:(lia)) as (b3 & -> & _), (peek_ok 4 ltac:(lia)) as (b4 & -> & _), (peek_ok 5 ltac:(lia)) as (n & -> & _).
  cbn [mbind option_bind]. destruct (_ || _); [by exists None|]. destruct (_ && _); [by exists None|].
  destruct (_ || _) eqn:E1; [by exists None|]. bool_to_prop. unfold QSR_MIN_LEARNED_CID_LEN in *.
  destruct (read_bytes_ok 6 n) as [-> _]; [lia..|]. cbn [mbind option_bind]. eexists. split; [done|]. intros i Hi. by eapply Hget.
Qed.

Lemma short_cid_loop_total t (live : nat -> Prop) mask n : (forall key i, qsr_session_table_get t key = Some i -> live i) ->
  8 + Z.of_nat n <= packet_len -> exists r, short_cid_loop t packet mask n = Some r /\ forall i, r = Some i -> live i.
Proof using readable_packet.
  intros Hget. induction n as [|n IH]; intros Hlen; [by exists None|]. cbn [short_cid_loop]. unfold QSR_MIN_LEARNED_CID_LEN.
  destruct (IH ltac:(lia)) as (r & Hr & Hl). rewrite Hr. destruct (_ && _); [by exists r|].
  destruct (read_bytes_ok 1 (8 - 1 + Z.of_nat (S n))) as [-> _]; [lia..|]. cbn [mbind option_bind].
  destruct (qsr_session_table_get t _) as [i|] eqn:E; [|by exists r]. exists (Some i). split; [done|]. intros ? [= <-]. by eapply Hget.
Qed.

Lemma lookup_short_header_total t (live : nat -> Prop) : (forall key i, qsr_session_table_get t key = Some i -> live i) ->
  exists r, lookup_short_header_cid t packet packet_len = Some r /\ forall i, r = Some i -> live i.
Proof using readable_packet packet_bytes.
  intros Hget. unfold lookup_short_header_cid, QSR_MIN_LEARNED_CID_LEN, QSR_MAX_QUIC_CID_LEN.
  destruct (packet_len <? 1 + 8) eqn:E; bool_to_prop; [by exists None|].
  destruct (peek_ok 0 ltac:(lia)) as (b & -> & _). cbn [mbind option_bind]. destruct (_ || _); [by exists None|].
  apply short_cid_loop_total; [done|]. destruct (packet_len - 1 <? 20) eqn:?; bool_to_prop; lia.
Qed.

Lemma lookup_long_header_ok t : table_wf t ->
  exists r, lookup_long_header_dcid t packet packet_len = Some r /\
    forall i, r = Some i -> exists s, t_sessions t !! i = Some s /\ s_used s = true.
Proof using readable_packet packet_bytes. intros Hwf. apply lookup_long_header_total. intros key i Hi. by eapply get_slot. Qed.
End packets.

(** ** Lemmas: routes in force *)

Section routes.
Context `{KeyedHash}.

(** A route table after a successful resolution: every route has an address, and is indexed under it. *)
Record routes_live (t : qsr_route_table) : Prop := {
  rl_wf : route_wf t;
  rl_resolved : forall j, 0 <= j < rt_count t -> r_backend_resolved (route_at t j) = true /\
    qsr_route_table_has_backend t (r_backend_addr (route_at t j)) (r_backend_addr_len (route_at t j)) = true;
}.

Lemma resolve_live getaddrinfo t t' : route_wf t -> qsr_route_table_resolve getaddrinfo t = (t', QSR_OK) -> routes_live t'.
Proof.
  intros Hwf Hr. pose proof (resolve_spec getaddrinfo t Hwf) as Hs. rewrite Hr in Hs.
  destruct Hs as (Hwf' & _ & _ & _ & Hres & Hhas).
  pose proof (resolve_count getaddrinfo t t' Hr) as Hc.
  split; [done|]. intros j Hj. rewrite Hc in Hj. destruct (Hres j Hj) as (Hok & a & Ha & _ & Hb). split; [done|].
  unfold backend_of in Hb. injection Hb as Hlen Haddr. rewrite Hlen in *. apply Hhas.
  exists j. split; [done|]. by rewrite Haddr.
Qed.

Lemma lookup_live t sni j : routes_live t -> qsr_route_table_lookup t sni = Some j -> 0 <= j < rt_count t.
Proof.
  intros [Hwf _] Hl. rewrite lookup_spec in Hl by done. destruct (hostname_ok sni); [|done].
  by destruct (routes_map_some t _ j Hwf Hl).
Qed.

Lemma server_id_live t s j : routes_live t -> qsr_route_table_lookup_by_server_id t s = Some j -> 0 <= j < rt_count t.
Proof.
  intros [Hwf _] Hl. unfold qsr_route_table_lookup_by_server_id in Hl. destruct (s =? 0); [done|].
  destruct (rt_server_id_index t !! Z.to_nat s) as [i|] eqn:E; [|done]. cbn [default] in Hl. change (id i) with i in Hl.
  destruct (_ || _) eqn:E1; [done|]. injection Hl as <-. bool_to_prop. destruct (rw_ids t Hwf _ _ E) as [|?]; [done|lia].
Qed.

(** What an operation makes of the session table: entries for backends that [P] holds of, at most [n] more. *)
Record updates (P : list Z -> Z -> Prop) (n : Z) (t t' : qsr_session_table) : Prop := {
  up_wf : table_wf t';
  up_capacity : t_capacity t' = t_capacity t;
  up_count : t_count t' <= t_count t + n;
  up_aim : sessions_aim P t -> sessions_aim P t';
}.

Lemma puts_updates P n addr len t t' : P addr len -> puts n addr len t t' -> updates P n t t'.
Proof. intros HP []. split; auto. Qed.

Lemma updates_refl P n t : 0 <= n -> table_wf t -> updates P n t t.
Proof. by split; [..|lia|]. Qed.

Lemma updates_trans P n m t1 t2 t3 : updates P n t1 t2 -> updates P m t2 t3 -> updates P (n + m) t1 t3.
Proof. intros [] []. split; [done|congruence|lia|auto]. Qed.

Lemma updates_weaken P n m t t' : n <= m -> updates P n t t' -> updates P m t t'.
Proof. intros ? []. split; [done|done|lia|done]. Qed.

Lemma roomy_updates P n m t t' : 0 <= n -> updates P n t t' -> roomy (m + n) t -> roomy m t'.
Proof. intros ? []. by apply roomy_grown. Qed.

(** The slot of an entry, if any. *)
Definition valid_slot (t : qsr_session_table) (r : option nat) : Prop :=
  forall i, r = Some i -> exists s, t_sessions t !! i = Some s /\ s_used s = true.

Lemma get_valid t key : table_wf t -> valid_slot t (qsr_session_table_get t key).
Proof. intros Hwf i Hi. by eapply get_slot. Qed.

Lemma valid_none t : valid_slot t None.
Proof. done. Qed.

Lemma slot_aim P t i s : table_wf t -> sessions_aim P t -> t_sessions t !! i = Some s -> s_used s = true ->
  P (s_backend_addr s) (s_backend_addr_len s).
Proof. intros Hwf Ha Hs Hu. destruct (slot_contents t i s Hwf Hs Hu) as [_ Hc]. by apply (Ha _ _ Hc). Qed.

Lemma session_at_slot t i s : t_sessions t !! i = Some s -> session_at t i = s.
Proof. unfold session_at. by intros ->. Qed.

(** Refreshing an entry in place. *)
Lemma touch_updates P t i s now : table_wf t -> t_sessions t !! i = Some s -> s_used s = true ->
  updates P 0 t (set_sessions t (alter (touched now) i (t_sessions t))) /\
  t_sessions (set_sessions t (alter (touched now) i (t_sessions t))) !! i = Some (touched now s).
Proof.
  intros Hwf Hs Hu. destruct (touch_spec t i s now Hwf Hs Hu) as (Hwf' & Hc).
  cbn [t_sessions set_sessions]. rewrite list_lookup_alter_eq, Hs. split; [|done]. split; [done|done|cbn; lia|].
  intros Ha k x Hx. rewrite Hc in Hx. apply lookup_insert_Some in Hx as [[_ <-]|[_ Hx]]; [|by apply (Ha k)].
  by apply (slot_aim P t i s).
Qed.
End routes.

(** ** Lemmas: encoded connection IDs *)

Section encoded.
Context `{KeyedHash} (aes_128_ctr : list Z -> list Z -> list Z -> option (list Z)).
Context (packet : ptr) (packet_len : Z) (readable_packet : readable packet packet_len) (packet_bytes : bytes_ok (p_buf packet)).

(** The addresses of the routes of a configuration. *)
Definition backend_of_config (config : qsr_config) (addr : list Z) (len : Z) : Prop :=
  qsr_route_table_has_backend (c_routes config) addr len = true.

Lemma try_decode_no_fault codec : no_fault (try_decode_dcid_server_id aes_128_ctr codec packet packet_len).
Proof using readable_packet packet_bytes.
  unfold try_decode_dcid_server_id. destruct (_ || _) eqn:E; [done|]. bool_to_prop.
  apply no_fault_bind; [apply (load_no_fault _ packet_len); [done|lia]|]. intros b0 _. destruct (negb _).
  - destruct (_ || _) eqn:E1; [done|]. bool_to_prop.
    apply no_fault_bind; [apply (load_no_fault _ packet_len); [done|lia]|]. intros n _.
    destruct (_ || _) eqn:E2; [done|]. bool_to_prop. unfold QSR_CID_ENCODED_LEN in *.
    apply decode_no_fault. apply (readable_sub _ (packet_len - 6)); [apply readable_add; [done|lia]|lia].
  - destruct (_ || _) eqn:E1; [done|]. bool_to_prop. unfold QSR_CID_ENCODED_LEN in *.
    apply decode_no_fault. apply (readable_sub _ (packet_len - 1)); [apply readable_add; [done|lia]|lia].
Qed.

Lemma encoded_updates config t key now : table_wf t -> routes_live (c_routes config) ->
  exists t' r, lookup_encoded_cid aes_128_ctr config t packet packet_len key now = Some (t', r) /\
    updates (backend_of_config config) 1 t t' /\ valid_slot t' r /\ (r = None -> t' = t) /\
    (cc_enabled (c_cid_codec config) = false -> t' = t /\ r = None).
Proof using readable_packet packet_bytes.
  intros Hwf Hrl. unfold lookup_encoded_cid.
  assert (Hno : forall P : Prop, exists t' r, Some (t, None) = Some (t', r) /\ updates (backend_of_config config) 1 t t' /\ valid_slot t' r /\
    (r = None -> t' = t) /\ (P -> t' = t /\ r = None)) by (intros P; exists t, None; split_and!; [done|by apply updates_refl|done..]).
  destruct (cc_enabled (c_cid_codec config)) eqn:Ec; [|apply Hno]. cbn [negb].
  destruct (attempt_ok _ (try_decode_no_fault (c_cid_codec config))) as [d ->]. cbn [mbind option_bind].
  destruct d as [server_id|]; [|apply Hno].
  destruct (qsr_route_table_lookup_by_server_id _ _) as [j|] eqn:El; [|apply Hno].
  pose proof (server_id_live _ _ _ Hrl El) as Hj. destruct (rl_resolved _ Hrl j Hj) as [-> Hb]. cbn [negb].
  set (route := route_at (c_routes config) j) in *.
  destruct (bind_tuple_puts t key (r_backend_addr route) (r_backend_addr_len route) now Hwf) as (t' & -> & Hpu & Hno').
  cbn [mbind option_bind]. exists t', (qsr_session_table_get t' key).
  split_and!; [done|by eapply puts_updates|apply get_valid, Hpu|done|done].
Qed.
End encoded.

(** ** Lemmas: Initials *)

(** What OpenSSL documents of an AES-GCM decryption: as many bytes as the ciphertext has. *)
Class CryptoOutput `{Crypto} := {
  gcm_open_output : forall key nonce aad ciphertext tag plaintext,
    evp_gcm_open key nonce aad ciphertext tag = Some plaintext -> Zlen plaintext = Zlen ciphertext /\ bytes_ok plaintext;
}.

Lemma decrypt_output `{CryptoOutput} p len i plaintext : readable p len ->
  qsr_quic_decrypt_initial p len i = Ok plaintext -> Zlen plaintext < 2 ^ 32 /\ bytes_ok plaintext.
Proof.
  intros (? & ? & ?) Hd. unfold qsr_quic_decrypt_initial in Hd. inv_ok. cbv zeta in Hd. inv_ok. unfold aes_gcm_open in Hd. inv_ok.
  destruct (evp_gcm_open _ _ _ _ _) as [x|] eqn:Eo; [|done]. injection Hd as <-. destruct (gcm_open_output _ _ _ _ _ _ Eo) as [Hl Hb].
  split; [|done]. rewrite Hl. bool_to_prop. unfold INT_MAX in *.
  match goal with E : load_bytes _ (usub _ 16) = Ok _ |- _ => apply load_bytes_length in E; lia end.
Qed.

Section initial.
Context `{KeyedHash} `{Crypto} `{!CryptoOutput}.

(** A stream is routed to the backend of the route its server name selects. *)
Lemma route_crypto_stream_spec config crypto : routes_live (c_routes config) -> stream_wf crypto -> bytes_ok (cs_data crypto) ->
  no_fault (route_crypto_stream config crypto) /\
  forall backend backend_len sni, route_crypto_stream config crypto = Ok (backend, backend_len, sni) ->
    exists j, qsr_route_table_lookup (c_routes config) (cstr sni) = Some j /\
      backend = r_backend_addr (route_at (c_routes config) j) /\ backend_len = r_backend_addr_len (route_at (c_routes config) j) /\
      backend_of_config config backend backend_len /\
      qsr_tls_client_hello_sni (Ptr (cs_data crypto) 0) (qsr_crypto_stream_contiguous_len crypto) = Ok sni.
Proof.
  intros Hrl Hwf Hb. pose proof (contiguous_len_spec crypto Hwf) as [Hc _]. pose proof (sw_len crypto Hwf). pose proof (sw_data crypto Hwf).
  unfold route_crypto_stream. destruct (_ =? 0); [done|].
  assert (Hrd : readable (Ptr (cs_data crypto) 0) (qsr_crypto_stream_contiguous_len crypto))
    by (unfold readable, QSR_MAX_CLIENT_HELLO_SIZE in *; cbn; lia).
  destruct (osim_eq _ _ (client_hello_sim _ _ Hrd Hb)) as [_ Hnf].
  destruct (qsr_tls_client_hello_sni _ _) as [sni|s|] eqn:Es; cbn [mbind outcome_bind]; [|done..].
  destruct (qsr_route_table_lookup _ _) as [j|] eqn:El; [|done]. pose proof (lookup_live _ _ _ Hrl El) as Hj.
  destruct (rl_resolved _ Hrl j Hj) as [-> Hbk]. cbn [negb]. split; [done|]. intros b l n [= <- <- <-].
  exists j. by split_and!.
Qed.

(** The entry of a connection after one of its datagrams: the datagram is
    appended and its CRYPTO data merged. *)
Record buffered (pending pending' : qsr_pending_initial_table) (source : list Z) (source_len now : Z)
    (initial : qsr_quic_initial) (packet : ptr) (packet_len : Z) (i : nat) (e : qsr_pending_initial) : Prop := {
  bf_entry : pt_entries pending' !! i = Some e;
  bf_used : pe_used e = true;
  bf_wf : entry_wf e;
  bf_key : entry_key e = initial_key source source_len initial;
  bf_others : forall j, j <> i -> pt_entries pending' !! j = pt_entries pending !! j;
  bf_added : exists e0 plaintext, got pending source source_len initial now i e0 /\
    qsr_quic_decrypt_initial packet packet_len initial = Ok plaintext /\
    pe_crypto e = qsr_crypto_stream_merge (pe_crypto e0) (qsr_quic_extract_crypto (Ptr plaintext 0) (Zlen plaintext) qsr_crypto_stream_init).1 /\
    entry_packets e = entry_packets e0 ++ (if takes_packet e0 (range packet packet_len) then [range packet packet_len] else []);
}.

Lemma cid_key_field a n b m a' b' : field a n = field a' n -> field b m = field b' m ->
  qsr_session_cid_key (Some a) n (Some b) m = qsr_session_cid_key (Some a') n (Some b') m.
Proof. unfold qsr_session_cid_key. cbn [default]. change (id ?x) with x. by intros -> ->. Qed.

Lemma pending_add_spec t i e packet len crypto : pending_wf t -> pt_entries t !! i = Some e -> pe_used e = true ->
  stream_wf crypto -> bytes_ok (cs_data crypto) -> Zlen packet = len ->
  let t' := pending_add t i packet len crypto in
  pending_wf t' /\ (forall j, j <> i -> pt_entries t' !! j = pt_entries t !! j) /\
  exists e', pt_entries t' !! i = Some e' /\ pe_used e' = true /\ entry_wf e' /\ entry_key e' = entry_key e /\ pe_cid_key e' = pe_cid_key e /\
    pe_crypto e' = qsr_crypto_stream_merge (pe_crypto e) crypto /\
    entry_packets e' = entry_packets e ++ (if takes_packet e packet then [packet] else []).
Proof.
  intros Hwf He Hu Hc Hb <-. cbv zeta. unfold pending_add. rewrite (list_alter_at _ _ _ e He).
  pose proof (pending_used t i e Hwf He Hu) as Hew.
  destruct (append_spec e packet Hew) as (Hw1 & Hu1 & Hk1 & Hc1 & _ & Hck1 & Hp1).
  set (e1 := pending_initial_append_packet e packet (Zlen packet)) in *.
  pose proof (ew_crypto e1 Hw1) as Hs1. pose proof (ew_crypto_bytes e1 Hw1) as Hb1.
  destruct (merge_spec (pe_crypto e1) crypto Hs1 Hc) as [Hms _].
  destruct (set_crypto_wf e1 _ Hw1 Hms (merge_bytes _ _ Hb1 Hb)) as [Hw2 Hp2].
  set (e2 := pending_set_crypto e1 _) in *. cbn [pt_entries pending_set_entries].
  assert (Hk2 : entry_key e2 = entry_key e) by exact Hk1. assert (Hu2 : pe_used e2 = true) by (cbn; congruence).
  split; [by apply (pending_update_wf t i e)|]. split; [intros j Hj; by rewrite list_lookup_insert_ne|].
  exists e2. rewrite list_lookup_insert_eq by (by apply lookup_lt_Some in He).
  split_and!; [done..|by cbn; rewrite Hc1|by rewrite Hp2].
Qed.

Lemma route_initial_spec config pending packet packet_len initial source source_len now :
  routes_live (c_routes config) -> pending_wf pending -> readable packet packet_len -> bytes_ok (p_buf packet) ->
  qsr_quic_parse_initial packet packet_len = Ok initial -> Zlen source = SOCKADDR_SIZE -> 0 <= source_len <= SOCKADDR_SIZE ->
  let '(pending', entry, cid_key, routed) :=
    route_initial_datagram config pending packet packet_len initial source source_len now in
  pending_wf pending' /\ no_fault routed /\
  cid_key = qsr_session_cid_key (Some (i_dcid initial)) (i_dcid_len initial) (Some (i_scid initial)) (i_scid_len initial) /\
  match entry with
  | Some i => exists e, buffered pending pending' source source_len now initial packet packet_len i e /\
      routed = route_crypto_stream config (pe_crypto e)
  | None => pending' = pending /\ exists s, routed = Fail s
  end.
Proof.
  intros Hrl Hwf Hr Hb Hp Hs Hsl. destruct (parse_initial_spec packet packet_len initial Hr Hb Hp) as [Hi _].
  pose proof Hr as (? & ? & ?).
  assert (Hfit : initial_fits source source_len initial) by (destruct Hi; unfold initial_fits, QSR_MAX_QUIC_CID_LEN; split_and!; (done || lia)).
  unfold route_initial_datagram.
  assert (Hdf : no_fault (qsr_quic_decrypt_initial packet packet_len initial)) by (destruct Hi; apply decrypt_no_fault; [done|lia..]).
  destruct (qsr_quic_decrypt_initial packet packet_len initial) as [plaintext|s|] eqn:Ed; [|split_and!; [done..|by eexists]|done].
  destruct (decrypt_output packet packet_len initial plaintext Hr Ed) as [Hpl Hpb]. pose proof (Zlen_nonneg plaintext).
  assert (Hrp : readable (Ptr plaintext 0) (Zlen plaintext)) by (unfold readable; cbn; lia).
  destruct (extract_crypto_wf (Ptr plaintext 0) (Zlen plaintext) Hrp Hpb qsr_crypto_stream_init init_wf_stream) as [Hcw Hcf].
  pose proof (extract_crypto_bytes (Ptr plaintext 0) (Zlen plaintext) qsr_crypto_stream_init Hpb init_bytes) as Hcb.
  destruct (qsr_quic_extract_crypto _ _ _) as [crypto st] eqn:Ee. cbn [fst snd] in *.
  destruct st as [[]|s|]; [|split_and!; [done..|by eexists]|done].
  pose proof (pending_get_spec pending source source_len initial now Hwf Hfit) as Hget.
  destruct (pending_initial_get _ _ _ _ _) as [t1 i]. destruct Hget as (Hwf1 & e0 & Hgot & Hent & Hic & Hw0 & Hu0 & Hk0).
  assert (He0 : pt_entries t1 !! i = Some e0).
  { rewrite Hent. apply list_lookup_insert_eq. by rewrite (pw_length pending Hwf). }
  assert (Hrl2 : Zlen (range packet packet_len) = packet_len) by (unfold range, Zlen in *; rewrite length_take, length_drop; lia).
  destruct (pending_add_spec t1 i e0 (range packet packet_len) packet_len crypto Hwf1 He0 Hu0 Hcw Hcb Hrl2)
    as (Hwf2 & Hoth & e & He & Hue & Hwe & Hke & Hcke & Hce & Hpe).
  rewrite He. cbn [default]. change (id e) with e.
  destruct (route_crypto_stream_spec config (pe_crypto e) Hrl (ew_crypto e Hwe) (ew_crypto_bytes e Hwe)) as [Hrf _].
  split; [done|]. split; [done|]. split.
  - rewrite (ew_cid_key e Hwe). rewrite Hk0 in Hke. unfold entry_key, initial_key in Hke. injection Hke as _ Hd Hsc.
    destruct Hfit as (_ & _ & Hd1 & Hd2 & Hs1 & Hs2).
    pose proof (ew_dcid e Hwe). pose proof (ew_dcid_len e Hwe). pose proof (ew_scid e Hwe). pose proof (ew_scid_len e Hwe).
    apply field_eq_iff in Hd as [<- Hd]; [|lia..]. apply field_eq_iff in Hsc as [<- Hsc]; [|lia..].
    unfold mem_eq in *. bool_to_prop. by apply cid_key_field.
  - exists e. split; [|done]. split; [done..|congruence| |].
    + intros j Hj. rewrite Hoth by done. rewrite Hent. by rewrite list_lookup_insert_ne.
    + exists e0, plaintext. rewrite Ee. by split_and!.
Qed.

(** *** A ClientHello in several datagrams *)

(** Nothing but bytes of the message [m], at their places. *)
Definition part_of (m : list Z) (crypto : qsr_crypto_stream) : Prop :=
  forall i b, stream_at crypto i = Some b -> m !! i = Some b.

(** What the route of a server name gives. *)
Definition route_of (config : qsr_config) (name : list Z) : outcome (list Z * Z * list Z) :=
  match qsr_route_table_lookup (c_routes config) (cstr name) with
  | Some j => Ok (r_backend_addr (route_at (c_routes config) j), r_backend_addr_len (route_at (c_routes config) j), name)
  | None => Fail QSR_ERR_NOT_FOUND
  end.

(** A stream that is part of a ClientHello is routed by that ClientHello's name
    or not yet; when all of it is there, it is routed. *)
(** The bytes of [m] received without a gap are its first [n]. *)
Definition received_upto (m : list Z) (crypto : qsr_crypto_stream) (n : nat) : Prop :=
  (n <= length m)%nat /\ (forall i, (i < n)%nat -> is_Some (stream_at crypto i)) /\ stream_at crypto n = None.

(** [client_hello_sni] finds nothing in an empty message. *)
Lemma empty_no_name name : client_hello_sni [] <> Ok name.
Proof. done. Qed.

Lemma route_part config crypto m name : routes_live (c_routes config) -> stream_wf crypto -> bytes_ok (cs_data crypto) ->
  Zlen m <= QSR_MAX_CLIENT_HELLO_SIZE -> client_hello_sni m = Ok name -> part_of m crypto ->
  (forall x, route_crypto_stream config crypto = Ok x -> route_of config name = Ok x) /\
  ((forall i, (i < length m)%nat -> is_Some (stream_at crypto i)) -> route_crypto_stream config crypto = route_of config name) /\
  exists n, received_upto m crypto n /\
    (client_hello_sni (take n m) = Ok name -> route_crypto_stream config crypto = route_of config name) /\
    (client_hello_sni (take n m) <> Ok name -> exists s, route_crypto_stream config crypto = Fail s).
Proof.
  intros Hrl Hwf Hb Hm Hname Hpart. destruct (contiguous_prefix m crypto Hwf Hm Hpart) as (Hk & Htake & Hall).
  unfold route_crypto_stream. set (k := qsr_crypto_stream_contiguous_len crypto) in *.
  pose proof (sw_data crypto Hwf) as Hsd.
  assert (Hrd : readable (Ptr (cs_data crypto) 0) k) by (unfold readable, QSR_MAX_CLIENT_HELLO_SIZE in *; cbn; lia).
  destruct (osim_eq _ _ (client_hello_sim _ _ Hrd Hb)) as [Hs Hnf]. rewrite Hs in Hnf. unfold range in Hs, Hnf. cbn [p_off p_buf] in Hs, Hnf.
  rewrite drop_0, Htake in Hs, Hnf.
  assert (Hres : match qsr_route_table_lookup (c_routes config) (cstr name) with
      | Some index => if negb (r_backend_resolved (route_at (c_routes config) index)) then Fail QSR_ERR_INVALID
          else Ok (r_backend_addr (route_at (c_routes config) index), r_backend_addr_len (route_at (c_routes config) index), name)
      | None => Fail QSR_ERR_NOT_FOUND end = route_of config name).
  { unfold route_of. destruct (qsr_route_table_lookup _ _) as [j|] eqn:El; [|done].
    by destruct (rl_resolved _ Hrl j (lookup_live _ _ _ Hrl El)) as [-> _]. }
  assert (Hpre : forall name', client_hello_sni (take (Z.to_nat k) m) = Ok name' -> name' = name).
  { intros name' En. apply (client_hello_sni_more _ (drop (Z.to_nat k) m)) in En; rewrite take_drop in *; [congruence|done]. }
  split; [|split].
  - destruct (k =? 0) eqn:E0; [done|]. intros x. rewrite Hs.
    destruct (client_hello_sni (take (Z.to_nat k) m)) as [name'|s|] eqn:En; cbn [mbind outcome_bind]; [|done..].
    rewrite (Hpre name' eq_refl). by rewrite Hres.
  - intros Hcov. specialize (Hall Hcov). assert (Hne : m <> []) by (intros ->; done).
    destruct (k =? 0) eqn:E0; bool_to_prop; [destruct m; [done|unfold Zlen in *; cbn in *; lia]|].
    rewrite Hs, take_ge by (unfold Zlen in Hall; lia). rewrite Hname. cbn [mbind outcome_bind]. exact Hres.
  - exists (Z.to_nat k). split.
    { destruct (contiguous_len_spec crypto Hwf) as [_ Hgot]. fold k in Hgot. unfold Zlen in Hk. split; [lia|]. split; [exact Hgot|].
      by apply contiguous_len_missing. }
    destruct (k =? 0) eqn:E0; bool_to_prop.
    + rewrite E0. cbn [Z.to_nat]. rewrite take_0. split; [intros He; by destruct (empty_no_name name)|]. by eexists.
    + rewrite Hs. destruct (client_hello_sni (take (Z.to_nat k) m)) as [name'|s|] eqn:En; cbn [mbind outcome_bind].
      * specialize (Hpre name' eq_refl) as ->. split; [by rewrite Hres|done].
      * split; [done|]. by exists s.
      * done.
Qed.

(** The frames of one datagram added to a stream that is part of [m]. *)
Lemma merge_part m crypto fs : stream_wf crypto -> Forall frame_ok fs -> Forall (piece_of m) fs -> part_of m crypto ->
  Zlen (fs ≫= encode_frame) <= QSR_MAX_CLIENT_HELLO_SIZE ->
  let merged := qsr_crypto_stream_merge crypto
    (qsr_quic_extract_crypto (Ptr (fs ≫= encode_frame) 0) (Zlen (fs ≫= encode_frame)) qsr_crypto_stream_init).1 in
  part_of m merged /\ (forall i, is_Some (stream_at crypto i) \/ Exists (fun f => covers f i) fs -> is_Some (stream_at merged i)).
Proof.
  intros Hwf Hok Hp Hpart Hsz. cbv zeta. pose proof (extract_crypto_enc fs [] qsr_crypto_stream_init) as He. rewrite app_nil_r in He.
  rewrite He by (done || constructor || (unfold QSR_MAX_CLIENT_HELLO_SIZE in *; lia)). cbn [fst].
  destruct (add_packet_spec crypto fs Hok Hwf) as [_ Ha]. unfold add_packet in Ha. split.
  - intros i b. rewrite Ha. destruct (foldl overlay _ fs i) as [c|] eqn:E; [|apply Hpart]. intros [= <-].
    by apply (overlays_piece m fs i Hp (fun _ => None)).
  - intros i Hc. rewrite Ha. destruct (foldl overlay _ fs i) as [c|] eqn:E; [by eexists|]. destruct Hc as [Hc|Hc]; [done|].
    destruct (overlays_some fs i (fun _ => None)) as [x Hx]; [by right|congruence].
Qed.

Lemma got_part m pending source source_len initial now i e :
  (forall j f, pt_entries pending !! j = Some f -> pe_used f = true -> entry_key f = initial_key source source_len initial ->
    part_of m (pe_crypto f)) ->
  got pending source source_len initial now i e -> part_of m (pe_crypto e).
Proof.
  intros Hall [f Hf Hu Hk|_ _]; [by apply (Hall i f)|]. intros j b. cbn [pe_crypto pending_new]. by rewrite stream_at_init.
Qed.
End initial.

Section client_hello.
Context `{KeyedHash}.

(** The datagrams of a connection whose ClientHello is [m]. *)
Lemma initial_routed_spec `{Crypto} `{!CryptoOutput} config pending packet packet_len initial source source_len now m name fs :
  routes_live (c_routes config) -> pending_wf pending -> readable packet packet_len -> bytes_ok (p_buf packet) ->
  qsr_quic_parse_initial packet packet_len = Ok initial -> Zlen source = SOCKADDR_SIZE -> 0 <= source_len <= SOCKADDR_SIZE ->
  Zlen m <= QSR_MAX_CLIENT_HELLO_SIZE -> client_hello_sni m = Ok name ->
  qsr_quic_decrypt_initial packet packet_len initial = Ok (fs ≫= encode_frame) ->
  Forall frame_ok fs -> Forall (piece_of m) fs -> existsb is_crypto fs = true ->
  Zlen (fs ≫= encode_frame) <= QSR_MAX_CLIENT_HELLO_SIZE ->
  (forall j f, pt_entries pending !! j = Some f -> pe_used f = true -> entry_key f = initial_key source source_len initial ->
    part_of m (pe_crypto f)) ->
  exists pending' i e cid_key routed,
    route_initial_datagram config pending packet packet_len initial source source_len now = (pending', Some i, cid_key, routed) /\
    pending_wf pending' /\ no_fault routed /\ buffered pending pending' source source_len now initial packet packet_len i e /\
    part_of m (pe_crypto e) /\ (forall n, Exists (fun f => covers f n) fs -> is_Some (stream_at (pe_crypto e) n)) /\
    (forall x, routed = Ok x -> route_of config name = Ok x) /\
    ((forall n, (n < length m)%nat -> is_Some (stream_at (pe_crypto e) n)) -> routed = route_of config name) /\
    exists n, received_upto m (pe_crypto e) n /\
      (client_hello_sni (take n m) = Ok name -> routed = route_of config name) /\
      (client_hello_sni (take n m) <> Ok name -> exists s, routed = Fail s).
Proof.
  intros Hrl Hwf Hr Hb Hp Hs Hsl Hm Hname Hd Hok Hpc Hex Hsz Hall.
  pose proof (route_initial_spec config pending packet packet_len initial source source_len now Hrl Hwf Hr Hb Hp Hs Hsl) as Hspec.
  destruct (route_initial_datagram _ _ _ _ _ _ _ _) as [[[pending' entry] cid_key] routed] eqn:Er.
  destruct Hspec as (Hwf' & Hnf & _ & Hcase). destruct entry as [i|].
  2: { exfalso. unfold route_initial_datagram in Er. rewrite Hd in Er.
       pose proof (extract_crypto_enc fs [] qsr_crypto_stream_init) as He. rewrite app_nil_r in He.
       rewrite He in Er by (done || constructor || (unfold QSR_MAX_CLIENT_HELLO_SIZE in *; lia)). rewrite Hex in Er.
       destruct (pending_initial_get _ _ _ _ _). congruence. }
  destruct Hcase as (e & Hbf & ->). destruct Hbf as [He Hu Hew Hk Ho (e0 & pl & Hgot & Hd' & Hc & Hpk)].
  rewrite Hd in Hd'. injection Hd' as <-. pose proof (got_part m _ _ _ _ _ _ _ Hall Hgot) as Hpart0.
  assert (Hwf0 : stream_wf (pe_crypto e0)).
  { destruct Hgot as [f Hf Huf _|_ _]; [apply (ew_crypto f), (pending_used pending i f Hwf Hf Huf)|apply init_wf_stream]. }
  destruct (merge_part m (pe_crypto e0) fs Hwf0 Hok Hpc Hpart0 Hsz) as [Hpart Hcov]. rewrite <- Hc in Hpart, Hcov.
  destruct (route_part config (pe_crypto e) m name Hrl (ew_crypto e Hew) (ew_crypto_bytes e Hew) Hm Hname Hpart) as [Hx Hy].
  exists pending', i, e, cid_key, (route_crypto_stream config (pe_crypto e)).
  split; [done|]. split; [done|]. split; [done|]. split; [split; [done..|by exists e0, (fs ≫= encode_frame)]|]. split; [done|].
  split; [intros n Hn; apply Hcov; by right|done].
Qed.
End client_hello.

(** ** Properties *)

(** [split_listen] accepts exactly the strings [host:port] - the port being
    what follows the last colon - whose parts fit the two buffers with their
    terminators, and returns the parts. *)
Theorem split_listen_exact listen host_len port_len host port :
  split_listen listen host_len port_len = Ok (host, port) <->
  listen = host ++ COLON :: port /\ COLON ∉ port /\ Zlen host < host_len /\ Zlen port < port_len.
Proof.
  assert (Hspec : forall s, match strrchr s COLON with
    | Some i => s = take i s ++ COLON :: drop (i + 1) s /\ COLON ∉ drop (i + 1) s /\ length (take i s) = i
    | None => COLON ∉ s end).
  { induction s as [|x s IH]; [by apply not_elem_of_nil|]. cbn [strrchr]. destruct (strrchr s COLON) as [i|].
    - destruct IH as (He & Hn & Hl). cbn [take drop Nat.add length app]. split_and!; [by f_equal|done|by rewrite Hl].
    - destruct (x =? COLON) eqn:E; bool_to_prop; [|by rewrite not_elem_of_cons]. subst. cbn. split_and!; done. }
  unfold split_listen. pose proof (Hspec listen) as Hl. split.
  - destruct (strrchr listen COLON) as [i|]; [|done]. destruct Hl as (He & Hn & Hi). destruct (_ || _) eqn:E; [done|].
    intros [= <- <-]. bool_to_prop. unfold Zlen in *. rewrite Hi. split_and!; [done..|lia|lia].
  - intros (-> & Hn & Hh & Hp). destruct (strrchr _ COLON) as [i|]; [|destruct Hl; apply elem_of_app; right; left].
    destruct Hl as (He & Hn' & Hi). assert (i = length host) as ->.
    { destruct (Nat.lt_trichotomy i (length host)) as [Hlt|[?|Hlt]]; [|done|].
      - destruct Hn'. rewrite drop_app_le by lia. apply elem_of_app; right; left.
      - destruct Hn. assert (Hx : (host ++ COLON :: port) !! i = Some COLON).
        { rewrite He. rewrite lookup_app_r by lia. by rewrite Hi, Nat.sub_diag. }
        rewrite lookup_app_r in Hx by lia. replace (i - length host)%nat with (S (i - length host - 1)) in Hx by lia.
        cbn in Hx. by eapply list_elem_of_lookup_2. }
    rewrite take_app_length, drop_app_ge by lia. replace (length host + 1 - length host)%nat with 1%nat by lia. cbn [drop].
    rewrite drop_0. unfold Zlen in *. rewrite (proj2 (Z.leb_gt host_len _)), (proj2 (Z.leb_gt port_len _)) by lia. done.
Qed.

Section properties.
Context `{KeyedHash}.

(** The short-header lookup, which skips the lengths missing from the mask,
    returns what a scan of all lengths would: the entry of the longest prefix of
    8 to 20 bytes behind the first byte that is a stored connection ID. It reads
    nothing outside the datagram. *)
Theorem short_header_lookup_longest packet packet_len t :
  readable packet packet_len -> bytes_ok (p_buf packet) -> table_wf t ->
  lookup_short_header_cid t packet packet_len =
    Some (if short_header packet && (9 <=? packet_len)
          then longest_cid packet t (Z.to_nat (Z.min (packet_len - 1) 20 - 7)) else None).
Proof. intros Hr Hb Hwf. by apply lookup_short_header_spec. Qed.

(** C16: Routing the datagrams of a connection whose ClientHello is the message
    [m], however it is cut over datagrams: when what was buffered before is part of [m], so
    is what is buffered now, with the bytes of this datagram added; the datagram
    is never routed anywhere but to the route of the name in [m], and it is
    routed there as soon as every byte of [m] has come. Other connections'
    entries are not touched unless the table is full. *)
Theorem initial_datagram_routed `{Crypto} `{!CryptoOutput} config pending packet packet_len initial source source_len now m name fs :
  routes_live (c_routes config) -> pending_wf pending -> readable packet packet_len -> bytes_ok (p_buf packet) ->
  qsr_quic_parse_initial packet packet_len = Ok initial -> Zlen source = SOCKADDR_SIZE -> 0 <= source_len <= SOCKADDR_SIZE ->
  Zlen m <= QSR_MAX_CLIENT_HELLO_SIZE -> client_hello_sni m = Ok name ->
  qsr_quic_decrypt_initial packet packet_len initial = Ok (fs ≫= encode_frame) ->
  Forall frame_ok fs -> Forall (piece_of m) fs -> existsb is_crypto fs = true ->
  Zlen (fs ≫= encode_frame) <= QSR_MAX_CLIENT_HELLO_SIZE ->
  (forall j f, pt_entries pending !! j = Some f -> pe_used f = true -> entry_key f = initial_key source source_len initial ->
    part_of m (pe_crypto f)) ->
  exists pending' i e cid_key routed,
    route_initial_datagram config pending packet packet_len initial source source_len now = (pending', Some i, cid_key, routed) /\
    pending_wf pending' /\ no_fault routed /\ buffered pending pending' source source_len now initial packet packet_len i e /\
    part_of m (pe_crypto e) /\ (forall n, Exists (fun f => covers f n) fs -> is_Some (stream_at (pe_crypto e) n)) /\
    (forall x, routed = Ok x -> route_of config name = Ok x) /\
    ((forall n, (n < length m)%nat -> is_Some (stream_at (pe_crypto e) n)) -> routed = route_of config name).
Proof.
  intros. destruct (initial_routed_spec config pending packet packet_len initial source source_len now m name fs)
    as (pending' & i & e & cid_key & routed & ? & ? & ? & ? & ? & ? & ? & ? & _); [done..|].
  by exists pending', i, e, cid_key, routed.
Qed.
End properties.

(** ** Witnesses *)

Section examples.
Local Existing Instance sum_hash.

(** A toy suite: sealing appends a zero tag, keys and masks are zeros. *)
#[local] Instance plain_crypto : Crypto := {|
  evp_hkdf_extract _ _ := Some (zeros 32);
  evp_hkdf_expand _ _ n := Some (zeros n);
  evp_aes_ecb _ _ := Some (zeros 16);
  evp_gcm_open _ _ _ c tag := if bytes_okb c && bool_decide (tag = zeros 16) then Some c else None;
|}.

#[local] Instance plain_output : CryptoOutput.
Proof.
  split. intros key nonce aad c tag p. cbn. destruct (bytes_okb c) eqn:E; [|done]. cbn. case_bool_decide; [|done].
  intros [= <-]. split; [done|]. by apply bytes_okb_ok.
Qed.

(** A datagram of 1200 bytes: an Initial with the whole ClientHello, and padding behind it. *)
Definition demo_crypto_frames : list quic_frame := [QuicFrames.Crypto (0, 0) 1 demo_hello].

Definition demo_datagram : list Z :=
  let payload := demo_crypto_frames ≫= encode_frame in
  let packet := [0xc0; 0; 0; 0; 1; 8; 1; 2; 3; 4; 5; 6; 7; 8; 0; 0] ++ be_bytes 2 (0x4000 + Zlen payload + 17) ++ [0] ++
                payload ++ zeros 16 in
  packet ++ zeros (1200 - Zlen packet).

Definition demo_initial_header : qsr_quic_initial :=
  match qsr_quic_parse_initial (Ptr demo_datagram 0) 1200 with Ok i => i | _ => demo_initial end.

Lemma demo_datagram_parsed : qsr_quic_parse_initial (Ptr demo_datagram 0) 1200 = Ok demo_initial_header.
Proof. vm_compute. reflexivity. Qed.

Lemma demo_datagram_decrypted :
  qsr_quic_decrypt_initial (Ptr demo_datagram 0) 1200 demo_initial_header = Ok (demo_crypto_frames ≫= encode_frame).
Proof. vm_compute. reflexivity. Qed.

(** The route of the name in it, resolved. *)
Lemma demo_routes_live : exists t, routes_live t /\ qsr_route_table_lookup t (cstr (sni_name demo_host)) = Some 0 /\
  backend_of (route_at t 0) = (4, [2; 0; 1; 187]) /\ qsr_route_table_lookup_by_server_id t 7 = Some 0.
Proof.
  destruct demo_configured as [t Ht]. destruct (configure_spec [demo_entry] ltac:(by repeat constructor) t Ht) as (Hwf & Hc & Hin & _).
  pose proof (resolve_spec demo_getaddrinfo t Hwf) as Hs.
  destruct (qsr_route_table_resolve demo_getaddrinfo t) as [t' st] eqn:Er. destruct Hs as (Hwf' & Hlk & Hids & _ & Hst).
  assert (Ha : forall r, resolve_addr demo_getaddrinfo r = Some [2; 0; 1; 187]) by done.
  destruct st; try done.
  2: { destruct Hst as (j & _ & Hx). by rewrite Ha in Hx. }
  exists t'. split; [apply (resolve_live demo_getaddrinfo t t' Hwf Er)|]. destruct (Hin 0%nat demo_entry eq_refl) as (_ & _ & _ & Hl & Hd).
  split; [rewrite Hlk; by apply Hl|]. split; [|rewrite Hids; by apply Hd]. destruct Hst as [Hst _]. destruct (Hst 0) as (_ & a & Ha0 & _ & Hb); [rewrite Hc; z_concrete|].
  rewrite Ha in Ha0. by injection Ha0 as <-.
Qed.

Lemma no_pending j f : pt_entries pending_table0 !! j = Some f -> pe_used f = false.
Proof. unfold pending_table0. cbn [pt_entries]. by intros [-> _]%lookup_replicate. Qed.

Lemma demo_crypto_frames_ok : Forall frame_ok demo_crypto_frames /\ Forall (piece_of demo_hello) demo_crypto_frames.
Proof.
  split; (constructor; [|constructor]).
  - cbn [frame_ok]. split_and!; [unfold fits, varint_fits; z_concrete|unfold fits, varint_fits; z_concrete|bytes_concrete|z_concrete].
  - exists [], []. by rewrite app_nil_r.
Qed.

Lemma demo_frames_cover n : (n < length demo_hello)%nat -> Exists (fun f => covers f n) demo_crypto_frames.
Proof. intros Hn. constructor. cbn in Hn |- *. lia. Qed.

Lemma short_header_lookup_longest_witness :
  lookup_short_header_cid demo3 (Ptr (0x40 :: zeros 30) 0) 31 = Some (longest_cid (Ptr (0x40 :: zeros 30) 0) demo3 13).
Proof.
  rewrite (short_header_lookup_longest (Ptr (0x40 :: zeros 30) 0) 31 demo3); [reflexivity|z_concrete|bytes_concrete|apply demo3_wf].
Defined.

Lemma initial_datagram_routed_witness :
  exists config pending' i cid_key,
    route_initial_datagram config pending_table0 (Ptr demo_datagram 0) 1200 demo_initial_header (demo_addr 1) 16 5 =
      (pending', Some i, cid_key, route_of config (sni_name demo_host)) /\
    exists a l, route_of config (sni_name demo_host) = Ok (a, l, sni_name demo_host).
Proof.
  destruct demo_routes_live as (t & Hlive & Hlk & _ & _). set (config := set_routes qsr_config_default t). exists config.
  destruct (initial_datagram_routed config pending_table0 (Ptr demo_datagram 0) 1200 demo_initial_header (demo_addr 1) 16 5
    demo_hello (sni_name demo_host) demo_crypto_frames) as (pending' & i & e & cid_key & routed & He & _ & _ & _ & _ & Hcov & _ & Hr).
  - exact Hlive.
  - exact pending_table0_wf.
  - z_concrete.
  - bytes_concrete.
  - exact demo_datagram_parsed.
  - reflexivity.
  - z_concrete.
  - z_concrete.
  - vm_compute. reflexivity.
  - exact demo_datagram_decrypted.
  - exact (proj1 demo_crypto_frames_ok).
  - exact (proj2 demo_crypto_frames_ok).
  - reflexivity.
  - z_concrete.
  - intros j f Hf Hu. by rewrite (no_pending j f Hf) in Hu.
  - exists pending', i, cid_key. split.
    + rewrite He, Hr; [done|]. intros n Hn. by apply Hcov, demo_frames_cover.
    + unfold route_of. change (c_routes config) with t. rewrite Hlk. by eexists _, _.
Defined.
End examples.
