(* ===== verification/Dataplane.v ===== *)
(** * The dataplane

    [src/udp.c]: what happens to one datagram in either direction
    ([handle_client_packet], [handle_backend_packet]) and the periodic sweeps.
    The answers of the kernel during a call are a parameter; what is sent,
    closed and logged is a list of events, in order. Operations return [None]
    for an access out of bounds or a table operation without a result. *)

From stdpp Require Import gmap.
From S2P Require Import Prelude Hash QuicInitial SessionKey Probe SessionTable FlowTable QuicFrames Hostname TlsClientHello RouteTable CidCodec Config QuicCrypto Runtime Sender Pending Upstream Routing.
#[local] Open Scope Z_scope.

(** ** Data *)

Definition QSR_SESSION_EXPIRE_MIN_SCAN : Z := 1024.
Definition QSR_SESSION_EXPIRE_MAX_SCAN : Z := 16384.

(** The epoll descriptor is in the answers of the kernel. *)
Record qsr_dataplane := {
  dp_runtime : qsr_runtime;
  dp_pending_initials : qsr_pending_initial_table;
  dp_sender : qsr_udp_sender;
  dp_main_fd : Z;
}.

Definition dp_set_runtime (dp : qsr_dataplane) (r : qsr_runtime) : qsr_dataplane := {|
  dp_runtime := r; dp_pending_initials := dp_pending_initials dp; dp_sender := dp_sender dp; dp_main_fd := dp_main_fd dp |}.
Definition dp_set_pending (dp : qsr_dataplane) (t : qsr_pending_initial_table) : qsr_dataplane := {|
  dp_runtime := dp_runtime dp; dp_pending_initials := t; dp_sender := dp_sender dp; dp_main_fd := dp_main_fd dp |}.
Definition dp_set_sender (dp : qsr_dataplane) (s : qsr_udp_sender) : qsr_dataplane := {|
  dp_runtime := dp_runtime dp; dp_pending_initials := dp_pending_initials dp; dp_sender := s; dp_main_fd := dp_main_fd dp |}.

Abbreviation dp_config dp := (run_config (dp_runtime dp)).
Abbreviation dp_sessions dp := (run_sessions (dp_runtime dp)).
Abbreviation dp_flows dp := (run_flows (dp_runtime dp)).
Definition dp_set_sessions (dp : qsr_dataplane) (t : qsr_session_table) : qsr_dataplane :=
  dp_set_runtime dp (run_set_sessions (dp_runtime dp) t).
Definition dp_set_flows (dp : qsr_dataplane) (t : qsr_flow_table) : qsr_dataplane :=
  dp_set_runtime dp (run_set_flows (dp_runtime dp) t).

(** What the kernel answers during one call: [socket] by family and attempt,
    and whether [epoll_ctl] adds a descriptor. *)
Record kernel := {
  k_socket : Z -> nat -> socket_result;
  k_epoll_add : Z -> nat -> bool;
}.

(** ** The send queue of the dataplane *)

(** The bytes a queued payload points at. *)
Definition payload_bytes (pending : qsr_pending_initial_table) (i : qsr_udp_send_item) : list Z :=
  match it_packet i with
  | RecvBuffer p => range p (it_packet_len i)
  | PendingPacket entry k =>
      field (default [] (pe_packets (default pending0 (pt_entries pending !! entry)) !! k)) (it_packet_len i)
  end.

(** What [sendmmsg] is given for an item: the bytes and the destination. *)
Definition datagram (pending : qsr_pending_initial_table) (i : qsr_udp_send_item) : list Z * list Z :=
  (payload_bytes pending i, field (it_dest i) (it_dest_len i)).

Definition send_events (pending : qsr_pending_initial_table) (runs : list send_batch) : list event :=
  (fun r => SendRun r.1 (datagram pending <$> r.2)) <$> runs.

(** [sender_enqueue(&dp->sender, ...)] *)
Definition dp_enqueue (dp : qsr_dataplane) (fd : Z) (packet : payload) (packet_len : Z) (dest : list Z) (dest_len : Z) :
    qsr_dataplane * list event :=
  let '(sender, runs) := sender_enqueue (dp_sender dp) fd packet packet_len dest dest_len in
  (dp_set_sender dp sender, send_events (dp_pending_initials dp) runs).

(** [sender_flush(&dp->sender)] *)
Definition dp_flush (dp : qsr_dataplane) : qsr_dataplane * list event :=
  let '(sender, runs) := sender_flush (dp_sender dp) in
  (dp_set_sender dp sender, send_events (dp_pending_initials dp) runs).

Section dataplane.
Context `{KeyedHash} `{Crypto} (aes_128_ctr : list Z -> list Z -> list Z -> option (list Z)).

Definition dp_flow_acquire (k : kernel) (dp : qsr_dataplane) (client : list Z) (client_len : Z) (backend : list Z)
    (backend_len now : Z) (sni scid : option (list Z)) (scid_len : Z) : option (qsr_dataplane * option nat * list event) :=
  '(flows, slot, ev) ← flow_acquire (k_socket k) (k_epoll_add k) (c_log_connections (dp_config dp)) (dp_flows dp)
    client client_len backend backend_len now sni scid scid_len;
  Some (dp_set_flows dp flows, slot, ev).

(** [&flows->flows[slot]] *)
Definition flow_at (dp : qsr_dataplane) (slot : nat) : qsr_flow := default flow_unused (ft_flows (dp_flows dp) !! slot).

(** ** Client to backend *)

(** The flow of the fast path, for a short header when encoded-CID routing is off. *)
Definition fast_flow (dp : qsr_dataplane) (packet : ptr) (packet_len : Z) (source : list Z) (source_len : Z) :
    option (option nat) :=
  if cc_enabled (c_cid_codec (dp_config dp)) || (packet_len <=? 0) then Some None else
  b0 ← peek packet 0;
  if Z.land b0 0x80 =? 0 then Some (qsr_flow_table_get (dp_flows dp) source source_len) else Some None.

Definition fast_path (dp : qsr_dataplane) (slot : nat) (packet : ptr) (packet_len now : Z) : qsr_dataplane * list event :=
  let dp := dp_set_flows dp (ft_set_flows (dp_flows dp) (alter (fun f => flow_touch f now) slot (ft_flows (dp_flows dp)))) in
  let flow := flow_at dp slot in
  dp_enqueue dp (f_fd flow) (RecvBuffer packet) packet_len (f_backend_addr flow) (f_backend_addr_len flow).

(** The session of an Initial: by the pair alias, then by the DCID alias. *)
Definition initial_session (config : qsr_config) (sessions : qsr_session_table) (initial : qsr_quic_initial) : option nat :=
  let pair_key := qsr_session_cid_key (Some (i_dcid initial)) (i_dcid_len initial) (Some (i_scid initial)) (i_scid_len initial) in
  match qsr_session_table_get sessions pair_key with
  | Some session => Some session
  | None => lookup_long_header_request_dcid config sessions initial
  end.

(** Bind the tuple to the backend of the session found by a connection ID. *)
Definition rebind (sessions : qsr_session_table) (cid_session : nat) (key : qsr_session_key) (now : Z) :
    option (qsr_session_table * option nat) :=
  let s := session_at sessions cid_session in
  sessions ← bind_client_tuple sessions key (AddrVal (s_backend_addr s)) (s_backend_addr_len s) now;
  Some (sessions, qsr_session_table_get sessions key).

(** The session of any other packet when the encoded lookup has found
    [session]: by the tuple, by a short-header connection ID, by a long-header one. *)
Definition other_session (config : qsr_config) (sessions : qsr_session_table) (session : option nat) (packet : ptr)
    (packet_len : Z) (key : qsr_session_key) (now : Z) : option (qsr_session_table * option nat) :=
  match session with
  | Some session => Some (sessions, Some session)
  | None =>
      match qsr_session_table_get sessions key with
      | Some session => Some (sessions, Some session)
      | None =>
          cid_session ← lookup_short_header_cid sessions packet packet_len;
          '(sessions, session) ←
            match cid_session with
            | Some cid_session => rebind sessions cid_session key now
            | None => Some (sessions, None)
            end;
          match session with
          | Some session => Some (sessions, Some session)
          | None =>
              cid_session ← lookup_long_header_dcid sessions packet packet_len;
              match cid_session with
              | Some cid_session =>
                  if session_configured config (session_at sessions cid_session)
                  then rebind sessions cid_session key now else Some (sessions, None)
              | None => Some (sessions, None)
              end
          end
      end
  end.

(** The whole classification: the table, the session and the parsed Initial. *)
Definition find_session (config : qsr_config) (sessions : qsr_session_table) (packet : ptr) (packet_len : Z)
    (key : qsr_session_key) (now : Z) : option (qsr_session_table * option nat * option qsr_quic_initial) :=
  '(sessions, session) ← lookup_encoded_cid aes_128_ctr config sessions packet packet_len key now;
  initial ← attempt (qsr_quic_parse_initial packet packet_len);
  match initial with
  | Some initial => Some (sessions, initial_session config sessions initial, Some initial)
  | None =>
      '(sessions, session) ← other_session config sessions session packet packet_len key now;
      Some (sessions, session, None)
  end.

(** [for (i = 0; i < packet_count; i++)]: queue the buffered datagrams of an entry. *)
Fixpoint enqueue_pending (dp : qsr_dataplane) (fd : Z) (entry : nat) (backend : list Z) (backend_len : Z) (l : list nat) :
    qsr_dataplane * list event :=
  match l with
  | [] => (dp, [])
  | i :: l =>
      let e := default pending0 (pt_entries (dp_pending_initials dp) !! entry) in
      let '(dp, ev) := dp_enqueue dp fd (PendingPacket entry i) (default 0 (pe_packet_lens e !! i)) backend backend_len in
      let '(dp, ev') := enqueue_pending dp fd entry backend backend_len l in
      (dp, ev ++ ev')
  end.

(** Queue, flush and forget an entry. *)
Definition flush_pending (dp : qsr_dataplane) (fd : Z) (entry : nat) (backend : list Z) (backend_len : Z) :
    qsr_dataplane * list event :=
  let e := default pending0 (pt_entries (dp_pending_initials dp) !! entry) in
  let '(dp, ev) := enqueue_pending dp fd entry backend backend_len (seq 0 (pe_packet_count e)) in
  let '(dp, ev') := dp_flush dp in
  (dp_set_pending dp (pending_initial_remove (dp_pending_initials dp) entry), ev ++ ev').

(** An Initial of an unknown connection whose backend is found: the flow, the
    tuple and the aliases it owns, and the datagrams buffered so far. *)
Definition open_connection (k : kernel) (dp : qsr_dataplane) (packet : ptr) (packet_len : Z) (source : list Z)
    (source_len now : Z) (key cid_key : qsr_session_key) (pending_entry : option nat) (backend : list Z) (backend_len : Z)
    (sni : list Z) : option (qsr_dataplane * list event) :=
  let entry := (fun i => default pending0 (pt_entries (dp_pending_initials dp) !! i)) <$> pending_entry in
  '(dp, flow, ev) ← dp_flow_acquire k dp source source_len backend backend_len now (Some sni)
    (pe_scid <$> entry) (default 0 (pe_scid_len <$> entry));
  match flow with
  | None => Some (dp, ev)
  | Some slot =>
      let flow := flow_at dp slot in
      '(sessions, status) ← qsr_session_table_put_owned (dp_sessions dp) key (AddrVal backend) backend_len now
        (Z.of_nat slot) (f_id flow);
      if negb (bool_decide (status = QSR_OK)) then Some (dp_set_sessions dp sessions, ev) else
      sessions ← put_alias sessions cid_key (AddrVal backend) backend_len now (Z.of_nat slot) (f_id flow);
      sessions ← learn_client_long_header_cids sessions packet packet_len (AddrVal backend) backend_len now
        (Z.of_nat slot) (f_id flow);
      let dp := dp_set_sessions dp sessions in
      match pending_entry with
      | Some entry => let '(dp, ev') := flush_pending dp (f_fd flow) entry backend backend_len in Some (dp, ev ++ ev')
      | None => Some (dp, ev)
      end
  end.

(** No session: drop, buffer, or open a connection. *)
Definition handle_unknown (k : kernel) (dp : qsr_dataplane) (packet : ptr) (packet_len : Z) (source : list Z)
    (source_len now : Z) (key : qsr_session_key) (initial : option qsr_quic_initial) : option (qsr_dataplane * list event) :=
  if packet_len <? QSR_MIN_INITIAL_DATAGRAM_SIZE then Some (dp, []) else
  match initial with
  | None => Some (dp, [])
  | Some initial =>
      let '(pending, entry, cid_key, routed) :=
        route_initial_datagram (dp_config dp) (dp_pending_initials dp) packet packet_len initial source source_len now in
      let dp := dp_set_pending dp pending in
      match routed with
      | Ok (backend, backend_len, sni) =>
          open_connection k dp packet packet_len source source_len now key cid_key entry backend backend_len sni
      | Fail _ => Some (dp, [])
      | Fault => None
      end
  end.

(** A packet of a known session, which stays a pointer into the table while
    aliases are put into it. *)
Definition forward_packet (k : kernel) (dp : qsr_dataplane) (session : nat) (packet : ptr) (packet_len : Z) (source : list Z)
    (source_len now : Z) : option (qsr_dataplane * list event) :=
  let dp := dp_set_sessions dp (set_sessions (dp_sessions dp) (alter (touched now) session (t_sessions (dp_sessions dp)))) in
  let s := session_at (dp_sessions dp) session in
  '(dp, flow, ev) ← dp_flow_acquire k dp source source_len (s_backend_addr s) (s_backend_addr_len s) now None None 0;
  match flow with
  | None => Some (dp, ev)
  | Some slot =>
      let flow := flow_at dp slot in
      sessions ← learn_client_long_header_cids (dp_sessions dp) packet packet_len (AddrSlot session) (s_backend_addr_len s) now
        (Z.of_nat slot) (f_id flow);
      let dp := dp_set_sessions dp sessions in
      let s := session_at sessions session in
      let '(dp, ev') := dp_enqueue dp (f_fd flow) (RecvBuffer packet) packet_len (s_backend_addr s) (s_backend_addr_len s) in
      Some (dp, ev ++ ev')
  end.

Definition handle_client_packet (k : kernel) (dp : qsr_dataplane) (packet : ptr) (packet_len : Z) (source : list Z)
    (source_len now : Z) : option (qsr_dataplane * list event) :=
  fast ← fast_flow dp packet packet_len source source_len;
  match fast with
  | Some slot => Some (fast_path dp slot packet packet_len now)
  | None =>
      let key := qsr_session_tuple_key (Some source) source_len in
      '(sessions, session, initial) ← find_session (dp_config dp) (dp_sessions dp) packet packet_len key now;
      let dp := dp_set_sessions dp sessions in
      match session with
      | None => handle_unknown k dp packet packet_len source source_len now key initial
      | Some session => forward_packet k dp session packet packet_len source source_len now
      end
  end.

(** ** Backend to client *)

(** [flow] is given by its slot. *)
Definition handle_backend_packet (dp : qsr_dataplane) (slot : nat) (packet : ptr) (packet_len now : Z) :
    option (qsr_dataplane * list event) :=
  let dp := dp_set_flows dp (ft_set_flows (dp_flows dp) (alter (fun f => flow_touch f now) slot (ft_flows (dp_flows dp)))) in
  let flow := flow_at dp slot in
  sessions ← learn_backend_scid (dp_sessions dp) packet packet_len (AddrVal (f_backend_addr flow)) (f_backend_addr_len flow)
    now (Z.of_nat slot) (f_id flow);
  Some (dp_enqueue (dp_set_sessions dp sessions) (dp_main_fd dp) (RecvBuffer packet) packet_len
          (f_client_addr flow) (f_client_addr_len flow)).

(** ** Sweeps *)

(** [capacity / 60], within the two limits. *)
Definition scan_budget (capacity : nat) : nat :=
  let budget := Z.of_nat capacity / 60 in
  let budget := if budget <? QSR_SESSION_EXPIRE_MIN_SCAN then QSR_SESSION_EXPIRE_MIN_SCAN else budget in
  Z.to_nat (if QSR_SESSION_EXPIRE_MAX_SCAN <? budget then QSR_SESSION_EXPIRE_MAX_SCAN else budget).

Definition session_expire_scan_budget (sessions : qsr_session_table) : nat := scan_budget (t_capacity sessions).
Definition flow_expire_scan_budget (flows : qsr_flow_table) : nat := scan_budget (ft_capacity flows).

Definition run_expiry_sweeps (dp : qsr_dataplane) (now : Z) : option (qsr_dataplane * list event) :=
  let timeout := c_idle_timeout_seconds (dp_config dp) in
  '(sessions, _) ← qsr_session_table_expire_incremental (dp_sessions dp) now timeout
    (session_expire_scan_budget (dp_sessions dp)) (Some (qsr_runtime_session_keepalive (dp_flows dp) now timeout));
  '(flows, _, ev) ← qsr_flow_table_expire_incremental (dp_flows dp) now timeout (flow_expire_scan_budget (dp_flows dp));
  Some (dp_set_pending (dp_set_flows (dp_set_sessions dp sessions) flows)
          (pending_initial_expire (dp_pending_initials dp) now), FlowEvent <$> (ev : list flow_event)).
End dataplane.

(** ** Lemmas: the invariant of the dataplane *)

Section invariant.
Context `{KeyedHash}.

(** The queue holds no pointer into the pending table. *)
Definition from_receive (i : qsr_udp_send_item) : Prop := exists p, it_packet i = RecvBuffer p.

(** What holds between two calls of the handlers. *)
Record dp_ok (dp : qsr_dataplane) : Prop := {
  ok_runtime : runtime_wf (dp_runtime dp);
  ok_routes : routes_live (c_routes (dp_config dp));
  ok_sessions : sessions_aim (backend_of_config (dp_config dp)) (dp_sessions dp);
  ok_flows : flows_aim (backend_of_config (dp_config dp)) (dp_flows dp);
  ok_pending : pending_wf (dp_pending_initials dp);
  ok_sender : sender_wf (dp_sender dp);
  ok_queue : Forall from_receive (queued (dp_sender dp));
}.

Lemma ok_sessions_wf dp : dp_ok dp -> table_wf (dp_sessions dp).
Proof. intros Hok. apply Hok. Qed.

Lemma ok_flows_wf dp : dp_ok dp -> flow_wf (dp_flows dp).
Proof. intros Hok. apply Hok. Qed.

Lemma set_sessions_ok n dp t : dp_ok dp -> updates (backend_of_config (dp_config dp)) n (dp_sessions dp) t ->
  dp_ok (dp_set_sessions dp t).
Proof.
  intros [[? ? ? ? ?] ? ? ? ? ? ?] []. split; cbn; [split; cbn; congruence|auto..].
Qed.

Lemma set_flows_ok dp t : dp_ok dp -> flow_wf t -> ft_capacity t = ft_capacity (dp_flows dp) ->
  flows_aim (backend_of_config (dp_config dp)) t -> dp_ok (dp_set_flows dp t).
Proof. intros [[? ? ? ? ?] ? ? ? ? ? ?] ? ? ?. split; cbn; [split; cbn; congruence|auto..]. Qed.

Lemma set_pending_ok dp t : dp_ok dp -> pending_wf t -> dp_ok (dp_set_pending dp t).
Proof. by intros [] ?. Qed.

Lemma send_events_only pending runs : only_sends (send_events pending runs).
Proof. unfold only_sends, send_events. apply Forall_fmap, list.Forall_forall. done. Qed.

(** A flow is touched in place. *)
Lemma touch_flow_wf t slot f now : flow_wf t -> ft_flows t !! slot = Some f -> f_used f = true ->
  let flows := ft_set_flows t (alter (fun f => flow_touch f now) slot (ft_flows t)) in
  flow_wf flows /\ ft_flows flows = <[slot := flow_touch f now]> (ft_flows t) /\
  fds (ft_flows flows) ≡ₚ fds (ft_flows t) /\ ft_flows flows !! slot = Some (flow_touch f now).
Proof.
  intros Hwf Hf Hu. cbv zeta. rewrite (list_alter_at _ _ _ f Hf).
  destruct (replace_acquired _ slot f (flow_touch f now) Hwf Hf Hu) as [Hwf' Hp]; [done..|].
  split_and!; [done..|cbn; apply list_lookup_insert_eq; by apply lookup_lt_Some in Hf].
Qed.

Lemma touch_flow_ok dp slot f now : dp_ok dp -> ft_flows (dp_flows dp) !! slot = Some f -> f_used f = true ->
  let flows := ft_set_flows (dp_flows dp) (alter (fun f => flow_touch f now) slot (ft_flows (dp_flows dp))) in
  dp_ok (dp_set_flows dp flows) /\ ft_flows flows = <[slot := flow_touch f now]> (ft_flows (dp_flows dp)) /\
  fds (ft_flows flows) ≡ₚ fds (ft_flows (dp_flows dp)) /\ ft_flows flows !! slot = Some (flow_touch f now).
Proof.
  intros Hok Hf Hu. destruct (touch_flow_wf _ slot f now (ok_flows_wf dp Hok) Hf Hu) as (Hwf & He & Hp & Hs). cbv zeta in *.
  split_and!; [|done..]. apply set_flows_ok; [done..|]. intros s g Hg Hug. rewrite He in Hg.
  apply list_lookup_insert_Some in Hg as [(<- & <- & _)|[_ Hg]]; [by apply (ok_flows dp Hok slot f)|by apply (ok_flows dp Hok s g)].
Qed.

(** A dataplane that has seen nothing yet. *)
Definition dp_start (r : qsr_runtime) (fd : Z) : qsr_dataplane := {|
  dp_runtime := r; dp_pending_initials := pending_table0; dp_sender := sender_init; dp_main_fd := fd |}.

Lemma no_flows_aim P t : fds (ft_flows t) = [] -> flows_aim P t.
Proof.
  intros Hf slot f Hs Hu. exfalso. assert (Hin : f_fd f ∈ fds (ft_flows t)).
  { apply list_elem_of_omap. exists f. rewrite Hu. split; [by eapply list_elem_of_lookup_2|done]. }
  rewrite Hf in Hin. by apply not_elem_of_nil in Hin.
Qed.

Lemma start_ok r fd : runtime_wf r -> routes_live (c_routes (run_config r)) -> contents (run_sessions r) = ∅ ->
  fds (ft_flows (run_flows r)) = [] -> dp_ok (dp_start r fd).
Proof.
  intros Hr Hl Hs Hf. split; cbn; try done.
  - intros key s Hk. rewrite Hs in Hk. by rewrite lookup_empty in Hk.
  - by apply no_flows_aim.
  - apply pending_table0_wf.
  - apply sender_init_wf.
Qed.

(** *** Traffic

    What is handed to the kernel, in order: the descriptor, the bytes and the destination. *)
Definition wire (pending : qsr_pending_initial_table) (i : qsr_udp_send_item) : Z * (list Z * list Z) :=
  (it_fd i, datagram pending i).

Definition sent (ev : list event) : list (Z * (list Z * list Z)) :=
  ev ≫= fun e => if e is SendRun fd l then (fun d => (fd, d)) <$> l else [].

(** What waits in the queue. *)
Definition waiting (dp : qsr_dataplane) : list (Z * (list Z * list Z)) :=
  wire (dp_pending_initials dp) <$> queued (dp_sender dp).

Lemma sent_app a b : sent (a ++ b) = sent a ++ sent b.
Proof. apply bind_app. Qed.

Lemma sent_send_events pending runs : runs_ok runs -> sent (send_events pending runs) = wire pending <$> runs_items runs.
Proof.
  unfold sent, send_events, runs_items. induction runs as [|[fd items] runs IH]; [done|].
  intros (_ & Hfd & _ & Hok). cbn [mbind list_bind fmap list_fmap snd]. rewrite fmap_app. f_equal; [|by apply IH].
  rewrite <- list_fmap_compose. apply list_fmap_ext. intros k i Hi. unfold wire. cbn.
  by rewrite (Forall_lookup_1 _ _ _ _ Hfd Hi).
Qed.

(** The waiting datagrams do not depend on the pending table. *)
Lemma waiting_from_receive pending pending' (l : list qsr_udp_send_item) : Forall from_receive l -> wire pending <$> l = wire pending' <$> l.
Proof.
  induction 1 as [|i l [p Hp] _ IH]; [done|]. cbn. rewrite IH. unfold wire, datagram, payload_bytes. by rewrite Hp.
Qed.

Definition pending_item (dp : qsr_dataplane) (fd : Z) (entry : nat) (backend : list Z) (backend_len : Z) (i : nat) :
    qsr_udp_send_item := {|
  it_packet := PendingPacket entry i;
  it_packet_len := default 0 (pe_packet_lens (default pending0 (pt_entries (dp_pending_initials dp) !! entry)) !! i);
  it_dest := backend; it_dest_len := backend_len; it_fd := fd |}.

Lemma dp_set_sender_same dp : dp_set_sender dp (dp_sender dp) = dp.
Proof. by destruct dp. Qed.

(** Queueing one item: what is sent and what waits are what waited, and the item. *)
Lemma dp_enqueue_spec dp fd packet packet_len dest dest_len : sender_wf (dp_sender dp) -> packet_len <= QSR_MAX_DATAGRAM_SIZE ->
  let item := {| it_packet := packet; it_packet_len := packet_len; it_dest := dest; it_dest_len := dest_len; it_fd := fd |} in
  exists s ev, dp_enqueue dp fd packet packet_len dest dest_len = (dp_set_sender dp s, ev) /\
    sender_wf s /\ only_sends ev /\ (forall i, i ∈ queued s -> i ∈ queued (dp_sender dp) \/ i = item) /\
    sent ev ++ waiting (dp_set_sender dp s) = waiting dp ++ [wire (dp_pending_initials dp) item].
Proof.
  intros Hwf El item. unfold dp_enqueue. pose proof (enqueue_spec (dp_sender dp) fd packet packet_len dest dest_len Hwf El) as He.
  destruct (sender_enqueue _ _ _ _ _ _) as [s runs]. destruct He as (Hs & Hq & _ & Hin & Hok).
  exists s, (send_events (dp_pending_initials dp) runs). split_and!; [done|done|apply send_events_only|done|].
  rewrite sent_send_events by done. unfold waiting. cbn [dp_sender dp_set_sender dp_pending_initials].
  by rewrite <- fmap_app, Hq, fmap_app.
Qed.

(** What a received datagram adds to the traffic: nothing when it is too long to be one. *)
Definition relayed (fd : Z) (packet : ptr) (packet_len : Z) (dest : list Z) (dest_len : Z) : list (Z * (list Z * list Z)) :=
  if packet_len <=? QSR_MAX_DATAGRAM_SIZE then [(fd, (range packet packet_len, field dest dest_len))] else [].

Lemma enqueue_recv_core dp fd packet packet_len dest dest_len : sender_wf (dp_sender dp) -> Forall from_receive (queued (dp_sender dp)) ->
  exists s ev, dp_enqueue dp fd (RecvBuffer packet) packet_len dest dest_len = (dp_set_sender dp s, ev) /\
    sender_wf s /\ Forall from_receive (queued s) /\ only_sends ev /\
    sent ev ++ waiting (dp_set_sender dp s) = waiting dp ++ relayed fd packet packet_len dest dest_len.
Proof.
  intros Hwf Hqr. unfold relayed. destruct (packet_len <=? QSR_MAX_DATAGRAM_SIZE) eqn:El; bool_to_prop.
  - destruct (dp_enqueue_spec dp fd (RecvBuffer packet) packet_len dest dest_len Hwf El) as (s & ev & He & Hs & Hev & Hin & Ht).
    exists s, ev. split_and!; [done..| |done|done].
    apply list.Forall_forall. intros i Hi. apply Hin in Hi as [Hi| ->]; [by apply (proj1 (list.Forall_forall _ _) Hqr)|by eexists].
  - exists (dp_sender dp), []. unfold dp_enqueue, sender_enqueue. rewrite (proj2 (Z.ltb_lt _ _)) by done.
    rewrite dp_set_sender_same, app_nil_r. split_and!; first [done|constructor].
Qed.

Lemma set_sender_ok dp s : dp_ok dp -> sender_wf s -> Forall from_receive (queued s) -> dp_ok (dp_set_sender dp s).
Proof. by intros [] ??. Qed.

Lemma dp_enqueue_recv dp fd packet packet_len dest dest_len : dp_ok dp ->
  exists s ev, dp_enqueue dp fd (RecvBuffer packet) packet_len dest dest_len = (dp_set_sender dp s, ev) /\
    dp_ok (dp_set_sender dp s) /\ only_sends ev /\
    sent ev ++ waiting (dp_set_sender dp s) = waiting dp ++ relayed fd packet packet_len dest dest_len.
Proof.
  intros Hok. destruct (enqueue_recv_core dp fd packet packet_len dest dest_len (ok_sender dp Hok) (ok_queue dp Hok))
    as (s & ev & ? & ? & ? & ? & ?). exists s, ev. split_and!; [done|by apply set_sender_ok|done..].
Qed.

Lemma dp_flush_spec dp : sender_wf (dp_sender dp) ->
  exists s ev, dp_flush dp = (dp_set_sender dp s, ev) /\ sender_wf s /\ queued s = [] /\ only_sends ev /\ sent ev = waiting dp.
Proof.
  intros Hwf. unfold dp_flush. pose proof (flush_spec (dp_sender dp) Hwf) as Hf. destruct (sender_flush _) as [s runs].
  destruct Hf as (Hs & Hq & Hr & Hok). eexists s, _. split_and!; [done..|apply send_events_only|].
  rewrite sent_send_events by done. by rewrite Hr.
Qed.

(** Queueing the datagrams of an entry. *)
Lemma enqueue_pending_spec fd entry backend backend_len l : forall dp, sender_wf (dp_sender dp) ->
  (forall i, i ∈ l -> it_packet_len (pending_item dp fd entry backend backend_len i) <= QSR_MAX_DATAGRAM_SIZE) ->
  exists s ev, enqueue_pending dp fd entry backend backend_len l = (dp_set_sender dp s, ev) /\
    sender_wf s /\ only_sends ev /\
    sent ev ++ waiting (dp_set_sender dp s) =
      waiting dp ++ ((fun i => wire (dp_pending_initials dp) (pending_item dp fd entry backend backend_len i)) <$> l).
Proof.
  induction l as [|i l IH]; intros dp Hwf Hl; cbn [enqueue_pending].
  - exists (dp_sender dp), []. rewrite dp_set_sender_same, app_nil_r. split_and!; first [done|constructor].
  - destruct (dp_enqueue_spec dp fd (PendingPacket entry i) (it_packet_len (pending_item dp fd entry backend backend_len i))
      backend backend_len Hwf) as (s1 & ev1 & He1 & Hs1 & Hev1 & _ & Ht1); [apply Hl; left|].
    cbn [it_packet_len pending_item] in He1. rewrite He1.
    destruct (IH (dp_set_sender dp s1) Hs1) as (s2 & ev2 & -> & Hs2 & Hev2 & Ht2); [intros j Hj; apply (Hl j); by right|].
    exists s2, (ev1 ++ ev2). split_and!; [done..| |].
    + by apply only_sends_app.
    + rewrite sent_app, <- app_assoc. change (dp_set_sender (dp_set_sender dp s1) s2) with (dp_set_sender dp s2) in Ht2.
      rewrite Ht2, app_assoc, Ht1, <- app_assoc. done.
Qed.

(** The entry's datagrams are sent behind what waited; queue and entry are then empty. *)
Lemma flush_pending_core dp fd entry e backend backend_len : sender_wf (dp_sender dp) ->
  pt_entries (dp_pending_initials dp) !! entry = Some e -> entry_wf e ->
  exists s ev, flush_pending dp fd entry backend backend_len =
      (dp_set_pending (dp_set_sender dp s) (pending_initial_remove (dp_pending_initials dp) entry), ev) /\
    sender_wf s /\ queued s = [] /\ only_sends ev /\
    sent ev = waiting dp ++ ((fun p => (fd, (p, field backend backend_len))) <$> entry_packets e).
Proof.
  intros Hwf He Hew. unfold flush_pending. rewrite He. cbn [default]. change (id e) with e.
  destruct (enqueue_pending_spec fd entry backend backend_len (seq 0 (pe_packet_count e)) dp Hwf)
    as (s1 & ev1 & -> & Hs1 & Hev1 & Ht1).
  { intros i Hi%elem_of_seq. cbn. rewrite He. cbn. destruct (pending_packet_ok e i Hew) as (p & n & _ & -> & _ & Hn & _);
      [pose proof (ew_count e Hew); lia|]. cbn. lia. }
  destruct (dp_flush_spec (dp_set_sender dp s1) Hs1) as (s2 & ev2 & -> & Hs2 & Hq2 & Hev2 & Ht2).
  exists s2, (ev1 ++ ev2). split; [reflexivity|]. split_and!; try done.
  - by apply only_sends_app.
  - rewrite sent_app, Ht2, Ht1. f_equal. unfold entry_packets. rewrite <- list_fmap_compose. apply list_fmap_ext.
    intros _ i _. unfold wire, datagram, payload_bytes, pending_item. cbn. by rewrite He.
Qed.

Lemma flush_pending_spec dp fd entry e backend backend_len : dp_ok dp ->
  pt_entries (dp_pending_initials dp) !! entry = Some e -> entry_wf e ->
  exists dp' ev, flush_pending dp fd entry backend backend_len = (dp', ev) /\ dp_ok dp' /\
    dp_runtime dp' = dp_runtime dp /\ dp_main_fd dp' = dp_main_fd dp /\
    dp_pending_initials dp' = pending_initial_remove (dp_pending_initials dp) entry /\
    queued (dp_sender dp') = [] /\ only_sends ev /\
    sent ev = waiting dp ++ ((fun p => (fd, (p, field backend backend_len))) <$> entry_packets e).
Proof.
  intros Hok He Hew. destruct (flush_pending_core dp fd entry e backend backend_len (ok_sender dp Hok) He Hew)
    as (s & ev & -> & Hs & Hq & Hev & Ht). eexists _, ev. split; [reflexivity|]. cbn. split_and!; try done.
  destruct Hok. split; cbn; try done; [by apply pending_remove_wf|by rewrite Hq].
Qed.
End invariant.

(** ** Lemmas: finding the session *)

Section finding.
Context `{KeyedHash} (aes_128_ctr : list Z -> list Z -> list Z -> option (list Z)).
Context (packet : ptr) (packet_len : Z) (readable_packet : readable packet packet_len) (packet_bytes : bytes_ok (p_buf packet)).
Context (config : qsr_config) (routes : routes_live (c_routes config)).
Local Notation aimed := (sessions_aim (backend_of_config config)).

Lemma rebind_spec t i s key now : table_wf t -> t_sessions t !! i = Some s ->
  backend_of_config config (s_backend_addr s) (s_backend_addr_len s) ->
  exists t' r, rebind t i key now = Some (t', r) /\ updates (backend_of_config config) 1 t t' /\ valid_slot t' r /\
    (r = None -> t' = t).
Proof using.
  intros Hwf Hs Hb. unfold rebind. rewrite (session_at_slot t i s Hs).
  destruct (bind_tuple_puts t key (s_backend_addr s) (s_backend_addr_len s) now Hwf) as (t' & -> & Hp & Hn).
  cbn [mbind option_bind]. exists t', (qsr_session_table_get t' key).
  split_and!; [done|by eapply puts_updates|apply get_valid, Hp|done].
Qed.

Lemma other_session_spec t session key now : table_wf t -> aimed t -> valid_slot t session ->
  exists t' r, other_session config t session packet packet_len key now = Some (t', r) /\
    updates (backend_of_config config) 2 t t' /\ valid_slot t' r /\ (r = None -> t' = t).
Proof using readable_packet packet_bytes.
  intros Hwf Ha Hv. pose proof (updates_refl (backend_of_config config) 2 t ltac:(lia) Hwf) as Hrefl. unfold other_session.
  destruct session as [i|]; [by exists t, (Some i)|].
  destruct (qsr_session_table_get t key) as [i|] eqn:Eg; [exists t, (Some i); split_and!; [done..| |done]; rewrite <- Eg; by apply get_valid|].
  rewrite (lookup_short_header_spec packet packet_len readable_packet packet_bytes t Hwf). cbn [mbind option_bind].
  assert (Hfirst : exists t1 r1,
    match (if short_header packet && (9 <=? packet_len) then longest_cid packet t (Z.to_nat (Z.min (packet_len - 1) 20 - 7)) else None) with
    | Some i => rebind t i key now | None => Some (t, None) end = Some (t1, r1) /\
    updates (backend_of_config config) 1 t t1 /\ valid_slot t1 r1 /\ (r1 = None -> t1 = t)).
  { pose proof (updates_refl (backend_of_config config) 1 t ltac:(lia) Hwf).
    destruct (_ && _); [|by exists t, None]. destruct (longest_cid _ _ _) as [i|] eqn:El; [|by exists t, None].
    destruct (longest_cid_get _ _ _ _ Hwf El) as (s & Hs & Hu). apply (rebind_spec t i s); [done..|by apply (slot_aim _ t i)]. }
  destruct Hfirst as (t1 & r1 & -> & Hu1 & Hv1 & Hn1). cbn [mbind option_bind]. pose proof (up_wf _ _ _ _ Hu1) as Hwf1.
  destruct r1 as [i|]; [exists t1, (Some i); split_and!; [done|by apply (updates_weaken _ 1)|done..]|].
  destruct (lookup_long_header_ok packet packet_len readable_packet packet_bytes t1 Hwf1) as (r & -> & Hr). cbn [mbind option_bind].
  assert (Hnone : exists t' r, Some (t1, None) = Some (t', r) /\ updates (backend_of_config config) 2 t t' /\ valid_slot t' r /\
      (r = None -> t' = t)) by (exists t1, None; split_and!; [done|by apply (updates_weaken _ 1)|done|auto]).
  destruct r as [i|]; [|exact Hnone]. destruct (session_configured _ _) eqn:Ec; [|exact Hnone].
  destruct (Hr i eq_refl) as (s & Hs & Hu). unfold session_configured in Ec. rewrite (session_at_slot t1 i s Hs) in Ec.
  destruct (rebind_spec t1 i s key now Hwf1 Hs Ec) as (t2 & r2 & -> & Hu2 & Hv2 & Hn2).
  exists t2, r2. split_and!; [done|exact (updates_trans _ 1 1 _ _ _ Hu1 Hu2)|done|]. intros Hr2. rewrite (Hn2 Hr2). auto.
Qed.

(** The classification returns, adds at most three entries, all for configured
    backends, and finds a live session or none. *)
Lemma find_session_spec t key now : table_wf t -> aimed t ->
  exists t' r initial, find_session aes_128_ctr config t packet packet_len key now = Some (t', r, initial) /\
    updates (backend_of_config config) 3 t t' /\ valid_slot t' r /\
    attempt (qsr_quic_parse_initial packet packet_len) = Some initial /\
    (is_Some initial -> cc_enabled (c_cid_codec config) = false -> t' = t) /\
    (initial = None -> r = None -> t' = t) /\
    (forall i, initial = Some i -> r = initial_session config t' i).
Proof using readable_packet packet_bytes routes.
  intros Hwf Ha. unfold find_session.
  destruct (encoded_updates aes_128_ctr packet packet_len readable_packet packet_bytes config t key now Hwf routes)
    as (t1 & r1 & -> & Hu1 & Hv1 & Hn1 & Hoff). cbn [mbind option_bind]. pose proof (up_wf _ _ _ _ Hu1) as Hwf1.
  destruct (attempt_ok (qsr_quic_parse_initial packet packet_len)) as [initial Hi].
  { by apply parse_initial_no_fault. }
  rewrite Hi. cbn [mbind option_bind]. destruct initial as [initial|].
  - exists t1, (initial_session config t1 initial), (Some initial).
    split_and!; [done|by apply (updates_weaken _ 1)| |done|by intros _ [-> _]%Hoff|done|by intros ? [= <-]].
    unfold initial_session. destruct (qsr_session_table_get t1 (qsr_session_cid_key _ _ _ _)) as [i|] eqn:Eg; [rewrite <- Eg; by apply get_valid|].
    unfold lookup_long_header_request_dcid. destruct (qsr_session_table_get t1 (qsr_session_single_cid_key _ _)) as [i|] eqn:Eg2; [|done].
    destruct (session_configured _ _); [|done]. rewrite <- Eg2. by apply get_valid.
  - destruct (other_session_spec t1 r1 key now Hwf1 (up_aim _ _ _ _ Hu1 Ha) Hv1) as (t2 & r2 & Ho & Hu2 & Hv2 & Hn2). rewrite Ho. cbn [mbind option_bind].
    exists t2, r2, None. split_and!; [done|exact (updates_trans _ 1 2 _ _ _ Hu1 Hu2)|done|done|by intros [? ?]| |done].
    intros _ Hr2. rewrite (Hn2 Hr2). apply Hn1. destruct r1; [|done]. exfalso. subst r2. unfold other_session in Ho. congruence.
Qed.
End finding.

(** ** Lemmas: the flow of a datagram *)

Section flows.
Context `{KeyedHash} (k : kernel).

(** Descriptors that [socket] returned. *)
Definition from_kernel (opened : list Z) : Prop := Forall (fun fd => exists family n, k_socket k family n = SocketFd fd) opened.

(** The kernel hands out descriptors that are not open. *)
Definition kernel_fresh (dp : qsr_dataplane) : Prop := forall family, fresh_fds (k_socket k family) (dp_flows dp).

Lemma socket_opened_kernel family t : from_kernel (socket_opened (k_socket k family) t).
Proof.
  unfold from_kernel, socket_opened. destruct (k_socket k family 0%nat) as [fd| |] eqn:E0; [|repeat case_match|constructor].
  all: repeat constructor; eauto.
Qed.

Lemma acquire_opened_kernel t client client_len backend : from_kernel (acquire_opened (k_socket k) t client client_len backend).
Proof. unfold acquire_opened. destruct (qsr_flow_table_get _ _ _); [constructor|apply socket_opened_kernel]. Qed.

(** Acquiring a flow sends nothing. *)
Lemma sent_logged (ev : list flow_event) (lines : list event) : sent lines = [] -> sent ((FlowEvent <$> ev) ++ lines) = [].
Proof. rewrite sent_app. intros ->. by induction ev. Qed.

Lemma sent_flow_events (ev : list flow_event) : sent (FlowEvent <$> ev) = [].
Proof. by induction ev. Qed.

Lemma attempts_send_nothing socket n : forall attempt t t' fd ev, socket_attempts socket n attempt t = Some (t', fd, ev) -> sent ev = [].
Proof.
  induction n as [|n IH]; intros attempt t t' fd ev; cbn [socket_attempts]; [by intros [= _ _ <-]|].
  destruct (socket attempt); try (by intros [= _ _ <-]). destruct (_ =? _)%nat; [|by intros [= _ _ <-]].
  destruct (qsr_flow_table_evict_oldest t) as [[[t1 m] ev1]|]; [|done]. cbn [mbind option_bind]. destruct (m =? 1); [|intros [= _ _ <-]; apply sent_flow_events].
  destruct (socket_attempts _ _ _ _) as [[[t2 fd2] ev2]|] eqn:Es; [|done]. intros [= _ _ <-]. apply sent_logged. by eapply IH.
Qed.

Lemma acquire_sends_nothing socket epoll_add log t client client_len backend backend_len now sni scid scid_len t' r ev :
  flow_acquire socket epoll_add log t client client_len backend backend_len now sni scid scid_len = Some (t', r, ev) -> sent ev = [].
Proof.
  unfold flow_acquire. destruct (qsr_flow_table_get _ _ _) as [slot|].
  - destruct (ft_flows t !! slot) as [f|]; [|done]. cbn [mbind option_bind].
    destruct (flow_reuse _ _ _ _ _ _ _ _) as [f' ev1] eqn:Er. intros [= _ _ <-].
    destruct (reuse_spec _ _ _ _ _ _ _ _ _ _ Er) as (_ & _ & _ & _ & _ & Hc).
    destruct (backend_changed _ _ _), log; by destruct Hc as [_ ->].
  - destruct (flow_socket_open _ _ _) as [[[t1 fd] ev0]|] eqn:Eo; [|done]. cbn [mbind option_bind].
    assert (Hthen : forall l, sent l = [] -> sent (ev0 ++ l) = []) by (intros l Hl; by rewrite sent_app, (attempts_send_nothing _ _ _ _ _ _ _ Eo)).
    case_match; [intros [= _ _ <-]; by eapply attempts_send_nothing|].
    destruct (qsr_flow_table_put _ _ _ _ _ _ _) as [[[t2 [slot|]] ev1]|]; cbn [mbind option_bind]; [|intros [= _ _ <-]; apply Hthen, sent_flow_events|done].
    case_match.
    + destruct (qsr_flow_table_remove _ _) as [[t3 ev2]|]; [|done]. intros [= _ _ <-]. apply Hthen, sent_flow_events.
    + match goal with |- context [ft_flows ?x !! slot] => destruct (ft_flows x !! slot) as [f|] end; [|done].
      intros [= _ _ <-]. apply Hthen, sent_logged. by destruct log.
Qed.

Lemma dp_acquire_core dp client client_len backend backend_len now sni scid scid_len :
  flow_wf (dp_flows dp) -> ft_next_id (dp_flows dp) + 1 < 2 ^ 64 -> client_valid client client_len = true -> kernel_fresh dp ->
  exists t' r ev, dp_flow_acquire k dp client client_len backend backend_len now sni scid scid_len =
      Some (dp_set_flows dp t', r, ev) /\
    acquired (k_socket k) (k_epoll_add k) (dp_flows dp) (client_len, field client client_len) backend backend_len now t' r /\
    from_kernel (sockets ev) /\ accounts (dp_flows dp) t' ev /\ sent ev = [].
Proof.
  intros Hwf Hid Hv Hfresh.
  destruct (acquire_spec (k_socket k) (k_epoll_add k) (c_log_connections (dp_config dp)) (dp_flows dp) client client_len backend
    backend_len now sni scid scid_len Hwf Hid Hv (Hfresh _)) as (t' & r & ev & Ha & Hacq & Hp & Hsk).
  exists t', r, ev. unfold dp_flow_acquire. rewrite Ha. cbn [mbind option_bind].
  split_and!; [done|done|rewrite Hsk; apply acquire_opened_kernel|unfold accounts; by rewrite Hsk|by eapply acquire_sends_nothing].
Qed.

Lemma dp_acquire_spec dp client client_len backend backend_len now sni scid scid_len :
  dp_ok dp -> ft_next_id (dp_flows dp) + 1 < 2 ^ 64 -> client_valid client client_len = true -> kernel_fresh dp ->
  backend_of_config (dp_config dp) backend backend_len ->
  exists t' r ev, dp_flow_acquire k dp client client_len backend backend_len now sni scid scid_len =
      Some (dp_set_flows dp t', r, ev) /\
    dp_ok (dp_set_flows dp t') /\
    acquired (k_socket k) (k_epoll_add k) (dp_flows dp) (client_len, field client client_len) backend backend_len now t' r /\
    from_kernel (sockets ev) /\ accounts (dp_flows dp) t' ev /\ sent ev = [].
Proof.
  intros Hok Hid Hv Hfresh Hb.
  destruct (dp_acquire_core dp client client_len backend backend_len now sni scid scid_len (ok_flows_wf dp Hok) Hid Hv Hfresh)
    as (t' & r & ev & Ha & Hacq & Ho & Hp & Hs). exists t', r, ev. split_and!; [done| |done..].
  destruct Hacq as [? ? ? ? Haim ? ? ?]. apply set_flows_ok; [done..|]. apply Haim; [done|apply Hok].
Qed.
End flows.

(** ** Lemmas: the handlers *)

(** A datagram of the client with the tuple [key]: through a flow of that client,
    to that flow's backend. *)
Definition through_own_flow (flows : qsr_flow_table) (key : Z * list Z) (d : Z * (list Z * list Z)) : Prop :=
  exists slot f, client_flow flows key slot f /\ d.1 = f_fd f /\ d.2.2 = field (f_backend_addr f) (f_backend_addr_len f).

(** The bytes the client sent: in this datagram, or in one that was buffered. *)
Definition own_bytes (pending : qsr_pending_initial_table) (packet : ptr) (packet_len : Z) (source : list Z) (source_len : Z)
    (bytes : list Z) : Prop :=
  bytes = range packet packet_len \/
  exists i e, pt_entries pending !! i = Some e /\ pe_used e = true /\
    field (pe_source e) (pe_source_len e) = field source source_len /\ bytes ∈ entry_packets e.

(** What only a reload or start-up sets. *)
Definition dp_fixed (dp : qsr_dataplane) : Z * Z * option (list Z) :=
  (dp_main_fd dp, run_inotify_fd (dp_runtime dp), run_config_path (dp_runtime dp)).

(** At most [n] entries more. *)
Definition grown (n : Z) (t t' : qsr_session_table) : Prop := t_capacity t' = t_capacity t /\ t_count t' <= t_count t + n.

(** What handling a datagram of the client [key] does, whatever becomes of it. *)
Record handled `{KeyedHash} (k : kernel) (n : Z) (key : Z * list Z) (bytes_ok : list Z -> Prop) (dp dp' : qsr_dataplane) (ev : list event) : Prop := {
  hd_ok : dp_ok dp';
  hd_config : dp_config dp' = dp_config dp;
  hd_fixed : dp_fixed dp' = dp_fixed dp;
  hd_count : grown n (dp_sessions dp) (dp_sessions dp');
  hd_next : ft_next_id (dp_flows dp) <= ft_next_id (dp_flows dp') <= ft_next_id (dp_flows dp) + 1;
  hd_others : forall slot f, ft_flows (dp_flows dp') !! slot = Some f -> f_used f = true -> fkey f <> key ->
    ft_flows (dp_flows dp) !! slot = Some f;
  hd_spares : exists v, spares (k_socket k) (dp_flows dp) (dp_flows dp') key v;
  hd_fds : accounts (dp_flows dp) (dp_flows dp') ev;
  hd_sockets : from_kernel k (sockets ev);
  hd_traffic : exists added, sent ev ++ waiting dp' = waiting dp ++ added /\
    Forall (fun d => through_own_flow (dp_flows dp') key d /\ bytes_ok d.2.1) added;
}.

Section handlers.
Context `{KeyedHash} `{Crypto} `{crypto_output : !CryptoOutput} (k : kernel).
Context (packet : ptr) (packet_len : Z) (readable_packet : readable packet packet_len) (packet_bytes : bytes_ok (p_buf packet)).
Context (source : list Z) (source_len now : Z) (source_size : Zlen source = SOCKADDR_SIZE)
  (source_valid : client_valid source source_len = true).
Local Notation client := (source_len, field source source_len).

Lemma source_range : 0 <= source_len -> 0 <= source_len <= SOCKADDR_SIZE.
Proof using source_valid.
  intros ?. split; [done|]. unfold client_valid, backend_valid in source_valid. destruct (_ || _) eqn:E; [done|]. by bool_to_prop.
Qed.

(** Nothing happens. *)
Lemma handled_nothing n dp b : 0 <= n -> dp_ok dp -> handled k n client b dp dp [].
Proof using.
  intros Hn Hok. split; try done.
  - split; [done|lia].
  - lia.
  - by exists None.
  - apply accounts_refl.
  - constructor.
  - exists []. by rewrite app_nil_r.
Qed.

Lemma handled_weaken n m dp dp' ev (a b : list Z -> Prop) : n <= m -> (forall x, a x -> b x) ->
  handled k n client a dp dp' ev -> handled k m client b dp dp' ev.
Proof using.
  intros Hn Hab [? ? ? [? ?] ? ? ? ? ? (added & Ht & Ha)]. split; try done; [split; [done|lia]|]. exists added. split; [done|].
  eapply list.Forall_impl; [exact Ha|]. intros d [? ?]. auto.
Qed.

(** The flow table after an acquisition that is not followed by anything. *)
Lemma handled_acquired dp t' r ev backend backend_len b :
  dp_ok (dp_set_flows dp t') -> acquired (k_socket k) (k_epoll_add k) (dp_flows dp) client backend backend_len now t' r ->
  from_kernel k (sockets ev) -> accounts (dp_flows dp) t' ev -> sent ev = [] ->
  handled k 0 client b dp (dp_set_flows dp t') ev.
Proof using.
  intros Hok [? ? ? Hn _ Hoth Hsp Hres] Ho Hp Hs. split; try done.
  - split; [done|cbn; lia].
  - intros slot f Hf Hu Hne. apply Hoth; [done..|]. intros ->. destruct Hres as (g & [(Hg & _ & Hk) _ _ _] & _).
    cbn in Hf. congruence.
  - exists []. split; [|constructor]. rewrite Hs, app_nil_r. done.
Qed.

(** Further session and queue changes behind an acquisition. *)
Lemma handled_then n dp dp1 dp' ev ev' (b : list Z -> Prop) : handled k 0 client b dp dp1 ev -> dp_ok dp' ->
  grown n (dp_sessions dp1) (dp_sessions dp') -> dp_flows dp' = dp_flows dp1 ->
  dp_config dp' = dp_config dp1 -> dp_fixed dp' = dp_fixed dp1 -> only_sends ev' -> sent ev = [] -> waiting dp1 = waiting dp ->
  (exists added, sent ev' ++ waiting dp' = waiting dp ++ added /\ Forall (fun d => through_own_flow (dp_flows dp') client d /\ b d.2.1) added) ->
  handled k n client b dp dp' (ev ++ ev').
Proof using.
  intros [? ? ? [? ?] ? ? ? ? ? ?] Hok' [? ?] Hfl Hc Hm Hev' Hs Hw Ht. split; rewrite ?Hfl; try (done || congruence).
  - split; [congruence|lia].
  - eapply accounts_trans; [done|by apply accounts_sends].
  - by rewrite sockets_app, (only_sends_sockets ev'), app_nil_r.
  - rewrite sent_app, Hs. by rewrite Hfl in Ht.
Qed.

(** A flow that serves the client towards a backend carries the datagrams to it. *)
Lemma serves_own t backend backend_len slot f bytes : serves t client backend backend_len now slot f ->
  through_own_flow t client (f_fd f, (bytes, field backend backend_len)).
Proof using. intros [Hf Hl Hb _]. exists slot, f. split_and!; [done|done|]. cbn. by rewrite Hl, Hb. Qed.

(** A refreshed entry leads where it did. *)
Lemma leads_touched t i s now' kv addr len : table_wf t -> t_sessions t !! i = Some s -> s_used s = true ->
  leads t kv addr len -> leads (set_sessions t (alter (touched now') i (t_sessions t))) kv addr len.
Proof using.
  intros Hwf Hs Hu (x & Hx & Ha & Hl). destruct (touch_spec t i s now' Hwf Hs Hu) as (_ & Hc). unfold leads. rewrite Hc.
  destruct (decide (kv = key_view (s_key s))) as [->|Hne].
  - rewrite lookup_insert_eq. exists (touched now' s). destruct (slot_contents t i s Hwf Hs Hu) as [_ Hx']. rewrite Hx in Hx'. by injection Hx' as ->.
  - rewrite lookup_insert_ne by done. by exists x.
Qed.

(** Learning from a packet of the session in slot [i], through the pointer. *)
Lemma learn_forward t i s os oid : table_wf t -> (not_long_header packet packet_len = Some false -> roomy 2 t) ->
  t_sessions t !! i = Some s -> s_used s = true ->
  exists t' s', learn_client_long_header_cids t packet packet_len (AddrSlot i) (s_backend_addr_len s) now os oid = Some t' /\
    puts 2 (s_backend_addr s) (s_backend_addr_len s) t t' /\ t_sessions t' !! i = Some s' /\ s_used s' = true /\
    s_backend_addr s' = s_backend_addr s /\ s_backend_addr_len s' = s_backend_addr_len s /\
    forall kv, leads t kv (s_backend_addr s) (s_backend_addr_len s) -> leads t' kv (s_backend_addr s) (s_backend_addr_len s).
Proof using readable_packet packet_bytes.
  intros Hwf Hr Hs Hu. destruct (not_long_header_ok packet packet_len readable_packet packet_bytes) as [[] Hn].
  - exists t, s. split_and!; [|by apply puts_refl|done..]. unfold learn_client_long_header_cids. by rewrite Hn.
  - destruct (learn_client_slot packet packet_len readable_packet packet_bytes t i s _ now os oid Hwf (Hr Hn) Hs Hu eq_refl)
      as (t' & s' & Ht & Ht2 & Hs' & Hu' & Ha & Hl & _).
    destruct (learn_client_puts packet packet_len readable_packet packet_bytes t (s_backend_addr s) (s_backend_addr_len s) now os oid Hwf)
      as (t1 & Ht1 & Hp). rewrite Ht2 in Ht1. injection Ht1 as <-. exists t', s'. split_and!; try done. apply (pu_keeps _ _ _ _ _ Hp), Hr, Hn.
Qed.

Lemma forward_spec dp session s : dp_ok dp -> ft_next_id (dp_flows dp) + 1 < 2 ^ 64 -> kernel_fresh k dp ->
  t_sessions (dp_sessions dp) !! session = Some s -> s_used s = true ->
  (not_long_header packet packet_len = Some false -> roomy 2 (dp_sessions dp)) ->
  exists dp' ev r, forward_packet k dp session packet packet_len source source_len now = Some (dp', ev) /\
    handled k 2 client (fun bytes => bytes = range packet packet_len) dp dp' ev /\
    acquired (k_socket k) (k_epoll_add k) (dp_flows dp) client (s_backend_addr s) (s_backend_addr_len s) now (dp_flows dp') r /\
    sent ev ++ waiting dp' = waiting dp ++
      match r with
      | Some slot => relayed (f_fd (flow_at dp' slot)) packet packet_len (s_backend_addr s) (s_backend_addr_len s)
      | None => []
      end /\
    forall kv, leads (dp_sessions dp) kv (s_backend_addr s) (s_backend_addr_len s) ->
      leads (dp_sessions dp') kv (s_backend_addr s) (s_backend_addr_len s).
Proof using readable_packet packet_bytes source_valid.
  intros Hok Hid Hfresh Hs Hu Hr. unfold forward_packet.
  pose proof (fun kv addr len => leads_touched (dp_sessions dp) session s now kv addr len (ok_sessions_wf dp Hok) Hs Hu) as Hkt.
  destruct (touch_updates (backend_of_config (dp_config dp)) (dp_sessions dp) session s now (ok_sessions_wf dp Hok) Hs Hu) as [Hu1 Hs1].
  set (t1 := set_sessions _ _) in *. pose proof (set_sessions_ok 0 dp t1 Hok Hu1) as Hok1.
  change (dp_sessions (dp_set_sessions dp t1)) with t1. rewrite (session_at_slot t1 session _ Hs1).
  change (s_backend_addr (touched now s)) with (s_backend_addr s). change (s_backend_addr_len (touched now s)) with (s_backend_addr_len s).
  destruct (dp_acquire_spec k (dp_set_sessions dp t1) source source_len (s_backend_addr s) (s_backend_addr_len s) now None None 0 Hok1 Hid
    source_valid Hfresh) as (fl & r & ev0 & -> & Hok2 & Hacq & Hop & Hp & Hsent).
  { exact (slot_aim _ _ _ _ (ok_sessions_wf dp Hok) (ok_sessions dp Hok) Hs Hu). }
  cbn [mbind option_bind]. set (dp2 := dp_set_flows (dp_set_sessions dp t1) fl) in *.
  assert (Hh : forall b, handled k 0 client b dp dp2 ev0).
  { intros b. destruct (handled_acquired (dp_set_sessions dp t1) fl r ev0 _ _ b Hok2 Hacq Hop Hp Hsent). by split. }
  destruct r as [slot|].
  2: { exists dp2, ev0, None. split_and!; [done|by apply (handled_weaken 0 2 _ _ _ (fun _ => False))|exact Hacq|by rewrite Hsent, app_nil_r|intros kv; apply Hkt]. }
  pose proof Hacq as [_ _ _ _ _ _ _ (f & Hsv & _)]. pose proof (sv_flow _ _ _ _ _ _ _ Hsv) as (Hf & _).
  assert (Hfa : flow_at dp2 slot = f) by (unfold flow_at; cbn; by rewrite Hf).
  rewrite Hfa. change (dp_sessions dp2) with t1.
  assert (Hr1 : not_long_header packet packet_len = Some false -> roomy 2 t1) by (intros Hn; specialize (Hr Hn); exact Hr).
  destruct (learn_forward t1 session (touched now s) (Z.of_nat slot) (f_id f) (up_wf _ _ _ _ Hu1) Hr1 Hs1 Hu)
    as (t2 & s2 & Hl & Hpu & Hs2 & Hu2 & Ha2 & Hl2 & Hkl).
  change (s_backend_addr_len (touched now s)) with (s_backend_addr_len s) in *.
  change (s_backend_addr (touched now s)) with (s_backend_addr s) in *.
  rewrite Hl. cbn [mbind option_bind]. rewrite (session_at_slot t2 session s2 Hs2), Ha2, Hl2.
  assert (Hok3 : dp_ok (dp_set_sessions dp2 t2)).
  { apply (set_sessions_ok 2); [done|]. eapply puts_updates; [|exact Hpu].
    exact (slot_aim _ _ _ _ (ok_sessions_wf dp Hok) (ok_sessions dp Hok) Hs Hu). }
  destruct (dp_enqueue_recv (dp_set_sessions dp2 t2) (f_fd f) packet packet_len (s_backend_addr s) (s_backend_addr_len s) Hok3)
    as (sd & ev2 & -> & Hok4 & Hev2 & Ht). eexists _, (ev0 ++ ev2), (Some slot).
  split; [reflexivity|]. split; [|split; [exact Hacq|split; [|intros kv Hkv; apply Hkl, Hkt, Hkv]]].
  - apply (handled_then 2 dp dp2 _ ev0 ev2); [apply Hh|done|by split; apply Hpu|done..|]. exists (relayed (f_fd f) packet packet_len (s_backend_addr s) (s_backend_addr_len s)).
    split; [exact Ht|]. unfold relayed. destruct (_ <=? _); [|done]. constructor; [|done]. split; [|done].
    by apply (serves_own fl _ _ slot).
  - rewrite sent_app, Hsent. change (flow_at (dp_set_sender (dp_set_sessions dp2 t2) sd) slot) with (flow_at dp2 slot). by rewrite Hfa.
Qed.

(** The session table behind a new flow: the tuple and the aliases, all for one backend. *)
Lemma open_sessions t key cid_key backend backend_len slot id t1 : table_wf t -> key_valid key = true -> backend_valid backend backend_len = true ->
  qsr_session_table_put_owned t key (AddrVal backend) backend_len now slot id = Some (t1, QSR_OK) ->
  exists t2 t3, put_alias t1 cid_key (AddrVal backend) backend_len now slot id = Some t2 /\
    learn_client_long_header_cids t2 packet packet_len (AddrVal backend) backend_len now slot id = Some t3 /\
    puts 4 backend backend_len t t3 /\ (roomy 4 t -> leads t3 (key_view key) backend backend_len).
Proof using readable_packet packet_bytes.
  intros Hwf Hk Hb Hput. destruct (put_puts t key backend backend_len now slot id Hwf) as (t1' & st & Hput' & Hp1 & Hm).
  rewrite Hput in Hput'. injection Hput' as <- <-. rewrite Hk, Hb in Hm. destruct Hm as (_ & x & Hx & Hxa & Hxl & _).
  destruct (put_alias_puts t1 cid_key backend backend_len now slot id (pu_wf _ _ _ _ _ Hp1)) as (t2 & Ht2 & Hp2).
  destruct (learn_client_puts packet packet_len readable_packet packet_bytes t2 backend backend_len now slot id (pu_wf _ _ _ _ _ Hp2)) as (t3 & Ht3 & Hp3).
  pose proof (puts_trans 1 2 _ _ _ _ _ ltac:(done) ltac:(done) Hp2 Hp3) as Hp23. exists t2, t3. split_and!; [done..| |].
  - exact (puts_trans 1 3 _ _ _ _ _ ltac:(done) ltac:(done) Hp1 Hp23).
  - intros Hr. apply (pu_keeps _ _ _ _ _ Hp23); [exact (roomy_puts 1 3 _ _ _ _ ltac:(lia) Hp1 Hr)|]. by exists x.
Qed.

Lemma open_connection_spec dp key cid_key entry e backend backend_len sni : dp_ok dp -> ft_next_id (dp_flows dp) + 1 < 2 ^ 64 ->
  kernel_fresh k dp -> backend_of_config (dp_config dp) backend backend_len ->
  pt_entries (dp_pending_initials dp) !! entry = Some e -> entry_wf e ->
  exists dp' ev r, open_connection k dp packet packet_len source source_len now key cid_key (Some entry) backend backend_len sni = Some (dp', ev) /\
    handled k 4 client (fun bytes => bytes ∈ entry_packets e) dp dp' ev /\
    acquired (k_socket k) (k_epoll_add k) (dp_flows dp) client backend backend_len now (dp_flows dp') r /\
    match r with
    | Some slot =>
        if key_valid key && backend_valid backend backend_len
        then sent ev = waiting dp ++ ((fun p => (f_fd (flow_at dp' slot), (p, field backend backend_len))) <$> entry_packets e) /\
             queued (dp_sender dp') = [] /\ dp_pending_initials dp' = pending_initial_remove (dp_pending_initials dp) entry /\
             (roomy 4 (dp_sessions dp) -> leads (dp_sessions dp') (key_view key) backend backend_len)
        else sent ev = [] /\ dp_sessions dp' = dp_sessions dp /\ dp_pending_initials dp' = dp_pending_initials dp
    | None => sent ev = [] /\ dp_sessions dp' = dp_sessions dp /\ dp_pending_initials dp' = dp_pending_initials dp
    end.
Proof using readable_packet packet_bytes source_valid.
  intros Hok Hid Hfresh Hb He Hew. unfold open_connection. cbn [fmap option_fmap option_map]. rewrite He. cbn [default]. change (id e) with e. change (id (pe_scid_len e)) with (pe_scid_len e).
  destruct (dp_acquire_spec k dp source source_len backend backend_len now (Some sni) (Some (pe_scid e)) (pe_scid_len e) Hok Hid
    source_valid Hfresh Hb) as (fl & r & ev0 & -> & Hok1 & Hacq & Hop & Hp & Hsent). cbn [mbind option_bind].
  set (dp1 := dp_set_flows dp fl) in *.
  assert (Hh : forall b, handled k 0 client b dp dp1 ev0) by (intros b; by eapply handled_acquired).
  destruct r as [slot|]; [|exists dp1, ev0, None; split_and!; [done|by apply (handled_weaken 0 4 _ _ _ (fun _ => False))|exact Hacq|done..]].
  pose proof Hacq as [_ _ _ _ _ _ _ (f & Hsv & _)]. pose proof (sv_flow _ _ _ _ _ _ _ Hsv) as (Hf & _).
  assert (Hfa : flow_at dp1 slot = f) by (unfold flow_at; cbn; by rewrite Hf). rewrite Hfa.
  destruct (put_puts (dp_sessions dp1) key backend backend_len now (Z.of_nat slot) (f_id f) (ok_sessions_wf dp Hok)) as (t1 & st & Hput & Hp1 & Hm).
  rewrite Hput. cbn [mbind option_bind]. destruct (key_valid key && backend_valid backend backend_len) eqn:Ev.
  2: { destruct Hm as [-> ->]. rewrite bool_decide_eq_false_2 by done. cbn [negb].
       exists (dp_set_sessions dp1 (dp_sessions dp1)), ev0, (Some slot).
       assert (dp_set_sessions dp1 (dp_sessions dp1) = dp1) as -> by (subst dp1; by destruct dp as [[]]).
       split_and!; [done|by apply (handled_weaken 0 4 _ _ _ (fun _ => False))|exact Hacq|done..]. }
  destruct Hm as (-> & _). rewrite bool_decide_eq_true_2 by done. cbn [negb]. apply andb_true_iff in Ev as [Hkv Hbv].
  destruct (open_sessions (dp_sessions dp1) key cid_key backend backend_len (Z.of_nat slot) (f_id f) t1 (ok_sessions_wf dp Hok) Hkv Hbv Hput)
    as (t2 & t3 & Ht2 & Ht3 & Hpu & Hlead). rewrite Ht2. cbn [mbind option_bind]. rewrite Ht3. cbn [mbind option_bind].
  assert (Hok2 : dp_ok (dp_set_sessions dp1 t3)) by (apply (set_sessions_ok 4); [done|by eapply puts_updates]).
  destruct (flush_pending_spec (dp_set_sessions dp1 t3) (f_fd f) entry e backend backend_len Hok2 He Hew)
    as (dp' & ev' & -> & Hok' & Hrt & Hmain & Hpi & Hq & Hev' & Hs').
  exists dp', (ev0 ++ ev'), (Some slot).
  assert (Hfl : dp_flows dp' = fl) by (by rewrite Hrt). assert (Hfa' : flow_at dp' slot = f) by (unfold flow_at; by rewrite Hfl, Hf).
  split_and!; [done| |by rewrite Hfl| |done|done|].
  - apply (handled_then 4 dp dp1); [apply Hh|done|rewrite Hrt; by split; apply Hpu|by rewrite Hrt..|unfold dp_fixed; by rewrite Hrt, Hmain|done|done|done|].
    eexists. split; [unfold waiting at 1; rewrite Hq, app_nil_r; exact Hs'|]. apply Forall_fmap, list.Forall_forall. intros p Hin. split; [|done].
    rewrite Hfl. by apply (serves_own fl _ _ slot).
  - rewrite sent_app, Hsent, Hfa'. exact Hs'.
  - by rewrite Hrt.
Qed.

(** The datagrams of an entry after routing came from its client. *)
Lemma buffered_bytes pending pending' initial i e bytes :
  buffered pending pending' source source_len now initial packet packet_len i e -> bytes ∈ entry_packets e ->
  own_bytes pending packet packet_len source source_len bytes.
Proof using.
  intros [_ _ _ _ _ (e0 & pl & Hgot & _ & _ & Hp)] Hin. rewrite Hp in Hin. apply elem_of_app in Hin as [Hin|Hin].
  - destruct Hgot as [f Hf Hu Hk|_ _]; [|by apply not_elem_of_nil in Hin]. right. exists i, f.
    unfold entry_key, initial_key in Hk. by injection Hk as ? _ _.
  - left. destruct (takes_packet _ _); [by apply list_elem_of_singleton in Hin|by apply not_elem_of_nil in Hin].
Qed.

Lemma handle_unknown_spec dp key initial : dp_ok dp -> ft_next_id (dp_flows dp) + 1 < 2 ^ 64 -> kernel_fresh k dp -> 0 <= source_len ->
  attempt (qsr_quic_parse_initial packet packet_len) = Some initial ->
  exists dp' ev, handle_unknown k dp packet packet_len source source_len now key initial = Some (dp', ev) /\
    handled k 4 client (own_bytes (dp_pending_initials dp) packet packet_len source source_len) dp dp' ev /\
    (packet_len < QSR_MIN_INITIAL_DATAGRAM_SIZE \/ initial = None -> dp' = dp /\ ev = []).
Proof using readable_packet packet_bytes source_valid source_size crypto_output.
  intros Hok Hid Hfresh Hsl Hi. unfold handle_unknown.
  assert (Hself : forall b, handled k 4 client b dp dp []) by (intros b; by apply handled_nothing).
  destruct (packet_len <? QSR_MIN_INITIAL_DATAGRAM_SIZE) eqn:El; bool_to_prop.
  { exists dp, []. split_and!; [done|apply Hself|done]. }
  destruct initial as [initial|]; [|exists dp, []; split_and!; [done|apply Hself|done]].
  assert (Hp : qsr_quic_parse_initial packet packet_len = Ok initial).
  { unfold attempt in Hi. destruct (qsr_quic_parse_initial packet packet_len); [by injection Hi as ->|done..]. }
  pose proof (route_initial_spec (dp_config dp) (dp_pending_initials dp) packet packet_len initial source source_len now
    (ok_routes dp Hok) (ok_pending dp Hok) readable_packet packet_bytes Hp source_size (source_range Hsl)) as Hr.
  destruct (route_initial_datagram _ _ _ _ _ _ _ _) as [[[pending' entry] cid_key] routed]. destruct Hr as (Hpw & Hnf & _ & Hcase).
  pose proof (set_pending_ok dp pending' Hok Hpw) as Hok1. set (dp1 := dp_set_pending dp pending') in *.
  assert (Hw : waiting dp1 = waiting dp) by (apply waiting_from_receive, Hok).
  assert (Hstep : forall b dp' ev, handled k 4 client b dp1 dp' ev -> handled k 4 client b dp dp' ev).
  { intros b dp' ev [? ? ? ? ? ? ? ? ? Ht]. split; try done. by rewrite Hw in Ht. }
  assert (Hstay : forall b, handled k 4 client b dp dp1 []) by (intros b; by apply Hstep, handled_nothing).
  assert (Hno : packet_len < QSR_MIN_INITIAL_DATAGRAM_SIZE \/ Some initial = None -> False) by (intros [?|?]; [lia|done]).
  destruct routed as [[[backend backend_len] sni]|s|]; [|exists dp1, []; split_and!; [done|apply Hstay|tauto]|done].
  destruct entry as [i|]; [|by destruct Hcase as [_ [s Hs]]]. destruct Hcase as (e & Hbuf & Hrc).
  destruct (route_crypto_stream_spec (dp_config dp) (pe_crypto e) (ok_routes dp Hok) (ew_crypto e (bf_wf _ _ _ _ _ _ _ _ _ _ Hbuf))
    (ew_crypto_bytes e (bf_wf _ _ _ _ _ _ _ _ _ _ Hbuf))) as [_ Hx].
  destruct (Hx _ _ _ (eq_sym Hrc)) as (j & _ & _ & _ & Hb & _).
  destruct (open_connection_spec dp1 key cid_key i e backend backend_len sni Hok1 Hid Hfresh Hb (bf_entry _ _ _ _ _ _ _ _ _ _ Hbuf)
    (bf_wf _ _ _ _ _ _ _ _ _ _ Hbuf)) as (dp' & ev & r & -> & Hh & _).
  exists dp', ev. split_and!; [done| |tauto]. apply Hstep. eapply handled_weaken; [reflexivity| |exact Hh].
  intros bytes. by apply (buffered_bytes _ pending' initial i).
Qed.

(** *** The fast path *)

(** A short header: the high bit of the first byte is clear. *)
Definition one_rtt : bool := (0 <? packet_len) && negb (Z.testbit (default 0 (peek packet 0)) 7).

(** The flow of the client, when encoded connection IDs are off and the header is short. *)
Lemma fast_flow_spec dp : flow_wf (dp_flows dp) ->
  exists r, fast_flow dp packet packet_len source source_len = Some r /\
    match r with
    | Some slot => cc_enabled (c_cid_codec (dp_config dp)) = false /\ one_rtt = true /\ exists f, client_flow (dp_flows dp) client slot f
    | None => cc_enabled (c_cid_codec (dp_config dp)) = false -> one_rtt = true -> forall slot f, ~ client_flow (dp_flows dp) client slot f
    end.
Proof using readable_packet packet_bytes source_valid.
  intros Hwf. unfold fast_flow, one_rtt. destruct (cc_enabled _) eqn:Ec; cbn [orb]; [by exists None|].
  destruct (packet_len <=? 0) eqn:El; bool_to_prop.
  { exists None. rewrite (proj2 (Z.ltb_ge 0 packet_len)) by lia. done. }
  rewrite (proj2 (Z.ltb_lt 0 packet_len)) by lia.
  destruct (peek_ok packet packet_len readable_packet packet_bytes 0 ltac:(lia)) as (b & Hb & _). rewrite Hb. cbn [mbind option_bind default].
  change (id b) with b. change 0x80 with (2 ^ 7). rewrite land_bit by lia. destruct (Z.testbit b 7); cbn [negb]; [by exists None|].
  eexists. split; [reflexivity|]. pose proof (flow_get_spec (dp_flows dp) source source_len Hwf) as Hg.
  rewrite source_valid in Hg. destruct (qsr_flow_table_get _ _ _) as [slot|].
  - split_and!; [done..|]. destruct Hg as (f & ? & ? & ?). by exists f.
  - intros _ _ slot f (Hf & Hu & Hk). by apply (Hg slot f).
Qed.

Lemma fast_path_spec dp slot f : dp_ok dp -> client_flow (dp_flows dp) client slot f ->
  exists sd ev, let flows := ft_set_flows (dp_flows dp) (<[slot := flow_touch f now]> (ft_flows (dp_flows dp))) in
    fast_path dp slot packet packet_len now = (dp_set_sender (dp_set_flows dp flows) sd, ev) /\
    handled k 0 client (fun bytes => bytes = range packet packet_len) dp (dp_set_sender (dp_set_flows dp flows) sd) ev /\
    only_sends ev /\
    sent ev ++ waiting (dp_set_sender dp sd) = waiting dp ++ relayed (f_fd f) packet packet_len (f_backend_addr f) (f_backend_addr_len f).
Proof using.
  intros Hok (Hf & Hu & Hk). destruct (touch_flow_ok dp slot f now Hok Hf Hu) as (Hok1 & He & Hp & Hf1). unfold fast_path.
  set (flows := ft_set_flows _ _) in *. unfold flow_at at 1 2 3. cbn [dp_runtime dp_set_flows dp_set_runtime run_flows run_set_flows].
  rewrite Hf1. cbn [default]. change (id ?x) with x.
  destruct (dp_enqueue_recv (dp_set_flows dp flows) (f_fd f) packet packet_len (f_backend_addr f) (f_backend_addr_len f) Hok1)
    as (sd & ev & Hq & Hok2 & Hev & Ht). exists sd, ev. cbv zeta.
  assert (ft_set_flows (dp_flows dp) (<[slot := flow_touch f now]> (ft_flows (dp_flows dp))) = flows) as -> by (rewrite <- He; done).
  split_and!; [exact Hq| |done|exact Ht]. split; try done.
  - split; [done|cbn; lia].
  - cbn. lia.
  - intros s g Hg Hug Hne. change (ft_flows flows !! s = Some g) in Hg. rewrite He in Hg. apply list_lookup_insert_Some in Hg as [(<- & <- & _)|[_ Hg]]; [by destruct Hne|done].
  - exists None. split; [|done]. intros s g Hg Hug Hne _. change (ft_flows flows !! s = Some g). rewrite He, list_lookup_insert_ne; [done|]. intros <-. congruence.
  - by apply accounts_sends.
  - rewrite (only_sends_sockets ev) by done. constructor.
  - eexists. split; [exact Ht|]. unfold relayed. destruct (_ <=? _); [|done]. constructor; [|done]. split; [|done].
    exists slot, (flow_touch f now). by split_and!.
Qed.

(** *** Any datagram of a client *)

Context (aes_128_ctr : list Z -> list Z -> list Z -> option (list Z)).

Lemma handle_client_spec dp : dp_ok dp -> ft_next_id (dp_flows dp) + 1 < 2 ^ 64 -> kernel_fresh k dp -> 0 <= source_len ->
  (not_long_header packet packet_len = Some false -> roomy 5 (dp_sessions dp)) ->
  exists dp' ev, handle_client_packet aes_128_ctr k dp packet packet_len source source_len now = Some (dp', ev) /\
    handled k 7 client (own_bytes (dp_pending_initials dp) packet packet_len source source_len) dp dp' ev.
Proof using readable_packet packet_bytes source_valid source_size crypto_output.
  intros Hok Hid Hfresh Hsl Hroom. unfold handle_client_packet.
  destruct (fast_flow_spec dp (ok_flows_wf dp Hok)) as (r & -> & Hr). cbn [mbind option_bind]. destruct r as [slot|].
  { destruct Hr as (_ & _ & f & Hf). destruct (fast_path_spec dp slot f Hok Hf) as (sd & ev & Hfp & Hh & _ & _). rewrite Hfp.
    eexists _, ev. split; [reflexivity|]. eapply handled_weaken; [| |exact Hh]; [lia|]. by left. }
  destruct (find_session_spec aes_128_ctr packet packet_len readable_packet packet_bytes (dp_config dp) (ok_routes dp Hok) (dp_sessions dp)
    (qsr_session_tuple_key (Some source) source_len) now (ok_sessions_wf dp Hok) (ok_sessions dp Hok))
    as (t & session & initial & -> & Hu & Hv & Hi & _). cbn [mbind option_bind].
  pose proof (set_sessions_ok 3 dp t Hok Hu) as Hok1. set (dp1 := dp_set_sessions dp t) in *.
  assert (Hstep : forall n b dp' ev, n <= 4 -> handled k n client b dp1 dp' ev -> handled k 7 client b dp dp' ev).
  { intros n b dp' ev Hn [? ? ? [? ?] ? ? ? ? ? Ht]. pose proof (up_capacity _ _ _ _ Hu). pose proof (up_count _ _ _ _ Hu).
    split; try done. change (dp_sessions dp1) with t in *. split; [congruence|lia]. }
  destruct session as [i|].
  - destruct (Hv i eq_refl) as (s & Hs & Hus).
    destruct (forward_spec dp1 i s Hok1 Hid Hfresh Hs Hus) as (dp' & ev & r & -> & Hh & _).
    { intros Hn. apply (roomy_updates _ 3 2 (dp_sessions dp) _ ltac:(lia) Hu). by apply Hroom. }
    exists dp', ev. split; [done|]. apply (Hstep 2); [lia|]. eapply handled_weaken; [reflexivity| |exact Hh]. by left.
  - destruct (handle_unknown_spec dp1 (qsr_session_tuple_key (Some source) source_len) initial Hok1 Hid Hfresh Hsl Hi)
      as (dp' & ev & -> & Hh & _). exists dp', ev. split; [done|]. by apply (Hstep 4).
Qed.
End handlers.

(** ** Lemmas: the backend side *)

Section backend.
Context `{KeyedHash} (packet : ptr) (packet_len : Z) (readable_packet : readable packet packet_len) (packet_bytes : bytes_ok (p_buf packet)).

(** The SCID of a long header of the backend is learned as an alias. *)
Lemma learn_backend_leads t addr len now os oid h : table_wf t -> not_long_header packet packet_len = Some false ->
  qsr_quic_parse_long_header packet packet_len = Ok h ->
  let key := qsr_session_single_cid_key (h_scid h) (h_scid_len h) in
  key_valid key = true -> backend_valid addr len = true ->
  exists t', learn_backend_scid t packet packet_len (AddrVal addr) len now os oid = Some t' /\ leads t' (key_view key) addr len.
Proof using.
  intros Hwf Hn Hp key Hk Hb. unfold learn_backend_scid, attempt. rewrite Hn, Hp. cbn [mbind option_bind]. fold key. unfold put_alias.
  assert (k_has_cids key || k_has_tuple key = true) as ->.
  { unfold key_valid in Hk. destruct (k_has_tuple key), (k_has_cids key); done. }
  destruct (put_puts t key addr len now os oid Hwf) as (t' & st & -> & _ & Hm). rewrite Hk, Hb in Hm. destruct Hm as (_ & s & ? & ? & ? & _).
  exists t'. split; [done|]. by exists s.
Qed.

Lemma handle_backend_spec dp slot f now : dp_ok dp -> ft_flows (dp_flows dp) !! slot = Some f -> f_used f = true ->
  exists dp' ev, handle_backend_packet dp slot packet packet_len now = Some (dp', ev) /\ dp_ok dp' /\
    dp_config dp' = dp_config dp /\ dp_fixed dp' = dp_fixed dp /\ dp_pending_initials dp' = dp_pending_initials dp /\
    dp_flows dp' = ft_set_flows (dp_flows dp) (<[slot := flow_touch f now]> (ft_flows (dp_flows dp))) /\
    learn_backend_scid (dp_sessions dp) packet packet_len (AddrVal (f_backend_addr f)) (f_backend_addr_len f) now (Z.of_nat slot) (f_id f) =
      Some (dp_sessions dp') /\
    only_sends ev /\
    sent ev ++ waiting dp' = waiting dp ++ relayed (dp_main_fd dp) packet packet_len (f_client_addr f) (f_client_addr_len f).
Proof using readable_packet packet_bytes.
  intros Hok Hf Hu. destruct (touch_flow_ok dp slot f now Hok Hf Hu) as (Hok1 & He & _ & Hf1). unfold handle_backend_packet.
  set (flows := ft_set_flows _ _) in *. cbv zeta. unfold flow_at. cbn [dp_runtime dp_set_flows dp_set_runtime run_flows run_set_flows run_sessions].
  rewrite Hf1. cbn [default]. change (id ?x) with x.
  change (f_backend_addr (flow_touch f now)) with (f_backend_addr f). change (f_backend_addr_len (flow_touch f now)) with (f_backend_addr_len f).
  change (f_id (flow_touch f now)) with (f_id f).
  destruct (learn_backend_puts packet packet_len readable_packet packet_bytes (dp_sessions dp) (f_backend_addr f) (f_backend_addr_len f) now
    (Z.of_nat slot) (f_id f) (ok_sessions_wf dp Hok)) as (t & Ht & Hpu). rewrite Ht. cbn [mbind option_bind].
  assert (Hok2 : dp_ok (dp_set_sessions (dp_set_flows dp flows) t)).
  { apply (set_sessions_ok 1); [done|]. eapply puts_updates; [|exact Hpu]. by apply (ok_flows dp Hok slot). }
  destruct (dp_enqueue_recv (dp_set_sessions (dp_set_flows dp flows) t) (dp_main_fd dp) packet packet_len (f_client_addr f) (f_client_addr_len f) Hok2)
    as (sd & ev & Hq & Hok3 & Hev & Htr). eexists _, ev. split; [exact (f_equal Some Hq)|].
  split_and!; try done. cbn. rewrite <- He. done.
Qed.
End backend.

(** ** Lemmas: the sweeps *)

Section sweeps.
Context `{KeyedHash}.

Lemma aged_aim P now timeout keep t t' : aged now timeout keep (contents t) (contents t') -> sessions_aim P t -> sessions_aim P t'.
Proof.
  intros Hag Ha k s Hs. specialize (Hag k). rewrite Hs in Hag. destruct (contents t !! k) as [s0|] eqn:E; [|done].
  destruct Hag as [->|(_ & _ & ->)]; exact (Ha k s0 E).
Qed.

Lemma swept_aim P doomed slots t t' n ev : flow_swept doomed slots t t' n ev -> length (ft_flows t') = length (ft_flows t) ->
  flows_aim P t -> flows_aim P t'.
Proof.
  intros [_ _ Hcl _ _] Hl Ha i f Hf Hu. destruct (lookup_lt_is_Some_2 (ft_flows t) i) as [g Hg]; [rewrite <- Hl; by apply lookup_lt_Some in Hf|].
  rewrite (Hcl i g Hg) in Hf. injection Hf as <-. destruct (_ && _); [done|]. by apply (Ha i).
Qed.

(** The slots one sweep looks at. *)
Definition sweep_slots (t : qsr_flow_table) : nat := flow_expire_scan_budget t `min` ft_capacity t.

Lemma sweep_spec_dp dp now : dp_ok dp ->
  exists dp' ev n1 n2 fev, run_expiry_sweeps dp now = Some (dp', ev) /\ dp_ok dp' /\
    dp_config dp' = dp_config dp /\ dp_fixed dp' = dp_fixed dp /\ dp_sender dp' = dp_sender dp /\ ev = FlowEvent <$> fev /\
    (let timeout := c_idle_timeout_seconds (dp_config dp) in
     qsr_session_table_expire_incremental (dp_sessions dp) now timeout (session_expire_scan_budget (dp_sessions dp))
       (Some (qsr_runtime_session_keepalive (dp_flows dp) now timeout)) = Some (dp_sessions dp', n1) /\
     aged now timeout (Some (qsr_runtime_session_keepalive (dp_flows dp) now timeout)) (contents (dp_sessions dp)) (contents (dp_sessions dp')) /\
     flow_swept (flow_idle now timeout) (cursor_slots (ft_capacity (dp_flows dp)) (ft_expire_cursor (dp_flows dp)) (sweep_slots (dp_flows dp)))
       (dp_flows dp) (dp_flows dp') n2 fev) /\
    ft_expire_cursor (dp_flows dp') = cstep (ft_capacity (dp_flows dp)) (ft_expire_cursor (dp_flows dp)) (sweep_slots (dp_flows dp)) /\
    dp_pending_initials dp' = pending_initial_expire (dp_pending_initials dp) now.
Proof.
  intros Hok. unfold run_expiry_sweeps. pose proof (lc_idle _ (rn_config _ (ok_runtime dp Hok))) as Ht.
  set (timeout := c_idle_timeout_seconds (dp_config dp)) in *. set (keep := qsr_runtime_session_keepalive (dp_flows dp) now timeout).
  destruct (expire_incremental_spec (dp_sessions dp) now timeout (session_expire_scan_budget (dp_sessions dp)) (Some keep)
    (ok_sessions_wf dp Hok) ltac:(lia)) as (t & n1 & Hs & Hwf & Hcap & Hag & _). rewrite Hs. cbn [mbind option_bind].
  destruct (flow_expire_incremental_spec (dp_flows dp) now timeout (flow_expire_scan_budget (dp_flows dp)) (ok_flows_wf dp Hok))
    as (fl & n2 & fev & -> & Hsw & _ & Hcur). cbn [mbind option_bind].
  eexists _, (FlowEvent <$> fev), n1, n2, fev. split; [reflexivity|]. split_and!; try done.
  pose proof Hsw as [Hfwf (Hfc & _) _ _ _].
  apply set_pending_ok; [|apply pending_expire_wf, Hok].
  apply set_flows_ok; [|done|done|].
  - destruct Hok as [[? ? ? ? ?] ? ? ? ? ? ?]. split; cbn; [split; cbn; congruence| |by eapply aged_aim|done..]. done.
  - eapply swept_aim; [done| |apply Hok]. rewrite (fw_len _ Hfwf), (fw_len _ (ok_flows_wf dp Hok)). done.
Qed.

(** Several sweeps with nothing in between. *)
Fixpoint run_sweeps (dp : qsr_dataplane) (nows : list Z) : option (qsr_dataplane * list event) :=
  match nows with
  | [] => Some (dp, [])
  | now :: nows =>
      '(dp, ev) ← run_expiry_sweeps dp now;
      '(dp, ev') ← run_sweeps dp nows;
      Some (dp, ev ++ ev')
  end.

Lemma cursor_slots_app c x a b : cursor_slots c x (a + b) = cursor_slots c x a ++ cursor_slots c (cstep c x a) b.
Proof.
  unfold cursor_slots. rewrite seq_app, fmap_app. f_equal. replace (0 + a)%nat with (a + 0)%nat by lia. rewrite <- (fmap_add_seq a 0 b).
  rewrite <- list_fmap_compose. apply list_fmap_ext. intros i y _. cbn. by rewrite cstep_cstep.
Qed.

Lemma cursor_slots_all c x k i : (x < c)%nat -> (i < c)%nat -> (c <= k)%nat -> i ∈ cursor_slots c x k.
Proof.
  intros Hx Hi Hk. apply list_elem_of_fmap. exists (cdist c x i). split; [symmetry; by apply cstep_cdist|].
  apply elem_of_seq. pose proof (cdist_lt c x i). lia.
Qed.

(** What is left of the flow [f] of a slot. *)
Definition flow_left (timeout : Z) (nows : list Z) (f g : qsr_flow) : Prop :=
  g = f \/ g = flow_unused /\ f_used f = true /\ Exists (fun now => flow_idle now timeout f = true) nows.

Lemma run_sweeps_spec nows : forall dp now0, dp_ok dp -> Forall (fun now => now0 <= now) nows ->
  let timeout := c_idle_timeout_seconds (dp_config dp) in
  exists dp' ev, run_sweeps dp nows = Some (dp', ev) /\ dp_ok dp' /\ dp_config dp' = dp_config dp /\
    forall i f, ft_flows (dp_flows dp) !! i = Some f ->
      exists g, ft_flows (dp_flows dp') !! i = Some g /\ flow_left timeout nows f g /\
        (i ∈ cursor_slots (ft_capacity (dp_flows dp)) (ft_expire_cursor (dp_flows dp)) (length nows * sweep_slots (dp_flows dp)) ->
         f_used f = true -> flow_idle now0 timeout f = true -> g = flow_unused).
Proof.
  induction nows as [|now nows IH]; intros dp now0 Hok Hall; cbv zeta; cbn [run_sweeps length].
  { exists dp, []. split_and!; [done..|]. intros i f Hf. exists f. split_and!; [done|by left|]. by intros ?%not_elem_of_nil. }
  apply list.Forall_cons in Hall as [Hnow Hall].
  destruct (sweep_spec_dp dp now Hok) as (dp1 & ev1 & n1 & n2 & fev & -> & Hok1 & Hcfg1 & _ & _ & _ & (_ & _ & Hsw) & Hcur & _).
  cbn [mbind option_bind]. destruct Hsw as [_ (Hcap & _) Hcl _ _].
  assert (Hss : sweep_slots (dp_flows dp1) = sweep_slots (dp_flows dp)) by (unfold sweep_slots, flow_expire_scan_budget; by rewrite Hcap).
  destruct (IH dp1 now0 Hok1 Hall) as (dp2 & ev2 & -> & Hok2 & Hcfg2 & Hfl). cbn [mbind option_bind].
  rewrite Hcfg1 in Hcfg2, Hfl. rewrite Hcap, Hcur, Hss in Hfl. exists dp2, (ev1 ++ ev2). split_and!; [done..|].
  intros i f Hf. specialize (Hcl i f Hf). destruct (Hfl i _ Hcl) as (g & Hg & Hleft & Hgone). exists g. split; [done|].
  set (timeout := c_idle_timeout_seconds (dp_config dp)) in *.
  replace (S (length nows) * sweep_slots (dp_flows dp))%nat with (sweep_slots (dp_flows dp) + length nows * sweep_slots (dp_flows dp))%nat by lia.
  rewrite cursor_slots_app. destruct (bool_decide (i ∈ cursor_slots _ _ (sweep_slots _)) && f_used f && flow_idle now timeout f) eqn:E.
  - apply andb_true_iff in E as [[_ Hu]%andb_true_iff Hidle].
    assert (g = flow_unused) as -> by (by destruct Hleft as [->|(-> & _)]). split; [|done]. right. split_and!; [done..|by left].
  - split.
    + destruct Hleft as [->|(-> & Hu & Hex)]; [by left|]. right. split_and!; [done..|by right].
    + intros [Hin|Hin]%elem_of_app Hu Hidle; [|by apply Hgone]. exfalso. rewrite bool_decide_true, Hu in E by done. cbn [andb] in E.
      unfold flow_idle in *. bool_to_prop. lia.
Qed.

(** A minute and a second of sweeps looks at every flow. *)
Lemma sweeps_cover r k : runtime_wf r -> (61 <= k)%nat -> (ft_capacity (run_flows r) <= k * sweep_slots (run_flows r))%nat.
Proof.
  intros Hwf Hk. pose proof (flow_capacity_range _ (lc_max _ (rn_config r Hwf))) as Hr. rewrite <- (rn_flow_capacity r Hwf) in Hr.
  unfold sweep_slots, flow_expire_scan_budget, scan_budget, QSR_SESSION_EXPIRE_MIN_SCAN, QSR_SESSION_EXPIRE_MAX_SCAN.
  set (c := ft_capacity (run_flows r)) in *. set (q := Z.of_nat c / 60).
  assert (Hq : Z.of_nat c < 60 * q + 60) by (subst q; dlia).
  destruct (q <? 1024) eqn:E1; cbv zeta; bool_to_prop.
  - change (16384 <? 1024) with false. cbn iota. nia.
  - destruct (16384 <? q) eqn:E2; bool_to_prop; nia.
Qed.
End sweeps.

(** ** Lemmas: a new connection *)

Section opening.
Context `{KeyedHash} `{Crypto} `{crypto_output : !CryptoOutput} (k : kernel) (aes_128_ctr : list Z -> list Z -> list Z -> option (list Z)).
Context (packet : ptr) (packet_len : Z) (readable_packet : readable packet packet_len) (packet_bytes : bytes_ok (p_buf packet)).
Context (source : list Z) (source_len now : Z) (source_size : Zlen source = SOCKADDR_SIZE)
  (source_valid : client_valid source source_len = true).
Local Notation client := (source_len, field source source_len).

(** An Initial never takes the fast path. *)
Lemma initial_not_fast dp initial : dp_ok dp -> qsr_quic_parse_initial packet packet_len = Ok initial ->
  fast_flow dp packet packet_len source source_len = Some None.
Proof using readable_packet packet_bytes source_valid.
  intros Hok Hp. destruct (fast_flow_spec packet packet_len readable_packet packet_bytes source source_len source_valid dp (ok_flows_wf dp Hok)) as (r & Hf & Hr).
  destruct r as [slot|]; [|done]. exfalso. destruct Hr as (_ & Hone & _).
  destruct (parse_initial_spec packet packet_len initial readable_packet packet_bytes Hp) as [_ (b0 & Hb & _ & Hlong & _)].
  unfold one_rtt in Hone. apply andb_true_iff in Hone as [Hlt%Z.ltb_lt Hbit].
  destruct (peek_ok packet packet_len readable_packet packet_bytes 0 ltac:(lia)) as (b & Hpk & Hld & _). rewrite Hpk in Hbit.
  rewrite Hld in Hb. injection Hb as ->. cbn [default] in Hbit. change (id b0) with b0 in Hbit. by rewrite Hlong in Hbit.
Qed.

(** An Initial without an alias, while encoded connection IDs are off. *)
Lemma initial_unknown dp initial : dp_ok dp -> cc_enabled (c_cid_codec (dp_config dp)) = false ->
  qsr_quic_parse_initial packet packet_len = Ok initial -> initial_session (dp_config dp) (dp_sessions dp) initial = None ->
  handle_client_packet aes_128_ctr k dp packet packet_len source source_len now =
    handle_unknown k dp packet packet_len source source_len now (qsr_session_tuple_key (Some source) source_len) (Some initial).
Proof using readable_packet packet_bytes source_valid.
  intros Hok Hoff Hp Hnone. unfold handle_client_packet. rewrite (initial_not_fast dp initial Hok Hp). cbn [mbind option_bind].
  destruct (find_session_spec aes_128_ctr packet packet_len readable_packet packet_bytes (dp_config dp) (ok_routes dp Hok) (dp_sessions dp)
    (qsr_session_tuple_key (Some source) source_len) now (ok_sessions_wf dp Hok) (ok_sessions dp Hok))
    as (t & session & initial' & -> & _ & _ & Hi & Hsame & _ & Hses). cbn [mbind option_bind].
  unfold attempt in Hi. rewrite Hp in Hi. injection Hi as <-. rewrite (Hsame (ex_intro _ initial eq_refl) Hoff) in *.
  rewrite (Hses initial eq_refl), Hnone. by destruct dp as [[]].
Qed.

Lemma fresh_spec dp initial m name fs backend backend_len :
  dp_ok dp -> ft_next_id (dp_flows dp) + 1 < 2 ^ 64 -> kernel_fresh k dp -> 0 <= source_len ->
  cc_enabled (c_cid_codec (dp_config dp)) = false -> QSR_MIN_INITIAL_DATAGRAM_SIZE <= packet_len ->
  qsr_quic_parse_initial packet packet_len = Ok initial -> initial_session (dp_config dp) (dp_sessions dp) initial = None ->
  Zlen m <= QSR_MAX_CLIENT_HELLO_SIZE -> client_hello_sni m = Ok name -> route_of (dp_config dp) name = Ok (backend, backend_len, name) ->
  qsr_quic_decrypt_initial packet packet_len initial = Ok (fs ≫= encode_frame) ->
  Forall frame_ok fs -> Forall (piece_of m) fs -> existsb is_crypto fs = true -> Zlen (fs ≫= encode_frame) <= QSR_MAX_CLIENT_HELLO_SIZE ->
  (forall j f, pt_entries (dp_pending_initials dp) !! j = Some f -> pe_used f = true -> entry_key f = initial_key source source_len initial ->
    part_of m (pe_crypto f)) ->
  key_valid (qsr_session_tuple_key (Some source) source_len) = true -> backend_valid backend backend_len = true ->
  exists dp' ev pending' i e n,
    handle_client_packet aes_128_ctr k dp packet packet_len source source_len now = Some (dp', ev) /\
    buffered (dp_pending_initials dp) pending' source source_len now initial packet packet_len i e /\
    (forall j, Exists (fun f => covers f j) fs -> is_Some (stream_at (pe_crypto e) j)) /\
    received_upto m (pe_crypto e) n /\
    (client_hello_sni (take n m) = Ok name ->
     exists r, acquired (k_socket k) (k_epoll_add k) (dp_flows dp) client backend backend_len now (dp_flows dp') r /\
       match r with
       | Some slot =>
           sent ev = waiting dp ++ ((fun p => (f_fd (flow_at dp' slot), (p, field backend backend_len))) <$> entry_packets e) /\
           queued (dp_sender dp') = [] /\ dp_pending_initials dp' = pending_initial_remove pending' i /\
           (roomy 4 (dp_sessions dp) -> leads (dp_sessions dp') (key_view (qsr_session_tuple_key (Some source) source_len)) backend backend_len)
       | None => sent ev = [] /\ dp_sessions dp' = dp_sessions dp /\ dp_pending_initials dp' = pending'
       end) /\
    (client_hello_sni (take n m) <> Ok name -> dp' = dp_set_pending dp pending' /\ ev = []).
Proof using readable_packet packet_bytes source_valid source_size crypto_output.
  intros Hok Hid Hfresh Hsl Hoff Hsize Hp Hnone Hm Hname Hroute Hd Hfs Hpc Hcr Hfl Hpart Hkv Hbv.
  rewrite (initial_unknown dp initial Hok Hoff Hp Hnone). unfold handle_unknown. rewrite (proj2 (Z.ltb_ge _ _)) by lia.
  destruct (initial_routed_spec (dp_config dp) (dp_pending_initials dp) packet packet_len initial source source_len now m name fs
    (ok_routes dp Hok) (ok_pending dp Hok) readable_packet packet_bytes Hp source_size (source_range source source_len source_valid Hsl)
    Hm Hname Hd Hfs Hpc Hcr Hfl Hpart) as (pending' & i & e & cid_key & routed & -> & Hpw & Hnf & Hbuf & _ & Hcov & _ & _ & n & Hn & Hyes & Hno).
  pose proof (set_pending_ok dp pending' Hok Hpw) as Hok1. set (dp1 := dp_set_pending dp pending') in *.
  assert (Hw : waiting dp1 = waiting dp) by (apply waiting_from_receive, Hok).
  assert (Hb : backend_of_config (dp_config dp) backend backend_len).
  { unfold route_of in Hroute. destruct (qsr_route_table_lookup _ _) as [j|] eqn:El; [|done]. injection Hroute as <- <-.
    by apply (rl_resolved _ (ok_routes dp Hok)), (lookup_live _ _ _ (ok_routes dp Hok) El). }
  destruct (open_connection_spec k packet packet_len readable_packet packet_bytes source source_len now source_valid dp1
    (qsr_session_tuple_key (Some source) source_len) cid_key i e backend backend_len name Hok1 Hid Hfresh Hb
    (bf_entry _ _ _ _ _ _ _ _ _ _ Hbuf) (bf_wf _ _ _ _ _ _ _ _ _ _ Hbuf)) as (dp' & ev & r & Hopen & _ & Hacq & Hres).
  destruct (decide (client_hello_sni (take n m) = Ok name)) as [Hs|Hs].
  - rewrite (Hyes Hs), Hroute. exists dp', ev, pending', i, e, n. split_and!; [exact Hopen|done|done|done| |done].
    intros _. exists r. split; [exact Hacq|]. rewrite Hkv, Hbv in Hres. cbn [andb] in Hres. by rewrite Hw in Hres.
  - destruct (Hno Hs) as [s ->]. by exists dp1, [], pending', i, e, n.
Qed.
End opening.

(** A short header of a client with a flow, while encoded connection IDs are off. *)
Lemma established_fast `{KeyedHash} `{Crypto} (k : kernel) (aes_128_ctr : list Z -> list Z -> list Z -> option (list Z))
    dp slot f packet packet_len source source_len now :
  dp_ok dp -> readable packet packet_len -> bytes_ok (p_buf packet) -> client_valid source source_len = true ->
  cc_enabled (c_cid_codec (dp_config dp)) = false -> one_rtt packet packet_len = true ->
  client_flow (dp_flows dp) (source_len, field source source_len) slot f ->
  exists sd ev, let flows := ft_set_flows (dp_flows dp) (<[slot := flow_touch f now]> (ft_flows (dp_flows dp))) in
    handle_client_packet aes_128_ctr k dp packet packet_len source source_len now = Some (dp_set_sender (dp_set_flows dp flows) sd, ev) /\
    dp_ok (dp_set_sender (dp_set_flows dp flows) sd) /\ only_sends ev /\
    sent ev ++ waiting (dp_set_sender dp sd) = waiting dp ++ relayed (f_fd f) packet packet_len (f_backend_addr f) (f_backend_addr_len f).
Proof.
  intros Hok Hr Hb Hv Hoff Hone Hcf. unfold handle_client_packet.
  destruct (fast_flow_spec packet packet_len Hr Hb source source_len Hv dp (ok_flows_wf dp Hok)) as (r & -> & Hres). cbn [mbind option_bind].
  destruct r as [slot'|]; [|by destruct (Hres Hoff Hone slot f)]. destruct Hres as (_ & _ & f' & Hcf').
  assert (slot' = slot) as ->.
  { destruct Hcf as (Hf & Hu & Hk), Hcf' as (Hf' & Hu' & Hk').
    apply (flow_uniq (dp_flows dp) (ok_flows_wf dp Hok) slot' slot (source_len, field source source_len)).
    - apply view_lookup. exists f'. split; [done|]. rewrite fslot_used by done. by f_equal.
    - apply view_lookup. exists f. split; [done|]. rewrite fslot_used by done. by f_equal. }
  destruct (fast_path_spec k packet packet_len source source_len now dp slot f Hok Hcf) as (sd & ev & Hf & Hh & Hev & Ht).
  exists sd, ev. cbv zeta. rewrite Hf. split_and!; [done|apply Hh|done..].
Qed.

(** The session's flow is live and was used within the timeout. *)
Definition active `{KeyedHash} (flows : qsr_flow_table) (now timeout : Z) (s : qsr_session) : Prop :=
  exists slot f, ft_flows flows !! slot = Some f /\ f_used f = true /\ session_flow s slot f /\ now - f_last_seen f < timeout.

Lemma active_kept `{KeyedHash} flows now timeout t key s : flow_wf flows -> table_wf t -> contents t !! key = Some s ->
  kept (Some (qsr_runtime_session_keepalive flows now timeout)) s = true <-> active flows now timeout s.
Proof.
  intros Hf Hwf Hs. apply contents_lookup in Hs as (i & Hi & Hk); [|done]. unfold skey in Hk. destruct (s_used s) eqn:Hu; [|done].
  destruct (fr_entry t (wf_frame t Hwf) i s Hi Hu) as (Hv & _). by apply keepalive_exact.
Qed.

(** ** Properties *)

Section properties.
Context `{KeyedHash} `{Crypto} `{crypto_output : !CryptoOutput} (k : kernel) (aes_128_ctr : list Z -> list Z -> list Z -> option (list Z)).

(** C1: Whatever bytes a client sends, as long as the session table has room for
    the aliases of a long header ([roomy 5]), [handle_client_packet] returns -
    no read outside the datagram, no table operation without a result - and
    keeps the invariant: well-formed tables, sessions and flows aimed at
    configured backends, no pointer into a pending entry left in the queue.
    What it does is confined to that client: everything sent goes through a
    flow of its own to that flow's backend, a configured one, and is the
    datagram or one buffered from the same address; what waited to be sent is
    sent first. The flows of other clients stay as they are, but for at most
    one, which is evicted: only when the flow table is full or the process is
    out of descriptors, and only one that no flow of the scan window was used
    before. The descriptors the table held and those [socket] returned are those
    closed and those the table holds. *)
Theorem client_datagram_handled dp packet packet_len source source_len now :
  dp_ok dp -> ft_next_id (dp_flows dp) + 1 < 2 ^ 64 -> kernel_fresh k dp ->
  readable packet packet_len -> bytes_ok (p_buf packet) ->
  Zlen source = SOCKADDR_SIZE -> 0 <= source_len -> client_valid source source_len = true ->
  (not_long_header packet packet_len = Some false -> roomy 5 (dp_sessions dp)) ->
  exists dp' ev, handle_client_packet aes_128_ctr k dp packet packet_len source source_len now = Some (dp', ev) /\
    handled k 7 (source_len, field source source_len)
      (own_bytes (dp_pending_initials dp) packet packet_len source source_len) dp dp' ev.
Proof. intros. by apply handle_client_spec. Qed.

(** A datagram of an unknown connection that is under 1200 bytes or no
    Initial costs nothing: no cryptography, no state, nothing sent. For an
    Initial while encoded connection IDs are on only the tuple bound to the decoded server can stay. *)
Theorem unknown_datagram_dropped dp packet packet_len source source_len now t initial :
  dp_ok dp -> readable packet packet_len -> bytes_ok (p_buf packet) ->
  fast_flow dp packet packet_len source source_len = Some None ->
  find_session aes_128_ctr (dp_config dp) (dp_sessions dp) packet packet_len
    (qsr_session_tuple_key (Some source) source_len) now = Some (t, None, initial) ->
  packet_len < QSR_MIN_INITIAL_DATAGRAM_SIZE \/ initial = None ->
  handle_client_packet aes_128_ctr k dp packet packet_len source source_len now = Some (dp_set_sessions dp t, []) /\
  (cc_enabled (c_cid_codec (dp_config dp)) = false \/ initial = None -> dp_set_sessions dp t = dp).
Proof.
  intros Hok Hr Hb Hfast Hfind Hdrop. unfold handle_client_packet. rewrite Hfast. cbn [mbind option_bind]. rewrite Hfind.
  cbn [mbind option_bind]. split.
  - unfold handle_unknown. destruct (packet_len <? QSR_MIN_INITIAL_DATAGRAM_SIZE) eqn:El; [done|]. bool_to_prop.
    destruct Hdrop as [?| ->]; [lia|done].
  - intros Hc. destruct (find_session_spec aes_128_ctr packet packet_len Hr Hb (dp_config dp) (ok_routes dp Hok) (dp_sessions dp)
      (qsr_session_tuple_key (Some source) source_len) now (ok_sessions_wf dp Hok) (ok_sessions dp Hok))
      as (t' & r & initial' & Hf & _ & _ & _ & Hon & Hnone & _). rewrite Hfind in Hf. injection Hf as <- <- <-.
    assert (t = dp_sessions dp) as ->; [|by destruct dp as [[]]].
    destruct initial as [initial|]; [|by apply Hnone]. destruct Hc as [Hc|?]; [|done]. by apply Hon.
Qed.

(** While encoded connection IDs are off, a short header of a client with a
    flow takes the fast path: the flow is touched, the datagram is queued for
    its backend on its descriptor behind what waits, and nothing else changes -
    the session table is not even read. *)
Theorem fast_path_exact dp slot f packet packet_len source source_len now :
  dp_ok dp -> readable packet packet_len -> bytes_ok (p_buf packet) -> client_valid source source_len = true ->
  cc_enabled (c_cid_codec (dp_config dp)) = false -> one_rtt packet packet_len = true ->
  client_flow (dp_flows dp) (source_len, field source source_len) slot f ->
  exists sd ev, let flows := ft_set_flows (dp_flows dp) (<[slot := flow_touch f now]> (ft_flows (dp_flows dp))) in
    handle_client_packet aes_128_ctr k dp packet packet_len source source_len now = Some (dp_set_sender (dp_set_flows dp flows) sd, ev) /\
    flow_events ev = [] /\
    sent ev ++ waiting (dp_set_sender dp sd) = waiting dp ++ relayed (f_fd f) packet packet_len (f_backend_addr f) (f_backend_addr_len f).
Proof.
  intros Hok Hr Hb Hv Hoff Hone Hcf.
  destruct (established_fast k aes_128_ctr dp slot f packet packet_len source source_len now Hok Hr Hb Hv Hoff Hone Hcf)
    as (sd & ev & He & _ & Hev & Ht). exists sd, ev. split_and!; [done|by apply only_sends_flow|done].
Qed.

(** C2: An Initial of an unknown connection with a part of the ClientHello [m],
    which comes in this datagram or over several, in any order. Let [n] be the
    number of bytes of [m] received without a gap. As soon as the name can be
    read in them - at the latest when all of [m] has come - the connection is
    opened to the backend of the route of that name: the client gets a flow aimed there,
    every datagram buffered for the connection is sent through it in order,
    behind what waited, the entry is freed, and the client's address leads to
    that backend from then on. Until then the datagram is only buffered: nothing is
    sent, no flow is opened, and nothing but the pending table changes. *)
Theorem fresh_connection_opened dp packet packet_len source source_len now initial m name fs backend backend_len :
  readable packet packet_len -> bytes_ok (p_buf packet) -> Zlen source = SOCKADDR_SIZE -> client_valid source source_len = true ->
  dp_ok dp -> ft_next_id (dp_flows dp) + 1 < 2 ^ 64 -> kernel_fresh k dp -> 0 <= source_len ->
  cc_enabled (c_cid_codec (dp_config dp)) = false -> QSR_MIN_INITIAL_DATAGRAM_SIZE <= packet_len ->
  qsr_quic_parse_initial packet packet_len = Ok initial -> initial_session (dp_config dp) (dp_sessions dp) initial = None ->
  Zlen m <= QSR_MAX_CLIENT_HELLO_SIZE -> client_hello_sni m = Ok name -> route_of (dp_config dp) name = Ok (backend, backend_len, name) ->
  qsr_quic_decrypt_initial packet packet_len initial = Ok (fs ≫= encode_frame) ->
  Forall frame_ok fs -> Forall (piece_of m) fs -> existsb is_crypto fs = true -> Zlen (fs ≫= encode_frame) <= QSR_MAX_CLIENT_HELLO_SIZE ->
  (forall j f, pt_entries (dp_pending_initials dp) !! j = Some f -> pe_used f = true -> entry_key f = initial_key source source_len initial ->
    part_of m (pe_crypto f)) ->
  key_valid (qsr_session_tuple_key (Some source) source_len) = true -> backend_valid backend backend_len = true ->
  exists dp' ev pending' i e n,
    handle_client_packet aes_128_ctr k dp packet packet_len source source_len now = Some (dp', ev) /\
    buffered (dp_pending_initials dp) pending' source source_len now initial packet packet_len i e /\
    (forall j, Exists (fun f => covers f j) fs -> is_Some (stream_at (pe_crypto e) j)) /\
    received_upto m (pe_crypto e) n /\
    (client_hello_sni (take n m) = Ok name ->
     exists r, acquired (k_socket k) (k_epoll_add k) (dp_flows dp) (source_len, field source source_len) backend backend_len now (dp_flows dp') r /\
       match r with
       | Some slot =>
           sent ev = waiting dp ++ ((fun p => (f_fd (flow_at dp' slot), (p, field backend backend_len))) <$> entry_packets e) /\
           queued (dp_sender dp') = [] /\ dp_pending_initials dp' = pending_initial_remove pending' i /\
           (roomy 4 (dp_sessions dp) -> leads (dp_sessions dp') (key_view (qsr_session_tuple_key (Some source) source_len)) backend backend_len)
       | None => sent ev = [] /\ dp_sessions dp' = dp_sessions dp /\ dp_pending_initials dp' = pending'
       end) /\
    (client_hello_sni (take n m) <> Ok name -> dp' = dp_set_pending dp pending' /\ ev = []).
Proof. intros. by eapply fresh_spec. Qed.

(** C12: A datagram from a backend on a flow's descriptor is queued for that
    flow's client, from the listening descriptor, behind what waits; the flow
    is touched; the SCID of a long header leads to the flow's backend from then on;
    no other flow and no pending entry is changed. *)
Theorem backend_datagram_relayed dp slot f packet packet_len now :
  dp_ok dp -> readable packet packet_len -> bytes_ok (p_buf packet) -> ft_flows (dp_flows dp) !! slot = Some f -> f_used f = true ->
  exists dp' ev, handle_backend_packet dp slot packet packet_len now = Some (dp', ev) /\ dp_ok dp' /\
    dp_flows dp' = ft_set_flows (dp_flows dp) (<[slot := flow_touch f now]> (ft_flows (dp_flows dp))) /\
    dp_pending_initials dp' = dp_pending_initials dp /\ flow_events ev = [] /\
    sent ev ++ waiting dp' = waiting dp ++ relayed (dp_main_fd dp) packet packet_len (f_client_addr f) (f_client_addr_len f) /\
    forall h, not_long_header packet packet_len = Some false -> qsr_quic_parse_long_header packet packet_len = Ok h ->
      let key := qsr_session_single_cid_key (h_scid h) (h_scid_len h) in
      key_valid key = true -> backend_valid (f_backend_addr f) (f_backend_addr_len f) = true ->
      leads (dp_sessions dp') (key_view key) (f_backend_addr f) (f_backend_addr_len f).
Proof.
  intros Hok Hr Hb Hf Hu.
  destruct (handle_backend_spec packet packet_len Hr Hb dp slot f now Hok Hf Hu) as (dp' & ev & He & Hok' & _ & _ & Hp & Hfl & Hl & Hev & Ht).
  exists dp', ev. split_and!; [done..|by apply only_sends_flow|done|]. intros h Hn Hh. cbv zeta. intros Hk Hbv.
  destruct (learn_backend_leads packet packet_len (dp_sessions dp) (f_backend_addr f) (f_backend_addr_len f) now (Z.of_nat slot) (f_id f) h
    (ok_sessions_wf dp Hok) Hn Hh Hk Hbv) as (t & Ht' & Hlead). congruence.
Qed.

(** C13: A sweep keeps the invariant, sends nothing, leaks no descriptor and only
    forgets what is idle: a session that was seen within the timeout, or whose
    flow was, stays and leads where it led; a flow seen within the timeout stays as it is. *)
Theorem sweep_keeps_active dp now : dp_ok dp ->
  let timeout := c_idle_timeout_seconds (dp_config dp) in
  exists dp' ev, run_expiry_sweeps dp now = Some (dp', ev) /\ dp_ok dp' /\ sent ev = [] /\ waiting dp' = waiting dp /\
    closed (flow_events ev) ++ fds (ft_flows (dp_flows dp')) ≡ₚ fds (ft_flows (dp_flows dp)) /\
    (forall key s, contents (dp_sessions dp) !! key = Some s -> idle now timeout s = false \/ active (dp_flows dp) now timeout s ->
      exists s', contents (dp_sessions dp') !! key = Some s' /\
        s_backend_addr s' = s_backend_addr s /\ s_backend_addr_len s' = s_backend_addr_len s) /\
    (forall slot f, ft_flows (dp_flows dp) !! slot = Some f -> f_used f = true -> flow_idle now timeout f = false ->
      ft_flows (dp_flows dp') !! slot = Some f).
Proof.
  intros Hok. cbv zeta.
  destruct (sweep_spec_dp dp now Hok) as (dp' & ev & n1 & n2 & fev & He & Hok' & _ & _ & Hsd & -> & (_ & Hag & [_ _ Hcl _ Hp]) & _ & Hpe).
  exists dp', (FlowEvent <$> fev). split_and!; [done|done|apply sent_flow_events| |by rewrite flow_events_fmap| |].
  - unfold waiting. rewrite Hsd. apply waiting_from_receive, Hok.
  - intros key s Hs Hkeep. specialize (Hag key). rewrite Hs in Hag.
    destruct (contents (dp_sessions dp') !! key) as [s'|] eqn:E.
    + exists s'. split; [done|]. by destruct Hag as [->|(_ & _ & ->)].
    + exfalso. destruct Hag as [Hi Hk]. destruct Hkeep as [?|Ha]; [congruence|].
      apply (active_kept _ _ _ (dp_sessions dp) key s (ok_flows_wf dp Hok) (ok_sessions_wf dp Hok) Hs) in Ha. congruence.
  - intros slot f Hf Hu Hi. rewrite (Hcl slot f Hf), Hi, andb_false_r. done.
Qed.

(** C14: Without traffic every idle flow is closed within 61 sweeps, a minute and
    a second, whatever the capacity: a flow that was idle when the first began is gone
    after the last, and only flows that became idle are. *)
Theorem idle_flows_collected dp nows now0 :
  dp_ok dp -> Forall (fun now => now0 <= now) nows -> (61 <= length nows)%nat ->
  let timeout := c_idle_timeout_seconds (dp_config dp) in
  exists dp' ev, run_sweeps dp nows = Some (dp', ev) /\ dp_ok dp' /\
    forall slot f, ft_flows (dp_flows dp) !! slot = Some f -> f_used f = true ->
      exists g, ft_flows (dp_flows dp') !! slot = Some g /\
        (flow_idle now0 timeout f = true -> g = flow_unused) /\
        (Forall (fun now => flow_idle now timeout f = false) nows -> g = f).
Proof.
  intros Hok Hall Hlen. cbv zeta. destruct (run_sweeps_spec nows dp now0 Hok Hall) as (dp' & ev & He & Hok' & _ & Hfl).
  exists dp', ev. split_and!; [done..|]. intros slot f Hf Hu. destruct (Hfl slot f Hf) as (g & Hg & Hleft & Hgone).
  pose proof (ok_flows_wf dp Hok) as Hwf. exists g. split_and!; [done| |].
  - intros Hidle. apply Hgone; [|done..]. apply cursor_slots_all; [apply Hwf| |by apply sweeps_cover; [apply Hok|]].
    rewrite <- (fw_len _ Hwf). by apply lookup_lt_Some in Hf.
  - intros Hnot. destruct Hleft as [->|(_ & _ & Hex)]; [done|]. exfalso. apply list.Exists_exists in Hex as (now & Hin & Hi).
    rewrite list.Forall_forall in Hnot. specialize (Hnot now Hin). congruence.
Qed.
End properties.

(** ** Witnesses *)

Section examples.
Local Existing Instance sum_hash.
Local Existing Instances plain_crypto plain_output.

Definition plain_ctr (key iv text : list Z) : option (list Z) := Some text.

Definition demo_kernel : kernel := {| k_socket _ _ := SocketFd 9; k_epoll_add _ _ := true |}.

Lemma demo_kernel_fresh dp : dp_ok dp -> fds (ft_flows (dp_flows dp)) = [] -> kernel_fresh demo_kernel dp.
Proof.
  intros Hok Hf family. split; cbn.
  - by intros _ fd [= <-].
  - intros fd _. rewrite Hf. apply not_elem_of_nil.
  - intros fd t' n ev _ He. destruct (evict_oldest_drops _ _ _ _ (ok_flows_wf dp Hok) He) as [_ Hp]. rewrite Hf in Hp.
    apply Permutation_nil_r, app_nil in Hp as [_ ->]. apply not_elem_of_nil.
Qed.

(** The flow table of [demo_runtime]: empty. *)
Definition demo_no_flows : qsr_flow_table := run_flows demo_runtime.

(** A started router with the route of the demo name. *)
Record demo_ready (dp : qsr_dataplane) (backend : list Z) : Prop := {
  dr_ok : dp_ok dp;
  dr_codec : cc_enabled (c_cid_codec (dp_config dp)) = false;
  dr_next : ft_next_id (dp_flows dp) + 1 < 2 ^ 64;
  dr_fds : fds (ft_flows (dp_flows dp)) = [];
  dr_sessions : contents (dp_sessions dp) = ∅;
  dr_pending : dp_pending_initials dp = pending_table0;
  dr_queue : queued (dp_sender dp) = [];
  dr_route : route_of (dp_config dp) (sni_name demo_host) = Ok (backend, 4, sni_name demo_host);
  dr_backend : backend_valid backend 4 = true;
  dr_flows : dp_flows dp = demo_no_flows;
  dr_capacity : t_capacity (dp_sessions dp) = 40%nat;
}.

Definition demo_run_config (t : qsr_route_table) : qsr_config := set_max_sessions (set_routes qsr_config_default t) 40.

Lemma demo_dp : exists dp backend, demo_ready dp backend.
Proof.
  destruct demo_routes_live as (t & Hlive & Hlk & Hb & _).
  assert (Hcfg : live_config (demo_run_config t)).
  { destruct demo_live as [? ? _ _ ?]. split; cbn; try done. apply Hlive. }
  pose proof (init_spec demo_small (fun _ => (5, [])) demo_raw (demo_run_config t) None demo_small_ok Hcfg) as Hi.
  assert (Hst : (qsr_runtime_init demo_small (fun _ => (5, [])) demo_raw (demo_run_config t) None).2 = QSR_OK) by reflexivity.
  assert (Hni : run_flows (qsr_runtime_init demo_small (fun _ => (5, [])) demo_raw (demo_run_config t) None).1.1 = demo_no_flows) by reflexivity.
  destruct (qsr_runtime_init _ _ _ _ _) as [[r ev] st]. cbn [fst snd] in Hst, Hni. subst st. destruct Hi as (Hwf & Hc & Hs & Hf & _).
  exists (dp_start r 3), (r_backend_addr (route_at t 0)).
  unfold backend_of in Hb. injection Hb as Hlen Hfield. split; cbn [dp_runtime dp_start dp_pending_initials dp_sender].
  - apply start_ok; [done|by rewrite Hc|done|done].
  - by rewrite Hc.
  - by rewrite Hni.
  - done.
  - done.
  - done.
  - done.
  - rewrite Hc. unfold route_of. change (c_routes (demo_run_config t)) with t. by rewrite Hlk, Hlen.
  - rewrite Hlen in Hfield. destruct (r_backend_addr (route_at t 0)) as [|a [|b l]]; try done. cbn in Hfield. by injection Hfield as -> -> _.
  - exact Hni.
  - pose proof (rn_session_capacity r Hwf) as Hcap. rewrite Hc in Hcap. cbn in Hcap |- *. lia.
Qed.

Lemma demo_no_get dp backend key : demo_ready dp backend -> qsr_session_table_get (dp_sessions dp) key = None.
Proof.
  intros [Hok _ _ _ Hs _ _ _ _ _ _]. pose proof (get_spec (dp_sessions dp) key (ok_sessions_wf dp Hok)) as Hg. destruct (key_valid key); [|done].
  destruct (qsr_session_table_get _ key); [|done]. destruct Hg as (s & _ & Hl). rewrite Hs in Hl. by rewrite lookup_empty in Hl.
Qed.

Lemma demo_no_session dp backend initial : demo_ready dp backend -> initial_session (dp_config dp) (dp_sessions dp) initial = None.
Proof.
  intros Hd. unfold initial_session, lookup_long_header_request_dcid. by rewrite !(demo_no_get dp backend _ Hd).
Qed.

Lemma demo_roomy dp backend : demo_ready dp backend -> roomy 5 (dp_sessions dp).
Proof.
  intros [Hok _ _ _ Hs _ _ _ _ _ Hcap] m Hm. rewrite (wf_count _ (ok_sessions_wf dp Hok)), Hs, Hcap, map_size_empty.
  unfold QSR_PRESSURE_EVICT_MIN_CAPACITY. lia.
Qed.

Lemma fresh_connection_opened_witness : exists dp backend dp' ev, demo_ready dp backend /\
  handle_client_packet plain_ctr demo_kernel dp (Ptr demo_datagram 0) 1200 (demo_addr 1) 16 5 = Some (dp', ev).
Proof.
  destruct demo_dp as (dp & backend & Hd). pose proof Hd as [Hok Hcc Hid Hf Hs Hpe Hq Hroute Hbv Hfl Hcap].
  destruct (fresh_connection_opened demo_kernel plain_ctr dp (Ptr demo_datagram 0) 1200 (demo_addr 1) 16 5 demo_initial_header demo_hello
    (sni_name demo_host) demo_crypto_frames backend 4) as (dp' & ev & _ & _ & _ & _ & He & _).
  - z_concrete.
  - bytes_concrete.
  - reflexivity.
  - reflexivity.
  - exact Hok.
  - exact Hid.
  - exact (demo_kernel_fresh dp Hok Hf).
  - lia.
  - exact Hcc.
  - z_concrete.
  - exact demo_datagram_parsed.
  - exact (demo_no_session dp backend demo_initial_header Hd).
  - z_concrete.
  - vm_compute. reflexivity.
  - exact Hroute.
  - exact demo_datagram_decrypted.
  - exact (proj1 demo_crypto_frames_ok).
  - exact (proj2 demo_crypto_frames_ok).
  - reflexivity.
  - z_concrete.
  - rewrite Hpe. intros j f Hj Hu. by rewrite (no_pending j f Hj) in Hu.
  - reflexivity.
  - exact Hbv.
  - exists dp, backend, dp', ev. split; [exact Hd|exact He].
Defined.

(** The same router with a flow for client 1. *)
Lemma demo_acquired log backend : (match flow_acquire (k_socket demo_kernel) (k_epoll_add demo_kernel) log demo_no_flows (demo_addr 1) 16
    backend 4 5 None None 0 with Some (_, Some _, _) => true | _ => false end) = true.
Proof. destruct log; vm_compute; reflexivity. Qed.

Lemma demo_flow : exists dp slot f, dp_ok dp /\ cc_enabled (c_cid_codec (dp_config dp)) = false /\
  client_flow (dp_flows dp) (16, field (demo_addr 1) 16) slot f.
Proof.
  destruct demo_dp as (dp & backend & [Hok Hcc Hid Hf Hs Hpe Hq Hroute Hbv Hfl Hcap]).
  assert (Hb : backend_of_config (dp_config dp) backend 4).
  { unfold route_of in Hroute. destruct (qsr_route_table_lookup _ _) as [j|] eqn:El; [|done]. injection Hroute as <- <-.
    by apply (rl_resolved _ (ok_routes dp Hok)), (lookup_live _ _ _ (ok_routes dp Hok) El). }
  destruct (dp_acquire_spec demo_kernel dp (demo_addr 1) 16 backend 4 5 None None 0 Hok Hid eq_refl (demo_kernel_fresh dp Hok Hf) Hb)
    as (t & r & ev & Ha & Hok' & Hacq & _).
  pose proof (demo_acquired (c_log_connections (dp_config dp)) backend) as Hd. rewrite <- Hfl in Hd. unfold dp_flow_acquire in Ha.
  destruct (flow_acquire _ _ _ _ _ _ _ _ _ _ _ _) as [[[t1 r1] ev1]|]; [|done]. cbn [mbind option_bind] in Ha.
  injection Ha as _ -> _. destruct r as [slot|]; [|done]. destruct Hacq as [_ _ _ _ _ _ _ (f & [Hcf _ _ _] & _)].
  exists (dp_set_flows dp t), slot, f. split_and!; [done|done|exact Hcf].
Qed.

Lemma client_datagram_handled_witness : exists dp dp' ev, dp_ok dp /\
  handle_client_packet plain_ctr demo_kernel dp (Ptr demo_datagram 0) 1200 (demo_addr 1) 16 5 = Some (dp', ev) /\ dp_ok dp'.
Proof.
  destruct demo_dp as (dp & backend & Hd). pose proof Hd as [Hok Hcc Hid Hf Hs Hpe Hq Hroute Hbv Hfl Hcap].
  destruct (client_datagram_handled demo_kernel plain_ctr dp (Ptr demo_datagram 0) 1200 (demo_addr 1) 16 5 Hok Hid
    (demo_kernel_fresh dp Hok Hf)) as (dp' & ev & He & Hh).
  - z_concrete.
  - bytes_concrete.
  - reflexivity.
  - lia.
  - reflexivity.
  - intros _. exact (demo_roomy dp backend Hd).
  - exists dp, dp', ev. split_and!; [exact Hok|exact He|exact (hd_ok _ _ _ _ _ _ _ Hh)].
Defined.

Lemma unknown_datagram_dropped_witness : exists dp, dp_ok dp /\
  handle_client_packet plain_ctr demo_kernel dp (Ptr demo_datagram 0) 6 (demo_addr 1) 16 5 = Some (dp, []).
Proof.
  destruct demo_dp as (dp & backend & Hd). pose proof Hd as [Hok Hcc Hid Hf Hs Hpe Hq Hroute Hbv Hfl Hcap]. exists dp. split; [exact Hok|].
  assert (Hfind : find_session plain_ctr (dp_config dp) (dp_sessions dp) (Ptr demo_datagram 0) 6
    (qsr_session_tuple_key (Some (demo_addr 1)) 16) 5 = Some (dp_sessions dp, None, None)).
  { unfold find_session, lookup_encoded_cid. rewrite Hcc. cbn [negb mbind option_bind].
    assert (attempt (qsr_quic_parse_initial (Ptr demo_datagram 0) 6) = Some None) as -> by (vm_compute; reflexivity).
    cbn [mbind option_bind]. unfold other_session. rewrite (demo_no_get dp backend _ Hd). reflexivity. }
  assert (Hfast : fast_flow dp (Ptr demo_datagram 0) 6 (demo_addr 1) 16 = Some None).
  { unfold fast_flow. rewrite Hcc. assert (peek (Ptr demo_datagram 0) 0 = Some 0xc0) as -> by (vm_compute; reflexivity). reflexivity. }
  destruct (unknown_datagram_dropped demo_kernel plain_ctr dp (Ptr demo_datagram 0) 6 (demo_addr 1) 16 5 (dp_sessions dp) None Hok) as [He Hs'].
  - z_concrete.
  - bytes_concrete.
  - exact Hfast.
  - exact Hfind.
  - left. z_concrete.
  - rewrite He. f_equal. f_equal. apply Hs'. left. exact Hcc.
Defined.

Lemma fast_path_exact_witness : exists dp dp' ev, dp_ok dp /\
  handle_client_packet plain_ctr demo_kernel dp (Ptr (0x40 :: zeros 30) 0) 31 (demo_addr 1) 16 6 = Some (dp', ev) /\ flow_events ev = [].
Proof.
  destruct demo_flow as (dp & slot & f & Hok & Hcc & Hcf).
  destruct (fast_path_exact demo_kernel plain_ctr dp slot f (Ptr (0x40 :: zeros 30) 0) 31 (demo_addr 1) 16 6 Hok) as (sd & ev & He & Hev & _).
  - z_concrete.
  - bytes_concrete.
  - reflexivity.
  - exact Hcc.
  - reflexivity.
  - exact Hcf.
  - eexists dp, _, ev. split_and!; [exact Hok|exact He|exact Hev].
Defined.

Lemma backend_datagram_relayed_witness : exists dp slot dp' ev, dp_ok dp /\
  handle_backend_packet dp slot (Ptr (0x40 :: zeros 30) 0) 31 6 = Some (dp', ev) /\ dp_ok dp'.
Proof.
  destruct demo_flow as (dp & slot & f & Hok & _ & Hf & Hu & _).
  destruct (backend_datagram_relayed dp slot f (Ptr (0x40 :: zeros 30) 0) 31 6 Hok) as (dp' & ev & He & Hok' & _).
  - z_concrete.
  - bytes_concrete.
  - exact Hf.
  - exact Hu.
  - exists dp, slot, dp', ev. split_and!; [exact Hok|exact He|exact Hok'].
Defined.

Lemma sweep_keeps_active_witness : exists dp dp' ev, dp_ok dp /\ run_expiry_sweeps dp 100 = Some (dp', ev) /\ dp_ok dp'.
Proof.
  destruct demo_flow as (dp & slot & f & Hok & _).
  destruct (sweep_keeps_active dp 100 Hok) as (dp' & ev & He & Hok' & _). exists dp, dp', ev. split_and!; [exact Hok|exact He|exact Hok'].
Defined.

Lemma idle_flows_collected_witness : exists dp dp' ev, dp_ok dp /\ run_sweeps dp (replicate 61 100) = Some (dp', ev) /\ dp_ok dp'.
Proof.
  destruct demo_flow as (dp & slot & f & Hok & _).
  destruct (idle_flows_collected dp (replicate 61 100) 100 Hok) as (dp' & ev & He & Hok' & _).
  - apply list.Forall_forall. intros now [-> _]%elem_of_replicate. lia.
  - rewrite length_replicate. lia.
  - exists dp, dp', ev. split_and!; [exact Hok|exact He|exact Hok'].
Defined.
End examples.
