(* ===== verification/DataplaneSafety.v ===== *)
(** * The dataplane under any load

    The invariant [Dataplane.dp_ok] is kept while the session table has room
    for the aliases of a long header: an insertion that evicts can move or
    clear the slot [handle_client_packet] still points at
    ([SessionTable.alias_of_moved_slot_is_zero]), and then an entry without an
    address is stored. This file shows what holds without that room: the weaker
    invariant [dp_safe], which says nothing of the addresses stored, is kept by
    every handler, sweep and reload; all of them return; what a client sends
    leaves through its own socket or not at all; no descriptor is lost. *)

From stdpp Require Import gmap.
From S2P Require Import Prelude Hash QuicInitial SessionKey Probe SessionTable SessionSafety FlowTable QuicFrames Hostname TlsClientHello RouteTable CidCodec Config QuicCrypto Runtime Sender Pending Upstream Routing Dataplane.
#[local] Open Scope Z_scope.

(** ** The invariant *)

Section invariant.
Context `{KeyedHash}.

Record runtime_safe (r : qsr_runtime) : Prop := {
  rs_config : live_config (run_config r);
  rs_sessions : table_safe (run_sessions r);
  rs_flows : flow_wf (run_flows r);
  rs_session_capacity : Z.of_nat (t_capacity (run_sessions r)) = c_max_sessions (run_config r);
  rs_flow_capacity : Z.of_nat (ft_capacity (run_flows r)) = flow_capacity (c_max_sessions (run_config r));
}.

Record dp_safe (dp : qsr_dataplane) : Prop := {
  ds_runtime : runtime_safe (dp_runtime dp);
  ds_routes : routes_live (c_routes (dp_config dp));
  ds_pending : pending_wf (dp_pending_initials dp);
  ds_sender : sender_wf (dp_sender dp);
  ds_queue : Forall from_receive (queued (dp_sender dp));
}.

Lemma ok_safe dp : dp_ok dp -> dp_safe dp.
Proof. intros [[] ? ? ? ? ? ?]. split; [split; [done|by apply wf_safe|done..]|done..]. Qed.

Lemma ds_sessions dp : dp_safe dp -> table_safe (dp_sessions dp).
Proof. intros Hs. apply Hs. Qed.

Lemma ds_flows dp : dp_safe dp -> flow_wf (dp_flows dp).
Proof. intros Hs. apply Hs. Qed.

(** What every operation makes of the session table. *)
Definition resafe (t t' : qsr_session_table) : Prop := table_safe t' /\ t_capacity t' = t_capacity t.

Lemma resafe_refl t : table_safe t -> resafe t t.
Proof. by split. Qed.

Lemma resafe_trans t1 t2 t3 : resafe t1 t2 -> resafe t2 t3 -> resafe t1 t3.
Proof. intros [? ?] [? ?]. split; [done|congruence]. Qed.

Lemma set_sessions_safe dp t : dp_safe dp -> resafe (dp_sessions dp) t -> dp_safe (dp_set_sessions dp t).
Proof. intros [[] ? ? ? ?] [? ?]. split; cbn; [split; cbn; (done || congruence)|done..]. Qed.

Lemma set_flows_safe dp t : dp_safe dp -> flow_wf t -> ft_capacity t = ft_capacity (dp_flows dp) -> dp_safe (dp_set_flows dp t).
Proof. intros [[] ? ? ? ?] ? ?. split; cbn; [split; cbn; (done || congruence)|done..]. Qed.

Lemma set_pending_safe dp t : dp_safe dp -> pending_wf t -> dp_safe (dp_set_pending dp t).
Proof. by intros [] ?. Qed.

Lemma set_sender_safe dp s : dp_safe dp -> sender_wf s -> Forall from_receive (queued s) -> dp_safe (dp_set_sender dp s).
Proof. by intros [] ??. Qed.

Lemma get_valid_safe t key : table_safe t -> valid_slot t (qsr_session_table_get t key).
Proof. intros Hsf i Hi. by eapply get_safe. Qed.
End invariant.

(** ** Lemmas: aliases and lookups *)

Section sessions.
Context `{KeyedHash} (aes_128_ctr : list Z -> list Z -> list Z -> option (list Z)).
Context (packet : ptr) (packet_len : Z) (readable_packet : readable packet packet_len) (packet_bytes : bytes_ok (p_buf packet)).

Lemma put_alias_safe t key dest len now os oid : table_safe t ->
  exists t', put_alias t key dest len now os oid = Some t' /\ resafe t t'.
Proof using.
  intros Hsf. unfold put_alias. destruct (_ || _); [|exists t; by split; [|apply resafe_refl]].
  destruct (put_safe t key dest len now os oid Hsf) as (t' & st & -> & ? & ?). by exists t'.
Qed.

Lemma bind_tuple_safe t key dest len now : table_safe t ->
  exists t', bind_client_tuple t key dest len now = Some t' /\ resafe t t'.
Proof using.
  intros Hsf. destruct (put_safe t key dest len now 0 0 Hsf) as (t' & st & Hp & ? & ?). exists t'. split; [|done].
  unfold bind_client_tuple. change (qsr_session_table_put t key dest len now) with (qsr_session_table_put_owned t key dest len now 0 0).
  by rewrite Hp.
Qed.

Lemma learn_client_safe t dest len now os oid : table_safe t ->
  exists t', learn_client_long_header_cids t packet packet_len dest len now os oid = Some t' /\ resafe t t'.
Proof using readable_packet packet_bytes.
  intros Hsf. pose proof (resafe_refl t Hsf) as Hrefl. unfold learn_client_long_header_cids.
  destruct (not_long_header_ok packet packet_len readable_packet packet_bytes) as (b & ->). cbn [mbind option_bind]. destruct b; [by exists t|].
  destruct (parse_attempt packet packet_len readable_packet packet_bytes) as (h & ->). cbn [mbind option_bind]. destruct h as [h|]; [|by exists t].
  destruct (put_alias_safe t (qsr_session_single_cid_key (h_dcid h) (h_dcid_len h)) dest len now os oid Hsf) as (t1 & -> & Hr1).
  cbn [mbind option_bind].
  destruct (put_alias_safe t1 (qsr_session_cid_key (Some (h_dcid h)) (h_dcid_len h) (Some (h_scid h)) (h_scid_len h))
    dest len now os oid (proj1 Hr1)) as (t2 & -> & Hr2). exists t2. split; [done|]. by eapply resafe_trans.
Qed.

Lemma learn_backend_safe t dest len now os oid : table_safe t ->
  exists t', learn_backend_scid t packet packet_len dest len now os oid = Some t' /\ resafe t t'.
Proof using readable_packet packet_bytes.
  intros Hsf. pose proof (resafe_refl t Hsf) as Hrefl. unfold learn_backend_scid.
  destruct (not_long_header_ok packet packet_len readable_packet packet_bytes) as (b & ->). cbn [mbind option_bind]. destruct b; [by exists t|].
  destruct (parse_attempt packet packet_len readable_packet packet_bytes) as (h & ->). cbn [mbind option_bind]. destruct h as [h|]; [|by exists t].
  by apply put_alias_safe.
Qed.

(** A table with a slot found in it. *)
Definition found (t : qsr_session_table) (x : option (qsr_session_table * option nat)) : Prop :=
  exists t' r, x = Some (t', r) /\ resafe t t' /\ valid_slot t' r.

Lemma found_none t t' : resafe t t' -> found t (Some (t', None)).
Proof using. intros Hr. by exists t', None. Qed.

Lemma found_trans t t1 x : resafe t t1 -> found t1 x -> found t x.
Proof using. intros Hr (t' & r & ? & ? & ?). exists t', r. split_and!; [done|by eapply resafe_trans|done]. Qed.

Lemma rebind_safe t i key now : table_safe t -> found t (rebind t i key now).
Proof using.
  intros Hsf. unfold rebind. set (s := session_at t i).
  destruct (bind_tuple_safe t key (AddrVal (s_backend_addr s)) (s_backend_addr_len s) now Hsf) as (t' & -> & Hr).
  cbn [mbind option_bind]. eexists t', _. split_and!; [done|done|by apply get_valid_safe, Hr].
Qed.

Lemma encoded_safe config t key now : table_safe t -> found t (lookup_encoded_cid aes_128_ctr config t packet packet_len key now).
Proof using readable_packet packet_bytes.
  intros Hsf. pose proof (found_none t t (resafe_refl t Hsf)) as Hno. unfold lookup_encoded_cid. destruct (negb _); [done|].
  destruct (attempt_ok _ (try_decode_no_fault aes_128_ctr packet packet_len readable_packet packet_bytes (c_cid_codec config))) as [d ->].
  cbn [mbind option_bind]. destruct d as [server_id|]; [|done]. destruct (qsr_route_table_lookup_by_server_id _ _) as [j|]; [|done].
  cbv zeta. destruct (negb _); [done|].
  match goal with |- context [bind_client_tuple t key ?a ?l now] => destruct (bind_tuple_safe t key a l now Hsf) as (t' & -> & Hr) end.
  cbn [mbind option_bind]. eexists t', _. split_and!; [done|done|by apply get_valid_safe, Hr].
Qed.

Lemma other_session_safe config t session key now : table_safe t -> valid_slot t session ->
  found t (other_session config t session packet packet_len key now).
Proof using readable_packet packet_bytes.
  intros Hsf Hv. pose proof (resafe_refl t Hsf) as Hrefl. unfold other_session. destruct session as [i|]; [by exists t, (Some i)|].
  destruct (qsr_session_table_get t key) as [i|] eqn:Eg.
  { exists t, (Some i). split_and!; [done..|]. rewrite <- Eg. by apply get_valid_safe. }
  destruct (lookup_short_header_total packet packet_len readable_packet packet_bytes t (fun _ => True)) as (cid & -> & _); [done|].
  cbn [mbind option_bind].
  assert (Hfirst : found t match cid with Some i => rebind t i key now | None => Some (t, None) end).
  { destruct cid; [by apply rebind_safe|by apply found_none]. }
  destruct Hfirst as (t1 & r1 & -> & Hr1 & Hv1). cbn [mbind option_bind]. destruct r1 as [i|]; [by exists t1, (Some i)|].
  destruct (lookup_long_header_total packet packet_len readable_packet packet_bytes t1 (fun _ => True)) as (cid2 & -> & _); [done|].
  cbn [mbind option_bind]. apply (found_trans t t1); [done|]. pose proof (found_none t1 t1 (resafe_refl t1 (proj1 Hr1))) as Hno.
  destruct cid2; [|done]. destruct (session_configured _ _); [|done]. apply rebind_safe, Hr1.
Qed.

Lemma initial_session_valid config t initial : table_safe t -> valid_slot t (initial_session config t initial).
Proof using.
  intros Hsf. unfold initial_session. destruct (qsr_session_table_get t (qsr_session_cid_key _ _ _ _)) as [i|] eqn:Eg; [rewrite <- Eg; by apply get_valid_safe|].
  unfold lookup_long_header_request_dcid. destruct (qsr_session_table_get t (qsr_session_single_cid_key _ _)) as [i|] eqn:Eg2; [|done].
  destruct (session_configured _ _); [|done]. rewrite <- Eg2. by apply get_valid_safe.
Qed.

Lemma find_session_safe config t key now : table_safe t ->
  exists t' r initial, find_session aes_128_ctr config t packet packet_len key now = Some (t', r, initial) /\
    resafe t t' /\ valid_slot t' r /\ attempt (qsr_quic_parse_initial packet packet_len) = Some initial.
Proof using readable_packet packet_bytes.
  intros Hsf. unfold find_session. destruct (encoded_safe config t key now Hsf) as (t1 & r1 & -> & Hr1 & Hv1). cbn [mbind option_bind].
  destruct (attempt_ok (qsr_quic_parse_initial packet packet_len)) as [initial Hi]; [by apply parse_initial_no_fault|].
  rewrite Hi. cbn [mbind option_bind]. destruct initial as [initial|].
  - exists t1, (initial_session config t1 initial), (Some initial). split_and!; [done..|by apply initial_session_valid, Hr1|done].
  - destruct (other_session_safe config t1 r1 key now (proj1 Hr1) Hv1) as (t2 & r2 & -> & Hr2 & Hv2). cbn [mbind option_bind].
    exists t2, r2, None. split_and!; [done|by eapply resafe_trans|done..].
Qed.
End sessions.

(** ** Lemmas: a datagram of a client *)

(** It leaves through a socket of the client with the tuple [key]. *)
Definition through_own_socket (flows : qsr_flow_table) (key : Z * list Z) (d : Z * (list Z * list Z)) : Prop :=
  exists slot f, client_flow flows key slot f /\ d.1 = f_fd f.

(** What handling a datagram of the client [key] does, whatever the load. *)
Record confined `{KeyedHash} (k : kernel) (key : Z * list Z) (own : list Z -> Prop) (dp dp' : qsr_dataplane) (ev : list event) : Prop := {
  cn_safe : dp_safe dp';
  cn_config : dp_config dp' = dp_config dp;
  cn_fixed : dp_fixed dp' = dp_fixed dp;
  cn_next : ft_next_id (dp_flows dp) <= ft_next_id (dp_flows dp') <= ft_next_id (dp_flows dp) + 1;
  cn_others : forall slot f, ft_flows (dp_flows dp') !! slot = Some f -> f_used f = true -> fkey f <> key ->
    ft_flows (dp_flows dp) !! slot = Some f;
  cn_spares : exists v, spares (k_socket k) (dp_flows dp) (dp_flows dp') key v;
  cn_fds : accounts (dp_flows dp) (dp_flows dp') ev;
  cn_sockets : from_kernel k (sockets ev);
  cn_traffic : exists added, sent ev ++ waiting dp' = waiting dp ++ added /\
    Forall (fun d => through_own_socket (dp_flows dp') key d /\ own d.2.1) added;
}.

Section handlers.
Context `{KeyedHash} `{Crypto} `{crypto_output : !CryptoOutput} (k : kernel).
Context (packet : ptr) (packet_len : Z) (readable_packet : readable packet packet_len) (packet_bytes : bytes_ok (p_buf packet)).
Context (source : list Z) (source_len now : Z) (source_size : Zlen source = SOCKADDR_SIZE)
  (source_valid : client_valid source source_len = true).
Local Notation client := (source_len, field source source_len).
Local Notation this := (fun bytes => bytes = range packet packet_len).

Lemma confined_nothing dp own : dp_safe dp -> confined k client own dp dp [].
Proof using.
  intros Hs. split; try done.
  - lia.
  - by exists None.
  - apply accounts_refl.
  - constructor.
  - exists []. by rewrite app_nil_r.
Qed.

Lemma confined_weaken dp dp' ev (a b : list Z -> Prop) : (forall x, a x -> b x) -> confined k client a dp dp' ev -> confined k client b dp dp' ev.
Proof using.
  intros Hab [? ? ? ? ? ? ? ? (added & Ht & Ha)]. split; try done. exists added. split; [done|].
  eapply list.Forall_impl; [exact Ha|]. intros d [? ?]. auto.
Qed.

(** The session table and the pending table may change first. *)
Lemma confined_before dp dp1 dp' ev own : confined k client own dp1 dp' ev -> dp_flows dp1 = dp_flows dp ->
  dp_config dp1 = dp_config dp -> dp_fixed dp1 = dp_fixed dp -> waiting dp1 = waiting dp -> confined k client own dp dp' ev.
Proof using. intros [? ? ? ? ? ? ? ? ?] Hf Hc Hx Hw. rewrite Hf in *. rewrite Hw in *. split; (done || congruence). Qed.

(** An acquisition, then changes of the sessions, the pending table and the queue. *)
Lemma confined_acquired dp fl r ev backend backend_len own dp' ev' : dp_safe dp' ->
  acquired (k_socket k) (k_epoll_add k) (dp_flows dp) client backend backend_len now fl r -> from_kernel k (sockets ev) ->
  accounts (dp_flows dp) fl ev -> sent ev = [] ->
  dp_flows dp' = fl -> dp_config dp' = dp_config dp -> dp_fixed dp' = dp_fixed dp -> only_sends ev' ->
  (exists added, sent ev' ++ waiting dp' = waiting dp ++ added /\
    Forall (fun d => through_own_socket fl client d /\ own d.2.1) added) ->
  confined k client own dp dp' (ev ++ ev').
Proof using.
  intros Hs [? ? ? Hn _ Hoth Hsp Hres] Ho Hp Hsent <- Hc Hx Hev' Ht. split; try done.
  - intros slot f Hf Hu Hne. apply Hoth; [done..|]. intros ->. destruct Hres as (g & [(Hg & _ & Hk) _ _ _] & _). congruence.
  - eapply accounts_trans; [done|by apply accounts_sends].
  - by rewrite sockets_app, (only_sends_sockets ev'), app_nil_r.
  - by rewrite sent_app, Hsent.
Qed.

(** An acquisition alone. *)
Lemma confined_acquired_only dp fl r ev backend backend_len own : dp_safe dp ->
  acquired (k_socket k) (k_epoll_add k) (dp_flows dp) client backend backend_len now fl r -> from_kernel k (sockets ev) ->
  accounts (dp_flows dp) fl ev -> sent ev = [] ->
  dp_safe (dp_set_flows dp fl) /\ confined k client own dp (dp_set_flows dp fl) ev.
Proof using.
  intros Hs Ha Ho Hp Hsent.
  assert (Hs' : dp_safe (dp_set_flows dp fl)) by (apply set_flows_safe; [done|apply Ha..]). split; [done|].
  rewrite <- (app_nil_r ev). eapply (confined_acquired dp fl r ev _ _ own _ []); try done; [constructor|]. exists []. by rewrite app_nil_r.
Qed.

(** A flow that serves the client. *)
Lemma serves_socket t backend backend_len slot f d : serves t client backend backend_len now slot f -> through_own_socket t client (f_fd f, d).
Proof using. intros [Hf _ _ _]. by exists slot, f. Qed.

Lemma flow_at_serves dp fl backend backend_len slot f : serves fl client backend backend_len now slot f ->
  flow_at (dp_set_flows dp fl) slot = f.
Proof using. intros [(Hf & _) _ _ _]. unfold flow_at. cbn. by rewrite Hf. Qed.

Lemma forward_safe dp session s : dp_safe dp -> ft_next_id (dp_flows dp) + 1 < 2 ^ 64 -> kernel_fresh k dp ->
  t_sessions (dp_sessions dp) !! session = Some s ->
  exists dp' ev, forward_packet k dp session packet packet_len source source_len now = Some (dp', ev) /\ confined k client this dp dp' ev.
Proof using readable_packet packet_bytes source_valid.
  intros Hs Hid Hfresh Hsl. unfold forward_packet.
  pose proof (touch_safe (dp_sessions dp) session s now (ds_sessions dp Hs) Hsl) as Ht1. set (t1 := set_sessions _ _) in *.
  assert (Hs1 : dp_safe (dp_set_sessions dp t1)) by (by apply set_sessions_safe). set (dp1 := dp_set_sessions dp t1) in *.
  set (s1 := session_at (dp_sessions dp1) session).
  destruct (dp_acquire_core k dp1 source source_len (s_backend_addr s1) (s_backend_addr_len s1) now None None 0 (ds_flows dp1 Hs1) Hid
    source_valid Hfresh) as (fl & r & ev & -> & Hacq & Hop & Hp & Hsent). cbn [mbind option_bind].
  destruct (confined_acquired_only dp1 fl r ev _ _ this Hs1 Hacq Hop Hp Hsent) as [Hs2 Hc2].
  destruct r as [slot|].
  2: { eexists _, ev. split; [reflexivity|]. by eapply confined_before. }
  pose proof (aq_result _ _ _ _ _ _ _ _ _ Hacq) as (f & Hsv & _). rewrite (flow_at_serves dp1 fl _ _ slot f Hsv). cbv zeta.
  set (dp2 := dp_set_flows dp1 fl) in *.
  destruct (learn_client_safe packet packet_len readable_packet packet_bytes (dp_sessions dp2) (AddrSlot session) (s_backend_addr_len s1)
    now (Z.of_nat slot) (f_id f) (ds_sessions dp2 Hs2)) as (t2 & -> & Hr2). cbn [mbind option_bind].
  pose proof (set_sessions_safe dp2 t2 Hs2 Hr2) as Hs3. set (dp3 := dp_set_sessions dp2 t2) in *. set (s2 := session_at t2 session).
  destruct (enqueue_recv_core dp3 (f_fd f) packet packet_len (s_backend_addr s2) (s_backend_addr_len s2) (ds_sender dp3 Hs3) (ds_queue dp3 Hs3))
    as (sd & ev' & -> & Hsd & Hqr & Hev' & Htr). eexists _, (ev ++ ev'). split; [reflexivity|].
  apply (confined_before dp dp1); [|done..]. eapply (confined_acquired dp1 fl); try done; [by apply set_sender_safe|].
  eexists. split; [exact Htr|]. unfold relayed. destruct (_ <=? _); [|done]. constructor; [|done]. split; [|done].
  exact (serves_socket fl _ _ slot f _ Hsv).
Qed.

Lemma open_connection_safe dp key cid_key entry e backend backend_len sni : dp_safe dp -> ft_next_id (dp_flows dp) + 1 < 2 ^ 64 ->
  kernel_fresh k dp -> pt_entries (dp_pending_initials dp) !! entry = Some e -> entry_wf e ->
  exists dp' ev, open_connection k dp packet packet_len source source_len now key cid_key (Some entry) backend backend_len sni = Some (dp', ev) /\
    confined k client (fun bytes => bytes ∈ entry_packets e) dp dp' ev.
Proof using readable_packet packet_bytes source_valid.
  intros Hs Hid Hfresh He Hew. unfold open_connection. cbn [fmap option_fmap option_map]. rewrite He. cbn [default].
  change (id e) with e. change (id (pe_scid_len e)) with (pe_scid_len e).
  destruct (dp_acquire_core k dp source source_len backend backend_len now (Some sni) (Some (pe_scid e)) (pe_scid_len e) (ds_flows dp Hs) Hid
    source_valid Hfresh) as (fl & r & ev & -> & Hacq & Hop & Hp & Hsent). cbn [mbind option_bind].
  destruct (confined_acquired_only dp fl r ev _ _ (fun bytes => bytes ∈ entry_packets e) Hs Hacq Hop Hp Hsent) as [Hs1 Hc1].
  destruct r as [slot|]; [|by eexists _, ev].
  pose proof (aq_result _ _ _ _ _ _ _ _ _ Hacq) as (f & Hsv & _). rewrite (flow_at_serves dp fl _ _ slot f Hsv).
  set (dp1 := dp_set_flows dp fl) in *.
  destruct (put_safe (dp_sessions dp1) key (AddrVal backend) backend_len now (Z.of_nat slot) (f_id f) (ds_sessions dp1 Hs1))
    as (t1 & st & -> & Ht1). cbn [mbind option_bind].
  assert (Hlater : forall t ev', resafe (dp_sessions dp1) t -> only_sends ev' -> sent ev' = [] ->
    confined k client (fun bytes => bytes ∈ entry_packets e) dp (dp_set_sessions dp1 t) (ev ++ ev')).
  { intros t ev' Hr Hev' Hse. eapply (confined_acquired dp fl); try done; [by apply set_sessions_safe|]. exists []. by rewrite Hse, app_nil_r. }
  case_bool_decide; cbn [negb]; [|eexists _, ev; split; [reflexivity|]; rewrite <- (app_nil_r ev); apply Hlater; [done|constructor|done]].
  destruct (put_alias_safe t1 cid_key (AddrVal backend) backend_len now (Z.of_nat slot) (f_id f) (proj1 Ht1)) as (t2 & -> & Hr2).
  cbn [mbind option_bind].
  destruct (learn_client_safe packet packet_len readable_packet packet_bytes t2 (AddrVal backend) backend_len now (Z.of_nat slot) (f_id f) (proj1 Hr2))
    as (t3 & -> & Hr3). cbn [mbind option_bind].
  assert (Hr : resafe (dp_sessions dp1) t3) by (eapply resafe_trans; [exact Ht1|]; by eapply resafe_trans).
  pose proof (set_sessions_safe dp1 t3 Hs1 Hr) as Hs2. set (dp2 := dp_set_sessions dp1 t3) in *.
  destruct (flush_pending_core dp2 (f_fd f) entry e backend backend_len (ds_sender dp2 Hs2) He Hew) as (sd & ev' & -> & Hsd & Hq & Hev' & Htr).
  eexists _, (ev ++ ev'). split; [reflexivity|]. eapply (confined_acquired dp fl); try done.
  - apply set_pending_safe; [apply set_sender_safe; [done..|by rewrite Hq]|]. by apply pending_remove_wf, Hs.
  - eexists. split; [unfold waiting at 1; cbn [dp_sender dp_set_pending dp_set_sender]; rewrite Hq, app_nil_r; exact Htr|].
    apply Forall_fmap, list.Forall_forall. intros p Hin. split; [|done]. exact (serves_socket fl _ _ slot f _ Hsv).
Qed.

Lemma handle_unknown_safe dp key initial : dp_safe dp -> ft_next_id (dp_flows dp) + 1 < 2 ^ 64 -> kernel_fresh k dp -> 0 <= source_len ->
  attempt (qsr_quic_parse_initial packet packet_len) = Some initial ->
  exists dp' ev, handle_unknown k dp packet packet_len source source_len now key initial = Some (dp', ev) /\
    confined k client (own_bytes (dp_pending_initials dp) packet packet_len source source_len) dp dp' ev.
Proof using readable_packet packet_bytes source_valid source_size crypto_output.
  intros Hs Hid Hfresh Hsl Hi. unfold handle_unknown. pose proof (confined_nothing dp) as Hself.
  destruct (packet_len <? QSR_MIN_INITIAL_DATAGRAM_SIZE); [exists dp, []; auto|]. destruct initial as [initial|]; [|exists dp, []; auto].
  assert (Hp : qsr_quic_parse_initial packet packet_len = Ok initial).
  { unfold attempt in Hi. destruct (qsr_quic_parse_initial packet packet_len); [by injection Hi as ->|done..]. }
  pose proof (route_initial_spec (dp_config dp) (dp_pending_initials dp) packet packet_len initial source source_len now
    (ds_routes dp Hs) (ds_pending dp Hs) readable_packet packet_bytes Hp source_size (source_range source source_len source_valid Hsl)) as Hr.
  destruct (route_initial_datagram _ _ _ _ _ _ _ _) as [[[pending' entry] cid_key] routed]. destruct Hr as (Hpw & Hnf & _ & Hcase).
  pose proof (set_pending_safe dp pending' Hs Hpw) as Hs1. set (dp1 := dp_set_pending dp pending') in *.
  assert (Hw : waiting dp1 = waiting dp) by (apply waiting_from_receive, Hs).
  assert (Hstay : forall own, confined k client own dp dp1 []) by (intros own; apply (confined_before dp dp1); [by apply confined_nothing|done..]).
  destruct routed as [[[backend backend_len] sni]|st|]; [|by exists dp1, []|done].
  destruct entry as [i|]; [|by destruct Hcase as [_ [st Hst]]]. destruct Hcase as (e & Hbuf & _).
  destruct (open_connection_safe dp1 key cid_key i e backend backend_len sni Hs1 Hid Hfresh (bf_entry _ _ _ _ _ _ _ _ _ _ Hbuf)
    (bf_wf _ _ _ _ _ _ _ _ _ _ Hbuf)) as (dp' & ev & -> & Hc).
  exists dp', ev. split; [done|]. apply (confined_before dp dp1); [|done..]. eapply confined_weaken; [|exact Hc].
  intros bytes. by apply (buffered_bytes packet packet_len source source_len now _ pending' initial i).
Qed.

Lemma fast_path_safe dp slot f : dp_safe dp -> client_flow (dp_flows dp) client slot f ->
  confined k client this dp (fast_path dp slot packet packet_len now).1 (fast_path dp slot packet packet_len now).2.
Proof using.
  intros Hs (Hf & Hu & Hk). destruct (touch_flow_wf (dp_flows dp) slot f now (ds_flows dp Hs) Hf Hu) as (Hwf & He & Hp & Hf1). cbv zeta in *.
  unfold fast_path. set (flows := ft_set_flows _ _) in *.
  assert (Hs1 : dp_safe (dp_set_flows dp flows)) by (by apply set_flows_safe). set (dp1 := dp_set_flows dp flows) in *.
  assert (flow_at dp1 slot = flow_touch f now) as Hfa by (unfold flow_at; cbn [dp1 dp_runtime dp_set_flows dp_set_runtime run_flows run_set_flows]; by rewrite Hf1).
  rewrite Hfa.
  destruct (enqueue_recv_core dp1 (f_fd f) packet packet_len (f_backend_addr f) (f_backend_addr_len f) (ds_sender dp1 Hs1) (ds_queue dp1 Hs1))
    as (sd & ev & Hq & Hsd & Hqr & Hev & Ht).
  change (f_fd (flow_touch f now)) with (f_fd f). change (f_backend_addr (flow_touch f now)) with (f_backend_addr f).
  change (f_backend_addr_len (flow_touch f now)) with (f_backend_addr_len f). rewrite Hq. cbn [fst snd].
  split; try done.
  - by apply set_sender_safe.
  - cbn. lia.
  - intros s g Hg Hug Hne. change (ft_flows flows !! s = Some g) in Hg. rewrite He in Hg.
    apply list_lookup_insert_Some in Hg as [(<- & <- & _)|[_ Hg]]; [by destruct Hne|done].
  - exists None. split; [|done]. intros s g Hg Hug Hne _. change (ft_flows flows !! s = Some g). rewrite He, list_lookup_insert_ne; [done|]. intros <-. congruence.
  - by apply accounts_sends.
  - rewrite (only_sends_sockets ev) by done. constructor.
  - eexists. split; [exact Ht|]. unfold relayed. destruct (_ <=? _); [|done]. constructor; [|done]. split; [|done].
    exists slot, (flow_touch f now). split; [|done]. by split.
Qed.

Context (aes_128_ctr : list Z -> list Z -> list Z -> option (list Z)).

Lemma handle_client_safe dp : dp_safe dp -> ft_next_id (dp_flows dp) + 1 < 2 ^ 64 -> kernel_fresh k dp -> 0 <= source_len ->
  exists dp' ev, handle_client_packet aes_128_ctr k dp packet packet_len source source_len now = Some (dp', ev) /\
    confined k client (own_bytes (dp_pending_initials dp) packet packet_len source source_len) dp dp' ev.
Proof using readable_packet packet_bytes source_valid source_size crypto_output.
  intros Hs Hid Hfresh Hsl. unfold handle_client_packet.
  destruct (fast_flow_spec packet packet_len readable_packet packet_bytes source source_len source_valid dp (ds_flows dp Hs)) as (r & -> & Hr).
  cbn [mbind option_bind]. destruct r as [slot|].
  { destruct Hr as (_ & _ & f & Hf). pose proof (fast_path_safe dp slot f Hs Hf) as Hc. destruct (fast_path _ _ _ _ _) as [dp' ev].
    exists dp', ev. split; [done|]. eapply confined_weaken; [|exact Hc]. by left. }
  destruct (find_session_safe aes_128_ctr packet packet_len readable_packet packet_bytes (dp_config dp) (dp_sessions dp)
    (qsr_session_tuple_key (Some source) source_len) now (ds_sessions dp Hs)) as (t & session & initial & -> & Hr1 & Hv & Hi).
  cbn [mbind option_bind]. pose proof (set_sessions_safe dp t Hs Hr1) as Hs1. set (dp1 := dp_set_sessions dp t) in *.
  destruct session as [i|].
  - destruct (Hv i eq_refl) as (s & Hsl1 & _). destruct (forward_safe dp1 i s Hs1 Hid Hfresh Hsl1) as (dp' & ev & -> & Hc).
    exists dp', ev. split; [done|]. apply (confined_before dp dp1); [|done..]. eapply confined_weaken; [|exact Hc]. by left.
  - destruct (handle_unknown_safe dp1 (qsr_session_tuple_key (Some source) source_len) initial Hs1 Hid Hfresh Hsl Hi)
      as (dp' & ev & -> & Hc). exists dp', ev. split; [done|]. by apply (confined_before dp dp1).
Qed.
End handlers.

(** ** Lemmas: backends, sweeps, reloads *)

Section others.
Context `{KeyedHash}.

Lemma handle_backend_safe packet packet_len dp slot f now : readable packet packet_len -> bytes_ok (p_buf packet) -> dp_safe dp ->
  ft_flows (dp_flows dp) !! slot = Some f -> f_used f = true ->
  exists dp' ev, handle_backend_packet dp slot packet packet_len now = Some (dp', ev) /\ dp_safe dp' /\
    dp_config dp' = dp_config dp /\ dp_fixed dp' = dp_fixed dp /\
    dp_flows dp' = ft_set_flows (dp_flows dp) (<[slot := flow_touch f now]> (ft_flows (dp_flows dp))) /\ only_sends ev /\
    sent ev ++ waiting dp' = waiting dp ++ relayed (dp_main_fd dp) packet packet_len (f_client_addr f) (f_client_addr_len f).
Proof.
  intros Hr Hb Hs Hf Hu. destruct (touch_flow_wf (dp_flows dp) slot f now (ds_flows dp Hs) Hf Hu) as (Hwf & He & _ & Hf1). cbv zeta in *.
  unfold handle_backend_packet. set (flows := ft_set_flows (dp_flows dp) (alter _ _ _)) in *.
  assert (Hs1 : dp_safe (dp_set_flows dp flows)) by (by apply set_flows_safe). set (dp1 := dp_set_flows dp flows) in *. cbv zeta.
  assert (flow_at dp1 slot = flow_touch f now) as -> by (unfold flow_at; cbn [dp1 dp_runtime dp_set_flows dp_set_runtime run_flows run_set_flows]; by rewrite Hf1).
  destruct (learn_backend_safe packet packet_len Hr Hb (dp_sessions dp1) (AddrVal (f_backend_addr (flow_touch f now)))
    (f_backend_addr_len (flow_touch f now)) now (Z.of_nat slot) (f_id (flow_touch f now)) (ds_sessions dp1 Hs1)) as (t & -> & Hrs).
  cbn [mbind option_bind]. pose proof (set_sessions_safe dp1 t Hs1 Hrs) as Hs2. set (dp2 := dp_set_sessions dp1 t) in *.
  destruct (enqueue_recv_core dp2 (dp_main_fd dp) packet packet_len (f_client_addr f) (f_client_addr_len f) (ds_sender dp2 Hs2) (ds_queue dp2 Hs2))
    as (sd & ev & Hq & Hsd & Hqr & Hev & Htr). eexists _, ev. split; [exact (f_equal Some Hq)|].
  split_and!; try done; [by apply set_sender_safe|]. cbn. rewrite <- He. done.
Qed.

Lemma sweep_safe_dp dp now : dp_safe dp ->
  exists dp' fev, run_expiry_sweeps dp now = Some (dp', FlowEvent <$> fev) /\ dp_safe dp' /\ dp_config dp' = dp_config dp /\
    dp_fixed dp' = dp_fixed dp /\ dp_sender dp' = dp_sender dp /\ ft_next_id (dp_flows dp') = ft_next_id (dp_flows dp) /\
    closed fev ++ fds (ft_flows (dp_flows dp')) ≡ₚ fds (ft_flows (dp_flows dp)).
Proof.
  intros Hs. unfold run_expiry_sweeps. set (timeout := c_idle_timeout_seconds (dp_config dp)) in *.
  destruct (expire_incremental_safe (dp_sessions dp) now timeout (session_expire_scan_budget (dp_sessions dp))
    (Some (qsr_runtime_session_keepalive (dp_flows dp) now timeout)) (ds_sessions dp Hs)) as (t & n1 & -> & Ht). cbn [mbind option_bind].
  destruct (flow_expire_incremental_spec (dp_flows dp) now timeout (flow_expire_scan_budget (dp_flows dp)) (ds_flows dp Hs))
    as (fl & n2 & fev & -> & Hsw & _). cbn [mbind option_bind]. destruct Hsw as [Hfwf (Hfc & _ & Hni) _ _ Hp].
  eexists _, fev. split; [reflexivity|]. split_and!; try done. apply set_pending_safe; [|apply pending_expire_wf, Hs].
  apply set_flows_safe; [by apply set_sessions_safe|done..].
Qed.

Context `{Yaml} `{yaml_laws : !YamlLaws} (open : list Z -> config_source) (getaddrinfo : list Z -> Z -> option (list Z)).

(** A reload: nothing, or the new configuration with some sessions and flows dropped. *)
Lemma reload_safe dp : dp_safe dp ->
  exists r ev lines, reload_from_path open getaddrinfo (dp_runtime dp) = Some (r, ev, lines) /\ dp_safe (dp_set_runtime dp r) /\
    dp_fixed (dp_set_runtime dp r) = dp_fixed dp /\ ft_next_id (run_flows r) = ft_next_id (dp_flows dp) /\
    closed ev ++ fds (ft_flows (run_flows r)) ≡ₚ fds (ft_flows (dp_flows dp)).
Proof using yaml_laws.
  intros Hs. pose proof Hs as [[Hc Ht Hf Hsc Hfc] Hrl Hpd Hsd Hqr].
  assert (Hno : forall lines, exists r ev lines', Some (dp_runtime dp, [] : list flow_event, lines : list reload_line) = Some (r, ev, lines') /\
    dp_safe (dp_set_runtime dp r) /\ dp_fixed (dp_set_runtime dp r) = dp_fixed dp /\ ft_next_id (run_flows r) = ft_next_id (dp_flows dp) /\
    closed ev ++ fds (ft_flows (run_flows r)) ≡ₚ fds (ft_flows (dp_flows dp))).
  { intros lines. exists (dp_runtime dp), [], lines. replace (dp_set_runtime dp (dp_runtime dp)) with dp by (by destruct dp). by split_and!. }
  pose proof (reload_config_live open getaddrinfo (dp_runtime dp)) as Hlive. unfold reload_from_path, reload_config in *.
  destruct (qsr_config_load _ _) as [c st] eqn:El. case_bool_decide as Hst; cbn [negb]; [|apply Hno]. subst st.
  pose proof (resolve_live getaddrinfo (c_routes c)) as Hlr. pose proof (config_ok_routes c (load_ok _ _ _ El)) as Hrw.
  destruct (qsr_route_table_resolve _ _) as [routes st2]. case_bool_decide as Hst2; cbn [negb]; [|apply Hno]. subst st2.
  specialize (Hlr routes Hrw eq_refl). cbv zeta.
  match goal with |- context [qsr_session_table_evict_if ?t ?p] => destruct (evict_if_safe t p Ht) as (sessions & n & -> & Hsf & Hcap & _) end.
  cbn [mbind option_bind].
  match goal with |- context [qsr_flow_table_evict_if ?t ?p] => destruct (evict_if_spec t p Hf) as (fl & m & ev & -> & [Hfwf (Hfcap & _ & Hn) _ _ Hp]) end.
  cbn [mbind option_bind]. eexists _, ev, _. split; [reflexivity|]. cbn [run_flows run_set_config run_set_flows]. split_and!; try done.
  split; try done. split; cbn.
  - apply reloaded_live; [done|]. by apply Hlive.
  - done.
  - done.
  - rewrite Hcap. exact Hsc.
  - rewrite Hfcap. exact Hfc.
Qed.
End others.

(** ** Properties *)

(** C6: whatever a client sends and however full the tables are, handling it
    comes to an end and is confined to that client: the tables stay
    well-formed, what waited to be sent is sent first, what is added leaves
    through a socket of this client's own flow and is the datagram or one
    buffered from the same address. The price another client can pay is one
    eviction: the flows of others stay as they are, but for at most one, which
    goes only when the flow table is full or the process is out of
    descriptors, and is one that no flow of the scan window was used before.
    The descriptors the table held and those [socket] returned are those closed
    and those the table holds. *)
Theorem client_datagram_confined `{KeyedHash} `{Crypto} `{!CryptoOutput} k aes_128_ctr dp packet packet_len source source_len now :
  dp_safe dp -> ft_next_id (dp_flows dp) + 1 < 2 ^ 64 -> kernel_fresh k dp ->
  readable packet packet_len -> bytes_ok (p_buf packet) ->
  Zlen source = SOCKADDR_SIZE -> 0 <= source_len -> client_valid source source_len = true ->
  exists dp' ev, handle_client_packet aes_128_ctr k dp packet packet_len source source_len now = Some (dp', ev) /\
    confined k (source_len, field source source_len)
      (own_bytes (dp_pending_initials dp) packet packet_len source source_len) dp dp' ev.
Proof. intros. by apply handle_client_safe. Qed.

(** ** Witnesses *)

Section examples.
Local Existing Instance sum_hash.
Local Existing Instances plain_crypto plain_output.

Lemma client_datagram_confined_witness : exists dp dp' ev, dp_safe dp /\
  handle_client_packet plain_ctr demo_kernel dp (Ptr demo_datagram 0) 1200 (demo_addr 1) 16 5 = Some (dp', ev) /\ dp_safe dp'.
Proof.
  destruct demo_dp as (dp & backend & Hd). pose proof Hd as [Hok Hcc Hid Hf Hs Hpe Hq Hroute Hbv Hfl Hcap].
  destruct (client_datagram_confined demo_kernel plain_ctr dp (Ptr demo_datagram 0) 1200 (demo_addr 1) 16 5 (ok_safe dp Hok) Hid
    (demo_kernel_fresh dp Hok Hf)) as (dp' & ev & He & Hc).
  - z_concrete.
  - bytes_concrete.
  - reflexivity.
  - lia.
  - reflexivity.
  - exists dp, dp', ev. split_and!; [exact (ok_safe dp Hok)|exact He|exact (cn_safe _ _ _ _ _ _ Hc)].
Defined.
End examples.
