(* ===== verification/Connections.v ===== *)
(** * Connections

    What the handlers of [Dataplane.v] do for a connection over several
    datagrams: a known client is forwarded to its backend, a client that comes
    back from another address is recognised by its connection ID, and an
    established connection is a transparent pipe in both directions. *)

From stdpp Require Import gmap.
From S2P Require Import Prelude Hash QuicInitial SessionKey Probe SessionTable FlowTable QuicFrames Hostname TlsClientHello RouteTable CidCodec Config QuicCrypto Runtime Sender Pending Upstream Routing Dataplane.
#[local] Open Scope Z_scope.

(** ** Lemmas: one datagram *)

Section datagram.
Context `{KeyedHash} `{Crypto} (k : kernel) (aes_128_ctr : list Z -> list Z -> list Z -> option (list Z)).
Context (packet : ptr) (packet_len : Z) (readable_packet : readable packet packet_len) (packet_bytes : bytes_ok (p_buf packet)).
Context (source : list Z) (source_len now : Z) (source_valid : client_valid source source_len = true).
Local Notation client := (source_len, field source source_len).
Local Notation key := (qsr_session_tuple_key (Some source) source_len).

(** A short header is no Initial. *)
Lemma short_no_initial : one_rtt packet packet_len = true -> attempt (qsr_quic_parse_initial packet packet_len) = Some None.
Proof using readable_packet packet_bytes.
  intros Hone. destruct (attempt_ok (qsr_quic_parse_initial packet packet_len)) as [r Hr]; [by apply parse_initial_no_fault|].
  rewrite Hr. destruct r as [initial|]; [|done]. exfalso. unfold attempt in Hr.
  destruct (qsr_quic_parse_initial packet packet_len) as [i| |] eqn:Hp; try done. injection Hr as ->.
  destruct (parse_initial_spec packet packet_len initial readable_packet packet_bytes Hp) as [_ (b0 & Hb & _ & Hlong & _)].
  unfold one_rtt in Hone. apply andb_true_iff in Hone as [Hlt%Z.ltb_lt Hbit].
  destruct (peek_ok packet packet_len readable_packet packet_bytes 0 ltac:(lia)) as (b & Hpk & Hld & _). rewrite Hpk in Hbit.
  rewrite Hld in Hb. injection Hb as ->. cbn [default] in Hbit. change (id b0) with b0 in Hbit. by rewrite Hlong in Hbit.
Qed.

(** A short header has nothing to learn from. *)
Lemma short_not_long : one_rtt packet packet_len = true -> not_long_header packet packet_len = Some true.
Proof using readable_packet packet_bytes.
  intros Hone. unfold one_rtt in Hone. apply andb_true_iff in Hone as [Hlt%Z.ltb_lt Hbit]. unfold not_long_header.
  rewrite (proj2 (Z.eqb_neq _ _)) by lia. destruct (peek_ok packet packet_len readable_packet packet_bytes 0 ltac:(lia)) as (b & Hpk & _).
  rewrite Hpk in Hbit |- *. cbn [mbind option_bind default] in *. change (id b) with b in Hbit. change 0x80 with (2 ^ 7). rewrite land_bit by lia.
  by rewrite Hbit.
Qed.

(** The entry of a key is found in its slot. *)
Lemma leads_slot t kv addr len : table_wf t -> key_valid kv = true -> leads t (key_view kv) addr len ->
  exists i s, qsr_session_table_get t kv = Some i /\ t_sessions t !! i = Some s /\ s_used s = true /\
    s_backend_addr s = addr /\ s_backend_addr_len s = len.
Proof using.
  intros Hwf Hk (s & Hs & Ha & Hl). pose proof (get_spec t kv Hwf) as Hg. rewrite Hk in Hg.
  destruct (qsr_session_table_get t kv) as [i|]; [|congruence]. destruct Hg as (s' & Hi & Hc). rewrite Hs in Hc. injection Hc as <-.
  exists i, s. split_and!; try done. apply (contents_used t _ s Hwf Hs).
Qed.
End datagram.

(** *** A connection over time *)

(** What can happen to a connection: a datagram from either side, or a sweep. *)
Inductive turn :=
  | FromClient (packet : ptr) (packet_len now : Z)
  | FromBackend (packet : ptr) (packet_len now : Z)
  | Sweep (now : Z).

Section established.
Context `{KeyedHash} `{Crypto} (k : kernel) (aes_128_ctr : list Z -> list Z -> list Z -> option (list Z)).
Context (source : list Z) (source_len : Z) (source_valid : client_valid source source_len = true).
Local Notation client := (source_len, field source source_len).

(** The handler each of them reaches, for the client at [source] with the flow in [slot]. *)
Definition take_turn (slot : nat) (dp : qsr_dataplane) (t : turn) : option (qsr_dataplane * list event) :=
  match t with
  | FromClient packet packet_len now => handle_client_packet aes_128_ctr k dp packet packet_len source source_len now
  | FromBackend packet packet_len now => handle_backend_packet dp slot packet packet_len now
  | Sweep now => run_expiry_sweeps dp now
  end.

Fixpoint take_turns (slot : nat) (dp : qsr_dataplane) (l : list turn) : option (qsr_dataplane * list event) :=
  match l with
  | [] => Some (dp, [])
  | t :: l =>
      '(dp, ev) ← take_turn slot dp t;
      '(dp, ev') ← take_turns slot dp l;
      Some (dp, ev ++ ev')
  end.

(** Readable bytes; the client's datagrams are short headers. *)
Definition turn_ok (t : turn) : Prop :=
  match t with
  | FromClient packet packet_len _ => readable packet packet_len /\ bytes_ok (p_buf packet) /\ one_rtt packet packet_len = true
  | FromBackend packet packet_len _ => readable packet packet_len /\ bytes_ok (p_buf packet)
  | Sweep _ => True
  end.

(** No sweep comes [timeout] seconds or more after the last datagram. *)
Fixpoint never_idle (timeout last : Z) (l : list turn) : Prop :=
  match l with
  | [] => True
  | FromClient _ _ now :: l | FromBackend _ _ now :: l => never_idle timeout now l
  | Sweep now :: l => now - last < timeout /\ never_idle timeout last l
  end.

(** What a transparent pipe sends: the same bytes, to the other side. *)
Definition piped (main_fd : Z) (f : qsr_flow) (t : turn) : list (Z * (list Z * list Z)) :=
  match t with
  | FromClient packet packet_len _ => relayed (f_fd f) packet packet_len (f_backend_addr f) (f_backend_addr_len f)
  | FromBackend packet packet_len _ => relayed main_fd packet packet_len (f_client_addr f) (f_client_addr_len f)
  | Sweep _ => []
  end.

Definition last_turn (last : Z) (t : turn) : Z :=
  match t with FromClient _ _ now | FromBackend _ _ now => now | Sweep _ => last end.

(** The flow in [slot] when it was last used at [last]. *)
Record established (slot : nat) (f : qsr_flow) (last : Z) (dp : qsr_dataplane) : Prop := {
  es_ok : dp_ok dp;
  es_codec : cc_enabled (c_cid_codec (dp_config dp)) = false;
  es_flow : client_flow (dp_flows dp) client slot (flow_touch f last);
}.

Lemma touched_flow_kept dp slot f now : client_flow (dp_flows dp) client slot f ->
  client_flow (ft_set_flows (dp_flows dp) (<[slot := flow_touch f now]> (ft_flows (dp_flows dp)))) client slot (flow_touch f now).
Proof using. intros (Hf & Hu & Hk). split_and!; [|done..]. cbn. apply list_lookup_insert_eq. by eapply lookup_lt_Some. Qed.

Lemma turn_spec slot f last dp t : established slot f last dp -> turn_ok t ->
  never_idle (c_idle_timeout_seconds (dp_config dp)) last [t] ->
  exists dp' ev, take_turn slot dp t = Some (dp', ev) /\ established slot f (last_turn last t) dp' /\
    dp_config dp' = dp_config dp /\ dp_main_fd dp' = dp_main_fd dp /\
    sent ev ++ waiting dp' = waiting dp ++ piped (dp_main_fd dp) f t.
Proof using source_valid.
  intros [Hok Hoff Hcf] Ht Hidle. destruct t as [packet packet_len now|packet packet_len now|now]; cbn [take_turn turn_ok last_turn piped].
  - destruct Ht as (Hr & Hb & Hone).
    destruct (established_fast k aes_128_ctr dp slot _ packet packet_len source source_len now Hok Hr Hb source_valid Hoff Hone Hcf)
      as (sd & ev & He & Hok' & _ & Hs). cbv zeta in *. eexists _, ev. split; [exact He|]. split_and!; try done.
    split; [done..|]. exact (touched_flow_kept dp slot _ now Hcf).
  - destruct Ht as (Hr & Hb). pose proof Hcf as (Hf & Hu & _).
    destruct (handle_backend_spec packet packet_len Hr Hb dp slot _ now Hok Hf Hu) as (dp' & ev & He & Hok' & Hc & Hm & _ & Hfl & _ & _ & Hs).
    exists dp', ev. injection Hm as Hm _ _. split_and!; try done. split; [done|by rewrite Hc|]. rewrite Hfl.
    exact (touched_flow_kept dp slot _ now Hcf).
  - destruct (sweep_spec_dp dp now Hok) as (dp' & ev & n1 & n2 & fev & He & Hok' & Hc & Hm & Hsd & -> & (_ & _ & [_ _ Hcl _ _]) & _).
    exists dp', (FlowEvent <$> fev). injection Hm as Hm _ _. destruct Hcf as (Hf & Hu & Hk).
    split_and!; [done| |done..|].
    + split; [done|by rewrite Hc|]. split_and!; [|done..]. rewrite (Hcl slot _ Hf).
      destruct (_ && _) eqn:E; [|done]. exfalso. unfold flow_idle in E. cbn in E, Hidle. bool_to_prop. lia.
    + rewrite sent_flow_events, app_nil_r. unfold waiting. rewrite Hsd. apply waiting_from_receive, Hok.
Qed.

Lemma turns_spec slot f l : forall last dp, established slot f last dp -> Forall turn_ok l ->
  never_idle (c_idle_timeout_seconds (dp_config dp)) last l ->
  exists dp' ev, take_turns slot dp l = Some (dp', ev) /\ established slot f (fold_left last_turn l last) dp' /\
    sent ev ++ waiting dp' = waiting dp ++ (l ≫= piped (dp_main_fd dp) f).
Proof using source_valid.
  induction l as [|t l IH]; intros last dp He Hl Hi; cbn [take_turns fold_left].
  { exists dp, []. cbn. rewrite app_nil_r. by split_and!. }
  apply list.Forall_cons in Hl as [Ht Hl].
  destruct (turn_spec slot f last dp t He Ht) as (dp1 & ev1 & -> & He1 & Hc1 & Hm1 & Hs1); [destruct t; cbn in *; tauto|].
  cbn [mbind option_bind]. destruct (IH _ dp1 He1 Hl) as (dp2 & ev2 & -> & He2 & Hs2); [rewrite Hc1; destruct t; cbn in *; tauto|].
  cbn [mbind option_bind]. exists dp2, (ev1 ++ ev2). split_and!; [done..|].
  rewrite sent_app, <- app_assoc, Hs2, app_assoc, Hs1, Hm1, <- app_assoc. done.
Qed.
End established.

(** *** A client at a new address *)

Section migration.
Context `{KeyedHash} `{Crypto} (k : kernel) (aes_128_ctr : list Z -> list Z -> list Z -> option (list Z)).
Context (packet : ptr) (packet_len : Z) (readable_packet : readable packet packet_len) (packet_bytes : bytes_ok (p_buf packet)).
Context (source : list Z) (source_len now : Z) (source_valid : client_valid source source_len = true).
Local Notation client := (source_len, field source source_len).
Local Notation key := (qsr_session_tuple_key (Some source) source_len).

(** A short header long enough for a learned connection ID. *)
Definition may_carry_cid : bool := short_header packet && (9 <=? packet_len).

Lemma may_carry_one_rtt : may_carry_cid = true -> one_rtt packet packet_len = true.
Proof using.
  unfold may_carry_cid, short_header, one_rtt. intros [[H7 _]%andb_true_iff Hl%Z.leb_le]%andb_true_iff.
  rewrite H7, andb_true_r. apply Z.ltb_lt. lia.
Qed.

(** The longest learned connection ID behind the first byte. *)
Definition carried_cid (t : qsr_session_table) : option nat := longest_cid packet t (Z.to_nat (Z.min (packet_len - 1) 20 - 7)).

(** The tuple is bound to a backend and found again. *)
Lemma tuple_bound t addr len : table_wf t -> key_valid key = true -> backend_valid addr len = true ->
  exists t' j s, bind_client_tuple t key (AddrVal addr) len now = Some t' /\ puts 1 addr len t t' /\
    qsr_session_table_get t' key = Some j /\ t_sessions t' !! j = Some s /\ s_used s = true /\
    s_backend_addr s = addr /\ s_backend_addr_len s = len /\ leads t' (key_view key) addr len.
Proof using.
  intros Hwf Hkv Hbv. destruct (bind_tuple_puts t key addr len now Hwf) as (t' & Hbind & Hp & _).
  destruct (put_puts t key addr len now 0 0 Hwf) as (t1 & st & Hput & _ & Hm).
  rewrite Hkv, Hbv in Hm. destruct Hm as (_ & s1 & Hc & Ha & Hl & _).
  assert (t1 = t') as ->.
  { unfold bind_client_tuple in Hbind. change (qsr_session_table_put t key (AddrVal addr) len now)
      with (qsr_session_table_put_owned t key (AddrVal addr) len now 0 0) in Hbind.
    rewrite Hput in Hbind. by injection Hbind. }
  assert (Hlead : leads t' (key_view key) addr len) by (by exists s1).
  destruct (leads_slot t' key _ _ (pu_wf _ _ _ _ _ Hp) Hkv Hlead) as (j & s & ? & ? & ? & ? & ?). by exists t', j, s.
Qed.

(** What a datagram does that leads the client's address to a backend. *)
Record led (dp dp' : qsr_dataplane) (ev : list event) (addr : list Z) (len : Z) : Prop := {
  le_ok : dp_ok dp';
  le_traffic : exists r, acquired (k_socket k) (k_epoll_add k) (dp_flows dp) client addr len now (dp_flows dp') r /\
    sent ev ++ waiting dp' = waiting dp ++
      match r with
      | Some slot => relayed (f_fd (flow_at dp' slot)) packet packet_len addr len
      | None => []
      end;
  le_tuple : leads (dp_sessions dp') (key_view key) addr len;
  le_others : roomy 1 (dp_sessions dp) -> forall kv, leads (dp_sessions dp) kv addr len -> leads (dp_sessions dp') kv addr len;
}.

(** A short header whose classification has bound the tuple. *)
Lemma bound_forwarded dp t j s addr len : dp_ok dp -> ft_next_id (dp_flows dp) + 1 < 2 ^ 64 -> kernel_fresh k dp ->
  one_rtt packet packet_len = true -> fast_flow dp packet packet_len source source_len = Some None ->
  find_session aes_128_ctr (dp_config dp) (dp_sessions dp) packet packet_len key now = Some (t, Some j, None) ->
  puts 1 addr len (dp_sessions dp) t -> backend_of_config (dp_config dp) addr len ->
  t_sessions t !! j = Some s -> s_used s = true -> s_backend_addr s = addr -> s_backend_addr_len s = len ->
  leads t (key_view key) addr len ->
  exists dp' ev, handle_client_packet aes_128_ctr k dp packet packet_len source source_len now = Some (dp', ev) /\ led dp dp' ev addr len.
Proof using readable_packet packet_bytes source_valid.
  intros Hok Hid Hfresh Hone Hfast Hfind Hp Hb Hj Hu <- <- Hlead.
  assert (Hok1 : dp_ok (dp_set_sessions dp t)) by (apply (set_sessions_ok 1); [done|by eapply puts_updates]).
  destruct (forward_spec k packet packet_len readable_packet packet_bytes source source_len now source_valid (dp_set_sessions dp t) j s
    Hok1 Hid Hfresh Hj Hu) as (dp' & ev & r & Hfw & Hh & Hacq & Hsent & Hkeep).
  { rewrite (short_not_long packet packet_len readable_packet packet_bytes Hone). congruence. }
  exists dp', ev. unfold handle_client_packet. rewrite Hfast. cbn [mbind option_bind]. rewrite Hfind.
  cbn [mbind option_bind]. split; [exact Hfw|]. split; [apply Hh|by exists r|by apply Hkeep|].
  intros Hroom kv Hkv'. apply Hkeep. by apply (pu_keeps _ _ _ _ _ Hp).
Qed.

(** A client without a flow does not take the fast path. *)
Lemma no_flow_not_fast dp : dp_ok dp -> flows_of (dp_flows dp) !! client = None ->
  fast_flow dp packet packet_len source source_len = Some None.
Proof using readable_packet packet_bytes source_valid.
  intros Hok Hflow.
  destruct (fast_flow_spec packet packet_len readable_packet packet_bytes source source_len source_valid dp (ok_flows_wf dp Hok))
    as (r & -> & Hr). destruct r as [slot|]; [|done]. exfalso. destruct Hr as (_ & _ & f & Hf & Hused & Hk).
  assert (flows_of (dp_flows dp) !! client = Some f); [|congruence]. apply flows_of_lookup; [apply ok_flows_wf, Hok|].
  exists slot. rewrite fslot_used by done. by rewrite Hk.
Qed.

Lemma migration_spec dp i s : dp_ok dp -> ft_next_id (dp_flows dp) + 1 < 2 ^ 64 -> kernel_fresh k dp ->
  cc_enabled (c_cid_codec (dp_config dp)) = false -> may_carry_cid = true -> flows_of (dp_flows dp) !! client = None ->
  qsr_session_table_get (dp_sessions dp) key = None -> carried_cid (dp_sessions dp) = Some i ->
  t_sessions (dp_sessions dp) !! i = Some s ->
  key_valid key = true -> backend_valid (s_backend_addr s) (s_backend_addr_len s) = true ->
  exists dp' ev, handle_client_packet aes_128_ctr k dp packet packet_len source source_len now = Some (dp', ev) /\
    led dp dp' ev (s_backend_addr s) (s_backend_addr_len s).
Proof using readable_packet packet_bytes source_valid.
  intros Hok Hid Hfresh Hoff Hcarry Hflow Hnone Hcid Hs Hkv Hbv. pose proof (ok_sessions_wf dp Hok) as Hwf.
  destruct (longest_cid_get packet (dp_sessions dp) _ i Hwf Hcid) as (s0 & Hs0 & Hu). rewrite Hs in Hs0. injection Hs0 as <-.
  destruct (tuple_bound (dp_sessions dp) _ _ Hwf Hkv Hbv) as (t & j & s' & Hbind & Hp & Hg & Hj & Hu' & Ha & Hl & Hlead).
  apply (bound_forwarded dp t j s'); try done.
  - by apply may_carry_one_rtt.
  - by apply no_flow_not_fast.
  - unfold find_session, lookup_encoded_cid. rewrite Hoff. cbn [negb mbind option_bind].
    rewrite (short_no_initial packet packet_len readable_packet packet_bytes (may_carry_one_rtt Hcarry)). cbn [mbind option_bind].
    unfold other_session. rewrite Hnone. unfold may_carry_cid in Hcarry.
    rewrite (lookup_short_header_spec packet packet_len readable_packet packet_bytes _ Hwf), Hcarry.
    fold (carried_cid (dp_sessions dp)). rewrite Hcid. cbn [mbind option_bind]. unfold rebind. rewrite (session_at_slot _ i s Hs), Hbind.
    cbn [mbind option_bind]. by rewrite Hg.
  - exact (slot_aim _ _ _ _ Hwf (ok_sessions dp Hok) Hs Hu).
Qed.

(** *** An encoded connection ID *)

(** A short header that starts with this connection ID. *)
Definition carries_encoded (cid : list Z) : Prop :=
  short_header packet = true /\ 1 + QSR_CID_ENCODED_LEN <= packet_len /\ range (ptr_add packet 1) QSR_CID_ENCODED_LEN = cid.

Lemma carries_one_rtt cid : carries_encoded cid -> one_rtt packet packet_len = true.
Proof using.
  intros (Hs & Hl & _). apply may_carry_one_rtt. unfold may_carry_cid, QSR_CID_ENCODED_LEN in *. rewrite Hs. cbn. apply Z.leb_le. lia.
Qed.

Context (ctr_length : forall key iv a b, aes_128_ctr key iv a = Some b -> length b = length a).
Context (ctr_inverse : forall key iv a b, aes_128_ctr key iv a = Some b -> aes_128_ctr key iv b = Some a).

Lemma carries_decoded codec server_id nonce cid : cc_enabled codec = true -> 0 < server_id < 256 -> Zlen nonce = QSR_CID_NONCE_LEN ->
  qsr_cid_codec_encode aes_128_ctr codec server_id nonce = Ok cid -> carries_encoded cid ->
  attempt (try_decode_dcid_server_id aes_128_ctr codec packet packet_len) = Some (Some server_id).
Proof using readable_packet packet_bytes ctr_length ctr_inverse.
  intros Hen Hid Hn Henc (Hs & Hl & Hr). unfold QSR_CID_ENCODED_LEN in Hl. unfold attempt, try_decode_dcid_server_id. rewrite Hen. cbn [negb orb].
  rewrite (proj2 (Z.ltb_ge packet_len 1)) by lia.
  destruct (peek_ok packet packet_len readable_packet packet_bytes 0 ltac:(lia)) as (b & Hpk & Hld & _). rewrite Hld.
  unfold short_header in Hs. rewrite Hpk in Hs. cbn [mbind outcome_bind default] in *. change (id b) with b in Hs.
  apply andb_true_iff in Hs as [H7 H6]. change 0x80 with (2 ^ 7). change 0x40 with (2 ^ 6). rewrite !land_bit by lia. rewrite H7, H6. cbn [negb orb].
  rewrite (proj2 (Z.ltb_ge packet_len (1 + QSR_CID_ENCODED_LEN))) by (unfold QSR_CID_ENCODED_LEN; lia).
  assert (Hrd : readable (ptr_add packet 1) QSR_CID_ENCODED_LEN).
  { unfold QSR_CID_ENCODED_LEN. apply (readable_sub _ (packet_len - 1)); [apply readable_add; [done|lia]|lia]. }
  rewrite (proj2 (decode_spec aes_128_ctr ctr_length ctr_inverse codec _ _ server_id Hrd Hid)); [done|].
  exists nonce. split; [done|]. by rewrite Hr.
Qed.

Lemma encoded_spec dp server_id nonce cid j : dp_ok dp -> ft_next_id (dp_flows dp) + 1 < 2 ^ 64 -> kernel_fresh k dp ->
  cc_enabled (c_cid_codec (dp_config dp)) = true -> 0 < server_id < 256 -> Zlen nonce = QSR_CID_NONCE_LEN ->
  qsr_cid_codec_encode aes_128_ctr (c_cid_codec (dp_config dp)) server_id nonce = Ok cid -> carries_encoded cid ->
  qsr_route_table_lookup_by_server_id (c_routes (dp_config dp)) server_id = Some j -> let r := route_at (c_routes (dp_config dp)) j in
  key_valid key = true -> backend_valid (r_backend_addr r) (r_backend_addr_len r) = true ->
  exists dp' ev, handle_client_packet aes_128_ctr k dp packet packet_len source source_len now = Some (dp', ev) /\
    led dp dp' ev (r_backend_addr r) (r_backend_addr_len r).
Proof using readable_packet packet_bytes source_valid ctr_length ctr_inverse.
  intros Hok Hid Hfresh Hon Hsid Hn Henc Hcarry Hlk r Hkv Hbv. pose proof (ok_sessions_wf dp Hok) as Hwf.
  pose proof (server_id_live _ _ _ (ok_routes dp Hok) Hlk) as Hj. destruct (rl_resolved _ (ok_routes dp Hok) j Hj) as [Hres Hb].
  destruct (tuple_bound (dp_sessions dp) _ _ Hwf Hkv Hbv) as (t & i & s & Hbind & Hp & Hg & Hi & Hu & Ha & Hl & Hlead).
  pose proof (carries_one_rtt cid Hcarry) as Hone. apply (bound_forwarded dp t i s); try done.
  - unfold fast_flow. by rewrite Hon.
  - unfold find_session, lookup_encoded_cid. rewrite Hon. cbn [negb].
    rewrite (carries_decoded _ server_id nonce cid Hon Hsid Hn Henc Hcarry). cbn [mbind option_bind]. rewrite Hlk. fold r.
    fold r in Hres. rewrite Hres. cbn [negb]. rewrite Hbind. cbn [mbind option_bind]. rewrite Hg.
    rewrite (short_no_initial packet packet_len readable_packet packet_bytes Hone). done.
Qed.
End migration.

(** ** Properties *)

Section properties.
Context `{KeyedHash} `{Crypto} (k : kernel) (aes_128_ctr : list Z -> list Z -> list Z -> option (list Z)).

(** C3: An established connection is a transparent pipe for as long as it is in
    use. Take any sequence of short-header datagrams of a client with a flow,
    datagrams of the backend on that flow and sweeps of the tables, in any order, where no
    sweep comes a timeout after the last datagram: every call returns, what is sent
    behind what already waited is each datagram, unmodified and in order,
    from the flow's descriptor to its backend or from the listening one to the
    client, nothing else is sent, and at the end the client has the same flow. *)
Theorem established_connection_transparent source source_len slot f last dp l :
  client_valid source source_len = true -> established source source_len slot f last dp -> Forall turn_ok l ->
  never_idle (c_idle_timeout_seconds (dp_config dp)) last l ->
  exists dp' ev, take_turns k aes_128_ctr source source_len slot dp l = Some (dp', ev) /\
    established source source_len slot f (fold_left last_turn l last) dp' /\
    sent ev ++ waiting dp' = waiting dp ++ (l ≫= piped (dp_main_fd dp) f).
Proof. intros Hv. by apply turns_spec. Qed.

(** C4: A client that comes back from an address the router has never seen is
    followed. Its tuple has no session and no flow; when its short header carries a
    learned connection ID - the longest one that is known counts - it gets a flow to the
    backend of that connection ID, the datagram is sent there unmodified behind
    what waits, and from then on the new address leads to that backend too. With room for one
    entry everything that led to the backend still does. *)
Theorem migration_followed packet packet_len source source_len now dp i s :
  readable packet packet_len -> bytes_ok (p_buf packet) -> client_valid source source_len = true ->
  dp_ok dp -> ft_next_id (dp_flows dp) + 1 < 2 ^ 64 -> kernel_fresh k dp ->
  cc_enabled (c_cid_codec (dp_config dp)) = false -> may_carry_cid packet packet_len = true ->
  flows_of (dp_flows dp) !! (source_len, field source source_len) = None ->
  qsr_session_table_get (dp_sessions dp) (qsr_session_tuple_key (Some source) source_len) = None ->
  carried_cid packet packet_len (dp_sessions dp) = Some i -> t_sessions (dp_sessions dp) !! i = Some s ->
  key_valid (qsr_session_tuple_key (Some source) source_len) = true -> backend_valid (s_backend_addr s) (s_backend_addr_len s) = true ->
  exists dp' ev, handle_client_packet aes_128_ctr k dp packet packet_len source source_len now = Some (dp', ev) /\
    led k packet packet_len source source_len now dp dp' ev (s_backend_addr s) (s_backend_addr_len s).
Proof. intros. by eapply migration_spec. Qed.

(** C5: With encoded connection IDs on, routing needs no state. Take any
    tables, any client address, known or not, and a short header with a
    connection ID that a backend has encoded from its server id, under any nonce: the
    client gets a flow to the backend that the routes have under that id, the datagram is
    sent there unmodified behind what waits, and the address leads there from then on,
    even if it led elsewhere before. *)
Theorem encoded_connection_routed packet packet_len source source_len now dp server_id nonce cid j :
  readable packet packet_len -> bytes_ok (p_buf packet) -> client_valid source source_len = true ->
  (forall key iv a b, aes_128_ctr key iv a = Some b -> length b = length a) ->
  (forall key iv a b, aes_128_ctr key iv a = Some b -> aes_128_ctr key iv b = Some a) ->
  dp_ok dp -> ft_next_id (dp_flows dp) + 1 < 2 ^ 64 -> kernel_fresh k dp ->
  cc_enabled (c_cid_codec (dp_config dp)) = true -> 0 < server_id < 256 -> Zlen nonce = QSR_CID_NONCE_LEN ->
  qsr_cid_codec_encode aes_128_ctr (c_cid_codec (dp_config dp)) server_id nonce = Ok cid -> carries_encoded packet packet_len cid ->
  qsr_route_table_lookup_by_server_id (c_routes (dp_config dp)) server_id = Some j -> let r := route_at (c_routes (dp_config dp)) j in
  key_valid (qsr_session_tuple_key (Some source) source_len) = true -> backend_valid (r_backend_addr r) (r_backend_addr_len r) = true ->
  exists dp' ev, handle_client_packet aes_128_ctr k dp packet packet_len source source_len now = Some (dp', ev) /\
    led k packet packet_len source source_len now dp dp' ev (r_backend_addr r) (r_backend_addr_len r).
Proof. intros. by eapply encoded_spec. Qed.
End properties.

(** ** Witnesses *)

Section examples.
Local Existing Instance sum_hash.
Local Existing Instances plain_crypto plain_output.

(** A short header with the connection ID 7, 7, ... *)
Definition demo_short : ptr := Ptr (0x40 :: replicate 8 7) 0.

Lemma established_connection_transparent_witness : exists dp slot dp' ev, dp_ok dp /\
  take_turns demo_kernel plain_ctr (demo_addr 1) 16 slot dp [FromClient demo_short 9 6; FromBackend demo_short 9 8; Sweep 8] = Some (dp', ev).
Proof.
  destruct demo_flow as (dp & slot & f & Hok & Hcc & Hcf). pose proof (lc_idle _ (rn_config _ (ok_runtime dp Hok))) as Hidle.
  destruct (established_connection_transparent demo_kernel plain_ctr (demo_addr 1) 16 slot f (f_last_seen f) dp
    [FromClient demo_short 9 6; FromBackend demo_short 9 8; Sweep 8]) as (dp' & ev & He & _).
  - reflexivity.
  - split; [exact Hok|exact Hcc|]. destruct f. exact Hcf.
  - repeat constructor; try bytes_concrete; z_concrete.
  - cbn. lia.
  - exists dp, slot, dp', ev. split; [exact Hok|exact He].
Defined.

(** The started router after a backend has announced that connection ID. *)
Definition demo_cid_key : qsr_session_key := qsr_session_single_cid_key (replicate 8 7) 8.

Lemma demo_cid_dp : exists dp i s, dp_ok dp /\ cc_enabled (c_cid_codec (dp_config dp)) = false /\
  ft_next_id (dp_flows dp) + 1 < 2 ^ 64 /\ fds (ft_flows (dp_flows dp)) = [] /\ dp_flows dp = demo_no_flows /\
  qsr_session_table_get (dp_sessions dp) (qsr_session_tuple_key (Some (demo_addr 3)) 16) = None /\
  carried_cid demo_short 9 (dp_sessions dp) = Some i /\ t_sessions (dp_sessions dp) !! i = Some s /\
  backend_valid (s_backend_addr s) (s_backend_addr_len s) = true.
Proof.
  destruct demo_dp as (dp & backend & [Hok Hcc Hid Hf Hs Hpe Hq Hroute Hbv Hfl Hcap]).
  assert (Hb : backend_of_config (dp_config dp) backend 4).
  { unfold route_of in Hroute. destruct (qsr_route_table_lookup _ _) as [j|] eqn:El; [|done]. injection Hroute as <- <-.
    by apply (rl_resolved _ (ok_routes dp Hok)), (lookup_live _ _ _ (ok_routes dp Hok) El). }
  destruct (put_spec 0 (dp_sessions dp) demo_cid_key backend 4 5 0 0 (ok_sessions_wf dp Hok) eq_refl Hbv) as (t & Hput & Hwf & _ & Hc).
  destruct (put_puts (dp_sessions dp) demo_cid_key backend 4 5 0 0 (ok_sessions_wf dp Hok)) as (t' & st & Hput' & Hp & _).
  unfold qsr_session_table_put_owned in Hput'. rewrite Hput in Hput'. injection Hput' as <- _. rewrite Hs, lookup_empty in Hc. destruct Hc as (t1 & Hroom & Hc).
  assert (Hempty : contents t1 = ∅).
  { pose proof (makes_room_subset _ _ Hroom) as Hsub. rewrite Hs in Hsub.
    apply map_eq. intros kv. rewrite lookup_empty. apply eq_None_not_Some. intros [x Hx].
    pose proof (lookup_weaken _ _ _ _ Hx Hsub) as He. by rewrite lookup_empty in He. }
  rewrite Hempty in Hc.
  pose proof (get_spec t demo_cid_key Hwf) as Hg. change (key_valid demo_cid_key) with true in Hg. cbn iota in Hg.
  rewrite Hc, lookup_insert_eq in Hg. destruct (qsr_session_table_get t demo_cid_key) as [i|] eqn:Eg; [|done].
  destruct Hg as (s & Hi & Hsc). injection Hsc as <-.
  pose proof (get_spec t (qsr_session_tuple_key (Some (demo_addr 3)) 16) Hwf) as Hg3.
  change (key_valid (qsr_session_tuple_key (Some (demo_addr 3)) 16)) with true in Hg3. cbn iota in Hg3.
  exists (dp_set_sessions dp t), i. eexists. split_and!; [|exact Hcc|exact Hid|exact Hf|exact Hfl| | |exact Hi|exact Hbv].
  - apply (set_sessions_ok 1); [done|]. by eapply puts_updates.
  - change (dp_sessions (dp_set_sessions dp t)) with t. destruct (qsr_session_table_get t (qsr_session_tuple_key _ _)); [|done].
    destruct Hg3 as (s3 & _ & H3). rewrite Hc, lookup_insert_ne, lookup_empty in H3; [done|]. vm_compute. congruence.
  - change (dp_sessions (dp_set_sessions dp t)) with t. unfold carried_cid. change (Z.to_nat _) with 1%nat. cbn [longest_cid].
    change (qsr_session_single_cid_key (range (ptr_add demo_short 1) _) _) with demo_cid_key. by rewrite Eg.
Qed.

Lemma migration_followed_witness : exists dp dp' ev, dp_ok dp /\
  handle_client_packet plain_ctr demo_kernel dp demo_short 9 (demo_addr 3) 16 6 = Some (dp', ev) /\ dp_ok dp'.
Proof.
  destruct demo_cid_dp as (dp & i & s & Hok & Hcc & Hid & Hf & Hfl & Hget & Hcid & Hs & Hb).
  destruct (migration_followed demo_kernel plain_ctr demo_short 9 (demo_addr 3) 16 6 dp i s) as (dp' & ev & He & Hled).
  - z_concrete.
  - bytes_concrete.
  - reflexivity.
  - exact Hok.
  - exact Hid.
  - exact (demo_kernel_fresh dp Hok Hf).
  - exact Hcc.
  - reflexivity.
  - rewrite Hfl. vm_compute. reflexivity.
  - exact Hget.
  - exact Hcid.
  - exact Hs.
  - reflexivity.
  - exact Hb.
  - exists dp, dp', ev. split_and!; [exact Hok|exact He|exact (le_ok _ _ _ _ _ _ _ _ _ _ _ Hled)].
Defined.
(** The started router with the key of [demo_codec]; the route has server id 7. *)
Lemma demo_codec_dp : exists dp, dp_ok dp /\ c_cid_codec (dp_config dp) = demo_codec /\
  ft_next_id (dp_flows dp) + 1 < 2 ^ 64 /\ fds (ft_flows (dp_flows dp)) = [] /\
  exists j, qsr_route_table_lookup_by_server_id (c_routes (dp_config dp)) 7 = Some j /\
    backend_valid (r_backend_addr (route_at (c_routes (dp_config dp)) j)) (r_backend_addr_len (route_at (c_routes (dp_config dp)) j)) = true.
Proof.
  destruct demo_routes_live as (t & Hlive & _ & Hb & Hid). set (config := set_cid_codec (demo_run_config t) demo_codec).
  assert (Hcfg : live_config config).
  { destruct demo_live as [? ? _ _ ?]. split; cbn; try done. apply Hlive. }
  pose proof (init_spec demo_small (fun _ => (5, [])) demo_raw config None demo_small_ok Hcfg) as Hi.
  assert (Hst : (qsr_runtime_init demo_small (fun _ => (5, [])) demo_raw config None).2 = QSR_OK) by reflexivity.
  assert (Hni : run_flows (qsr_runtime_init demo_small (fun _ => (5, [])) demo_raw config None).1.1 = demo_no_flows) by reflexivity.
  destruct (qsr_runtime_init _ _ _ _ _) as [[r ev] st]. cbn [fst snd] in Hst, Hni. subst st. destruct Hi as (Hwf & Hc & Hs & Hf & _).
  exists (dp_start r 3). cbn [dp_runtime dp_start]. split_and!; [by apply start_ok; rewrite ?Hc|by rewrite Hc|by rewrite Hni|done|].
  exists 0. rewrite Hc. change (c_routes config) with t. split; [exact Hid|].
  unfold backend_of in Hb. injection Hb as Hlen Hfield. rewrite Hlen in *.
  destruct (r_backend_addr (route_at t 0)) as [|a [|b l]]; try done. cbn in Hfield. by injection Hfield as -> -> _.
Qed.

(** A short header with the connection ID that the server has made from its id. *)
Definition demo_encoded_cid : list Z := 0x4f :: [1; 2; 3; 4; 5; 6; 7] ++ (Z.lxor 0x5a <$> 7 :: QSR_CID_MAGIC).
Definition demo_encoded : ptr := Ptr (0x40 :: demo_encoded_cid ++ zeros 20) 0.

Lemma encoded_connection_routed_witness : exists dp dp' ev, dp_ok dp /\
  handle_client_packet demo_ctr demo_kernel dp demo_encoded 37 (demo_addr 3) 16 6 = Some (dp', ev) /\ dp_ok dp'.
Proof.
  destruct demo_codec_dp as (dp & Hok & Hcodec & Hid & Hf & j & Hlk & Hb).
  destruct (encoded_connection_routed demo_kernel demo_ctr demo_encoded 37 (demo_addr 3) 16 6 dp 7 [1; 2; 3; 4; 5; 6; 7]
    demo_encoded_cid j) as (dp' & ev & He & Hled).
  - z_concrete.
  - bytes_concrete.
  - reflexivity.
  - exact demo_ctr_length.
  - exact demo_ctr_inverse.
  - exact Hok.
  - exact Hid.
  - exact (demo_kernel_fresh dp Hok Hf).
  - rewrite Hcodec. reflexivity.
  - lia.
  - reflexivity.
  - rewrite Hcodec. reflexivity.
  - split; [reflexivity|]. split; [z_concrete|reflexivity].
  - exact Hlk.
  - reflexivity.
  - exact Hb.
  - exists dp, dp', ev. split_and!; [exact Hok|exact He|exact (le_ok _ _ _ _ _ _ _ _ _ _ _ Hled)].
Defined.
End examples.
