(* ===== verification/EventLoop.v ===== *)
(** * The event loop

    [src/udp.c]: draining a ready socket ([drain_socket], with the split of
    coalesced datagrams) and the main loop. The answers of the kernel are arguments. *)

From stdpp Require Import gmap.
From S2P Require Import Prelude Hash QuicInitial SessionKey Probe SessionTable FlowTable QuicFrames Hostname TlsClientHello RouteTable CidCodec Config QuicCrypto Runtime Sender Process Pending Upstream Routing Dataplane DataplaneSafety.
#[local] Open Scope Z_scope.

(** ** Data *)

Definition QSR_EXPIRE_SWEEP_INTERVAL_SECONDS : Z := 1.
Definition QSR_RECV_ROUNDS_PER_EVENT : nat := 4.
Definition QSR_EPOLL_DATA_MAIN : Z := 2 ^ 64 - 1.
Definition QSR_EPOLL_DATA_INOTIFY : Z := 2 ^ 64 - 2.

(** A number of the system headers. *)
Definition SOL_UDP : Z := 17.

Record cmsg := { cm_level : Z; cm_type : Z; cm_data : list Z }.

(** A slot of the batch after [recvmmsg]: its buffer and what the header says. *)
Record message := {
  m_buffer : list Z;
  m_len : Z;
  m_trunc : bool;
  m_control : list cmsg;
  m_source : list Z;
  m_source_len : Z;
}.

(** What one [recvmmsg] gives: an error, or messages and the clock behind it. *)
Inductive recv_result := RecvFailed (interrupted : bool) | Received (now : Z) (messages : list message).

(** ** Splitting a message *)

(** The loop over the control messages: the size of a segment. *)
Fixpoint gro_size (control : list cmsg) (msg_len : Z) : Z :=
  match control with
  | [] => msg_len
  | cm :: control =>
      if (cm_level cm =? SOL_UDP) && (cm_type cm =? UDP_GRO) then
        let gso := default 0 (cm_data cm !! 0%nat) + 256 * default 0 (cm_data cm !! 1%nat) in
        if 0 <? gso then gso else msg_len
      else gro_size control msg_len
  end.

Section loop.
Context `{KeyedHash} `{Crypto} (aes_128_ctr : list Z -> list Z -> list Z -> option (list Z)) (k : qsr_dataplane -> kernel).

(** [flow == nullptr ? handle_client_packet(...) : handle_backend_packet(...)] *)
Definition handle_packet (flow : option nat) (dp : qsr_dataplane) (packet : ptr) (packet_len : Z) (source : list Z)
    (source_len now : Z) : option (qsr_dataplane * list event) :=
  match flow with
  | None => handle_client_packet aes_128_ctr (k dp) dp packet packet_len source source_len now
  | Some slot => handle_backend_packet dp slot packet packet_len now
  end.

(** [for (offset = 0; offset < msg_len;)]; every chunk has a byte, so [msg_len] rounds are enough. *)
Fixpoint segment_loop (flow : option nat) (m : message) (now segment_size : Z) (fuel : nat) (dp : qsr_dataplane) (offset : Z) :
    option (qsr_dataplane * list event) :=
  if offset <? m_len m then
    match fuel with
    | O => None
    | S fuel =>
        let remaining := usub (m_len m) offset in
        let chunk := if remaining <? segment_size then remaining else segment_size in
        '(dp, ev) ← handle_packet flow dp (Ptr (m_buffer m) offset) chunk (m_source m) (m_source_len m) now;
        '(dp, ev') ← segment_loop flow m now segment_size fuel dp (uadd offset chunk);
        Some (dp, ev ++ ev')
    end
  else Some (dp, []).

(** The messages that are handled. *)
Definition message_accepted (m : message) : bool :=
  negb ((m_len m =? 0) || (QSR_UDP_RECV_BUFFER_SIZE <? m_len m)) && negb (m_trunc m) &&
  negb (QSR_MAX_DATAGRAM_SIZE <? gro_size (m_control m) (m_len m)).

Definition drain_message (flow : option nat) (now : Z) (dp : qsr_dataplane) (m : message) : option (qsr_dataplane * list event) :=
  if message_accepted m then segment_loop flow m now (gro_size (m_control m) (m_len m)) (Z.to_nat (m_len m)) dp 0
  else Some (dp, []).

Fixpoint drain_messages (flow : option nat) (now : Z) (dp : qsr_dataplane) (l : list message) : option (qsr_dataplane * list event) :=
  match l with
  | [] => Some (dp, [])
  | m :: l =>
      '(dp, ev) ← drain_message flow now dp m;
      '(dp, ev') ← drain_messages flow now dp l;
      Some (dp, ev ++ ev')
  end.

(** The rounds of [drain_socket]; [recv] is what [recvmmsg] gives in each. *)
Fixpoint drain_rounds (flow : option nat) (recv : nat -> recv_result) (rounds round : nat) (dp : qsr_dataplane) :
    option (qsr_dataplane * list event) :=
  match rounds with
  | O => Some (dp, [])
  | S rounds =>
      match recv round with
      | RecvFailed true => drain_rounds flow recv rounds (round + 1) dp
      | RecvFailed false => Some (dp, [])
      | Received now messages =>
          '(dp, ev) ← drain_messages flow now dp messages;
          let '(dp, ev') := dp_flush dp in
          if (length messages <? QSR_UDP_BATCH_SIZE)%nat then Some (dp, ev ++ ev')
          else
            '(dp, ev'') ← drain_rounds flow recv rounds (round + 1) dp;
            Some (dp, (ev ++ ev') ++ ev'')
      end
  end.

Definition drain_socket (flow : option nat) (recv : nat -> recv_result) (dp : qsr_dataplane) : option (qsr_dataplane * list event) :=
  drain_rounds flow recv QSR_RECV_ROUNDS_PER_EVENT 0 dp.

(** ** A turn of the loop *)

(** A ready descriptor: its tag and what it has to read. *)
Definition ready_event : Type := Z * (nat -> recv_result).

(** [if (tag == MAIN) ... else if (tag == INOTIFY) ... else ...] *)
Definition dispatch (dp : qsr_dataplane) (e : ready_event) : option (qsr_dataplane * list event) :=
  if e.1 =? QSR_EPOLL_DATA_MAIN then drain_socket None e.2 dp
  else if e.1 =? QSR_EPOLL_DATA_INOTIFY then Some (dp, [])
  else match qsr_flow_table_slot (dp_flows dp) (Z.to_nat e.1) with
       | Some _ => drain_socket (Some (Z.to_nat e.1)) e.2 dp
       | None => Some (dp, [])
       end.

Fixpoint dispatch_all (dp : qsr_dataplane) (l : list ready_event) : option (qsr_dataplane * list event) :=
  match l with
  | [] => Some (dp, [])
  | e :: l =>
      '(dp, ev) ← dispatch dp e;
      '(dp, ev') ← dispatch_all dp l;
      Some (dp, ev ++ ev')
  end.

(** What [epoll_wait] gives: an error, or ready descriptors and the clock at the end of the turn. *)
Inductive wait_result := WaitFailed (interrupted : bool) | Ready (now : Z) (events : list ready_event).

Context `{Yaml} (open : list Z -> config_source) (getaddrinfo : list Z -> Z -> option (list Z)).

(** One turn: the dataplane, [last_expire], whether the loop goes on, and the events. *)
Definition loop_turn (dp : qsr_dataplane) (last_expire : Z) (reads : list Z) (wait : wait_result) :
    option (qsr_dataplane * Z * bool * list event) :=
  '(runtime, ev, _) ← qsr_runtime_poll open getaddrinfo (dp_runtime dp) reads;
  let dp := dp_set_runtime dp runtime in
  let ev := FlowEvent <$> (ev : list flow_event) in
  match wait with
  | WaitFailed interrupted => Some (dp, last_expire, interrupted, ev)
  | Ready now events =>
      '(dp, ev1) ← dispatch_all dp events;
      let '(dp, ev2) := dp_flush dp in
      if QSR_EXPIRE_SWEEP_INTERVAL_SECONDS <=? now - last_expire then
        '(dp, ev3) ← run_expiry_sweeps dp now;
        Some (dp, now, true, ev ++ ev1 ++ ev2 ++ ev3)
      else Some (dp, last_expire, true, ev ++ ev1 ++ ev2)
  end.

(** [while (!g_stop)]: a turn for every pair, until a turn breaks or a signal ends the list. *)
Fixpoint main_loop (dp : qsr_dataplane) (last_expire : Z) (turns : list (list Z * wait_result)) :
    option (qsr_dataplane * list event) :=
  match turns with
  | [] => Some (dp, [])
  | (reads, wait) :: turns =>
      '(dp, last_expire, go_on, ev) ← loop_turn dp last_expire reads wait;
      if go_on : bool then
        '(dp, ev') ← main_loop dp last_expire turns;
        Some (dp, ev ++ ev')
      else Some (dp, ev)
  end.
End loop.

(** ** Lemmas: splitting *)

(** The datagrams of a message of [len] bytes, as offset and length. *)
Fixpoint chunks (len size : Z) (fuel : nat) (offset : Z) : list (Z * Z) :=
  match fuel with
  | O => []
  | S fuel => if offset <? len then (offset, Z.min size (len - offset)) :: chunks len size fuel (offset + size) else []
  end.

(** How many there are. *)
Definition chunk_count (len size : Z) : Z := (len + size - 1) / size.

(** Whole segments one after the other, the last one possibly shorter. *)
Lemma chunks_spec len size fuel : 0 < size -> forall offset, 0 <= offset -> (Z.to_nat (len - offset) <= fuel)%nat ->
  Forall (fun c => offset <= c.1 /\ 0 < c.2 <= size /\ c.1 + c.2 <= len) (chunks len size fuel offset) /\
  (forall buffer, Zlen buffer = len ->
    (chunks len size fuel offset ≫= fun c => range (Ptr buffer c.1) c.2) = drop (Z.to_nat offset) buffer) /\
  Zlen (chunks len size fuel offset) = if offset <? len then chunk_count (len - offset) size else 0.
Proof.
  intros Hs. induction fuel as [|fuel IH]; intros offset Ho Hf; cbn [chunks].
  - rewrite (proj2 (Z.ltb_ge _ _)) by lia. split_and!; [constructor| |done]. intros buffer Hb. unfold Zlen in Hb.
    rewrite drop_ge by lia. done.
  - destruct (offset <? len) eqn:E; bool_to_prop.
    2: { split_and!; [constructor| |done]. intros buffer Hb. unfold Zlen in Hb. by rewrite drop_ge by lia. }
    destruct (IH (offset + size)) as (Hall & Hcat & Hcnt); [lia..|]. split_and!.
    + constructor; [cbn; lia|]. eapply list.Forall_impl; [exact Hall|]. cbn. intros c (? & ? & ?). lia.
    + intros buffer Hb. cbn [mbind list_bind]. rewrite Hcat by done. unfold range. cbn [p_off p_buf].
      cbn [fst snd]. unfold Zlen in Hb. destruct (Z.le_gt_cases (offset + size) len).
      * rewrite Z.min_l by lia. replace (Z.to_nat (offset + size)) with (Z.to_nat offset + Z.to_nat size)%nat by lia.
        rewrite <- drop_drop. apply take_drop.
      * rewrite Z.min_r by lia. rewrite (drop_ge buffer (Z.to_nat (offset + size))) by lia. rewrite app_nil_r.
        apply take_ge. rewrite length_drop. lia.
    + rewrite Zlen_cons, Hcnt. unfold chunk_count. destruct (offset + size <? len) eqn:E2; bool_to_prop.
      * replace (len - offset + size - 1) with ((len - (offset + size) + size - 1) + 1 * size) by lia.
        rewrite Z.div_add by lia. lia.
      * replace (1 + 0) with 1 by lia. apply (Z.div_unique _ _ _ (len - offset - 1)); lia.
Qed.

Lemma chunk_count_pos len size : 0 < len -> 0 < size -> 0 < chunk_count len size.
Proof. intros. unfold chunk_count. apply Z.div_str_pos. lia. Qed.

(** ** The interface of the loop

    What the loop needs of the dataplane is the same for the two invariants:
    the full one, kept while there is room in the session table, and the weak
    one, kept under any load. A regime is an invariant with its measure of room,
    and with what it says of the events on the way. *)

Class Regime := {
  rg_ok : qsr_dataplane -> Prop;
  rg_grown : Z -> qsr_session_table -> qsr_session_table -> Prop;  (* what [n] datagrams make of the table *)
  rg_roomy : Z -> qsr_session_table -> Prop;                       (* room for [n] datagrams *)
  rg_event : event -> Prop;                                        (* what an event may be *)
}.

Section regime.
Context `{KeyedHash} `{Regime} (k : qsr_dataplane -> kernel).

(** Descriptors that [socket] returned, at whatever point of the run. *)
Definition opened_by (opened : list Z) : Prop := Forall (fun fd => exists dp family n, k_socket (k dp) family n = SocketFd fd) opened.

(** What [m] datagrams make of a dataplane. *)
Record ran (m : Z) (dp dp' : qsr_dataplane) (ev : list event) : Prop := {
  rn_ok : rg_ok dp';
  rn_fixed : dp_fixed dp' = dp_fixed dp;
  rn_next : ft_next_id (dp_flows dp') <= ft_next_id (dp_flows dp) + m;
  rn_grown : rg_grown m (dp_sessions dp) (dp_sessions dp');
  rn_fds : accounts (dp_flows dp) (dp_flows dp') ev;
  rn_sockets : opened_by (sockets ev);
  rn_events : Forall rg_event ev;
}.

(** Room for [m] more datagrams: in the session table, and in the flow ids, which must not wrap. *)
Definition room_for (m : Z) (dp : qsr_dataplane) : Prop := ft_next_id (dp_flows dp) + m < 2 ^ 64 /\ rg_roomy m (dp_sessions dp).

(** The descriptor that is drained: the listening one, or a live flow's. *)
Definition flow_live (flow : option nat) (dp : qsr_dataplane) : Prop :=
  match flow with
  | Some slot => exists f, ft_flows (dp_flows dp) !! slot = Some f /\ f_used f = true
  | None => True
  end.
End regime.

Arguments rn_ok {_ k m dp dp' ev} _.

(** What the handlers, the sweeps and the reload promise the loop. *)
Class RegimeLaws `{KeyedHash} `{Crypto} `{Yaml} `{Regime} (aes_128_ctr : list Z -> list Z -> list Z -> option (list Z))
    (k : qsr_dataplane -> kernel) (open : list Z -> config_source) (getaddrinfo : list Z -> Z -> option (list Z)) : Prop := {
  rg_grown_refl t : rg_grown 0 t t;
  rg_grown_trans n m t1 t2 t3 : rg_grown n t1 t2 -> rg_grown m t2 t3 -> rg_grown (n + m) t1 t3;
  rg_grown_weaken n m t t' : n <= m -> rg_grown n t t' -> rg_grown m t t';
  rg_roomy_weaken n m t : m <= n -> rg_roomy n t -> rg_roomy m t;
  rg_roomy_grown n m t t' : 0 <= n -> rg_grown n t t' -> rg_roomy (n + m) t -> rg_roomy m t';
  rg_flows dp : rg_ok dp -> flow_wf (dp_flows dp);
  rg_sender dp : rg_ok dp -> sender_wf (dp_sender dp);
  rg_run fd l : rg_event (SendRun fd l);
  rg_set_sender dp s : rg_ok dp -> sender_wf s -> queued s = [] -> rg_ok (dp_set_sender dp s);
  rg_packet flow dp packet packet_len source source_len now :
    rg_ok dp -> flow_live flow dp -> room_for 1 dp -> readable packet packet_len -> bytes_ok (p_buf packet) ->
    Zlen source = SOCKADDR_SIZE -> 0 <= source_len -> client_valid source source_len = true ->
    exists dp' ev, handle_packet aes_128_ctr k flow dp packet packet_len source source_len now = Some (dp', ev) /\
      ran k 1 dp dp' ev /\ flow_live flow dp';
  rg_sweep dp now : rg_ok dp ->
    exists dp' ev, run_expiry_sweeps dp now = Some (dp', ev) /\ ran k 0 dp dp' ev /\ queued (dp_sender dp') = queued (dp_sender dp);
  rg_reload dp : rg_ok dp ->
    exists r ev lines, reload_from_path open getaddrinfo (dp_runtime dp) = Some (r, ev, lines) /\
      ran k 0 dp (dp_set_runtime dp r) (FlowEvent <$> ev);
}.

(** *** Messages *)

(** What the kernel puts into a slot of the batch. *)
Record received_ok (m : message) : Prop := {
  mo_buffer : Zlen (m_buffer m) = QSR_UDP_RECV_BUFFER_SIZE;
  mo_bytes : bytes_ok (m_buffer m);
  mo_len : 0 <= m_len m;
  mo_control : Forall (fun cm => bytes_ok (cm_data cm)) (m_control m);
  mo_source : Zlen (m_source m) = SOCKADDR_SIZE;
  mo_source_len : 0 <= m_source_len m;
  mo_client : client_valid (m_source m) (m_source_len m) = true;
}.

Lemma byte_default l i : bytes_ok l -> 0 <= default 0 (l !! i).
Proof.
  intros Hb. destruct (l !! i) as [b|] eqn:E; [|done]. destruct (Forall_lookup_1 _ _ _ _ Hb E). cbn. lia.
Qed.

Lemma gro_size_pos control len : 0 < len -> Forall (fun cm => bytes_ok (cm_data cm)) control -> 0 < gro_size control len.
Proof.
  intros Hl. induction 1 as [|cm control Hcm _ IH]; [done|]. cbn [gro_size]. destruct (_ && _); [|done].
  cbv zeta. destruct (0 <? _) eqn:E; bool_to_prop; lia.
Qed.

(** An accepted message has something in it, and its segments are datagrams. *)
Lemma message_accepted_spec m : received_ok m -> message_accepted m = true ->
  0 < m_len m <= QSR_UDP_RECV_BUFFER_SIZE /\ 0 < gro_size (m_control m) (m_len m) <= QSR_MAX_DATAGRAM_SIZE.
Proof.
  intros [_ _ Hl Hc _ _ _] Ha. unfold message_accepted in Ha. rewrite !andb_true_iff, !negb_true_iff, orb_false_iff in Ha.
  destruct Ha as [[[E1 E2] _] E3]. bool_to_prop. pose proof (gro_size_pos (m_control m) (m_len m) ltac:(lia) Hc). lia.
Qed.

(** *** The loops *)

Section theory.
Context `{KeyedHash} `{Crypto} `{Yaml} `{Regime} (aes_128_ctr : list Z -> list Z -> list Z -> option (list Z))
  (k : qsr_dataplane -> kernel) (open : list Z -> config_source) (getaddrinfo : list Z -> Z -> option (list Z)).

(** Handling a list of datagrams of a message, in order. *)
Fixpoint handle_chunks (flow : option nat) (m : message) (now : Z) (dp : qsr_dataplane) (l : list (Z * Z)) :
    option (qsr_dataplane * list event) :=
  match l with
  | [] => Some (dp, [])
  | (offset, len) :: l =>
      '(dp, ev) ← handle_packet aes_128_ctr k flow dp (Ptr (m_buffer m) offset) len (m_source m) (m_source_len m) now;
      '(dp, ev') ← handle_chunks flow m now dp l;
      Some (dp, ev ++ ev')
  end.

Lemma segment_loop_spec flow m now size fuel : 0 < size -> 0 <= m_len m < 2 ^ 32 -> size < 2 ^ 32 ->
  forall dp offset, 0 <= offset -> (Z.to_nat (m_len m - offset) <= fuel)%nat ->
  segment_loop aes_128_ctr k flow m now size fuel dp offset = handle_chunks flow m now dp (chunks (m_len m) size fuel offset).
Proof using.
  intros Hs Hl Hsz. induction fuel as [|fuel IH]; intros dp offset Ho Hf; cbn [segment_loop chunks].
  - by rewrite (proj2 (Z.ltb_ge _ _)) by lia.
  - destruct (offset <? m_len m) eqn:E; bool_to_prop; [|done]. rewrite usub_small by lia. cbv zeta.
    assert (Hc : (if m_len m - offset <? size then m_len m - offset else size) = Z.min size (m_len m - offset)) by (split_if; bool_to_prop; lia).
    rewrite Hc. cbn [handle_chunks].
    destruct (handle_packet _ _ _ _ _ _ _ _ _) as [[dp1 ev1]|]; [|done]. cbn [mbind option_bind].
    rewrite uadd_small by lia. destruct (Z.le_gt_cases size (m_len m - offset)) as [Hle|Hgt].
    + rewrite Z.min_l by lia. rewrite IH by lia. done.
    + rewrite Z.min_r by lia. rewrite IH by lia. replace (offset + (m_len m - offset)) with (m_len m) by lia.
      assert (Hnil : forall o, m_len m <= o -> chunks (m_len m) size fuel o = []).
      { intros o Hle. destruct fuel; cbn [chunks]; [done|]. by rewrite (proj2 (Z.ltb_ge _ _)) by lia. }
      by rewrite !Hnil by lia.
Qed.

Context `{laws : !RegimeLaws aes_128_ctr k open getaddrinfo}.
Local Notation ran := (ran k).

Lemma ran_refl dp : rg_ok dp -> ran 0 dp dp [].
Proof using laws. intros Hok. split; try done; [lia|apply rg_grown_refl|apply accounts_refl|constructor]. Qed.

Lemma ran_trans n m dp1 dp2 dp3 ev1 ev2 : ran n dp1 dp2 ev1 -> ran m dp2 dp3 ev2 -> ran (n + m) dp1 dp3 (ev1 ++ ev2).
Proof using laws.
  intros [_ Hi1 Hn1 Hg1 Hp1 Ho1 He1] [Hok Hi2 Hn2 Hg2 Hp2 Ho2 He2].
  split; [done|congruence|lia|by eapply rg_grown_trans|by eapply accounts_trans| |by apply Forall_app_2].
  rewrite sockets_app. by apply Forall_app_2.
Qed.

Lemma ran_weaken n m dp dp' ev : n <= m -> ran n dp dp' ev -> ran m dp dp' ev.
Proof using laws. intros ? [? ? ? ? ? ? ?]. split; try done; [lia|by eapply rg_grown_weaken]. Qed.

Lemma room_for_weaken n m dp : m <= n -> room_for n dp -> room_for m dp.
Proof using laws. intros ? [? ?]. split; [lia|]. by eapply rg_roomy_weaken. Qed.

Lemma room_for_ran n m dp dp' ev : 0 <= n -> ran n dp dp' ev -> room_for (n + m) dp -> room_for m dp'.
Proof using laws. intros Hn [_ _ Hi Hg _ _ _] [Hid Hr]. split; [lia|]. by eapply rg_roomy_grown. Qed.

Lemma handle_chunks_ran flow m now l : received_ok m -> 
  Forall (fun c => 0 <= c.1 /\ 0 < c.2 /\ c.1 + c.2 <= m_len m) l -> m_len m <= QSR_UDP_RECV_BUFFER_SIZE ->
  forall dp, rg_ok dp -> flow_live flow dp -> room_for (Zlen l) dp ->
  exists dp' ev, handle_chunks flow m now dp l = Some (dp', ev) /\ ran (Zlen l) dp dp' ev /\ flow_live flow dp'.
Proof using laws.
  intros Hm Hl Hlen. induction Hl as [|[o n] l (Ho & Hn & Hon) _ IH]; intros dp Hok Hlive Hfits; cbn [handle_chunks].
  - exists dp, []. split; [done|]. split; [by apply ran_refl|done].
  - rewrite Zlen_cons in Hfits |- *. pose proof (Zlen_nonneg l). cbn [fst snd] in *.
    destruct (rg_packet flow dp (Ptr (m_buffer m) o) n (m_source m) (m_source_len m) now Hok Hlive) as (dp1 & ev1 & -> & Hr1 & Hl1);
      [apply (room_for_weaken (1 + Zlen l)); [lia|done]| |apply Hm..|].
    { destruct Hm as [Hbuf _ _ _ _ _ _]. unfold readable. cbn. rewrite Hbuf. unfold QSR_UDP_RECV_BUFFER_SIZE in *. lia. }
    cbn [mbind option_bind]. destruct (IH dp1 (rn_ok Hr1) Hl1) as (dp2 & ev2 & -> & Hr2 & Hl2).
    { apply (room_for_ran 1 (Zlen l) dp dp1 ev1); [lia|done|done]. }
    cbn [mbind option_bind]. exists dp2, (ev1 ++ ev2). split; [done|]. split; [|done].
    exact (ran_trans _ _ _ _ _ _ _ Hr1 Hr2).
Qed.

(** The datagrams of a message. *)
Definition message_chunks (m : message) : list (Z * Z) :=
  if message_accepted m then chunks (m_len m) (gro_size (m_control m) (m_len m)) (Z.to_nat (m_len m)) 0 else [].

Lemma message_chunks_ok m : received_ok m -> Forall (fun c => 0 <= c.1 /\ 0 < c.2 /\ c.1 + c.2 <= m_len m) (message_chunks m).
Proof using.
  intros Hm. unfold message_chunks. destruct (message_accepted m) eqn:Ea; [|constructor]. destruct (message_accepted_spec m Hm Ea) as [? ?].
  destruct (chunks_spec (m_len m) (gro_size (m_control m) (m_len m)) (Z.to_nat (m_len m)) ltac:(lia) 0) as (Hall & _); [lia..|].
  eapply list.Forall_impl; [exact Hall|]. cbn. lia.
Qed.

Lemma drain_message_eq flow now dp m : received_ok m -> drain_message aes_128_ctr k flow now dp m = handle_chunks flow m now dp (message_chunks m).
Proof using.
  intros Hm. unfold drain_message, message_chunks. destruct (message_accepted m) eqn:Ea; [|done]. destruct (message_accepted_spec m Hm Ea) as [? ?].
  unfold QSR_UDP_RECV_BUFFER_SIZE, QSR_MAX_DATAGRAM_SIZE in *. apply segment_loop_spec; lia.
Qed.

Lemma drain_message_ran flow now dp m : received_ok m -> rg_ok dp -> flow_live flow dp -> room_for (Zlen (message_chunks m)) dp ->
  exists dp' ev, drain_message aes_128_ctr k flow now dp m = Some (dp', ev) /\ ran (Zlen (message_chunks m)) dp dp' ev /\ flow_live flow dp'.
Proof using laws.
  intros Hm Hok Hlive Hfits. rewrite drain_message_eq by done. destruct (message_accepted m) eqn:Ea.
  - destruct (message_accepted_spec m Hm Ea) as [? ?]. apply handle_chunks_ran; [done|by apply message_chunks_ok|lia|done..].
  - unfold message_chunks in *. rewrite Ea in *. exists dp, []. split; [done|]. split; [by apply ran_refl|done].
Qed.

(** The number of datagrams. *)
Fixpoint sum_of {A} (f : A -> Z) (l : list A) : Z := match l with [] => 0 | x :: l => f x + sum_of f l end.

Lemma sum_of_nonneg {A} (f : A -> Z) l : (forall x, 0 <= f x) -> 0 <= sum_of f l.
Proof using. intros Hf. induction l as [|x l IH]; cbn; [lia|]. specialize (Hf x). lia. Qed.

Definition message_count (m : message) : Z := Zlen (message_chunks m).

Definition recv_count (r : recv_result) : Z := if r is Received _ messages then sum_of message_count messages else 0.

Definition drain_count (recv : nat -> recv_result) : Z := sum_of (fun i => recv_count (recv i)) (seq 0 QSR_RECV_ROUNDS_PER_EVENT).

Lemma recv_count_nonneg r : 0 <= recv_count r.
Proof using. destruct r; cbn; [lia|]. apply sum_of_nonneg. intros m. apply Zlen_nonneg. Qed.

Definition recv_ok (r : recv_result) : Prop :=
  if r is Received _ messages then (length messages <= QSR_UDP_BATCH_SIZE)%nat /\ Forall received_ok messages else True.

(** A step of one of the lists of a turn: the first takes [n] datagrams, the rest [m]. *)
Lemma drain_messages_ran flow now l : Forall received_ok l -> forall dp, rg_ok dp -> flow_live flow dp -> room_for (sum_of message_count l) dp ->
  exists dp' ev, drain_messages aes_128_ctr k flow now dp l = Some (dp', ev) /\ ran (sum_of message_count l) dp dp' ev /\ flow_live flow dp'.
Proof using laws.
  induction 1 as [|m l Hm _ IH]; intros dp Hok Hlive Hfits; cbn [drain_messages sum_of] in *.
  - exists dp, []. split; [done|]. split; [by apply ran_refl|done].
  - pose proof (sum_of_nonneg message_count l (fun m => Zlen_nonneg _)). pose proof (Zlen_nonneg (message_chunks m)).
    destruct (drain_message_ran flow now dp m Hm Hok Hlive) as (dp1 & ev1 & -> & Hr1 & Hl1).
    { apply (room_for_weaken (message_count m + sum_of message_count l)); [change (message_count m) with (Zlen (message_chunks m)); lia|done]. }
    cbn [mbind option_bind]. destruct (IH dp1 (rn_ok Hr1) Hl1) as (dp2 & ev2 & -> & Hr2 & Hl2).
    { by apply (room_for_ran (message_count m) _ dp dp1 ev1). }
    cbn [mbind option_bind]. exists dp2, (ev1 ++ ev2). split; [done|]. split; [|done]. exact (ran_trans _ _ _ _ _ _ _ Hr1 Hr2).
Qed.

Lemma flush_ran dp : rg_ok dp -> exists dp' ev, dp_flush dp = (dp', ev) /\ ran 0 dp dp' ev /\ dp_flows dp' = dp_flows dp /\
  queued (dp_sender dp') = [] /\ sent ev = waiting dp.
Proof using laws.
  intros Hok. destruct (dp_flush_spec dp (rg_sender dp Hok)) as (s & ev & He & Hs & Hq & Hev & Hsent).
  exists (dp_set_sender dp s), ev. split_and!; try done. split; try done.
  - by apply rg_set_sender.
  - cbn. lia.
  - apply rg_grown_refl.
  - by apply accounts_sends.
  - rewrite (only_sends_sockets ev) by done. constructor.
  - eapply list.Forall_impl; [exact Hev|]. intros [] ?; try done. apply rg_run.
Qed.

Lemma drain_rounds_ran flow recv rounds : forall round, (forall i, recv_ok (recv i)) -> forall dp, rg_ok dp -> flow_live flow dp ->
  room_for (sum_of (fun i => recv_count (recv i)) (seq round rounds)) dp ->
  exists dp' ev, drain_rounds aes_128_ctr k flow recv rounds round dp = Some (dp', ev) /\
    ran (sum_of (fun i => recv_count (recv i)) (seq round rounds)) dp dp' ev /\ flow_live flow dp' /\
    (queued (dp_sender dp) = [] -> queued (dp_sender dp') = []).
Proof using laws.
  induction rounds as [|rounds IH]; intros round Hrecv dp Hok Hlive Hfits; cbn [drain_rounds seq sum_of] in *.
  - exists dp, []. split; [done|]. split; [by apply ran_refl|done].
  - set (rest := sum_of (fun i => recv_count (recv i)) (seq (S round) rounds)) in *.
    assert (Hrest : 0 <= rest) by (apply sum_of_nonneg; intros; apply recv_count_nonneg). rewrite Nat.add_1_r.
    pose proof (recv_count_nonneg (recv round)) as Hcnt. specialize (IH (S round) Hrecv). pose proof (Hrecv round) as Hro.
    destruct (recv round) as [[]|now messages] eqn:Er; cbn [recv_count] in *.
    + apply IH; [done..|]. by rewrite Z.add_0_l in Hfits.
    + exists dp, []. split; [done|]. split; [|done]. apply (ran_weaken 0); [lia|by apply ran_refl].
    + destruct Hro as [_ Hro]. destruct (drain_messages_ran flow now messages Hro dp Hok Hlive) as (dp1 & ev1 & -> & Hr1 & Hl1).
      { apply (room_for_weaken (sum_of message_count messages + rest)); [lia|done]. }
      cbn [mbind option_bind]. destruct (flush_ran dp1 (rn_ok Hr1)) as (dp2 & ev2 & -> & Hr2 & Hfl & Hq & _).
      pose proof (ran_trans _ _ _ _ _ _ _ Hr1 Hr2) as Hr12. rewrite Z.add_0_r in Hr12.
      assert (Hl2 : flow_live flow dp2) by (unfold flow_live in *; by rewrite Hfl).
      destruct (_ <? _)%nat.
      * exists dp2, (ev1 ++ ev2). split; [done|]. split; [apply (ran_weaken (sum_of message_count messages)); [lia|done]|done].
      * destruct (IH dp2 (rn_ok Hr2) Hl2) as (dp3 & ev3 & -> & Hr3 & Hl3 & Hq3); [by apply (room_for_ran (sum_of message_count messages) rest dp dp2 (ev1 ++ ev2))|].
        cbn [mbind option_bind]. exists dp3, ((ev1 ++ ev2) ++ ev3). split; [done|]. split; [exact (ran_trans _ _ _ _ _ _ _ Hr12 Hr3)|auto].
Qed.

Lemma drain_socket_ran flow recv dp : (forall i, recv_ok (recv i)) -> rg_ok dp -> flow_live flow dp -> room_for (drain_count recv) dp ->
  exists dp' ev, drain_socket aes_128_ctr k flow recv dp = Some (dp', ev) /\ ran (drain_count recv) dp dp' ev /\
    (queued (dp_sender dp) = [] -> queued (dp_sender dp') = []).
Proof using laws.
  intros Hr Hok Hl Hf. destruct (drain_rounds_ran flow recv QSR_RECV_ROUNDS_PER_EVENT 0 Hr dp Hok Hl Hf) as (dp' & ev & He & Hran & _ & Hq).
  by exists dp', ev.
Qed.

Definition event_ok (e : ready_event) : Prop := forall i, recv_ok (e.2 i).

Lemma drain_count_nonneg recv : 0 <= drain_count recv.
Proof using. apply sum_of_nonneg. intros. apply recv_count_nonneg. Qed.

Lemma dispatch_ran e dp : event_ok e -> rg_ok dp -> room_for (drain_count e.2) dp ->
  exists dp' ev, dispatch aes_128_ctr k dp e = Some (dp', ev) /\ ran (drain_count e.2) dp dp' ev /\
    (queued (dp_sender dp) = [] -> queued (dp_sender dp') = []).
Proof using laws.
  intros He Hok Hf. pose proof (drain_count_nonneg e.2) as Hn.
  assert (Hskip : exists dp' ev, Some (dp, []) = Some (dp', ev) /\ ran (drain_count e.2) dp dp' ev /\
    (queued (dp_sender dp) = [] -> queued (dp_sender dp') = [])).
  { exists dp, []. split; [done|]. split; [|done]. apply (ran_weaken 0); [lia|by apply ran_refl]. }
  unfold dispatch. destruct (e.1 =? QSR_EPOLL_DATA_MAIN); [by apply drain_socket_ran|]. destruct (e.1 =? QSR_EPOLL_DATA_INOTIFY); [exact Hskip|].
  destruct (qsr_flow_table_slot (dp_flows dp) (Z.to_nat e.1)) as [f|] eqn:Ef; [|exact Hskip]. apply drain_socket_ran; [done..| |done].
  rewrite (flow_slot_spec _ _ (rg_flows dp Hok)) in Ef. destruct (ft_flows (dp_flows dp) !! Z.to_nat e.1) as [g|] eqn:Eg; [|done].
  cbn [mbind option_bind] in Ef. destruct (f_used g) eqn:Eu; [|done]. by exists g.
Qed.

Definition events_count (l : list ready_event) : Z := sum_of (fun e => drain_count e.2) l.

Lemma dispatch_all_ran l : Forall event_ok l -> forall dp, rg_ok dp -> room_for (events_count l) dp ->
  exists dp' ev, dispatch_all aes_128_ctr k dp l = Some (dp', ev) /\ ran (events_count l) dp dp' ev /\
    (queued (dp_sender dp) = [] -> queued (dp_sender dp') = []).
Proof using laws.
  unfold events_count. induction 1 as [|e l He _ IH]; intros dp Hok Hfits; cbn [dispatch_all sum_of] in *.
  - exists dp, []. split; [done|]. split; [by apply ran_refl|done].
  - set (rest := sum_of (fun e : ready_event => drain_count e.2) l) in *. assert (Hrest : 0 <= rest) by (apply sum_of_nonneg; intros; apply drain_count_nonneg).
    pose proof (drain_count_nonneg e.2) as Hn.
    destruct (dispatch_ran e dp He Hok) as (dp1 & ev1 & -> & Hr1 & Hq1); [apply (room_for_weaken (drain_count e.2 + rest)); [lia|done]|].
    cbn [mbind option_bind]. destruct (IH dp1 (rn_ok Hr1)) as (dp2 & ev2 & -> & Hr2 & Hq2); [by apply (room_for_ran (drain_count e.2) rest dp dp1 ev1)|].
    cbn [mbind option_bind]. exists dp2, (ev1 ++ ev2). split; [done|]. split; [exact (ran_trans _ _ _ _ _ _ _ Hr1 Hr2)|auto].
Qed.

Lemma poll_ran dp reads : rg_ok dp ->
  exists r ev lines, qsr_runtime_poll open getaddrinfo (dp_runtime dp) reads = Some (r, ev, lines) /\
    ran 0 dp (dp_set_runtime dp r) (FlowEvent <$> ev).
Proof using laws.
  intros Hok. unfold qsr_runtime_poll.
  assert (Hno : exists r ev lines, Some (dp_runtime dp, [] : list flow_event, [] : list reload_line) = Some (r, ev, lines) /\
    ran 0 dp (dp_set_runtime dp r) (FlowEvent <$> (ev : list flow_event))).
  { exists (dp_runtime dp), [], ([] : list reload_line). split; [done|]. replace (dp_set_runtime dp (dp_runtime dp)) with dp by (by destruct dp). by apply ran_refl. }
  destruct (_ || _); [exact Hno|]. destruct (drain_inotify _ _); [|exact Hno]. by apply rg_reload.
Qed.

(** *** The loop *)

Definition wait_ok (w : wait_result) : Prop := if w is Ready _ events then Forall event_ok events else True.

Definition wait_count (w : wait_result) : Z := if w is Ready _ events then events_count events else 0.

Lemma wait_count_nonneg w : 0 <= wait_count w.
Proof using. destruct w; cbn; [lia|]. apply sum_of_nonneg. intros. apply drain_count_nonneg. Qed.

(** A turn keeps the invariant and ends with an empty queue. *)
Lemma loop_turn_ran dp last reads w : rg_ok dp -> queued (dp_sender dp) = [] -> wait_ok w -> room_for (wait_count w) dp ->
  exists dp' last' go_on ev, loop_turn aes_128_ctr k open getaddrinfo dp last reads w = Some (dp', last', go_on, ev) /\
    ran (wait_count w) dp dp' ev /\ queued (dp_sender dp') = [].
Proof using laws.
  intros Hok Hq Hw Hf. unfold loop_turn. destruct (poll_ran dp reads Hok) as (r & ev0 & lines & -> & Hr0). cbn [mbind option_bind].
  set (dp0 := dp_set_runtime dp r) in *. destruct w as [interrupted|now events].
  { exists dp0, last, interrupted, (FlowEvent <$> ev0). by split_and!. }
  cbn [wait_count wait_ok] in *.
  destruct (dispatch_all_ran events Hw dp0 (rn_ok Hr0)) as (dp1 & ev1 & -> & Hr1 & _).
  { by apply (room_for_ran 0 (events_count events) dp dp0 (FlowEvent <$> ev0)). }
  cbn [mbind option_bind]. destruct (flush_ran dp1 (rn_ok Hr1)) as (dp2 & ev2 & -> & Hr2 & _ & Hq2 & _).
  pose proof (ran_trans _ _ _ _ _ _ _ Hr0 (ran_trans _ _ _ _ _ _ _ Hr1 Hr2)) as Hr. rewrite Z.add_0_l, Z.add_0_r in Hr.
  destruct (_ <=? _).
  - destruct (rg_sweep dp2 now (rn_ok Hr2)) as (dp3 & ev3 & -> & Hr3 & Hq3). cbn [mbind option_bind].
    eexists dp3, now, true, _. split; [reflexivity|]. split; [|congruence].
    pose proof (ran_trans _ _ _ _ _ _ _ Hr Hr3) as Hr'. by rewrite Z.add_0_r, <- !app_assoc in Hr'.
  - eexists dp2, last, true, _. split; [reflexivity|]. by split.
Qed.

Definition turns_count (turns : list (list Z * wait_result)) : Z := sum_of (fun t => wait_count t.2) turns.

(** What [fits] asks of each turn holds of the dataplane the turn begins with. *)
Fixpoint turns_fit (fits : Z -> qsr_dataplane -> Prop) (dp : qsr_dataplane) (last : Z) (turns : list (list Z * wait_result)) : Prop :=
  match turns with
  | [] => True
  | (reads, w) :: turns => fits (wait_count w) dp /\
      forall dp' last' ev, loop_turn aes_128_ctr k open getaddrinfo dp last reads w = Some (dp', last', true, ev) -> turns_fit fits dp' last' turns
  end.

Lemma main_loop_ran turns : Forall (fun t => wait_ok t.2) turns -> forall dp last, rg_ok dp -> queued (dp_sender dp) = [] ->
  turns_fit room_for dp last turns ->
  exists dp' ev, main_loop aes_128_ctr k open getaddrinfo dp last turns = Some (dp', ev) /\
    ran (turns_count turns) dp dp' ev /\ queued (dp_sender dp') = [].
Proof using laws.
  unfold turns_count. induction 1 as [|[reads w] turns Hw _ IH]; intros dp last Hok Hq Hfits; cbn [main_loop sum_of snd turns_fit] in *.
  - exists dp, []. split; [done|]. split; [by apply ran_refl|done].
  - destruct Hfits as [Hfit Hlater]. set (rest := sum_of (fun t : list Z * wait_result => wait_count t.2) turns) in *.
    assert (Hrest : 0 <= rest) by (apply sum_of_nonneg; intros; apply wait_count_nonneg).
    destruct (loop_turn_ran dp last reads w Hok Hq Hw Hfit) as (dp1 & last1 & go_on & ev1 & Ht & Hr1 & Hq1).
    rewrite Ht. cbn [mbind option_bind]. destruct go_on.
    + destruct (IH dp1 last1 (rn_ok Hr1) Hq1 (Hlater _ _ _ Ht)) as (dp2 & ev2 & -> & Hr2 & Hq2).
      cbn [mbind option_bind]. exists dp2, (ev1 ++ ev2). split; [done|]. split; [exact (ran_trans _ _ _ _ _ _ _ Hr1 Hr2)|done].
    + exists dp1, ev1. split; [done|]. split; [|done]. apply (ran_weaken (wait_count w)); [lia|done].
Qed.

(** Room for all turns at once. *)
Lemma all_turns_fit turns : Forall (fun t => wait_ok t.2) turns -> forall dp last, rg_ok dp -> queued (dp_sender dp) = [] ->
  room_for (turns_count turns) dp -> turns_fit room_for dp last turns.
Proof using laws.
  unfold turns_count. induction 1 as [|[reads w] turns Hw _ IH]; intros dp last Hok Hq Hfits; cbn [sum_of snd turns_fit] in *; [done|].
  set (rest := sum_of (fun t : list Z * wait_result => wait_count t.2) turns) in *.
  assert (Hrest : 0 <= rest) by (apply sum_of_nonneg; intros; apply wait_count_nonneg). pose proof (wait_count_nonneg w) as Hn.
  assert (Hfit : room_for (wait_count w) dp) by (apply (room_for_weaken (wait_count w + rest)); [lia|done]). split; [done|].
  intros dp1 last1 ev1 Ht. destruct (loop_turn_ran dp last reads w Hok Hq Hw Hfit) as (dp' & last' & go_on & ev & Ht' & Hr & Hq').
  rewrite Ht in Ht'. injection Ht' as <- <- <- <-. apply IH; [exact (rn_ok Hr)|done|]. by apply (room_for_ran (wait_count w) rest dp dp1 ev1).
Qed.

Lemma main_loop_total turns : Forall (fun t => wait_ok t.2) turns -> forall dp last, rg_ok dp -> queued (dp_sender dp) = [] ->
  room_for (turns_count turns) dp ->
  exists dp' ev, main_loop aes_128_ctr k open getaddrinfo dp last turns = Some (dp', ev) /\
    ran (turns_count turns) dp dp' ev /\ queued (dp_sender dp') = [].
Proof using laws. intros Ht dp last Hok Hq Hfit. apply main_loop_ran; [done..|]. by apply all_turns_fit. Qed.
End theory.

Lemma any_event (ev : list event) : Forall (fun _ => True) ev.
Proof. by apply list.Forall_forall. Qed.

(** ** The full invariant: seven more entries a datagram *)

Section full.
Context `{KeyedHash} `{Crypto} `{crypto_output : !CryptoOutput} (aes_128_ctr : list Z -> list Z -> list Z -> option (list Z))
  (k : qsr_dataplane -> kernel) (fresh : forall dp, dp_ok dp -> kernel_fresh (k dp) dp).

#[local] Instance full_regime : Regime := {|
  rg_ok := dp_ok; rg_grown n := grown (7 * n); rg_roomy n := roomy (7 * n); rg_event _ := True |}.

Lemma handle_packet_ran flow dp packet packet_len source source_len now :
  dp_ok dp -> flow_live flow dp -> room_for 1 dp -> readable packet packet_len -> bytes_ok (p_buf packet) ->
  Zlen source = SOCKADDR_SIZE -> 0 <= source_len -> client_valid source source_len = true ->
  exists dp' ev, handle_packet aes_128_ctr k flow dp packet packet_len source source_len now = Some (dp', ev) /\
    ran k 1 dp dp' ev /\ flow_live flow dp'.
Proof using fresh crypto_output.
  intros Hok Hlive [Hid Hroom] Hr Hb Hs Hsl Hv. destruct flow as [slot|]; cbn [handle_packet].
  - destruct Hlive as (f & Hf & Hu).
    destruct (handle_backend_spec packet packet_len Hr Hb dp slot f now Hok Hf Hu)
      as (dp' & ev & He & Hok' & Hc & Hm & _ & Hfl & Hl & Hev & _). exists dp', ev. split; [done|].
    destruct (learn_backend_puts packet packet_len Hr Hb (dp_sessions dp) (f_backend_addr f) (f_backend_addr_len f) now
      (Z.of_nat slot) (f_id f) (ok_sessions_wf dp Hok)) as (t & Ht & [_ Hcap Hcnt _ _]). rewrite Hl in Ht. injection Ht as <-.
    destruct (touch_flow_ok dp slot f now Hok Hf Hu) as (_ & Hx & Hp & _).
    split.
    + split; [done|done|rewrite Hfl; cbn; lia|split; [done|lia]| | |by apply any_event].
      * apply accounts_sends; [done|]. rewrite Hfl. cbn [ft_flows ft_set_flows]. rewrite <- Hx. exact Hp.
      * rewrite (only_sends_sockets ev) by done. constructor.
    + exists (flow_touch f now). rewrite Hfl. cbn. split; [|done]. apply list_lookup_insert_eq. by apply lookup_lt_Some in Hf.
  - destruct (handle_client_spec (k dp) packet packet_len Hr Hb source source_len now Hs Hv aes_128_ctr dp Hok Hid (fresh dp Hok) Hsl)
      as (dp' & ev & He & [Hok' _ Hm [? ?] [_ ?] _ _ Hp Ho _]).
    { intros _. exact (roomy_weaken (7 * 1) 5 _ ltac:(lia) Hroom). }
    exists dp', ev. split; [done|]. split; [|done]. split; [done|done|lia|split; [done|lia]|done| |by apply any_event].
    eapply list.Forall_impl; [exact Ho|]. intros fd (family & n & Hk). by exists dp, family, n.
Qed.

(** *** Sweeps and reloads *)

Lemma grown_fewer t t' : table_wf t -> table_wf t' -> t_capacity t' = t_capacity t ->
  (forall key, is_Some (contents t' !! key) -> is_Some (contents t !! key)) -> grown 0 t t'.
Proof using.
  intros Hwf Hwf' Hc Hsub. split; [done|]. rewrite (wf_count t Hwf), (wf_count t' Hwf').
  assert (Hd : dom (contents t') ⊆ dom (contents t)) by (intros key Hk; apply elem_of_dom; apply elem_of_dom in Hk; auto).
  apply subseteq_size in Hd. rewrite !size_dom in Hd. lia.
Qed.

Lemma sweep_ran dp now : dp_ok dp ->
  exists dp' ev, run_expiry_sweeps dp now = Some (dp', ev) /\ ran k 0 dp dp' ev /\ queued (dp_sender dp') = queued (dp_sender dp).
Proof using.
  intros Hok. destruct (sweep_spec_dp dp now Hok) as (dp' & ev & n1 & n2 & fev & He & Hok' & Hcfg & Hfix & Hsd & -> & (_ & Hag & [Hfwf (_ & _ & Hni) _ _ Hp]) & _ & _).
  exists dp', (FlowEvent <$> fev). split; [done|]. split; [|by rewrite Hsd]. split; [done|done|rewrite Hni; lia| |by apply accounts_fmap|rewrite sockets_fmap; constructor|by apply any_event].
  apply grown_fewer; [by apply ok_sessions_wf|by apply ok_sessions_wf| |].
  - pose proof (rn_session_capacity _ (ok_runtime dp Hok)). pose proof (rn_session_capacity _ (ok_runtime dp' Hok')). rewrite Hcfg in *. lia.
  - intros key [s Hs]. specialize (Hag key). rewrite Hs in Hag. by destruct (contents (dp_sessions dp) !! key).
Qed.

Context `{Yaml} `{yaml_laws : !YamlLaws} (open : list Z -> config_source) (getaddrinfo : list Z -> Z -> option (list Z)).

Lemma reload_config_routes r new : reload_config open getaddrinfo r = Some new -> routes_live (c_routes new).
Proof using yaml_laws.
  unfold reload_config. destruct (qsr_config_load _ _) as [c st] eqn:El. case_bool_decide as Hst; [|done]. subst st.
  cbn [negb]. pose proof (config_ok_routes c (load_ok _ _ _ El)) as Hrw.
  destruct (qsr_route_table_resolve _ _) as [routes st] eqn:Er. case_bool_decide as Hst; [|done]. subst st. cbn [negb].
  intros [= <-]. by apply (resolve_live getaddrinfo (c_routes c)).
Qed.

Lemma reload_fixed r r' ev lines : runtime_wf r -> reload_from_path open getaddrinfo r = Some (r', ev, lines) ->
  run_inotify_fd r' = run_inotify_fd r /\ run_config_path r' = run_config_path r /\ ft_next_id (run_flows r') = ft_next_id (run_flows r).
Proof using.
  intros Hwf. unfold reload_from_path. destruct (qsr_config_load _ _) as [c st]. destruct (negb _); [by intros [= <- _ _]|].
  destruct (qsr_route_table_resolve _ _) as [routes st2]. destruct (negb _); [by intros [= <- _ _]|].
  destruct (qsr_session_table_evict_if _ _) as [[sessions n]|]; [|done]. cbn [mbind option_bind].
  match goal with |- context [qsr_flow_table_evict_if ?t ?p] => destruct (evict_if_spec t p (rn_flows r Hwf)) as (fl & m & ev1 & -> & [_ (_ & _ & Hn) _ _ _]) end.
  cbn [mbind option_bind]. by intros [= <- _ _].
Qed.

Lemma reload_ran dp : dp_ok dp ->
  exists r ev lines, reload_from_path open getaddrinfo (dp_runtime dp) = Some (r, ev, lines) /\ ran k 0 dp (dp_set_runtime dp r) (FlowEvent <$> ev).
Proof using yaml_laws.
  intros Hok. pose proof (ok_runtime dp Hok) as Hwf.
  destruct (reload_spec open getaddrinfo (dp_runtime dp) Hwf) as (r & ev & lines & He & Hwf' & Hcase). exists r, ev, lines. split; [done|].
  destruct (reload_backends open getaddrinfo (dp_runtime dp) r ev lines Hwf (Build_backends_configured _ (ok_sessions dp Hok) (ok_flows dp Hok)) He) as [Hbs Hbf].
  destruct (reload_fixed _ _ _ _ Hwf He) as (Hi & Hpath & Hn).
  destruct (reload_config open getaddrinfo (dp_runtime dp)) as [new|] eqn:Ec.
  2: { destruct Hcase as (-> & -> & _). replace (dp_set_runtime dp (dp_runtime dp)) with dp by (by destruct dp).
       split; [done|done|lia|split; [done|lia]|apply accounts_refl|constructor|constructor]. }
  destruct Hcase as (Hcfg & _ & _ & Hs & _ & Hp & _). split.
  - destruct Hok. split; try done. cbn. rewrite Hcfg. exact (reload_config_routes (dp_runtime dp) new Ec).
  - unfold dp_fixed. cbn. congruence.
  - cbn. lia.
  - apply grown_fewer; [apply Hwf|apply Hwf'| |].
    + pose proof (rn_session_capacity _ Hwf). pose proof (rn_session_capacity _ Hwf'). rewrite Hcfg in *. cbn in *. lia.
    + cbn. rewrite Hs. intros key [s Hk]. apply map_lookup_filter_Some in Hk as [Hk _]. by eexists.
  - by apply accounts_fmap.
  - rewrite sockets_fmap. constructor.
  - by apply any_event.
Qed.

Lemma full_laws : RegimeLaws aes_128_ctr k open getaddrinfo.
Proof using fresh crypto_output yaml_laws.
  split; cbn [rg_ok rg_grown rg_roomy full_regime].
  - split; [done|lia].
  - intros n m t1 t2 t3 [? ?] [? ?]. split; [congruence|lia].
  - intros n m t t' ? [? ?]. split; [done|lia].
  - intros n m t ?. apply roomy_weaken. lia.
  - intros n m t t' Hn [? ?] Hr. apply (roomy_grown (7 * n) (7 * m) t); [lia|done|done|].
    by replace (7 * m + 7 * n) with (7 * (n + m)) by lia.
  - apply ok_flows_wf.
  - apply ok_sender.
  - done.
  - intros dp s Hok Hs Hq. apply set_sender_ok; [done..|by rewrite Hq].
  - apply handle_packet_ran.
  - apply sweep_ran.
  - apply reload_ran.
Qed.
End full.

(** ** The weak invariant: any number of entries, under any load *)

Section weak.
Context `{KeyedHash} `{Crypto} `{crypto_output : !CryptoOutput} (aes_128_ctr : list Z -> list Z -> list Z -> option (list Z))
  (k : qsr_dataplane -> kernel) (fresh : forall dp, dp_safe dp -> kernel_fresh (k dp) dp).

#[local] Instance weak_regime : Regime := {| rg_ok := dp_safe; rg_grown _ _ _ := True; rg_roomy _ _ := True; rg_event _ := True |}.

Lemma handle_packet_safe flow dp packet packet_len source source_len now :
  dp_safe dp -> flow_live flow dp -> room_for 1 dp -> readable packet packet_len -> bytes_ok (p_buf packet) ->
  Zlen source = SOCKADDR_SIZE -> 0 <= source_len -> client_valid source source_len = true ->
  exists dp' ev, handle_packet aes_128_ctr k flow dp packet packet_len source source_len now = Some (dp', ev) /\
    ran k 1 dp dp' ev /\ flow_live flow dp'.
Proof using fresh crypto_output.
  intros Hs Hlive [Hid _] Hr Hb Hsz Hsl Hv. destruct flow as [slot|]; cbn [handle_packet].
  - destruct Hlive as (f & Hf & Hu).
    destruct (handle_backend_safe packet packet_len dp slot f now Hr Hb Hs Hf Hu) as (dp' & ev & He & Hs' & _ & Hx & Hfl & Hev & _).
    exists dp', ev. split; [done|]. destruct (touch_flow_wf (dp_flows dp) slot f now (ds_flows dp Hs) Hf Hu) as (_ & Ht & Hp & _). cbv zeta in *.
    split.
    + split; [done|done|rewrite Hfl; cbn; lia|done| | |by apply any_event].
      * apply accounts_sends; [done|]. rewrite Hfl. cbn [ft_flows ft_set_flows]. rewrite <- Ht. exact Hp.
      * rewrite (only_sends_sockets ev) by done. constructor.
    + exists (flow_touch f now). rewrite Hfl. cbn. split; [|done]. apply list_lookup_insert_eq. by apply lookup_lt_Some in Hf.
  - destruct (handle_client_safe (k dp) packet packet_len Hr Hb source source_len now Hsz Hv aes_128_ctr dp Hs Hid (fresh dp Hs) Hsl)
      as (dp' & ev & He & [Hs' _ Hx [_ ?] _ _ Hp Ho _]). exists dp', ev. split; [done|]. split; [|done].
    split; [done|done|lia|done|done| |by apply any_event]. eapply list.Forall_impl; [exact Ho|]. intros fd (family & n & Hk). by exists dp, family, n.
Qed.

Context `{Yaml} `{yaml_laws : !YamlLaws} (open : list Z -> config_source) (getaddrinfo : list Z -> Z -> option (list Z)).

Lemma weak_laws : RegimeLaws aes_128_ctr k open getaddrinfo.
Proof using fresh crypto_output yaml_laws.
  split; try done; cbn [rg_ok weak_regime].
  - apply ds_flows.
  - apply ds_sender.
  - intros dp s Hs Hw Hq. apply set_sender_safe; [done..|by rewrite Hq].
  - apply handle_packet_safe.
  - intros dp now Hs. destruct (sweep_safe_dp dp now Hs) as (dp' & fev & He & Hs' & _ & Hx & Hsd & Hn & Hp).
    exists dp', (FlowEvent <$> fev). split; [done|]. split; [|by rewrite Hsd]. split; [done|done|lia|done|by apply accounts_fmap|rewrite sockets_fmap; constructor|by apply any_event].
  - intros dp Hs. destruct (reload_safe open getaddrinfo dp Hs) as (r & ev & lines & He & Hs' & Hx & Hn & Hp).
    exists r, ev, lines. split; [done|]. split; [done|done|cbn; lia|done|by apply accounts_fmap|rewrite sockets_fmap; constructor|by apply any_event].
Qed.
End weak.

(** ** Properties *)

Lemma chunks_lookup len size fuel : 0 < size -> forall offset i, 0 <= offset -> (Z.to_nat (len - offset) <= fuel)%nat ->
  chunks len size fuel offset !! i =
    if offset + Z.of_nat i * size <? len then Some (offset + Z.of_nat i * size, Z.min size (len - (offset + Z.of_nat i * size))) else None.
Proof.
  intros Hs. induction fuel as [|fuel IH]; intros offset i Ho Hf; cbn [chunks].
  - rewrite (proj2 (Z.ltb_ge _ _)) by nia. done.
  - destruct (offset <? len) eqn:E; bool_to_prop; [|rewrite (proj2 (Z.ltb_ge _ _)) by nia; done].
    destruct i as [|i]; cbn [lookup list_lookup].
    + replace (offset + Z.of_nat 0 * size) with offset by lia. by rewrite (proj2 (Z.ltb_lt _ _)) by lia.
    + change (list_lookup i (chunks len size fuel (offset + size))) with (chunks len size fuel (offset + size) !! i).
      rewrite IH by lia. by replace (offset + size + Z.of_nat i * size) with (offset + Z.of_nat (S i) * size) by lia.
Qed.

Section properties.
Context `{KeyedHash} `{Crypto} `{crypto_output : !CryptoOutput} (aes_128_ctr : list Z -> list Z -> list Z -> option (list Z))
  (k : qsr_dataplane -> kernel).

(** C15: a received message is handled to its end as the datagrams it was
    coalesced from: every one of segment size but the last, each of them
    within 1500 bytes, in order, every byte of the message in exactly one of
    them; a message that is empty, too long or truncated is skipped. *)
Theorem segments_exact flow now dp m : received_ok m ->
  drain_message aes_128_ctr k flow now dp m = handle_chunks aes_128_ctr k flow m now dp (message_chunks m) /\
  let size := gro_size (m_control m) (m_len m) in
  if message_accepted m then
    0 < size <= QSR_MAX_DATAGRAM_SIZE /\
    (forall i, message_chunks m !! i =
      if Z.of_nat i * size <? m_len m then Some (Z.of_nat i * size, Z.min size (m_len m - Z.of_nat i * size)) else None) /\
    (message_chunks m ≫= fun c => range (Ptr (m_buffer m) c.1) c.2) = take (Z.to_nat (m_len m)) (m_buffer m)
  else message_chunks m = [].
Proof.
  intros Hm. split; [by apply drain_message_eq|]. cbv zeta. pose proof (message_accepted_spec m Hm) as Ha. unfold message_chunks.
  destruct (message_accepted m); [|done]. destruct (Ha eq_refl) as [Hl Hs]. split; [done|]. split.
  - intros i. apply (chunks_lookup (m_len m) (gro_size (m_control m) (m_len m)) (Z.to_nat (m_len m)) ltac:(lia) 0); lia.
  - destruct Hm as [Hbuf _ _ _ _ _ _]. unfold Zlen in Hbuf.
    destruct (chunks_spec (m_len m) (gro_size (m_control m) (m_len m)) (Z.to_nat (m_len m)) ltac:(lia) 0) as (Hall & Hcat & _); [lia..|].
    specialize (Hcat (take (Z.to_nat (m_len m)) (m_buffer m))). rewrite drop_0 in Hcat. rewrite <- Hcat by (unfold Zlen; rewrite length_take; lia).
    clear Hcat. induction Hall as [|[o n] l (? & ? & ?) _ IH]; [done|]. cbn [mbind list_bind]. rewrite IH. f_equal.
    unfold range. cbn [p_off p_buf fst snd] in *. rewrite skipn_firstn_comm, firstn_firstn. f_equal. lia.
Qed.

Context `{Yaml} `{yaml_laws : !YamlLaws} (open : list Z -> config_source) (getaddrinfo : list Z -> Z -> option (list Z)).

(** C8: the loop never gets stuck and never leaves the full invariant, as long
    as each turn finds room in the session table for the entries its datagrams
    can add, seven each ([roomy]; what expires or is evicted in between makes
    room again). From a dataplane in order with an empty queue, whatever the
    datagrams hold, whatever the kernel answers and whatever the reloaded file
    holds: every turn ends, the dataplane is in order behind it - tables well
    formed, every session and flow aimed at a configured backend -, every
    datagram queued in it is handed to the kernel before the next one, and the
    descriptors that were held and those [socket] returned on the way are those
    closed and those still held. *)
Theorem main_loop_invariant turns dp last_expire : (forall dp, dp_ok dp -> kernel_fresh (k dp) dp) ->
  Forall (fun t => wait_ok t.2) turns -> dp_ok dp -> queued (dp_sender dp) = [] ->
  turns_fit aes_128_ctr k open getaddrinfo
    (fun m dp => ft_next_id (dp_flows dp) + m < 2 ^ 64 /\ roomy (7 * m) (dp_sessions dp)) dp last_expire turns ->
  exists dp' ev, main_loop aes_128_ctr k open getaddrinfo dp last_expire turns = Some (dp', ev) /\
    dp_ok dp' /\ queued (dp_sender dp') = [] /\ dp_fixed dp' = dp_fixed dp /\ opened_by k (sockets ev) /\
    closed (flow_events ev) ++ fds (ft_flows (dp_flows dp')) ≡ₚ sockets ev ++ fds (ft_flows (dp_flows dp)).
Proof.
  intros Hk Ht Hok Hq Hfit.
  destruct (main_loop_ran (laws := full_laws aes_128_ctr k Hk open getaddrinfo) _ _ _ _ turns Ht dp last_expire Hok Hq Hfit)
    as (dp' & ev & He & [? ? _ _ ? ? _] & Hq'). exists dp', ev. by split_and!.
Qed.

(** C7: without any bound on the load the loop still never gets stuck, the
    tables stay well-formed, the queue is empty behind every turn and no
    descriptor is lost or closed twice: those that were held and those that
    [socket] returned on the way, listed in the events, are those closed and
    those still held. What the load can spoil are the addresses stored for
    aliases. Flow ids, 64 bits wide, must not have wrapped. *)
Theorem main_loop_safe turns dp last_expire : (forall dp, dp_safe dp -> kernel_fresh (k dp) dp) ->
  Forall (fun t => wait_ok t.2) turns -> dp_safe dp -> queued (dp_sender dp) = [] ->
  ft_next_id (dp_flows dp) + turns_count turns < 2 ^ 64 ->
  exists dp' ev, main_loop aes_128_ctr k open getaddrinfo dp last_expire turns = Some (dp', ev) /\
    dp_safe dp' /\ queued (dp_sender dp') = [] /\ dp_fixed dp' = dp_fixed dp /\ opened_by k (sockets ev) /\
    closed (flow_events ev) ++ fds (ft_flows (dp_flows dp')) ≡ₚ sockets ev ++ fds (ft_flows (dp_flows dp)).
Proof.
  intros Hk Ht Hs Hq Hid.
  destruct (main_loop_total (laws := weak_laws aes_128_ctr k Hk open getaddrinfo) _ _ _ _ turns Ht dp last_expire Hs Hq (conj Hid I))
    as (dp' & ev & He & [? ? _ _ ? ? _] & Hq'). exists dp', ev. by split_and!.
Qed.
End properties.

(** ** Witnesses *)

Section examples.
Local Existing Instance sum_hash.
Local Existing Instances plain_crypto plain_output demo_yaml demo_yaml_laws.

(** A kernel that gives a descriptor no flow holds. *)
Definition next_fd (dp : qsr_dataplane) : Z := 1 + foldr Z.max 2 (fds (ft_flows (dp_flows dp))).

Definition next_kernel (dp : qsr_dataplane) : kernel := {| k_socket _ _ := SocketFd (next_fd dp); k_epoll_add _ _ := true |}.

Lemma max_above l fd : fd ∈ l -> fd <= foldr Z.max 2 l.
Proof. induction l as [|x l IH]; [by intros ?%not_elem_of_nil|]. intros [->|?]%elem_of_cons; cbn; [lia|]. specialize (IH ltac:(done)). lia. Qed.

Lemma next_fd_new dp : next_fd dp ∉ fds (ft_flows (dp_flows dp)).
Proof. intros Hin%max_above. unfold next_fd in Hin. lia. Qed.

Lemma next_kernel_fresh (hash : KeyedHash) dp : flow_wf (dp_flows dp) -> kernel_fresh (next_kernel dp) dp.
Proof.
  intros Hwf family. split; cbn.
  - intros _ fd [= <-]. unfold next_fd. assert (Hmax : forall l, 2 <= foldr Z.max 2 l) by (induction l; cbn; lia).
    pose proof (Hmax (fds (ft_flows (dp_flows dp)))). lia.
  - intros fd [= <-]. apply next_fd_new.
  - intros fd t' n ev [= <-] He Hin. destruct (evict_oldest_drops _ _ _ _ Hwf He) as [_ Hp].
    apply (next_fd_new dp). rewrite <- Hp. apply elem_of_app. by right.
Qed.

Definition demo_message : message := {|
  m_buffer := demo_datagram ++ zeros (QSR_UDP_RECV_BUFFER_SIZE - 1200); m_len := 1200; m_trunc := false;
  m_control := [{| cm_level := SOL_UDP; cm_type := UDP_GRO; cm_data := [88; 2; 0; 0] |}];
  m_source := demo_addr 1; m_source_len := 16 |}.

Lemma demo_received_ok : received_ok demo_message.
Proof. split; [z_concrete|bytes_concrete|cbn; lia|repeat constructor; cbn; lia|z_concrete|cbn; lia|reflexivity]. Qed.

Definition demo_turns : list (list Z * wait_result) :=
  [([], Ready 10 [(QSR_EPOLL_DATA_MAIN, fun round => if (round =? 0)%nat then Received 5 [demo_message] else RecvFailed false)])].

Lemma demo_turns_ok : Forall (fun t => wait_ok t.2) demo_turns.
Proof.
  constructor; [|constructor]. constructor; [|constructor]. intros i. cbn. destruct (i =? 0)%nat; [|done].
  split; [vm_compute; lia|]. constructor; [exact demo_received_ok|constructor].
Qed.

Lemma segments_exact_witness :
  message_chunks demo_message = [(0, 600); (600, 600)] /\
  (message_chunks demo_message ≫= fun c => range (Ptr (m_buffer demo_message) c.1) c.2) = demo_datagram.
Proof.
  split; [vm_compute; reflexivity|]. destruct demo_dp as (dp & _).
  destruct (segments_exact plain_ctr next_kernel None 5 dp demo_message demo_received_ok) as (_ & _ & _ & Hc).
  rewrite Hc. vm_compute. reflexivity.
Defined.

Lemma main_loop_invariant_witness : exists dp dp' ev,
  main_loop plain_ctr next_kernel demo_open demo_getaddrinfo dp 0 demo_turns = Some (dp', ev) /\ dp_ok dp'.
Proof.
  destruct demo_dp as (dp & backend & [Hok _ Hid _ Hs _ Hq _ _ Hf Hcap]). exists dp.
  destruct (main_loop_invariant plain_ctr next_kernel demo_open demo_getaddrinfo demo_turns dp 0
    (fun dp Hok => next_kernel_fresh _ dp (ok_flows_wf dp Hok)) demo_turns_ok Hok Hq) as (dp' & ev & He & Hok' & _).
  - split; [|done]. split; [rewrite Hf; vm_compute; reflexivity|]. apply (roomy_weaken 20); [vm_compute; intros [=]|].
    intros m Hm. rewrite (wf_count _ (ok_sessions_wf dp Hok)), Hs, Hcap, map_size_empty. unfold QSR_PRESSURE_EVICT_MIN_CAPACITY. lia.
  - exists dp', ev. split; [exact He|exact Hok'].
Defined.

Lemma main_loop_safe_witness : exists dp dp' ev,
  main_loop plain_ctr next_kernel demo_open demo_getaddrinfo dp 0 demo_turns = Some (dp', ev) /\ dp_safe dp'.
Proof.
  destruct demo_dp as (dp & backend & [Hok _ Hid _ Hs _ Hq _ _ Hf Hcap]). exists dp.
  destruct (main_loop_safe plain_ctr next_kernel demo_open demo_getaddrinfo demo_turns dp 0
    (fun dp Hs => next_kernel_fresh _ dp (ds_flows dp Hs)) demo_turns_ok (ok_safe dp Hok) Hq) as (dp' & ev & He & Hs' & _).
  - rewrite Hf. vm_compute. reflexivity.
  - exists dp', ev. split; [exact He|exact Hs'].
Defined.
End examples.
