(* ===== verification/Startup.v ===== *)
(** * Start-up and shut-down

    [src/udp.c]: [qsr_udp_run] around the loop of [EventLoop.v]. Every
    descriptor a start opens is recorded as a ghost list, so that what is
    opened can be held against what is closed. *)

From Stdlib Require Import String.
From stdpp Require Import gmap.
From S2P Require Import Prelude Hash QuicInitial SessionKey Probe SessionTable SessionSafety FlowTable QuicFrames Hostname TlsClientHello RouteTable CidCodec Config LogText QuicCrypto Runtime Sender Process Pending Upstream Routing Dataplane DataplaneSafety EventLoop.
#[local] Open Scope Z_scope.

(** ** Definitions *)

(** What the kernel and the C library answer to [qsr_udp_run]. *)
Record os := {
  os_calloc : Z -> Z -> bool;
  os_inotify_init1 : Z;
  os_inotify_add_watch : list Z -> Z;
  os_dirname : list Z -> list Z;
  os_listen : option (list Z) -> list Z -> option nat;  (* [getaddrinfo]: how many addresses *)
  os_socket : nat -> Z;
  os_family : nat -> Z;
  os_setsockopt : nat -> sockopt -> bool;
  os_bind : nat -> bool;
  os_getfl : Z;
  os_setfl : Z -> bool;
  os_calloc_pending : bool;
  os_epoll_create : Z;
  os_epoll_main : bool;
  os_calloc_batch : Z -> Z -> bool;
  os_started : Z;
}.

(** [for (ai = res; ai != nullptr; ai = ai->ai_next)]: the descriptor, those [socket] gave and those closed. *)
Fixpoint bind_loop (o : os) (n i : nat) : Z * list Z * list flow_event :=
  match n with
  | O => (-1, [], [])
  | S n =>
      let fd := os_socket o i in
      if fd <? 0 then bind_loop o n (i + 1)
      else if bool_decide ((configure_socket (os_setsockopt o i) (os_family o i)).1.1 = QSR_OK) && os_bind o i then (fd, [fd], [])
      else let '(r, opened, ev) := bind_loop o n (i + 1) in (r, fd :: opened, CloseFd fd :: ev)
  end.

Definition ft_set_on_close (t : qsr_flow_table) (hook : bool) : qsr_flow_table := {|
  ft_flows := ft_flows t; ft_index := ft_index t; ft_free_slots := ft_free_slots t; ft_free_count := ft_free_count t;
  ft_capacity := ft_capacity t; ft_index_capacity := ft_index_capacity t; ft_count := ft_count t;
  ft_expire_cursor := ft_expire_cursor t; ft_evict_cursor := ft_evict_cursor t; ft_next_id := ft_next_id t; ft_on_close := hook |}.

Section run.
Context `{KeyedHash} `{Crypto} `{Yaml} (aes_128_ctr : list Z -> list Z -> list Z -> option (list Z)) (k : qsr_dataplane -> kernel).
Context (open : list Z -> config_source) (getaddrinfo : list Z -> Z -> option (list Z)).

(** A start ends with [X], the descriptors opened and those closed on the way, or with the status and both. *)
Definition start_result (X : Type) : Type := (X * list Z * list flow_event) + (qsr_status * list Z * list flow_event).

(** A failed start: the runtime is freed behind the descriptors closed. *)
Definition start_failed {X} (r : qsr_runtime) (status : qsr_status) (opened : list Z) (ev : list flow_event) : start_result X :=
  inr (status, opened, ev ++ (qsr_runtime_free r).2).

(** [qsr_udp_run] up to the loop over the addresses of [getaddrinfo], which is
    [bind], and what follows it, [listening]. [raw] is the runtime on the stack;
    [watched] is the descriptor that [watch] opens, if any. *)
Definition start_with {X} (o : os) (watch : option (list Z) -> Z * list flow_event) (watched : list Z)
    (bind : nat -> nat -> Z * list Z * list flow_event) (listening : qsr_runtime -> Z -> list Z -> list flow_event -> start_result X)
    (raw : qsr_runtime) (config : qsr_config) (config_path : option (list Z)) : start_result X :=
  let '(r, ev, status) := qsr_runtime_init (os_calloc o) watch raw config config_path in
  if negb (bool_decide (status = QSR_OK)) then inr (status, [], ev) else
  let opened := watched in
  let '(routes, status) := qsr_route_table_resolve getaddrinfo (c_routes (run_config r)) in
  let r := run_set_config r (set_routes (run_config r) routes) in
  if negb (bool_decide (status = QSR_OK)) then start_failed r status opened ev else
  match split_listen (c_listen_udp (run_config r)) 64 16 with
  | Fault => start_failed r QSR_ERR_INVALID opened ev  (* does not occur *)
  | Fail status => start_failed r status opened ev
  | Ok (host, port) =>
      match os_listen o (if bool_decide (host = []) then None else Some host) port with
      | None => start_failed r QSR_ERR_INVALID opened ev
      | Some n =>
          let '(fd, sockets, ev') := bind n 0%nat in
          listening r fd (opened ++ sockets) (ev ++ ev')
      end
  end.

(** Behind [bind]: the listening socket is [fd], or there is none; the dataplane and the epoll descriptor. *)
Definition start_listening (o : os) (r : qsr_runtime) (fd : Z) (opened : list Z) (ev : list flow_event) :
    start_result (qsr_dataplane * Z) :=
  if fd <? 0 then start_failed r QSR_ERR_INVALID opened ev else
  if negb (bool_decide (set_nonblocking (os_getfl o) (os_setfl o) = QSR_OK)) then start_failed r QSR_ERR_INVALID opened (ev ++ [CloseFd fd]) else
  if negb (os_calloc_pending o) then start_failed r QSR_ERR_FULL opened (ev ++ [CloseFd fd]) else
  let r := run_set_flows r (ft_set_on_close (run_flows r) true) in
  let dp := dp_start r fd in
  let epoll_fd := os_epoll_create o in
  if epoll_fd <? 0 then start_failed r QSR_ERR_INVALID opened (ev ++ [CloseFd fd]) else
  let opened := opened ++ [epoll_fd] in
  if negb (os_epoll_main o) then start_failed r QSR_ERR_INVALID opened (ev ++ [CloseFd epoll_fd; CloseFd fd]) else
  if negb (bool_decide ((recv_batch_init (os_calloc_batch o)).2 = QSR_OK)) then start_failed r QSR_ERR_FULL opened (ev ++ [CloseFd epoll_fd; CloseFd fd]) else
  inl (dp, epoll_fd, opened, ev).

(** [qsr_udp_run] up to the loop. *)
Definition udp_start (o : os) (raw : qsr_runtime) (config : qsr_config) (config_path : option (list Z)) :
    start_result (qsr_dataplane * Z) :=
  start_with o (setup_inotify_watch (os_inotify_init1 o) (os_inotify_add_watch o) (os_dirname o))
    (if bool_decide (config_path = None) || (os_inotify_init1 o <? 0) then [] else [os_inotify_init1 o])
    (bind_loop o) (start_listening o) raw config config_path.

(** The lines printed before the loop. *)
Definition startup_lines `{InetNtop} (r : qsr_runtime) (dataplane : list Z) : list (list Z) :=
  [str "quic-sni-router listening on udp " ++ c_listen_udp (run_config r) ++ str " with " ++ decimal (rt_count (c_routes (run_config r))) ++
     str " route(s)" ++ [10]] ++
  qsr_runtime_log_routes (str "startup:") (c_routes (run_config r)) ++
  [str "quic-sni-router dataplane: " ++ dataplane ++ str ", per-flow upstream sockets" ++ [10]].

(** Behind the loop. *)
Definition udp_stop (dp : qsr_dataplane) (epoll_fd : Z) : list event :=
  let '(dp, ev) := dp_flush dp in
  [FlowEvent (CloseFd epoll_fd)] ++ ev ++ (FlowEvent <$> (qsr_runtime_free (dp_runtime dp)).2) ++ [FlowEvent (CloseFd (dp_main_fd dp))].

(** The status, the descriptors start-up was given and all events. *)
Definition qsr_udp_run (o : os) (raw : qsr_runtime) (config : qsr_config) (config_path : option (list Z))
    (turns : list (list Z * wait_result)) : option (qsr_status * list Z * list event) :=
  match udp_start o raw config config_path with
  | inr (status, opened, ev) => Some (status, opened, FlowEvent <$> ev)
  | inl (dp, epoll_fd, opened, ev) =>
      '(dp, ev') ← main_loop aes_128_ctr k open getaddrinfo dp (os_started o) turns;
      Some (QSR_OK, opened, (FlowEvent <$> ev) ++ ev' ++ udp_stop dp epoll_fd)
  end.
End run.

(** ** Lemmas: start-up *)

(** Descriptors of [Hp] against the calls of [close]. *)
Ltac balance Hp := rewrite Hp, ?closed_app; cbn [closed omap list_omap]; solve_Permutation.

Section start.
Context `{KeyedHash} `{Yaml} (getaddrinfo : list Z -> Z -> option (list Z)).

Lemma runtime_free_closes r : flow_wf (run_flows r) ->
  closed (qsr_runtime_free r).2 = (if 0 <=? run_inotify_fd r then [run_inotify_fd r] else []) ++ fds (ft_flows (run_flows r)).
Proof.
  intros Hwf. unfold qsr_runtime_free. pose proof (free_closes (run_flows r) Hwf) as Hf.
  destruct (0 <=? run_inotify_fd r); cbn [run_flows run_set_inotify_fd];
    destruct (qsr_flow_table_free (run_flows r)) as [t ev]; cbn [snd] in *; rewrite ?closed_app, Hf; done.
Qed.

(** The descriptor that the watch keeps open, if any. *)
Definition held (fd : Z) : list Z := if 0 <=? fd then [fd] else [].

Lemma held_neg fd : fd < 0 -> held fd = [].
Proof. intros. unfold held. by rewrite (proj2 (Z.leb_gt _ _)). Qed.

Lemma held_fd fd : 0 <= fd -> held fd = [fd].
Proof. intros. unfold held. by rewrite (proj2 (Z.leb_le _ _)). Qed.

Lemma watch_spec init1 add_watch dirname path :
  let '(fd, ev) := setup_inotify_watch init1 add_watch dirname path in
  closed ev ++ held fd = if bool_decide (path = None) || (init1 <? 0) then [] else [init1].
Proof.
  unfold setup_inotify_watch, held. destruct path as [path|]; [|done]. rewrite bool_decide_eq_false_2 by done. cbn [orb].
  destruct (init1 <? 0) eqn:E; [done|]. bool_to_prop. repeat split_if; bool_to_prop; try done; lia.
Qed.

Lemma bind_loop_spec o n : forall i, let '(fd, opened, ev) := bind_loop o n i in opened = closed ev ++ held fd.
Proof.
  induction n as [|n IH]; intros i; cbn [bind_loop]; [done|]. destruct (os_socket o i <? 0) eqn:E; [apply IH|]. bool_to_prop.
  destruct (_ && _); [unfold held; cbn; by rewrite (proj2 (Z.leb_le _ _)) by lia|].
  specialize (IH (i + 1)%nat). destruct (bind_loop o n (i + 1)) as [[fd opened] ev]. cbn. by rewrite IH.
Qed.

Lemma init_next calloc watch raw config path r ev : qsr_runtime_init calloc watch raw config path = (r, ev, QSR_OK) ->
  ft_next_id (run_flows r) = 1.
Proof.
  unfold qsr_runtime_init, qsr_session_table_init, qsr_flow_table_init.
  repeat split_if; try (destruct (watch path)); intros ?; simplify_eq; done.
Qed.

Lemma set_on_close_wf t hook : flow_wf t -> flow_wf (ft_set_on_close t hook).
Proof. by intros []. Qed.

(** A dataplane just started. *)
Record fresh_start (config : qsr_config) (dp : qsr_dataplane) : Prop := {
  st_ok : dp_ok dp;
  st_queue : queued (dp_sender dp) = [];
  st_count : t_count (dp_sessions dp) = 0;
  st_flows : fds (ft_flows (dp_flows dp)) = [];
  st_capacity : Z.of_nat (t_capacity (dp_sessions dp)) = c_max_sessions config;
  st_next : ft_next_id (dp_flows dp) = 1;
  st_main : 0 <= dp_main_fd dp;
  st_pending : dp_pending_initials dp = pending_table0;
}.

(** What a start leaves behind: a dataplane with the descriptors it keeps, or
    nothing. All others it opened are closed. *)
Definition started {X} (good : X -> list Z -> Prop) (res : start_result X) : Prop :=
  match res with
  | inl (x, opened, ev) => exists keep, good x keep /\ opened ≡ₚ closed ev ++ keep
  | inr (status, opened, ev) => status <> QSR_OK /\ opened ≡ₚ closed ev
  end.

(** The watch, the listening socket and the epoll descriptor are kept. *)
Definition udp_started (config : qsr_config) (x : qsr_dataplane * Z) (keep : list Z) : Prop :=
  fresh_start config x.1 /\ 0 <= x.2 /\ keep = held (run_inotify_fd (dp_runtime x.1)) ++ [dp_main_fd x.1; x.2].

Lemma start_failed_ok {X} (good : X -> list Z -> Prop) r status opened ev :
  flow_wf (run_flows r) -> fds (ft_flows (run_flows r)) = [] -> status <> QSR_OK ->
  opened ≡ₚ closed ev ++ held (run_inotify_fd r) -> started good (start_failed r status opened ev).
Proof.
  intros Hwf Hf Hst Hp. unfold start_failed, started. split; [done|]. by rewrite closed_app, runtime_free_closes, Hf, app_nil_r.
Qed.

Lemma resolve_status t : route_wf t ->
  (qsr_route_table_resolve getaddrinfo t).2 = QSR_OK \/ (qsr_route_table_resolve getaddrinfo t).2 = QSR_ERR_INVALID.
Proof.
  intros Hwf. pose proof (resolve_spec getaddrinfo t Hwf) as Hs. destruct (qsr_route_table_resolve _ _) as [t' []]; auto; contradiction (proj2 (proj2 (proj2 (proj2 Hs)))).
Qed.

(** What holds of the runtime when a listening socket is looked for. *)
Record start_ready (config : qsr_config) (r : qsr_runtime) : Prop := {
  sr_wf : runtime_wf r;
  sr_routes : routes_live (c_routes (run_config r));
  sr_sessions : contents (run_sessions r) = ∅;
  sr_flows : fds (ft_flows (run_flows r)) = [];
  sr_next : ft_next_id (run_flows r) = 1;
  sr_max : c_max_sessions (run_config r) = c_max_sessions config;
}.

(** The runtime with the close hook, on the listening socket [fd]. *)
Lemma start_dataplane config r fd : start_ready config r -> 0 <= fd ->
  fresh_start config (dp_start (run_set_flows r (ft_set_on_close (run_flows r) true)) fd).
Proof.
  intros [Hwf Hrl Hs Hf Hni Hmax] Hfd. set (r2 := run_set_flows r _).
  assert (Hwf2 : runtime_wf r2) by (destruct Hwf; split; try done; by apply set_on_close_wf).
  pose proof (start_ok r2 fd Hwf2 Hrl Hs Hf) as Hok. split; try done.
  - rewrite (wf_count _ (ok_sessions_wf _ Hok)). cbn. by rewrite Hs, map_size_empty.
  - rewrite <- Hmax. exact (rn_session_capacity _ Hwf2).
Qed.

(** Giving up, with or without the close hook in place. *)
Lemma start_gives_up {X} (good : X -> list Z -> Prop) config r x status opened ev : start_ready config r ->
  x = r \/ x = run_set_flows r (ft_set_on_close (run_flows r) true) -> status <> QSR_OK ->
  opened ≡ₚ closed ev ++ held (run_inotify_fd r) -> started good (start_failed x status opened ev).
Proof.
  intros Hr Hx Hst Hp. pose proof (rn_flows r (sr_wf config r Hr)) as Hfw. pose proof (sr_flows config r Hr) as Hf.
  destruct Hx as [->| ->]; apply start_failed_ok; try done. by apply set_on_close_wf.
Qed.

Lemma start_listening_spec o config r fd opened ev : start_ready config r ->
  opened ≡ₚ closed ev ++ held (run_inotify_fd r) ++ held fd -> started (udp_started config) (start_listening o r fd opened ev).
Proof.
  intros Hr Hp. unfold start_listening.
  destruct (fd <? 0) eqn:Efd; bool_to_prop; [rewrite (held_neg fd), app_nil_r in Hp by lia; by eapply start_gives_up; [|left|..]|].
  rewrite (held_fd fd) in Hp by lia.
  destruct (bool_decide (set_nonblocking _ _ = _)); cbn [negb]; [|eapply start_gives_up; [done|by left|done|balance Hp]].
  destruct (os_calloc_pending o); cbn [negb]; [|eapply start_gives_up; [done|by left|done|balance Hp]].
  cbv zeta. set (epoll_fd := os_epoll_create o).
  destruct (epoll_fd <? 0) eqn:Ee; bool_to_prop; [eapply start_gives_up; [done|by right|done|balance Hp]|].
  destruct (os_epoll_main o); cbn [negb]; [|eapply start_gives_up; [done|by right|done|balance Hp]].
  destruct (bool_decide (_.2 = QSR_OK)); cbn [negb]; [|eapply start_gives_up; [done|by right|done|balance Hp]].
  eexists. split; [split; [by apply start_dataplane|]; split; [done|reflexivity]|].
  cbn [fst snd dp_main_fd dp_start dp_runtime run_inotify_fd run_set_flows]. rewrite Hp. solve_Permutation.
Qed.

(** Up to [bind] everything given up is closed, and what follows starts from a runtime that is ready. *)
Lemma start_with_spec {X} (good : X -> list Z -> Prop) o watch watched bind listening raw config path :
  (forall n sz, os_calloc o n sz = true -> n * sz < 2 ^ 64) -> live_config config ->
  closed (watch path).2 ++ held (watch path).1 = watched ->
  (forall n i, let '(fd, opened, ev) := bind n i in opened = closed ev ++ held fd) ->
  (forall r fd opened ev, start_ready config r -> opened ≡ₚ closed ev ++ held (run_inotify_fd r) ++ held fd ->
    started good (listening r fd opened ev)) ->
  started good (start_with getaddrinfo o watch watched bind listening raw config path).
Proof.
  intros Hcalloc Hlive Hwatch Hbind Hlisten. unfold start_with.
  pose proof (init_spec (os_calloc o) watch raw config path Hcalloc Hlive) as Hi.
  pose proof (init_next (os_calloc o) watch raw config path) as Hni.
  destruct (qsr_runtime_init _ _ _ _ _) as [[r ev] status].
  case_bool_decide as Hst; cbn [negb]; [subst status|destruct status; try done; split; [done|by destruct Hi as [-> _]]].
  specialize (Hni r ev eq_refl). destruct Hi as (Hwf & Hc & Hs & Hf & Hw).
  rewrite <- Hw in Hwatch. cbn [fst snd] in Hwatch. rewrite <- Hwatch. clear Hw Hwatch watch watched. rewrite Hc.
  pose proof (resolve_status (c_routes config) (lc_routes config Hlive)) as Hrst.
  pose proof (resolve_live getaddrinfo (c_routes config)) as Hrl.
  destruct (qsr_route_table_resolve _ _) as [routes status]. cbn [snd] in Hrst. cbv zeta. set (r1 := run_set_config r _).
  assert (Hfail : forall status, status <> QSR_OK ->
    started good (start_failed r1 status (closed ev ++ held (run_inotify_fd r)) ev)).
  { intros st ?. apply start_failed_ok; try done. apply Hwf. }
  case_bool_decide as Hst; cbn [negb]; [subst status|apply Hfail; by destruct Hrst as [->| ->]].
  specialize (Hrl routes (lc_routes config Hlive) eq_refl).
  assert (Hwf1 : runtime_wf r1).
  { destruct Hwf as [_ ? ? Hsc Hfc]. rewrite Hc in Hsc, Hfc. split; cbn; try done. destruct Hlive. split; try done. apply Hrl. }
  destruct (split_listen _ 64 16) as [[host port]|st|] eqn:El; [|apply Hfail|by apply Hfail].
  2: { unfold split_listen in El. destruct (strrchr _ _); [destruct (_ || _)|]; by simplify_eq. }
  destruct (os_listen o _ port) as [n|]; [|by apply Hfail].
  pose proof (Hbind n 0%nat) as Hb. destruct (bind n 0%nat) as [[fd sockets] ev']. subst sockets.
  apply Hlisten; [by split|]. rewrite closed_app. change (run_inotify_fd r1) with (run_inotify_fd r). solve_Permutation.
Qed.

Lemma udp_start_spec o raw config path :
  (forall n sz, os_calloc o n sz = true -> n * sz < 2 ^ 64) -> live_config config ->
  started (udp_started config) (udp_start getaddrinfo o raw config path).
Proof.
  intros Hcalloc Hlive. apply start_with_spec; [done|done| |intros n i; by apply bind_loop_spec|intros; by apply start_listening_spec].
  pose proof (watch_spec (os_inotify_init1 o) (os_inotify_add_watch o) (os_dirname o) path) as Hw. by destruct (setup_inotify_watch _ _ _ _).
Qed.
End start.

Section run_theory.
Context `{KeyedHash} `{Crypto} `{crypto_output : !CryptoOutput} (aes_128_ctr : list Z -> list Z -> list Z -> option (list Z))
  (k : qsr_dataplane -> kernel).
Context `{Yaml} `{yaml_laws : !YamlLaws} (open : list Z -> config_source) (getaddrinfo : list Z -> Z -> option (list Z)).

(** The status of a run is [QSR_OK] exactly when it started, and every descriptor
    opened, at the start and by [socket] on the way, is closed. *)
Lemma udp_run_spec o raw config config_path turns : (forall dp, dp_safe dp -> kernel_fresh (k dp) dp) ->
  (forall n sz, os_calloc o n sz = true -> n * sz < 2 ^ 64) -> live_config config ->
  Forall (fun t => wait_ok t.2) turns -> 1 + turns_count turns < 2 ^ 64 ->
  exists status opened ev,
    qsr_udp_run aes_128_ctr k open getaddrinfo o raw config config_path turns = Some (status, opened, ev) /\
    (status = QSR_OK <-> is_Some (maybe inl (udp_start getaddrinfo o raw config config_path))) /\
    opened_by k (sockets ev) /\ closed (flow_events ev) ≡ₚ opened ++ sockets ev.
Proof using crypto_output yaml_laws.
  intros Hk Hcalloc Hlive Ht Hn. pose proof (udp_start_spec getaddrinfo o raw config config_path Hcalloc Hlive) as Hs.
  unfold qsr_udp_run. destruct (udp_start _ _ _ _ _) as [[[[dp epoll_fd] opened] ev]|[[status opened] ev]]; cbn [started] in Hs.
  2: { destruct Hs as [Hst Hp]. exists status, opened, (FlowEvent <$> ev). rewrite flow_events_fmap, sockets_fmap, app_nil_r.
       split_and!; [done| |constructor|done]. split; [done|by intros [? ?]]. }
  destruct Hs as (keep & ([Hok Hq _ Hf _ Hid _ _] & _ & ->) & Hp). cbn [fst snd] in *.
  destruct (main_loop_total (laws := weak_laws aes_128_ctr k Hk open getaddrinfo) _ _ _ _ turns Ht dp (os_started o) (ok_safe dp Hok) Hq)
    as (dp' & ev' & -> & Hran & Hq'); [split; [lia|done]|].
  cbn [mbind option_bind]. destruct Hran as [Hok' Hfix _ _ Hpd Hop _]. unfold accounts in Hpd. rewrite Hf, app_nil_r in Hpd.
  exists QSR_OK, opened, ((FlowEvent <$> ev) ++ ev' ++ udp_stop dp' epoll_fd). split; [done|]. split; [split; [by eexists|done]|].
  unfold udp_stop. destruct (dp_flush_spec dp' (ds_sender dp' Hok')) as (s & ev2 & -> & _ & _ & He2 & _).
  assert (Hsk : sockets ((FlowEvent <$> ev) ++ ev' ++ [FlowEvent (CloseFd epoll_fd)] ++ ev2 ++
      (FlowEvent <$> (qsr_runtime_free (dp_runtime dp')).2) ++ [FlowEvent (CloseFd (dp_main_fd dp'))]) = sockets ev')
    by (rewrite !sockets_app, !sockets_fmap, (only_sends_sockets ev2) by done; apply app_nil_r).
  cbn [dp_runtime dp_main_fd dp_set_sender]. rewrite Hsk. split; [done|]. apply only_sends_flow in He2.
  pose proof (runtime_free_closes (dp_runtime dp') (ds_flows dp' Hok')) as Hfree. injection Hfix as Hm Hi _.
  rewrite !flow_events_app, !flow_events_fmap, He2, !closed_app. cbn [app]. rewrite Hfree, Hp, <- Hpd.
  rewrite Hm, Hi. change (if 0 <=? _ then _ else []) with (held (run_inotify_fd (dp_runtime dp))).
  cbn. rewrite <- !app_assoc. change ([dp_main_fd dp; epoll_fd]) with ([dp_main_fd dp] ++ [epoll_fd]).
  change (epoll_fd :: ?x) with ([epoll_fd] ++ x). solve_Permutation.
Qed.
End run_theory.

(** ** A start to run *)

Definition demo_os : os := {|
  os_calloc := demo_small; os_inotify_init1 := 5; os_inotify_add_watch _ := 1; os_dirname path := path;
  os_listen _ _ := Some 2%nat; os_socket i := 6 + Z.of_nat i; os_family _ := AF_INET6; os_setsockopt _ _ := true; os_bind i := (i =? 1)%nat;
  os_getfl := 2; os_setfl _ := true; os_calloc_pending := true; os_epoll_create := 8; os_epoll_main := true; os_calloc_batch _ _ := true;
  os_started := 0 |}.
