(* ===== verification/LogSafety.v ===== *)
(** * What clients can put into the connection log

    A line of the connection log repeats two things a client chose: the name in
    its ClientHello and its connection ID. This file follows both from the
    datagram through the pending table and the flow table to the line: whatever
    arrives, in any order and under any load, they are printable characters
    without spaces. The operations are taken as they come - the lemmas say what
    holds if they return - and the loop is an instance of the interface of
    [EventLoop.v], with an invariant and with what the events may be. *)

From Stdlib Require Import String.
From stdpp Require Import gmap.
From S2P Require Import Prelude Hash QuicInitial SessionKey Probe SessionTable SessionSafety FlowTable QuicFrames Hostname TlsClientHello RouteTable CidCodec Config LogText QuicCrypto Runtime Sender Process Pending Upstream Routing Dataplane DataplaneSafety EventLoop Startup.
#[local] Open Scope Z_scope.

(** ** Lemmas: fields *)

(** A flow whose name and connection ID are fit to print. *)
Definition named (f : qsr_flow) : Prop := token (cstr (f_sni f)) /\ bytes_ok (f_scid f).

(** A line whose fields are fit to print but for the addresses, which come from the kernel and the configuration. *)
Definition clean (line : conn_line) : Prop :=
  token (cl_sni line) /\ token (cl_scid line) /\ if cl_close line is Some (reason, _) then token reason else True.

Lemma hex_digit_token n : 0 <= n < 16 -> 32 < hex_digit n < 127.
Proof.
  intros Hn. assert (Hall : forallb (fun i => (32 <? hex_digit (Z.of_nat i)) && (hex_digit (Z.of_nat i) <? 127)) (seq 0 16) = true) by reflexivity.
  rewrite forallb_forall in Hall. specialize (Hall (Z.to_nat n)). rewrite Z2Nat.id in Hall by lia.
  assert (Hin : In (Z.to_nat n) (seq 0 16)) by (apply in_seq; lia). specialize (Hall Hin). lia.
Qed.

Lemma format_cid_token cid cid_len out_len : bytes_ok cid -> token (format_cid cid cid_len out_len).
Proof.
  intros Hb. unfold format_cid. destruct (_ || _); [by repeat constructor|]. apply list.Forall_forall. intros c (b & Hc & Hin)%list_elem_of_bind.
  pose proof (Forall_take _ (Z.to_nat cid_len) _ Hb) as Hby. rewrite list.Forall_forall in Hby. specialize (Hby b Hin). cbn in Hby.
  unfold is_byte in Hby. change 0x0f with (Z.ones 4) in Hc. rewrite Z.land_ones, Z.shiftr_div_pow2 in Hc by lia.
  apply elem_of_cons in Hc as [-> | ->%list_elem_of_singleton]; apply hex_digit_token; dlia.
Qed.

Lemma line_clean f close : named f -> (if close is Some (reason, _) then token reason else True) -> clean (conn_line_of f close).
Proof.
  intros [Hs Hc] Hr. split_and!; [|by apply format_cid_token|done]. cbn. destruct (_ =? 0); [by repeat constructor|done].
Qed.

Lemma reason_token reason : token (flow_close_reason_name reason).
Proof. by destruct reason; repeat constructor. Qed.

Lemma callback_clean log f reason now : named f -> Forall clean (conn_close_callback log f reason now).
Proof.
  intros Hf. unfold conn_close_callback. destruct (negb log); constructor; [|constructor]. apply line_clean; [done|apply reason_token].
Qed.

(** *** Arrays *)

Lemma memcpy_bytes dst off src : bytes_ok dst -> bytes_ok src -> bytes_ok (memcpy_at dst off src).
Proof. intros Hd Hs. unfold memcpy_at. repeat (apply Forall_app; split); [by apply Forall_take|done|by apply Forall_drop]. Qed.

Lemma cstr_app l r : Forall (fun c => c <> 0) l -> cstr (l ++ 0 :: r) = l.
Proof. induction 1 as [|c l Hc _ IH]; [done|]. cbn. by rewrite (proj2 (Z.eqb_neq _ _)), IH. Qed.

Lemma cstr_no_nul l : Forall (fun c => c <> 0) (cstr l).
Proof. induction l as [|c l IH]; cbn; [constructor|]. destruct (c =? 0) eqn:E; bool_to_prop; by constructor. Qed.

(** The string behind [snprintf(flow->sni, sizeof(flow->sni), "%s", sni)]. *)
Lemma stored_name dst name : cstr (memcpy_at dst 0 (take (Z.to_nat QSR_MAX_HOSTNAME_LEN) (cstr name) ++ [0])) =
  take (Z.to_nat QSR_MAX_HOSTNAME_LEN) (cstr name).
Proof. unfold memcpy_at. cbn [take app]. rewrite <- app_assoc. apply cstr_app. apply Forall_take, cstr_no_nul. Qed.

(** A hostname has letters, digits, hyphens and dots. *)
Lemma labels_token l : forall prev k, l_labels prev k l = true -> token l.
Proof.
  induction l as [|c l IH]; intros prev k Hl; [constructor|]. cbn [l_labels] in Hl. destruct (c =? DOT) eqn:Ec; bool_to_prop.
  - constructor; [subst; unfold DOT; lia|]. by eapply IH.
  - constructor; [|by eapply IH]. unfold isalnum, HYPHEN in *. lia.
Qed.

Lemma hostname_token name : hostname_ok name = true -> token name.
Proof. rewrite hostname_labels. intros [_ Hl]%andb_true_iff. by eapply labels_token. Qed.

(** ** Lemmas: the flow table *)

Definition names (t : qsr_flow_table) : Prop := Forall named (ft_flows t).

(** The close hook is called with flows of the table. *)
Definition told (ev : list flow_event) : Prop := Forall (fun e => if e is OnClose f _ then named f else True) ev.

(** What every operation promises if it returns. *)
Definition keeps_names (t t' : qsr_flow_table) (ev : list flow_event) : Prop := names t -> names t' /\ told ev.

Lemma names_refl t : keeps_names t t [].
Proof. intros Hn. split; [done|constructor]. Qed.

Lemma keeps_same t t' : ft_flows t' = ft_flows t -> keeps_names t t' [].
Proof. unfold keeps_names, names. intros ->. apply names_refl. Qed.

Lemma names_trans t1 t2 t3 ev1 ev2 : keeps_names t1 t2 ev1 -> keeps_names t2 t3 ev2 -> keeps_names t1 t3 (ev1 ++ ev2).
Proof. intros H1 H2 Hn. destruct (H1 Hn) as [Hn1 He1], (H2 Hn1) as [Hn2 He2]. split; [done|by apply Forall_app_2]. Qed.

Lemma unused_named : named flow_unused.
Proof. split; [constructor|apply bytes_ok_zeros]. Qed.

Lemma new_named client client_len backend backend_len fd now id : named (flow_new client client_len backend backend_len fd now id).
Proof. split; [constructor|apply bytes_ok_zeros]. Qed.

(** One flow is written. *)
Lemma names_write t t' slot g : ft_flows t' = <[slot := g]> (ft_flows t) -> (names t -> named g) -> keeps_names t t' [].
Proof. intros Hf Hg Hn. split; [|constructor]. unfold names. rewrite Hf. apply Forall_insert; auto. Qed.

Lemma names_lookup t slot f : names t -> ft_flows t !! slot = Some f -> named f.
Proof. intros Hn Hf. by apply (Forall_lookup_1 _ _ _ _ Hn Hf). Qed.

(** What a loop keeps as long as it runs. *)
Lemma while_pos_keeps {A R} (step : A -> A + R) (P : A -> Prop) (Q : R -> Prop) n a :
  (forall a, P a -> match step a with inl b => P b | inr r => Q r end) -> P a ->
  match while_pos step n a with inl b => P b | inr r => Q r end.
Proof.
  intros Hs. rewrite while_pos_nat. revert a. induction (Pos.to_nat n) as [|m IH]; intros a Ha; cbn [while_nat]; [done|].
  specialize (Hs a Ha). destruct (step a); [by apply IH|done].
Qed.

Section flows.
Context `{KeyedHash}.

Lemma index_step_flows st :
  match index_delete_step st with
  | inl (t, _) => ft_flows t = ft_flows st.1
  | inr (Some t) => ft_flows t = ft_flows st.1
  | inr None => True
  end.
Proof. destruct st as [t cursor]. unfold index_delete_step. repeat case_match; simplify_eq; done. Qed.

Lemma index_delete_flows t pos t' : index_delete_at t pos = Some t' -> ft_flows t' = ft_flows t.
Proof.
  unfold index_delete_at. set (t1 := ft_set_index t _). intros Hr.
  pose proof (while_pos_keeps index_delete_step (fun st => ft_flows st.1 = ft_flows t)
    (fun r => forall t', r = Some t' -> ft_flows t' = ft_flows t) (del_fuel (ft_index_capacity t1)) (t1, ((pos + 1) mod ft_index_capacity t1)%nat)) as Hw.
  destruct (while_pos _ _ _) as [st|r]; [done|]. apply Hw; [|done..].
  intros st Hst. pose proof (index_step_flows st) as Hs. destruct (index_delete_step st) as [[t2 c]|[t2|]]; cbn [fst] in *; [congruence| |done].
  intros t3 [= <-]. congruence.
Qed.

Lemma close_told t f reason : named f -> told (close_flow t f reason).
Proof. intros Hf. unfold close_flow, told. destruct (ft_on_close t), (0 <=? _); cbn; repeat (constructor; try done). Qed.

Lemma remove_names t slot reason t' ev : remove_slot t slot reason = Some (t', ev) -> keeps_names t t' ev.
Proof.
  unfold remove_slot. destruct (ft_flows t !! slot) as [f|] eqn:Ef; [|done]. cbn [mbind option_bind].
  assert (Hidx : forall t1, match index_find t (f_client_addr f) (f_client_addr_len f) with
    | Some pos => if (index_at t pos =? 0)%nat then Some t else index_delete_at t pos | None => Some t end = Some t1 -> ft_flows t1 = ft_flows t).
  { intros t1. destruct (index_find _ _ _); [|by intros [= <-]]. destruct (_ =? _)%nat; [by intros [= <-]|apply index_delete_flows]. }
  destruct (match index_find t (f_client_addr f) (f_client_addr_len f) with Some _ => _ | None => _ end) as [t1|] eqn:E1; [|done].
  specialize (Hidx t1 eq_refl). cbn [mbind option_bind]. intros [= <- <-] Hn. cbn. unfold names. cbn. rewrite Hidx. split.
  - apply Forall_insert; [done|apply unused_named].
  - apply close_told. by eapply names_lookup.
Qed.

Lemma flow_remove_names t slot t' ev : qsr_flow_table_remove t slot = Some (t', ev) -> keeps_names t t' ev.
Proof.
  unfold qsr_flow_table_remove. destruct (ft_flows t !! slot) as [f|]; [destruct (f_used f)|]; try (intros [= <- <-]; apply names_refl).
  apply remove_names.
Qed.

Lemma evict_names t t' n ev : qsr_flow_table_evict_oldest t = Some (t', n, ev) -> keeps_names t t' ev.
Proof.
  unfold qsr_flow_table_evict_oldest. destruct (_ || _); [intros [= <- _ <-]; apply names_refl|]. cbv zeta.
  destruct (oldest_flow _ _) as [[v o]|]; [|intros [= <- _ <-]; by apply keeps_same].
  destruct (remove_slot _ _ _) as [[t1 ev1]|] eqn:Er; [|done]. intros [= <- _ <-]. exact (remove_names _ _ _ _ _ Er).
Qed.

Lemma insert_names t pos client client_len backend backend_len fd now t' slot :
  flow_insert t pos client client_len backend backend_len fd now = Some (t', slot) -> keeps_names t t' [].
Proof.
  unfold flow_insert. destruct (_ !! _) as [s|]; [|done]. cbn [mbind option_bind]. intros [= <- _].
  eapply names_write; [reflexivity|]. intros _. apply new_named.
Qed.

Lemma put_names t client client_len backend backend_len fd now t' slot ev :
  qsr_flow_table_put t client client_len backend backend_len fd now = Some (t', slot, ev) -> keeps_names t t' ev.
Proof.
  unfold qsr_flow_table_put. destruct (_ || _); [intros [= <- _ <-]; apply names_refl|]. cbv zeta.
  destruct (match index_find t client client_len with Some pos => index_at t pos | None => 0%nat end) as [|s].
  - destruct (_ =? 0)%nat.
    + destruct (qsr_flow_table_evict_oldest t) as [[[t1 n] ev1]|] eqn:Ee; [|done]. cbn [mbind option_bind].
      pose proof (evict_names _ _ _ _ Ee) as He. destruct (n =? 0); [by intros [= <- _ <-]|].
      destruct (index_find t1 _ _) as [pos|]; [|by intros [= <- _ <-]].
      destruct (flow_insert _ _ _ _ _ _ _ _) as [[t2 s]|] eqn:Ei; [|done]. intros [= <- _ <-].
      rewrite <- (app_nil_r ev1). eapply names_trans; [exact He|by eapply insert_names].
    + destruct (index_find t _ _) as [pos|]; [|intros [= <- _ <-]; apply names_refl].
      destruct (flow_insert _ _ _ _ _ _ _ _) as [[t2 s]|] eqn:Ei; [|done]. intros [= <- _ <-]. by eapply insert_names.
  - destruct (ft_flows t !! s) as [f|] eqn:Ef; [|done]. cbn [mbind option_bind]. intros [= <- _ <-] Hn. split.
    + apply Forall_insert; [done|]. exact (names_lookup t s f Hn Ef).
    + destruct (_ && _); repeat constructor.
Qed.

Lemma remove_if_names doomed reason t slot t' n ev : remove_if doomed reason t slot = Some (t', n, ev) -> keeps_names t t' ev.
Proof.
  unfold remove_if. destruct (_ !! _) as [f|]; [|done]. cbn [mbind option_bind]. destruct (_ && _); [|intros [= <- _ <-]; apply names_refl].
  destruct (remove_slot _ _ _) as [[t1 ev1]|] eqn:Er; [|done]. intros [= <- _ <-]. exact (remove_names _ _ _ _ _ Er).
Qed.

Lemma expire_names t now timeout budget t' n ev :
  qsr_flow_table_expire_incremental t now timeout budget = Some (t', n, ev) -> keeps_names t t' ev.
Proof.
  unfold qsr_flow_table_expire_incremental. destruct (_ || _); [intros [= <- _ <-]; apply names_refl|].
  generalize (budget `min` ft_capacity t)%nat as k, 0 as e. intros k. revert t t' n ev. induction k as [|k IH]; intros t t' n ev e; cbn [flow_expire_loop].
  { intros [= <- _ <-]. apply names_refl. }
  destruct (remove_if _ _ _ _) as [[[t1 n1] ev1]|] eqn:Er; [|done]. cbn [mbind option_bind].
  destruct (flow_expire_loop _ _ _ _ _) as [[[t2 n2] ev2]|] eqn:El; [|done]. intros [= <- _ <-].
  eapply names_trans; [by eapply remove_if_names|]. apply IH in El. exact El.
Qed.

Lemma evict_if_names t pred t' n ev : qsr_flow_table_evict_if t pred = Some (t', n, ev) -> keeps_names t t' ev.
Proof.
  unfold qsr_flow_table_evict_if. destruct pred as [pred|]; [|intros [= <- _ <-]; apply names_refl].
  destruct (_ =? 0)%nat; [intros [= <- _ <-]; apply names_refl|].
  generalize (seq 0 (ft_capacity t)) as slots, 0 as e. intros slots. revert t t' n ev. induction slots as [|slot slots IH]; intros t t' n ev e; cbn [flow_evict_loop].
  { intros [= <- _ <-]. apply names_refl. }
  destruct (remove_if _ _ _ _) as [[[t1 n1] ev1]|] eqn:Er; [|done]. cbn [mbind option_bind].
  destruct (flow_evict_loop _ _ _ _) as [[[t2 n2] ev2]|] eqn:El; [|done]. intros [= <- _ <-].
  eapply names_trans; [by eapply remove_if_names|by eapply IH].
Qed.

Lemma free_told t : names t -> told (qsr_flow_table_free t).2.
Proof.
  intros Hn. cbn. unfold names in Hn. induction Hn as [|f l Hf _ IH]; [constructor|]. cbn. apply Forall_app_2; [|done].
  destruct (f_used f); [by apply close_told|constructor].
Qed.

(** ** Lemmas: opening flows *)

(** What the log prints on an event. *)
Definition shown (e : event) : Prop :=
  match e with
  | FlowEvent (OnClose f _) => named f
  | ConnLog line => clean line
  | _ => True
  end.

Lemma told_shown ev : told ev -> Forall shown (FlowEvent <$> ev).
Proof. intros Ht. apply Forall_fmap. eapply list.Forall_impl; [exact Ht|]. by intros []. Qed.

(** The name and the connection ID that [flow_acquire] is given. *)
Definition fit (sni scid : option (list Z)) : Prop :=
  (if sni is Some name then token (cstr name) else True) /\ if scid is Some cid then bytes_ok cid else True.

Lemma metadata_named f sni scid scid_len now : fit sni scid -> named f -> named (flow_set_conn_metadata f sni scid scid_len now).
Proof.
  intros [Hs Hc] [Hn Hb]. split; cbn.
  - destruct sni as [name|]; [|done]. rewrite stored_name. by apply Forall_take.
  - destruct scid as [cid|]; [|done]. destruct (_ && _); [|done]. cbn. apply memcpy_bytes; [done|]. by apply Forall_take.
Qed.

Lemma reuse_named f log backend backend_len now sni scid scid_len : fit sni scid -> named f ->
  named (flow_reuse f log backend backend_len now sni scid scid_len).1 /\
  Forall shown (flow_reuse f log backend backend_len now sni scid scid_len).2.
Proof.
  intros Hfit Hf. unfold flow_reuse. destruct (backend_changed _ _ _); [|by split].
  assert (Hf' : named (flow_set_conn_metadata (flow_set_backend f backend backend_len) sni scid scid_len now)) by (by apply metadata_named).
  split; [exact Hf'|]. destruct log; cbn [snd]; [|constructor].
  constructor; [apply line_clean; [done|by repeat constructor]|]. constructor; [by apply line_clean|constructor].
Qed.

Lemma attempts_names socket n : forall attempt t t' fd ev, socket_attempts socket n attempt t = Some (t', fd, ev) ->
  names t -> names t' /\ Forall shown ev.
Proof.
  assert (Hno : forall t : qsr_flow_table, names t -> names t /\ Forall shown []) by (intros; split; [done|constructor]).
  induction n as [|n IH]; intros attempt t t' fd ev; cbn [socket_attempts]; [intros [= <- _ <-]; apply Hno|].
  destruct (socket attempt); [intros [= <- _ <-] Hn; by repeat constructor| |intros [= <- _ <-]; apply Hno].
  destruct (_ =? _)%nat; [|intros [= <- _ <-]; apply Hno].
  destruct (qsr_flow_table_evict_oldest t) as [[[t1 m] ev1]|] eqn:Ee; [|done]. cbn [mbind option_bind]. intros Hr Hn.
  destruct (evict_names _ _ _ _ Ee Hn) as [Hn1 He1%told_shown]. destruct (m =? 1); [|injection Hr as <- _ <-; by split].
  destruct (socket_attempts _ _ _ _) as [[[t2 fd2] ev2]|] eqn:Es; [|done]. injection Hr as <- _ <-.
  destruct (IH _ _ _ _ _ Es Hn1) as [Hn2 He2]. split; [done|by apply Forall_app_2].
Qed.

Lemma acquire_names socket epoll_add log t client client_len backend backend_len now sni scid scid_len t' r ev :
  flow_acquire socket epoll_add log t client client_len backend backend_len now sni scid scid_len = Some (t', r, ev) ->
  fit sni scid -> names t -> names t' /\ Forall shown ev.
Proof.
  intros Ha Hfit Hn. unfold flow_acquire in Ha. destruct (qsr_flow_table_get _ _ _) as [slot|].
  { destruct (ft_flows t !! slot) as [f|] eqn:Ef; [|done]. cbn [mbind option_bind] in Ha.
    pose proof (reuse_named f log backend backend_len now sni scid scid_len Hfit (names_lookup t slot f Hn Ef)) as [Hf Hev].
    destruct (flow_reuse _ _ _ _ _ _ _ _) as [f' ev']. injection Ha as <- _ <-. split; [|done]. by apply Forall_insert. }
  destruct (flow_socket_open _ _ _) as [[[t1 fd] ev0]|] eqn:Eo; [|done]. cbn [mbind option_bind] in Ha.
  destruct (attempts_names _ _ _ _ _ _ _ Eo Hn) as [Hn1 He1].
  destruct (fd <? 0); [injection Ha as <- _ <-; by split|].
  destruct (qsr_flow_table_put _ _ _ _ _ _ _) as [[[t2 slot] ev1]|] eqn:Ep; [|done]. cbn [mbind option_bind] in Ha.
  destruct (put_names _ _ _ _ _ _ _ _ _ _ Ep Hn1) as [Hn2 He2].
  destruct slot as [slot|]; [|injection Ha as <- _ <-; split; [done|apply Forall_app_2; [done|apply told_shown, Forall_app_2; [done|by repeat constructor]]]].
  set (t3 := ft_set_flows t2 _) in *.
  assert (Hn3 : names t3).
  { unfold names, t3. cbn. apply Forall_alter; [done|]. intros f _ Hf. by apply metadata_named. }
  destruct (epoll_add fd slot); cbn [negb] in Ha.
  - destruct (ft_flows t3 !! slot) as [f|] eqn:Ef; [|done]. injection Ha as <- _ <-. split; [done|].
    apply Forall_app_2; [done|]. apply Forall_app_2; [by apply told_shown|]. destruct log; [|constructor].
    constructor; [|constructor]. apply line_clean; [by eapply names_lookup|done].
  - destruct (qsr_flow_table_remove t3 slot) as [[t4 ev2]|] eqn:Er; [|done]. injection Ha as <- _ <-.
    destruct (flow_remove_names _ _ _ _ Er Hn3) as [Hn4 He4]. split; [done|]. apply Forall_app_2; [done|]. apply told_shown. by apply Forall_app_2.
Qed.
End flows.

(** ** Lemmas: pending Initials *)

Lemma load_cid_bytes p n l : bytes_ok (p_buf p) -> load_cid p n = Ok l -> bytes_ok l.
Proof.
  intros Hb. unfold load_cid. destruct (0 <? n); [|intros [= <-]; apply bytes_ok_zeros].
  destruct (load_bytes p n) as [bs| |] eqn:El; cbn [mbind outcome_bind]; intros [= <-].
  apply memcpy_bytes; [apply bytes_ok_zeros|by eapply load_bytes_ok].
Qed.

Lemma initial_scid_bytes data len i : bytes_ok (p_buf data) -> qsr_quic_parse_initial data len = Ok i -> bytes_ok (i_scid i).
Proof.
  intros Hb Hp. unfold qsr_quic_parse_initial in Hp. inv_ok. cbn. apply memcpy_bytes; [apply bytes_ok_zeros|]. apply Forall_take.
  match goal with E : qsr_quic_parse_long_header _ _ = Ok _ |- _ => unfold qsr_quic_parse_long_header in E end. inv_ok. cbn.
  by eapply (load_cid_bytes (ptr_add data _)).
Qed.

(** The connection IDs of the entries are bytes. *)
Definition scids_ok (t : qsr_pending_initial_table) : Prop := Forall (fun e => bytes_ok (pe_scid e)) (pt_entries t).

Lemma pending0_scid : bytes_ok (pe_scid pending0).
Proof. apply bytes_ok_zeros. Qed.

Lemma pending_new_scid source source_len i now : bytes_ok (i_scid i) -> bytes_ok (pe_scid (pending_new source source_len i now)).
Proof. intros Hi. apply memcpy_bytes; [apply bytes_ok_zeros|by apply Forall_take]. Qed.

Lemma get_scids t source source_len i now : bytes_ok (i_scid i) -> scids_ok t -> scids_ok (pending_initial_get t source source_len i now).1.
Proof.
  intros Hi Ht. unfold pending_initial_get. destruct (find_entry _ _ _) as [j|]; cbn; [by apply Forall_alter|].
  destruct (find_entry _ _ _) as [j|]; cbn; apply Forall_insert; try done; by apply pending_new_scid.
Qed.

Lemma append_scid e packet packet_len : pe_scid (pending_initial_append_packet e packet packet_len) = pe_scid e.
Proof. unfold pending_initial_append_packet. repeat split_if; done. Qed.

Lemma add_scids t entry packet packet_len crypto : scids_ok t -> scids_ok (pending_add t entry packet packet_len crypto).
Proof. intros Ht. apply Forall_alter; [done|]. intros e _ He. cbn. by rewrite append_scid. Qed.

Lemma remove_scids t entry : scids_ok t -> scids_ok (pending_initial_remove t entry).
Proof. intros Ht. unfold pending_initial_remove. destruct (_ <? _)%nat; [|done]. apply Forall_insert; [done|apply pending0_scid]. Qed.

Lemma expire_scids t now : scids_ok t -> scids_ok (pending_initial_expire t now).
Proof. intros Ht. apply Forall_fmap. eapply list.Forall_impl; [exact Ht|]. intros e He. cbn. destruct (_ && _); [apply pending0_scid|done]. Qed.

Lemma entry_scid t i : scids_ok t -> bytes_ok (pe_scid (default pending0 (pt_entries t !! i))).
Proof. intros Ht. destruct (pt_entries t !! i) as [e|] eqn:Ee; [exact (Forall_lookup_1 _ _ _ _ Ht Ee)|apply pending0_scid]. Qed.

Section dataplane.
Context `{KeyedHash} `{Crypto}.

(** A name that selects a route is a hostname. *)
Lemma routed_token config crypto backend backend_len sni : route_crypto_stream config crypto = Ok (backend, backend_len, sni) -> token (cstr sni).
Proof.
  unfold route_crypto_stream. destruct (_ =? 0); [done|]. destruct (qsr_tls_client_hello_sni _ _) as [name| |]; cbn [mbind outcome_bind]; [|done..].
  destruct (qsr_route_table_lookup _ _) as [j|] eqn:El; [|done]. destruct (negb _); [done|]. intros [= _ _ <-].
  apply hostname_token. unfold qsr_route_table_lookup in El. rewrite normalize_spec in El. by destruct (hostname_ok _).
Qed.

Lemma route_datagram_names config t packet packet_len i source source_len now : bytes_ok (i_scid i) -> scids_ok t ->
  let '(t', _, _, routed) := route_initial_datagram config t packet packet_len i source source_len now in
  scids_ok t' /\ forall backend backend_len sni, routed = Ok (backend, backend_len, sni) -> token (cstr sni).
Proof.
  intros Hi Ht. unfold route_initial_datagram. destruct (qsr_quic_decrypt_initial _ _ _) as [plaintext| |]; [|by split..].
  destruct (qsr_quic_extract_crypto _ _ _) as [crypto [| |]]; [|by split..].
  pose proof (get_scids t source source_len i now Hi Ht) as Hg. destruct (pending_initial_get _ _ _ _ _) as [t1 entry].
  split; [by apply add_scids|]. intros backend backend_len sni. apply routed_token.
Qed.

(** ** Lemmas: the handlers *)

Definition loggable (dp : qsr_dataplane) : Prop := names (dp_flows dp) /\ scids_ok (dp_pending_initials dp).

(** What a step promises if it returns. *)
Definition logs (dp dp' : qsr_dataplane) (ev : list event) : Prop := loggable dp -> loggable dp' /\ Forall shown ev.

Lemma logs_refl dp : logs dp dp [].
Proof. intros Hl. split; [done|constructor]. Qed.

Lemma logs_trans dp1 dp2 dp3 ev1 ev2 : logs dp1 dp2 ev1 -> logs dp2 dp3 ev2 -> logs dp1 dp3 (ev1 ++ ev2).
Proof. intros H1 H2 Hl. destruct (H1 Hl) as [Hl1 He1], (H2 Hl1) as [Hl2 He2]. split; [done|by apply Forall_app_2]. Qed.

Lemma send_events_shown pending runs : Forall shown (send_events pending runs).
Proof. apply Forall_fmap, list.Forall_forall. by intros. Qed.

Lemma enqueue_logs dp fd packet packet_len dest dest_len :
  logs dp (dp_enqueue dp fd packet packet_len dest dest_len).1 (dp_enqueue dp fd packet packet_len dest dest_len).2.
Proof. unfold dp_enqueue. destruct (sender_enqueue _ _ _ _ _ _) as [s runs]. intros Hl. split; [exact Hl|apply send_events_shown]. Qed.

Lemma flush_logs dp : logs dp (dp_flush dp).1 (dp_flush dp).2.
Proof. unfold dp_flush. destruct (sender_flush _) as [s runs]. intros Hl. split; [exact Hl|apply send_events_shown]. Qed.

Lemma enqueue_pending_logs fd entry backend backend_len l : forall dp,
  logs dp (enqueue_pending dp fd entry backend backend_len l).1 (enqueue_pending dp fd entry backend backend_len l).2.
Proof.
  induction l as [|i l IH]; intros dp; cbn [enqueue_pending]; [apply logs_refl|]. cbv zeta.
  match goal with |- context [dp_enqueue dp fd ?p ?n backend backend_len] => pose proof (enqueue_logs dp fd p n backend backend_len) as He;
    destruct (dp_enqueue dp fd p n backend backend_len) as [dp1 ev1] end.
  specialize (IH dp1). destruct (enqueue_pending dp1 _ _ _ _ _) as [dp2 ev2]. by eapply logs_trans.
Qed.

Lemma flush_pending_logs dp fd entry backend backend_len :
  logs dp (flush_pending dp fd entry backend backend_len).1 (flush_pending dp fd entry backend backend_len).2.
Proof.
  unfold flush_pending. cbv zeta. match goal with |- context [enqueue_pending dp fd entry backend backend_len ?l] =>
    pose proof (enqueue_pending_logs fd entry backend backend_len l dp) as He; destruct (enqueue_pending dp fd entry backend backend_len l) as [dp1 ev1] end.
  pose proof (flush_logs dp1) as Hf. destruct (dp_flush dp1) as [dp2 ev2]. cbn [fst snd] in *.
  intros Hl. destruct (logs_trans _ _ _ _ _ He Hf Hl) as [[Hn Hs] Hev]. split; [|done]. split; [exact Hn|by apply remove_scids].
Qed.

Lemma acquire_logs k dp client client_len backend backend_len now sni scid scid_len dp' r ev :
  dp_flow_acquire k dp client client_len backend backend_len now sni scid scid_len = Some (dp', r, ev) -> fit sni scid -> logs dp dp' ev.
Proof.
  unfold dp_flow_acquire. destruct (flow_acquire _ _ _ _ _ _ _ _ _ _ _ _) as [[[t r1] ev1]|] eqn:Ea; [|done]. intros [= <- _ <-] Hfit [Hn Hs].
  destruct (acquire_names _ _ _ _ _ _ _ _ _ _ _ _ _ _ _ Ea Hfit Hn) as [Hn' He]. done.
Qed.

Lemma forward_logs k dp session packet packet_len source source_len now dp' ev :
  forward_packet k dp session packet packet_len source source_len now = Some (dp', ev) -> logs dp dp' ev.
Proof.
  unfold forward_packet. cbv zeta. set (dp0 := dp_set_sessions dp _).
  destruct (dp_flow_acquire k dp0 _ _ _ _ _ _ _ _) as [[[dp1 r] ev1]|] eqn:Ea; [|done]. cbn [mbind option_bind].
  pose proof (acquire_logs _ _ _ _ _ _ _ _ _ _ _ _ _ Ea (conj I I)) as H1. destruct r as [slot|]; [|by intros [= <- <-]].
  destruct (learn_client_long_header_cids _ _ _ _ _ _ _ _) as [t|]; [|done]. cbn [mbind option_bind].
  match goal with |- context [dp_enqueue ?x ?fd ?p ?n ?d ?l] => pose proof (enqueue_logs x fd p n d l) as He; destruct (dp_enqueue x fd p n d l) as [dp2 ev2] end.
  intros [= <- <-]. exact (logs_trans dp0 dp1 dp2 ev1 ev2 H1 He).
Qed.

Lemma open_logs k dp packet packet_len source source_len now key cid_key entry backend backend_len sni dp' ev :
  open_connection k dp packet packet_len source source_len now key cid_key entry backend backend_len sni = Some (dp', ev) ->
  token (cstr sni) -> logs dp dp' ev.
Proof.
  intros Ho Hsni Hl. revert Ho. unfold open_connection. cbv zeta.
  destruct (dp_flow_acquire k dp _ _ _ _ _ _ _ _) as [[[dp1 r] ev1]|] eqn:Ea; [|done]. cbn [mbind option_bind].
  assert (H1 : loggable dp1 /\ Forall shown ev1).
  { apply (acquire_logs _ _ _ _ _ _ _ _ _ _ _ _ _ Ea); [|done]. split; [done|]. destruct entry as [i|]; cbn; [|done]. apply entry_scid, Hl. }
  destruct r as [slot|]; [|by intros [= <- <-]].
  destruct (qsr_session_table_put_owned _ _ _ _ _ _ _) as [[t1 st]|]; [|done]. cbn [mbind option_bind].
  destruct (negb _); [by intros [= <- <-]|]. destruct (put_alias _ _ _ _ _ _ _) as [t2|]; [|done]. cbn [mbind option_bind].
  destruct (learn_client_long_header_cids _ _ _ _ _ _ _ _) as [t3|]; [|done]. cbn [mbind option_bind].
  destruct entry as [i|]; [|by intros [= <- <-]].
  match goal with |- context [flush_pending ?x ?fd i ?d ?l] => pose proof (flush_pending_logs x fd i d l) as Hf; destruct (flush_pending x fd i d l) as [dp2 ev2] end.
  intros [= <- <-]. destruct (Hf (proj1 H1)) as [Hl2 He2]. split; [exact Hl2|]. apply Forall_app_2; [apply H1|done].
Qed.

Lemma unknown_logs k dp packet packet_len source source_len now key initial dp' ev :
  handle_unknown k dp packet packet_len source source_len now key initial = Some (dp', ev) ->
  (forall i, initial = Some i -> bytes_ok (i_scid i)) -> logs dp dp' ev.
Proof.
  intros Hh Hi Hl. revert Hh. unfold handle_unknown. destruct (_ <? _); [intros [= <- <-]; by apply logs_refl|].
  destruct initial as [i|]; [|intros [= <- <-]; by apply logs_refl].
  pose proof (route_datagram_names (dp_config dp) (dp_pending_initials dp) packet packet_len i source source_len now (Hi i eq_refl) (proj2 Hl)) as Hr.
  destruct (route_initial_datagram _ _ _ _ _ _ _ _) as [[[t entry] cid_key] routed]. destruct Hr as [Ht Hsni].
  assert (Hl1 : loggable (dp_set_pending dp t)) by (split; [apply Hl|exact Ht]). cbv zeta.
  destruct routed as [[[backend backend_len] sni]| |]; [|intros [= <- <-]; split; [done|constructor]|done].
  intros Ho. exact (open_logs _ _ _ _ _ _ _ _ _ _ _ _ _ _ _ Ho (Hsni _ _ _ eq_refl) Hl1).
Qed.

Context (aes_128_ctr : list Z -> list Z -> list Z -> option (list Z)).

Lemma find_session_initial config t packet packet_len key now t' r initial :
  find_session aes_128_ctr config t packet packet_len key now = Some (t', r, initial) ->
  attempt (qsr_quic_parse_initial packet packet_len) = Some initial.
Proof.
  unfold find_session. destruct (lookup_encoded_cid _ _ _ _ _ _ _) as [[t1 r1]|]; [|done]. cbn [mbind option_bind].
  destruct (attempt (qsr_quic_parse_initial packet packet_len)) as [[i|]|]; [| |done]; cbn [mbind option_bind]; [by intros [= _ _ <-]|].
  destruct (other_session _ _ _ _ _ _ _) as [[t2 r2]|]; [|done]. by intros [= _ _ <-].
Qed.

Lemma fast_path_logs dp slot packet packet_len now : logs dp (fast_path dp slot packet packet_len now).1 (fast_path dp slot packet packet_len now).2.
Proof.
  unfold fast_path. cbv zeta. match goal with |- context [dp_enqueue ?x ?fd ?p ?n ?d ?l] => pose proof (enqueue_logs x fd p n d l) as He end.
  intros [Hn Hs]. apply He. split; [|exact Hs]. by apply Forall_alter.
Qed.

Lemma client_logs k dp packet packet_len source source_len now dp' ev : bytes_ok (p_buf packet) ->
  handle_client_packet aes_128_ctr k dp packet packet_len source source_len now = Some (dp', ev) -> logs dp dp' ev.
Proof.
  intros Hb. unfold handle_client_packet. destruct (fast_flow _ _ _ _ _) as [[slot|]|]; [| |done]; cbn [mbind option_bind].
  - pose proof (fast_path_logs dp slot packet packet_len now) as Hf. intros Hh. injection Hh as Hh. by rewrite Hh in Hf.
  - cbv zeta. destruct (find_session _ _ _ _ _ _ _) as [[[t session] initial]|] eqn:Ef; [|done]. cbn [mbind option_bind].
    assert (Hsame : loggable dp -> loggable (dp_set_sessions dp t)) by done.
    destruct session as [i|]; intros Hh Hl; [by apply (forward_logs _ _ _ _ _ _ _ _ _ _ Hh), Hsame|].
    apply (unknown_logs _ _ _ _ _ _ _ _ _ _ _ Hh); [|by apply Hsame]. intros j ->. apply find_session_initial in Ef. unfold attempt in Ef.
    destruct (qsr_quic_parse_initial packet packet_len) as [x| |] eqn:Ep; [|done..]. injection Ef as ->. by eapply initial_scid_bytes.
Qed.

Lemma backend_logs dp slot packet packet_len now dp' ev : handle_backend_packet dp slot packet packet_len now = Some (dp', ev) -> logs dp dp' ev.
Proof.
  unfold handle_backend_packet. cbv zeta. destruct (learn_backend_scid _ _ _ _ _ _ _ _) as [t|]; [|done]. cbn [mbind option_bind].
  match goal with |- context [dp_enqueue ?x ?fd ?p ?n ?d ?l] => pose proof (enqueue_logs x fd p n d l) as He; destruct (dp_enqueue x fd p n d l) as [dp2 ev2] end.
  intros [= <- <-] [Hn Hs]. apply He. split; [|exact Hs]. by apply Forall_alter.
Qed.

Lemma sweep_logs dp now dp' ev : run_expiry_sweeps dp now = Some (dp', ev) -> logs dp dp' ev.
Proof.
  unfold run_expiry_sweeps. cbv zeta. destruct (qsr_session_table_expire_incremental _ _ _ _ _) as [[t n1]|]; [|done]. cbn [mbind option_bind].
  destruct (qsr_flow_table_expire_incremental _ _ _ _) as [[[fl n2] fev]|] eqn:Ef; [|done]. intros [= <- <-] [Hn Hs].
  destruct (expire_names _ _ _ _ _ _ _ Ef Hn) as [Hn' Ht]. split; [|by apply told_shown]. split; [done|by apply expire_scids].
Qed.

Context `{Yaml} (open : list Z -> config_source) (getaddrinfo : list Z -> Z -> option (list Z)).

Lemma reload_logs dp r ev lines : reload_from_path open getaddrinfo (dp_runtime dp) = Some (r, ev, lines) ->
  logs dp (dp_set_runtime dp r) (FlowEvent <$> ev).
Proof.
  intros Hr [Hn Hs]. assert (Hsplit : names (run_flows r) /\ told ev); [|by split; [split|apply told_shown]; try apply Hsplit].
  revert Hr. unfold reload_from_path. destruct (qsr_config_load _ _) as [c st]. destruct (negb _); [intros [= <- <- _]; by apply names_refl|].
  destruct (qsr_route_table_resolve _ _) as [routes st2]. destruct (negb _); [intros [= <- <- _]; by apply names_refl|].
  destruct (qsr_session_table_evict_if _ _) as [[t n]|]; [|done]. cbn [mbind option_bind].
  destruct (qsr_flow_table_evict_if _ _) as [[[fl m] fev]|] eqn:Ef; [|done]. intros [= <- <- _]. exact (evict_if_names _ _ _ _ _ Ef Hn).
Qed.
End dataplane.

(** ** The loop *)

Section loop.
Context `{KeyedHash} `{Crypto} `{crypto_output : !CryptoOutput} (aes_128_ctr : list Z -> list Z -> list Z -> option (list Z))
  (k : qsr_dataplane -> kernel) (fresh : forall dp, dp_safe dp -> kernel_fresh (k dp) dp).
Context `{Yaml} `{yaml_laws : !YamlLaws} (open : list Z -> config_source) (getaddrinfo : list Z -> Z -> option (list Z)).

(** The weak invariant with the text in the tables, and events fit to print. *)
#[local] Instance log_regime : Regime := {|
  rg_ok dp := dp_safe dp /\ loggable dp; rg_grown _ _ _ := True; rg_roomy _ _ := True; rg_event := shown |}.

(** A step under the weak invariant that logs what is fit. *)
Lemma ran_logs m dp dp' ev : ran (H0 := weak_regime) k m dp dp' ev -> loggable dp -> logs dp dp' ev -> ran k m dp dp' ev.
Proof using. intros [? ? ? ? ? ? _] Hl Hlog. destruct (Hlog Hl) as [? ?]. by split. Qed.

Lemma log_laws : RegimeLaws aes_128_ctr k open getaddrinfo.
Proof using fresh crypto_output yaml_laws.
  pose proof (weak_laws aes_128_ctr k fresh open getaddrinfo) as weak. split; try done; cbn [rg_ok log_regime].
  - intros dp [Hs _]. by apply ds_flows.
  - intros dp [Hs _]. by apply ds_sender.
  - intros dp s [Hs Hl] Hw Hq. split; [|exact Hl]. apply set_sender_safe; [done..|by rewrite Hq].
  - intros flow dp packet packet_len source source_len now [Hs Hl] Hlive [Hid _] Hr Hb Hsz Hsl Hv.
    destruct (handle_packet_safe aes_128_ctr k fresh flow dp packet packet_len source source_len now Hs Hlive (conj Hid I) Hr Hb Hsz Hsl Hv)
      as (dp' & ev & He & Hran & Hl'). exists dp', ev. split_and!; [done| |done]. apply ran_logs; [done..|].
    destruct flow as [slot|]; [by eapply backend_logs|by eapply client_logs].
  - intros dp now [Hs Hl]. destruct (rg_sweep (RegimeLaws := weak) dp now Hs) as (dp' & ev & He & Hran & Hq).
    exists dp', ev. split_and!; [done| |done]. apply ran_logs; [done..|by eapply sweep_logs].
  - intros dp [Hs Hl]. destruct (rg_reload (RegimeLaws := weak) dp Hs) as (r & ev & lines & He & Hran).
    exists r, ev, lines. split; [done|]. apply ran_logs; [done..|by eapply reload_logs].
Qed.
End loop.

(** The lines printed on an event, at time [now]. *)
Definition lines_of (log : bool) (now : Z) (e : event) : list conn_line :=
  match e with
  | FlowEvent (OnClose flow reason) => conn_close_callback log flow reason now
  | ConnLog line => [line]
  | _ => []
  end.

Lemma shown_lines log now ev line : Forall shown ev -> line ∈ ev ≫= lines_of log now -> clean line.
Proof.
  intros Hs (e & Hl & He)%list_elem_of_bind. rewrite list.Forall_forall in Hs. specialize (Hs e He).
  destruct e as [fd|[f reason|]|l|]; cbn in Hl, Hs; try by apply elem_of_nil in Hl.
  - pose proof (callback_clean log f reason now Hs) as Hc. rewrite list.Forall_forall in Hc. by apply Hc.
  - by apply list_elem_of_singleton in Hl as ->.
Qed.

Section start.
Context `{KeyedHash}.

(** No flow is open, so each of them is reset. *)
Lemma no_fds_names t : flow_wf t -> fds (ft_flows t) = [] -> names t.
Proof.
  intros Hwf Hfds. apply Forall_lookup. intros i f Hf. pose proof (fw_flow t Hwf i f Hf) as Hw.
  destruct (f_used f) eqn:Hu; [|rewrite Hw; apply unused_named]. exfalso. apply (not_elem_of_nil (f_fd f)). rewrite <- Hfds.
  apply list_elem_of_omap. exists f. split; [by eapply list_elem_of_lookup_2|by rewrite Hu].
Qed.

(** Nothing a client chose is in the tables of a dataplane just started. *)
Lemma fresh_loggable config dp : fresh_start config dp -> loggable dp.
Proof.
  intros Hst. split; [apply no_fds_names; [apply ok_flows_wf|]; apply Hst|].
  unfold scids_ok. rewrite (st_pending _ _ Hst). apply Forall_replicate, pending0_scid.
Qed.

Lemma stop_shown dp epoll_fd : loggable dp -> Forall shown (udp_stop dp epoll_fd).
Proof.
  intros Hl. unfold udp_stop. pose proof (flush_logs dp Hl) as Hf. destruct (dp_flush dp) as [dp' ev]. cbn [fst snd] in Hf.
  destruct Hf as [[Hn _] He]. apply Forall_app_2; [by repeat constructor|]. apply Forall_app_2; [done|].
  apply Forall_app_2; [|by repeat constructor]. apply told_shown. pose proof (free_told _ Hn) as Ht. unfold qsr_runtime_free.
  destruct (0 <=? _); apply Forall_app_2; repeat constructor; exact Ht.
Qed.
End start.

(** ** Properties *)

(** C11: no client can forge the connection log. A dataplane that has started
    serves whatever the kernel delivers, up to its shut-down - Initials with
    any name and any connection ID, reroutes, reloads, evictions, failing
    system calls - and every line it logs on the way, be it for a flow opened,
    rerouted or closed for whatever reason, has as server name, connection ID
    and reason printable characters without spaces. So it is one line of text
    that reads back as what was logged ([conn_text_exact]), with the name a
    client sent or a question mark in its own field. *)
Theorem log_lines_clean `{KeyedHash} `{Crypto} `{!CryptoOutput} `{Yaml} `{!YamlLaws} aes_128_ctr k open getaddrinfo
    o raw config path turns dp epoll_fd opened ev0 :
  (forall dp, dp_safe dp -> kernel_fresh (k dp) dp) -> (forall n sz, os_calloc o n sz = true -> n * sz < 2 ^ 64) ->
  live_config config -> udp_start getaddrinfo o raw config path = inl (dp, epoll_fd, opened, ev0) ->
  Forall (fun t => wait_ok t.2) turns -> 1 + turns_count turns < 2 ^ 64 ->
  exists dp' ev, main_loop aes_128_ctr k open getaddrinfo dp (os_started o) turns = Some (dp', ev) /\
    forall log now line, line ∈ (ev ++ udp_stop dp' epoll_fd) ≫= lines_of log now -> clean line.
Proof.
  intros Hk Hcalloc Hlive Hs Ht Hn. pose proof (udp_start_spec getaddrinfo o raw config path Hcalloc Hlive) as Hst. rewrite Hs in Hst.
  destruct Hst as (keep & (Hst & _) & _). cbn [fst] in Hst. pose proof (fresh_loggable config dp Hst) as Hl. destruct Hst as [Hok Hq _ _ _ Hid _ _].
  destruct (main_loop_total (laws := log_laws aes_128_ctr k Hk open getaddrinfo) _ _ _ _ turns Ht dp (os_started o)
    (conj (ok_safe dp Hok) Hl) Hq) as (dp' & ev & He & Hran & _); [split; [lia|done]|].
  exists dp', ev. split; [done|]. intros log now line. apply shown_lines. apply Forall_app_2; [apply Hran|apply stop_shown, Hran].
Qed.

(** ** A run that logs a connection *)

Section examples.
#[local] Instance demo_hash_keyed : KeyedHash := siphash_keyed (zeros 16).
Local Existing Instances plain_crypto plain_output demo_yaml demo_yaml_laws.

(** The route of the demo name, with the connection log on. *)
Definition demo_log_config : qsr_config :=
  set_log_connections (demo_run_config (default qsr_route_table_init (configure [demo_entry]))) true.

Lemma demo_log_live : live_config demo_log_config.
Proof.
  assert (Hlive : forall t, route_wf t -> live_config (set_log_connections (demo_run_config t) true)).
  { intros t Ht. destruct demo_live as [? ? _ _ ?]. by split. }
  apply Hlive. destruct (configure [demo_entry]) as [t|] eqn:Et; [|apply init_wf_routes].
  by apply (configure_spec [demo_entry] ltac:(by repeat constructor) t Et).
Qed.

(** One datagram: the Initial of the demo name. *)
Definition demo_hello_message : message := {|
  m_buffer := demo_datagram ++ zeros (QSR_UDP_RECV_BUFFER_SIZE - 1200); m_len := 1200; m_trunc := false; m_control := [];
  m_source := demo_addr 1; m_source_len := 16 |}.

Definition demo_log_turns : list (list Z * wait_result) :=
  [([], Ready 10 [(QSR_EPOLL_DATA_MAIN, fun round => if (round =? 0)%nat then Received 5 [demo_hello_message] else RecvFailed false)])].

Lemma demo_log_turns_ok : Forall (fun t => wait_ok t.2) demo_log_turns.
Proof.
  constructor; [|constructor]. constructor; [|constructor]. intros i. cbn. destruct (i =? 0)%nat; [|done].
  split; [vm_compute; lia|]. constructor; [|constructor]. split; [z_concrete|bytes_concrete|cbn; lia|repeat constructor; cbn; lia|z_concrete|cbn; lia|reflexivity].
Qed.

(** What the log shows of a line: the name, the connection ID and the end. *)
Definition line_summary (line : conn_line) : list Z * list Z * option (list Z * Z) := (cl_sni line, cl_scid line, cl_close line).

(** Started with the route and stopped after the datagram, the router logs the
    connection opened and, 15 seconds later, closed; both lines are clean. *)
Lemma log_lines_clean_witness : exists dp epoll_fd opened ev0 dp' ev,
  udp_start demo_getaddrinfo demo_os demo_raw demo_log_config None = inl (dp, epoll_fd, opened, ev0) /\
  main_loop plain_ctr next_kernel demo_open demo_getaddrinfo dp (os_started demo_os) demo_log_turns = Some (dp', ev) /\
  line_summary <$> ((ev ++ udp_stop dp' epoll_fd) ≫= lines_of true 20) =
    [(str "a.b", str "-", None); (str "a.b", str "-", Some (str "shutdown", 15))] /\
  Forall clean ((ev ++ udp_stop dp' epoll_fd) ≫= lines_of true 20).
Proof.
  assert (Hrun : match udp_start demo_getaddrinfo demo_os demo_raw demo_log_config None with
    | inl (dp, epoll_fd, _, _) => (fun r => line_summary <$> ((r.2 ++ udp_stop r.1 epoll_fd) ≫= lines_of true 20)) <$>
        main_loop plain_ctr next_kernel demo_open demo_getaddrinfo dp (os_started demo_os) demo_log_turns
    | inr _ => None end = Some [(str "a.b", str "-", None); (str "a.b", str "-", Some (str "shutdown", 15))]) by (vm_compute; reflexivity).
  destruct (udp_start demo_getaddrinfo demo_os demo_raw demo_log_config None) as [[[[dp epoll_fd] opened] ev0]|x] eqn:Es; [|done].
  destruct (log_lines_clean plain_ctr next_kernel demo_open demo_getaddrinfo demo_os demo_raw demo_log_config None demo_log_turns dp epoll_fd opened ev0
    (fun dp Hs => next_kernel_fresh _ dp (ds_flows dp Hs)) demo_small_ok demo_log_live Es demo_log_turns_ok eq_refl) as (dp' & ev & He & Hc).
  rewrite He in Hrun. injection Hrun as Hrun.
  exists dp, epoll_fd, opened, ev0, dp', ev. split; [reflexivity|]. split; [exact He|]. split; [exact Hrun|].
  apply list.Forall_forall. intros line. apply Hc.
Defined.
End examples.
