(* ===== verification/Portable.v ===== *)
(** * The portable loop

    [src/udp.c] on a platform without epoll: [sendto] in the place of
    [sendmmsg] (the second branch of [sender_flush]), [poll] over the listening
    socket and the socket of every live flow, [recvfrom] one datagram at a time,
    and [qsr_udp_run] around it. There is no inotify: [qsr_runtime_poll] does
    nothing, and the runtime has no watch. The handlers are those of the other
    platform; a call of [sendto] is the event of a run of one datagram. *)

From stdpp Require Import gmap.
From S2P Require Import Prelude Hash QuicInitial SessionKey Probe SessionTable SessionSafety FlowTable QuicFrames Hostname TlsClientHello RouteTable CidCodec Config QuicCrypto Runtime Sender Process Pending Upstream Routing Dataplane DataplaneSafety EventLoop Startup.
#[local] Open Scope Z_scope.

(** ** Sending *)

(** [for (i = 0; i < count; i++) sendto(items[i].fd, ...)] *)
Definition sender_flush_sendto (s : qsr_udp_sender) : qsr_udp_sender * list send_batch :=
  if (sd_count s =? 0)%nat then (s, [])
  else ({| sd_items := sd_items s; sd_count := 0 |}, (fun i => (it_fd (item_at s i), [item_at s i])) <$> seq 0 (sd_count s)).

(** The events of a handler when every flush goes out with [sendto]. *)
Definition sendto_events (ev : list event) : list event :=
  ev ≫= fun e => if e is SendRun fd l then (fun d => SendRun fd [d]) <$> l else [e].

(** ** Receiving *)

(** What one [recvfrom] gives: nothing (an error or an empty datagram), or the
    buffer, the length, the source and its length. *)
Inductive recvfrom_result := RecvNothing | RecvDatagram (packet : list Z) (received : Z) (source : list Z) (source_len : Z).

(** What a socket has to read, for one that is readable. *)
Abbreviation readable_socket := (option (nat -> recvfrom_result)).

(** What [poll] gives: an error, or the clock and the sockets of the set in its order. *)
Inductive poll_result := PollFailed (interrupted : bool) | Polled (now : Z) (revents : list readable_socket).

(** [pfds[p].revents & POLLIN] *)
Definition revents_at (revents : list readable_socket) (p : nat) : readable_socket := default None (revents !! p).

(** The sockets of the live flows, with their slots, in the order of the slots. *)
Definition poll_set (flows : qsr_flow_table) : list (nat * Z) :=
  omap (fun slot => flow ← qsr_flow_table_slot flows slot; Some (slot, f_fd flow)) (seq 0 (ft_capacity flows)).

Section portable.
Context `{KeyedHash} `{Crypto} (aes_128_ctr : list Z -> list Z -> list Z -> option (list Z)) (k : qsr_dataplane -> kernel).

(** [for (i = 0; i < QSR_UDP_BATCH_SIZE; i++)]: [n] reads left, of the listening socket or of a flow's. *)
Fixpoint read_loop (flow : option nat) (recv : nat -> recvfrom_result) (now : Z) (n i : nat) (dp : qsr_dataplane) :
    option (qsr_dataplane * list event) :=
  match n with
  | O => Some (dp, [])
  | S n =>
      match recv i with
      | RecvNothing => Some (dp, [])
      | RecvDatagram packet received source source_len =>
          '(dp, ev) ← handle_packet aes_128_ctr k flow dp (Ptr packet 0) received source source_len now;
          let '(dp, ev') := dp_flush dp in
          '(dp, ev'') ← read_loop flow recv now n (i + 1) dp;
          Some (dp, (ev ++ ev') ++ ev'')
      end
  end.

(** [for (p = 1; p < nfds; p++)]: a slot is read when it still has the socket that was polled. *)
Fixpoint poll_flows (polled : list (nat * Z)) (p : nat) (revents : list readable_socket) (now : Z)
    (dp : qsr_dataplane) : option (qsr_dataplane * list event) :=
  match polled with
  | [] => Some (dp, [])
  | (slot, fd) :: polled =>
      '(dp, ev) ←
        match revents_at revents p with
        | None => Some (dp, [])
        | Some recv =>
            match qsr_flow_table_slot (dp_flows dp) slot with
            | None => Some (dp, [])
            | Some flow => if negb (f_fd flow =? fd) then Some (dp, []) else read_loop (Some slot) recv now QSR_UDP_BATCH_SIZE 0 dp
            end
        end;
      '(dp, ev') ← poll_flows polled (p + 1) revents now dp;
      Some (dp, ev ++ ev')
  end.

(** One turn: the dataplane, [last_expire], whether the loop goes on, and the events. *)
Definition poll_turn (dp : qsr_dataplane) (last_expire : Z) (wait : poll_result) : option (qsr_dataplane * Z * bool * list event) :=
  let polled := poll_set (dp_flows dp) in
  match wait with
  | PollFailed interrupted => Some (dp, last_expire, interrupted, [])
  | Polled now revents =>
      '(dp, ev1) ← match revents_at revents 0 with Some recv => read_loop None recv now QSR_UDP_BATCH_SIZE 0 dp | None => Some (dp, []) end;
      '(dp, ev2) ← poll_flows polled 1 revents now dp;
      let '(dp, ev3) := dp_flush dp in
      if QSR_EXPIRE_SWEEP_INTERVAL_SECONDS <=? now - last_expire then
        '(dp, ev4) ← run_expiry_sweeps dp now;
        Some (dp, now, true, sendto_events (ev1 ++ ev2 ++ ev3 ++ ev4))
      else Some (dp, last_expire, true, sendto_events (ev1 ++ ev2 ++ ev3))
  end.

(** [while (!g_stop)] *)
Fixpoint poll_loop (dp : qsr_dataplane) (last_expire : Z) (turns : list poll_result) : option (qsr_dataplane * list event) :=
  match turns with
  | [] => Some (dp, [])
  | wait :: turns =>
      '(dp, last_expire, go_on, ev) ← poll_turn dp last_expire wait;
      if go_on : bool then
        '(dp, ev') ← poll_loop dp last_expire turns;
        Some (dp, ev ++ ev')
      else Some (dp, ev)
  end.
End portable.

(** ** Start-up and shut-down *)

(** The options of a listening socket are set without a look at the result. *)
Fixpoint bind_loop_portable (o : os) (n i : nat) : Z * list Z * list flow_event :=
  match n with
  | O => (-1, [], [])
  | S n =>
      let fd := os_socket o i in
      if fd <? 0 then bind_loop_portable o n (i + 1)
      else if os_bind o i then (fd, [fd], [])
      else let '(r, opened, ev) := bind_loop_portable o n (i + 1) in (r, fd :: opened, CloseFd fd :: ev)
  end.

(** Behind [bind]; [poll_arrays] is whether the arrays of the poll set can be allocated. *)
Definition start_polling (o : os) (poll_arrays : bool) (r : qsr_runtime) (fd : Z) (opened : list Z) (ev : list flow_event) :
    start_result qsr_dataplane :=
  if fd <? 0 then start_failed r QSR_ERR_INVALID opened ev else
  if negb (bool_decide (set_nonblocking (os_getfl o) (os_setfl o) = QSR_OK)) then start_failed r QSR_ERR_INVALID opened (ev ++ [CloseFd fd]) else
  if negb (os_calloc_pending o) then start_failed r QSR_ERR_FULL opened (ev ++ [CloseFd fd]) else
  let r := run_set_flows r (ft_set_on_close (run_flows r) true) in
  let dp := dp_start r fd in
  if negb poll_arrays then start_failed r QSR_ERR_FULL opened (ev ++ [CloseFd fd]) else
  inl (dp, opened, ev).

(** Behind the loop. *)
Definition poll_stop (dp : qsr_dataplane) : list event :=
  let '(dp, ev) := dp_flush dp in
  sendto_events ev ++ (FlowEvent <$> (qsr_runtime_free (dp_runtime dp)).2) ++ [FlowEvent (CloseFd (dp_main_fd dp))].

Section run.
Context `{KeyedHash} `{Crypto} `{Yaml} (aes_128_ctr : list Z -> list Z -> list Z -> option (list Z)) (k : qsr_dataplane -> kernel).
Context (getaddrinfo : list Z -> Z -> option (list Z)).

(** The runtime has no watch on these platforms. *)
Definition poll_start (o : os) (poll_arrays : bool) (raw : qsr_runtime) (config : qsr_config) (config_path : option (list Z)) :
    start_result qsr_dataplane :=
  start_with getaddrinfo o (fun _ => (-1, [])) [] (bind_loop_portable o) (start_polling o poll_arrays) raw config config_path.

(** [qsr_udp_run]: the status, the descriptors start-up was given and all events. *)
Definition qsr_udp_run_portable (o : os) (poll_arrays : bool) (raw : qsr_runtime) (config : qsr_config) (config_path : option (list Z))
    (turns : list poll_result) : option (qsr_status * list Z * list event) :=
  match poll_start o poll_arrays raw config config_path with
  | inr (status, opened, ev) => Some (status, opened, FlowEvent <$> ev)
  | inl (dp, opened, ev) =>
      '(dp, ev') ← poll_loop aes_128_ctr k dp (os_started o) turns;
      Some (QSR_OK, opened, (FlowEvent <$> ev) ++ ev' ++ poll_stop dp)
  end.
End run.

(** ** Lemmas: sending *)

Lemma sendto_events_app a b : sendto_events (a ++ b) = sendto_events a ++ sendto_events b.
Proof. apply bind_app. Qed.

Lemma sendto_events_flow ev : flow_events (sendto_events ev) = flow_events ev.
Proof.
  induction ev as [|e ev IH]; [done|]. change (e :: ev) with ([e] ++ ev). rewrite sendto_events_app, !flow_events_app, IH. f_equal.
  destruct e as [fd|e|line|fd l]; [done..|]. cbn. rewrite app_nil_r. induction l as [|d l IHl]; [done|exact IHl].
Qed.

Lemma sendto_events_sockets ev : sockets (sendto_events ev) = sockets ev.
Proof.
  induction ev as [|e ev IH]; [done|]. change (e :: ev) with ([e] ++ ev). rewrite sendto_events_app, !sockets_app, IH. f_equal.
  destruct e as [fd|e|line|fd l]; [done..|]. cbn. rewrite app_nil_r. induction l as [|d l IHl]; [done|exact IHl].
Qed.

(** A call sends one datagram. *)
Lemma sendto_events_single ev fd l : SendRun fd l ∈ sendto_events ev -> length l = 1%nat.
Proof.
  intros (e & He & _)%list_elem_of_bind. destruct e as [g|e|line|g m]; try (by apply list_elem_of_singleton in He).
  by apply list_elem_of_fmap in He as (d & [= _ ->] & _).
Qed.

(** The same datagrams are sent, in the same order. *)
Lemma sendto_events_sent ev : sent (sendto_events ev) = sent ev.
Proof.
  induction ev as [|e ev IH]; [done|]. change (e :: ev) with ([e] ++ ev). rewrite sendto_events_app, !sent_app, IH. f_equal.
  destruct e as [fd|e|line|fd l]; [done..|]. cbn. rewrite !app_nil_r. induction l as [|d l IHl]; [done|]. cbn. f_equal. exact IHl.
Qed.

Lemma runs_singles pending (runs : list send_batch) : Forall (fun r => Forall (fun i => it_fd i = r.1) r.2) runs ->
  sendto_events (send_events pending runs) = send_events pending ((fun i => (it_fd i, [i])) <$> runs_items runs).
Proof.
  induction 1 as [|[fd items] runs Hr _ IH]; [done|]. unfold runs_items in *. cbn [mbind list_bind snd].
  rewrite fmap_app. unfold send_events in *. rewrite fmap_app. cbn [fmap list_fmap].
  change (SendRun (fd, items).1 (datagram pending <$> (fd, items).2) :: ?l) with ([SendRun fd (datagram pending <$> items)] ++ l).
  rewrite sendto_events_app, IH. f_equal. cbn. rewrite app_nil_r. cbn in Hr. induction Hr as [|i items Hi _ IHi]; [done|].
  cbn. rewrite Hi. f_equal. exact IHi.
Qed.

Lemma runs_ok_fds (runs : list send_batch) : runs_ok runs -> Forall (fun r => Forall (fun i => it_fd i = r.1) r.2) runs.
Proof. induction runs as [|[fd items] runs IH]; [constructor|]. intros (_ & Hfd & _ & Hok). constructor; [done|auto]. Qed.

(** [sendto] leaves the queue as [sendmmsg] does, and its calls are the runs cut up. *)
Lemma flush_sendto pending s : sender_wf s -> (sender_flush_sendto s).1 = (sender_flush s).1 /\
  send_events pending (sender_flush_sendto s).2 = sendto_events (send_events pending (sender_flush s).2).
Proof.
  intros Hwf. pose proof (flush_spec s Hwf) as Hf. destruct (sender_flush s) as [s' runs] eqn:E. destruct Hf as (_ & _ & Hr & Hok).
  cbn [fst snd]. rewrite runs_singles by (by apply runs_ok_fds). rewrite Hr. unfold sender_flush, sender_flush_sendto in *.
  destruct (sd_count s =? 0)%nat eqn:Ec.
  - injection E as <- <-. by rewrite <- Hr.
  - injection E as <- _. split; [done|]. f_equal. cbn [snd]. pose proof (queued_slice s 0 (sd_count s) Hwf ltac:(lia)) as Hq.
    rewrite drop_0, take_ge in Hq by (unfold queued; rewrite length_take; lia). rewrite <- Hq, <- list_fmap_compose. done.
Qed.

(** ** Lemmas: the poll set *)

(** It has the socket of every live flow once, and fits into its array. *)
Lemma poll_set_spec `{KeyedHash} flows slot fd : flow_wf flows ->
  (slot, fd) ∈ poll_set flows <-> exists f, ft_flows flows !! slot = Some f /\ f_used f = true /\ f_fd f = fd.
Proof.
  intros Hwf. unfold poll_set. rewrite list_elem_of_omap. split.
  - intros (s & _ & Hs). rewrite flow_slot_spec in Hs by done. destruct (ft_flows flows !! s) as [f|] eqn:Ef; [|done]. cbn in Hs.
    destruct (f_used f) eqn:Hu; [|done]. injection Hs as <- <-. by exists f.
  - intros (f & Hf & Hu & <-). exists slot. split.
    + apply elem_of_seq. apply lookup_lt_Some in Hf. rewrite (fw_len flows Hwf) in Hf. lia.
    + rewrite flow_slot_spec, Hf by done. cbn. by rewrite Hu.
Qed.

Lemma poll_set_fits flows : (length (poll_set flows) <= ft_capacity flows)%nat.
Proof.
  assert (Hl : forall {A B} (g : A -> option B) l, (length (omap g l) <= length l)%nat).
  { intros A B g l. induction l as [|x l IH]; [done|]. unfold omap in *. cbn. destruct (g x); cbn; lia. }
  unfold poll_set. etrans; [apply Hl|]. by rewrite length_seq.
Qed.

(** ** Lemmas: the loop *)

(** What [recvfrom] puts into the buffer. *)
Definition datagram_ok (r : recvfrom_result) : Prop :=
  match r with
  | RecvNothing => True
  | RecvDatagram packet received source source_len =>
      Zlen packet = QSR_MAX_DATAGRAM_SIZE /\ bytes_ok packet /\ 0 < received <= QSR_MAX_DATAGRAM_SIZE /\
      Zlen source = SOCKADDR_SIZE /\ 0 <= source_len /\ client_valid source source_len = true
  end.

(** How many datagrams the next [n] reads find, from read [i] on. *)
Fixpoint reads (recv : nat -> recvfrom_result) (n i : nat) : Z :=
  match n with
  | O => 0
  | S n => match recv i with RecvNothing => 0 | RecvDatagram _ _ _ _ => 1 + reads recv n (i + 1) end
  end.

Lemma reads_nonneg recv n : forall i, 0 <= reads recv n i.
Proof. induction n as [|n IH]; intros i; cbn [reads]; [lia|]. destruct (recv i); [lia|]. specialize (IH (i + 1)%nat). lia. Qed.

Definition socket_reads (r : readable_socket) : Z := if r is Some recv then reads recv QSR_UDP_BATCH_SIZE 0 else 0.

Lemma socket_reads_nonneg r : 0 <= socket_reads r.
Proof. destruct r; cbn [socket_reads]; [apply reads_nonneg|lia]. Qed.

Definition socket_ok (r : readable_socket) : Prop := if r is Some recv then forall i, datagram_ok (recv i) else True.

Definition poll_ok (w : poll_result) : Prop := if w is Polled _ revents then Forall socket_ok revents else True.

Definition poll_count (w : poll_result) : Z := if w is Polled _ revents then sum_of socket_reads revents else 0.

Lemma poll_count_nonneg w : 0 <= poll_count w.
Proof. destruct w; cbn [poll_count]; [lia|]. apply sum_of_nonneg, socket_reads_nonneg. Qed.

Definition polls_count (turns : list poll_result) : Z := sum_of poll_count turns.

(** The set from position [p] on. *)
Definition reads_from (revents : list readable_socket) (p : nat) : Z := sum_of socket_reads (drop p revents).

Lemma reads_from_nonneg revents p : 0 <= reads_from revents p.
Proof. apply sum_of_nonneg, socket_reads_nonneg. Qed.

Lemma reads_from_step revents p : reads_from revents p = socket_reads (revents_at revents p) + reads_from revents (p + 1).
Proof.
  unfold reads_from, revents_at. destruct (revents !! p) as [r|] eqn:E.
  - rewrite (drop_S _ r p E), Nat.add_1_r. done.
  - apply lookup_ge_None in E. rewrite !drop_ge by lia. done.
Qed.

Lemma revents_at_ok revents p : Forall socket_ok revents -> socket_ok (revents_at revents p).
Proof. intros Hok. unfold revents_at. destruct (revents !! p) as [r|] eqn:E; [exact (Forall_lookup_1 _ _ _ _ Hok E)|done]. Qed.

Section theory.
Context `{KeyedHash} `{Crypto} `{Yaml} `{Regime} (aes_128_ctr : list Z -> list Z -> list Z -> option (list Z))
  (k : qsr_dataplane -> kernel) (open : list Z -> config_source) (getaddrinfo : list Z -> Z -> option (list Z)).
Context `{laws : !RegimeLaws aes_128_ctr k open getaddrinfo}.
Local Notation ran := (ran k).
Local Notation same := (ran_refl aes_128_ctr k open getaddrinfo).
Local Notation followed := (ran_trans aes_128_ctr k open getaddrinfo).
Local Notation less := (ran_weaken aes_128_ctr k open getaddrinfo).
Local Notation room_less := (room_for_weaken aes_128_ctr k open getaddrinfo).
Local Notation room_left := (room_for_ran aes_128_ctr k open getaddrinfo).

Lemma read_loop_ran flow recv now n : (forall i, datagram_ok (recv i)) -> forall i dp, rg_ok dp -> flow_live flow dp ->
  room_for (reads recv n i) dp ->
  exists dp' ev, read_loop aes_128_ctr k flow recv now n i dp = Some (dp', ev) /\ ran (reads recv n i) dp dp' ev /\
    flow_live flow dp' /\ (queued (dp_sender dp) = [] -> queued (dp_sender dp') = []).
Proof using laws.
  intros Hrecv. induction n as [|n IH]; intros i dp Hok Hl Hroom; cbn [read_loop reads] in *.
  { exists dp, []. split_and!; [done|by apply same|done..]. }
  specialize (Hrecv i). destruct (recv i) as [|packet received source source_len].
  { exists dp, []. split_and!; [done|by apply same|done..]. }
  destruct Hrecv as (Hp & Hb & Hr & Hs & Hsl & Hv). pose proof (reads_nonneg recv n (i + 1)) as Hn.
  destruct (rg_packet flow dp (Ptr packet 0) received source source_len now Hok Hl) as (dp1 & ev1 & -> & Hr1 & Hl1); try done.
  { apply (room_less (1 + reads recv n (i + 1))); [lia|done]. }
  { unfold readable, QSR_MAX_DATAGRAM_SIZE in *. cbn. lia. }
  cbn [mbind option_bind]. destruct (flush_ran aes_128_ctr k open getaddrinfo dp1 (rn_ok Hr1)) as (dp2 & ev2 & -> & Hr2 & Hfl & Hq & _).
  assert (Hl2 : flow_live flow dp2) by (unfold flow_live in *; by rewrite Hfl).
  pose proof (followed _ _ _ _ _ _ _ Hr1 Hr2) as Hr12. replace (1 + 0) with 1 in Hr12 by done.
  destruct (IH (i + 1)%nat dp2 (rn_ok Hr2) Hl2) as (dp3 & ev3 & -> & Hr3 & Hl3 & Hq3); [by apply (room_left 1 _ dp dp2 (ev1 ++ ev2))|].
  cbn [mbind option_bind]. exists dp3, ((ev1 ++ ev2) ++ ev3). split_and!; [done|exact (followed _ _ _ _ _ _ _ Hr12 Hr3)|done|auto].
Qed.

Lemma poll_flows_ran revents now polled : Forall socket_ok revents -> forall p dp, rg_ok dp -> room_for (reads_from revents p) dp ->
  exists dp' ev, poll_flows aes_128_ctr k polled p revents now dp = Some (dp', ev) /\ ran (reads_from revents p) dp dp' ev /\
    (queued (dp_sender dp) = [] -> queued (dp_sender dp') = []).
Proof using laws.
  intros Hrev. induction polled as [|[slot fd] polled IH]; intros p dp Hok Hroom; cbn [poll_flows].
  { exists dp, []. split_and!; [done|apply (less 0); [apply reads_from_nonneg|by apply same]|done]. }
  rewrite reads_from_step in *. set (n := socket_reads (revents_at revents p)) in *. pose proof (reads_from_nonneg revents (p + 1)) as Hm.
  pose proof (socket_reads_nonneg (revents_at revents p)) as Hn. fold n in Hn. pose proof (revents_at_ok revents p Hrev) as Hso.
  assert (Hskip : exists dp1 ev1, Some (dp, []) = Some (dp1, ev1) /\ ran n dp dp1 ev1 /\
    (queued (dp_sender dp) = [] -> queued (dp_sender dp1) = [])).
  { exists dp, []. split_and!; [done|apply (less 0); [done|by apply same]|done]. }
  match goal with |- context [mbind _ ?m] => assert (Hstep : exists dp1 ev1, m = Some (dp1, ev1) /\ ran n dp dp1 ev1 /\
    (queued (dp_sender dp) = [] -> queued (dp_sender dp1) = [])) end.
  { destruct (revents_at revents p) as [recv|]; [|exact Hskip]. rewrite flow_slot_spec by (by eapply rg_flows).
    destruct (ft_flows (dp_flows dp) !! slot) as [f|] eqn:Ef; cbn [mbind option_bind]; [|exact Hskip].
    destruct (f_used f) eqn:Eu; [|exact Hskip]. destruct (negb _); [exact Hskip|].
    destruct (read_loop_ran (Some slot) recv now QSR_UDP_BATCH_SIZE Hso 0 dp Hok) as (dp1 & ev1 & He & Hr & _ & Hq); [by exists f| |by exists dp1, ev1].
    apply (room_less (n + reads_from revents (p + 1))); [subst n; cbn [socket_reads]; lia|done]. }
  destruct Hstep as (dp1 & ev1 & -> & Hr1 & Hq1). cbn [mbind option_bind].
  destruct (IH (p + 1)%nat dp1 (rn_ok Hr1)) as (dp2 & ev2 & -> & Hr2 & Hq2); [by apply (room_left n _ dp dp1 ev1)|].
  cbn [mbind option_bind]. exists dp2, (ev1 ++ ev2). split_and!; [done|exact (followed _ _ _ _ _ _ _ Hr1 Hr2)|auto].
Qed.

(** The calls of [sendto] open and close what the runs do. *)
Lemma ran_sendto m dp dp' ev : ran m dp dp' ev -> ran m dp dp' (sendto_events ev).
Proof using laws.
  intros [? ? ? ? Hf Hsk He]. split; try done; [by unfold accounts; rewrite sendto_events_flow, sendto_events_sockets|by rewrite sendto_events_sockets|]. apply list.Forall_forall. intros x (e & Hx & Hin)%list_elem_of_bind.
  rewrite list.Forall_forall in He. specialize (He e Hin). destruct e as [g|e|line|fd l]; try by apply list_elem_of_singleton in Hx as ->.
  apply list_elem_of_fmap in Hx as (d & -> & _). by eapply rg_run.
Qed.

Lemma poll_turn_ran dp last w : rg_ok dp -> queued (dp_sender dp) = [] -> poll_ok w -> room_for (poll_count w) dp ->
  exists dp' last' go_on ev, poll_turn aes_128_ctr k dp last w = Some (dp', last', go_on, ev) /\
    ran (poll_count w) dp dp' ev /\ queued (dp_sender dp') = [].
Proof using laws.
  intros Hok Hq Hw Hroom. unfold poll_turn. destruct w as [interrupted|now revents]; cbn [poll_ok poll_count] in *.
  { exists dp, last, interrupted, []. split_and!; [done|by apply same|done]. }
  change (sum_of socket_reads revents) with (reads_from revents 0) in *. rewrite reads_from_step in *. change (0 + 1)%nat with 1%nat in *.
  set (n := socket_reads (revents_at revents 0)) in *. pose proof (reads_from_nonneg revents 1) as Hm.
  pose proof (socket_reads_nonneg (revents_at revents 0)) as Hn. fold n in Hn. pose proof (revents_at_ok revents 0 Hw) as Hso.
  match goal with |- context [mbind _ ?m] => assert (Hstep : exists dp1 ev1, m = Some (dp1, ev1) /\ ran n dp dp1 ev1) end.
  { destruct (revents_at revents 0) as [recv|]; [|exists dp, []; split; [done|by apply same]].
    destruct (read_loop_ran None recv now QSR_UDP_BATCH_SIZE Hso 0 dp Hok I) as (dp1 & ev1 & He & Hr & _); [|by exists dp1, ev1].
    apply (room_less (n + reads_from revents 1)); [subst n; cbn [socket_reads]; lia|done]. }
  destruct Hstep as (dp1 & ev1 & -> & Hr1). cbn [mbind option_bind].
  destruct (poll_flows_ran revents now (poll_set (dp_flows dp)) Hw 1 dp1 (rn_ok Hr1)) as (dp2 & ev2 & -> & Hr2 & _); [by apply (room_left n _ dp dp1 ev1)|].
  cbn [mbind option_bind]. destruct (flush_ran aes_128_ctr k open getaddrinfo dp2 (rn_ok Hr2)) as (dp3 & ev3 & -> & Hr3 & _ & Hq3 & _).
  pose proof (followed _ _ _ _ _ _ _ Hr1 (followed _ _ _ _ _ _ _ Hr2 Hr3)) as Hr. rewrite Z.add_0_r in Hr.
  destruct (_ <=? _).
  - destruct (rg_sweep dp3 now (rn_ok Hr3)) as (dp4 & ev4 & -> & Hr4 & Hq4). cbn [mbind option_bind].
    pose proof (followed _ _ _ _ _ _ _ Hr Hr4) as Hr'. rewrite Z.add_0_r, <- !app_assoc in Hr'.
    eexists dp4, now, true, _. split; [reflexivity|]. split; [by apply ran_sendto|congruence].
  - eexists dp3, last, true, _. split; [reflexivity|]. split; [by apply ran_sendto|done].
Qed.

Lemma poll_loop_ran turns : Forall poll_ok turns -> forall dp last, rg_ok dp -> queued (dp_sender dp) = [] ->
  room_for (polls_count turns) dp ->
  exists dp' ev, poll_loop aes_128_ctr k dp last turns = Some (dp', ev) /\ ran (polls_count turns) dp dp' ev /\ queued (dp_sender dp') = [].
Proof using laws.
  unfold polls_count. induction 1 as [|w turns Hw _ IH]; intros dp last Hok Hq Hroom; cbn [poll_loop sum_of] in *.
  { exists dp, []. split_and!; [done|by apply same|done]. }
  assert (Hrest : 0 <= sum_of poll_count turns) by apply sum_of_nonneg, poll_count_nonneg. pose proof (poll_count_nonneg w) as Hn.
  destruct (poll_turn_ran dp last w Hok Hq Hw) as (dp1 & last1 & go_on & ev1 & -> & Hr1 & Hq1).
  { apply (room_less (poll_count w + sum_of poll_count turns)); [lia|done]. }
  cbn [mbind option_bind]. destruct go_on.
  - destruct (IH dp1 last1 (rn_ok Hr1) Hq1) as (dp2 & ev2 & -> & Hr2 & Hq2); [by apply (room_left (poll_count w) _ dp dp1 ev1)|].
    cbn [mbind option_bind]. exists dp2, (ev1 ++ ev2). split_and!; [done|exact (followed _ _ _ _ _ _ _ Hr1 Hr2)|done].
  - exists dp1, ev1. split_and!; [done|apply (less (poll_count w)); [lia|done]|done].
Qed.

(** *** A turn of the other loop *)

(** The datagrams of a socket as ready events of one message each. *)
Definition single_message (packet : list Z) (received : Z) (source : list Z) (source_len : Z) : message := {|
  m_buffer := packet; m_len := received; m_trunc := false; m_control := []; m_source := source; m_source_len := source_len |}.

Definition single_event (tag now : Z) (m : message) : ready_event :=
  (tag, fun round => if (round =? 0)%nat then Received now [m] else RecvFailed false).

Fixpoint read_events (tag : Z) (recv : nat -> recvfrom_result) (now : Z) (n i : nat) : list ready_event :=
  match n with
  | O => []
  | S n =>
      match recv i with
      | RecvNothing => []
      | RecvDatagram packet received source source_len =>
          single_event tag now (single_message packet received source source_len) :: read_events tag recv now n (i + 1)
      end
  end.

Lemma drain_single flow now dp packet received source source_len : 0 < received <= QSR_MAX_DATAGRAM_SIZE ->
  drain_socket aes_128_ctr k flow (single_event 0 now (single_message packet received source source_len)).2 dp =
    '(dp, ev) ← handle_packet aes_128_ctr k flow dp (Ptr packet 0) received source source_len now;
    let '(dp, ev') := dp_flush dp in Some (dp, ev ++ ev').
Proof using.
  intros Hr. unfold drain_socket, QSR_RECV_ROUNDS_PER_EVENT. cbn [drain_rounds single_event snd Nat.eqb drain_messages].
  assert (Ha : message_accepted (single_message packet received source source_len) = true).
  { unfold message_accepted. cbn [m_len m_trunc m_control single_message gro_size]. unfold QSR_MAX_DATAGRAM_SIZE, QSR_UDP_RECV_BUFFER_SIZE in *.
    rewrite (proj2 (Z.eqb_neq _ _)), (proj2 (Z.ltb_ge _ _)), (proj2 (Z.ltb_ge 1500 _)) by lia. done. }
  unfold drain_message. rewrite Ha. cbn [m_len m_control single_message gro_size].
  destruct (Z.to_nat received) as [|fuel] eqn:Ef; [lia|]. cbn [segment_loop m_len single_message].
  rewrite (proj2 (Z.ltb_lt _ _)) by lia. unfold QSR_MAX_DATAGRAM_SIZE in *. rewrite usub_small by lia.
  rewrite Z.sub_0_r, Z.ltb_irrefl. cbn [m_buffer m_source m_source_len].
  destruct (handle_packet _ _ _ _ _ _ _ _ _) as [[dp1 ev1]|]; [|done]. cbn [mbind option_bind]. rewrite uadd_small by lia.
  destruct fuel; cbn [segment_loop m_len single_message]; rewrite (proj2 (Z.ltb_ge _ _)) by lia; cbn [mbind option_bind].
  all: rewrite !app_nil_r; by destruct (dp_flush dp1).
Qed.

Lemma dispatch_all_app l1 : forall dp l2, dispatch_all aes_128_ctr k dp (l1 ++ l2) =
  '(dp, ev) ← dispatch_all aes_128_ctr k dp l1; '(dp, ev') ← dispatch_all aes_128_ctr k dp l2; Some (dp, ev ++ ev').
Proof using.
  induction l1 as [|e l1 IH]; intros dp l2; cbn [dispatch_all app mbind option_bind].
  - destruct (dispatch_all aes_128_ctr k dp l2) as [[dp' ev]|]; done.
  - destruct (dispatch aes_128_ctr k dp e) as [[dp1 ev1]|]; [|done]. cbn [mbind option_bind]. rewrite IH.
    destruct (dispatch_all aes_128_ctr k dp1 l1) as [[dp2 ev2]|]; [|done]. cbn [mbind option_bind].
    destruct (dispatch_all aes_128_ctr k dp2 l2) as [[dp3 ev3]|]; [|done]. cbn [mbind option_bind]. by rewrite app_assoc.
Qed.

(** The tag of a drained socket. *)
Definition tag_of (flow : option nat) : Z := if flow is Some slot then Z.of_nat slot else QSR_EPOLL_DATA_MAIN.

Lemma dispatch_tag flow now m dp : rg_ok dp -> flow_live flow dp ->
  dispatch aes_128_ctr k dp (single_event (tag_of flow) now m) = drain_socket aes_128_ctr k flow (single_event 0 now m).2 dp.
Proof using laws.
  intros Hok Hl. unfold dispatch, single_event. cbn [fst snd]. destruct flow as [slot|]; cbn [tag_of]; [|done].
  destruct Hl as (f & Hf & Hu). pose proof (rg_flows dp Hok) as Hwf.
  pose proof (lookup_lt_Some _ _ _ Hf) as Hlt. rewrite (fw_len _ Hwf) in Hlt. pose proof (fw_size _ Hwf) as Hsz.
  unfold QSR_EPOLL_DATA_MAIN, QSR_EPOLL_DATA_INOTIFY, FLOW_SIZE in *. rewrite !(proj2 (Z.eqb_neq _ _)) by lia.
  rewrite Nat2Z.id, flow_slot_spec, Hf by done. cbn [mbind option_bind]. by rewrite Hu.
Qed.

Lemma read_loop_dispatch flow recv now n : (forall i, datagram_ok (recv i)) -> forall i dp, rg_ok dp -> flow_live flow dp ->
  room_for (reads recv n i) dp ->
  read_loop aes_128_ctr k flow recv now n i dp = dispatch_all aes_128_ctr k dp (read_events (tag_of flow) recv now n i).
Proof using laws.
  intros Hrecv. induction n as [|n IH]; intros i dp Hok Hl Hroom; cbn [read_loop read_events reads] in *; [done|].
  pose proof (Hrecv i) as Hi. destruct (recv i) as [|packet received source source_len]; [done|].
  destruct Hi as (Hp & Hb & Hr & Hs & Hsl & Hv). pose proof (reads_nonneg recv n (i + 1)) as Hn. cbn [dispatch_all].
  rewrite dispatch_tag, drain_single by done.
  destruct (rg_packet flow dp (Ptr packet 0) received source source_len now Hok Hl) as (dp1 & ev1 & -> & Hr1 & Hl1); try done.
  { apply (room_less (1 + reads recv n (i + 1))); [lia|done]. }
  { unfold readable, QSR_MAX_DATAGRAM_SIZE in *. cbn. lia. }
  cbn [mbind option_bind]. destruct (flush_ran aes_128_ctr k open getaddrinfo dp1 (rn_ok Hr1)) as (dp2 & ev2 & -> & Hr2 & Hfl & _).
  cbn [mbind option_bind]. assert (Hl2 : flow_live flow dp2) by (unfold flow_live in *; by rewrite Hfl).
  pose proof (followed _ _ _ _ _ _ _ Hr1 Hr2) as Hr12. replace (1 + 0) with 1 in Hr12 by done.
  rewrite IH; [done|apply Hr2|done|]. by apply (room_left 1 _ dp dp2 (ev1 ++ ev2)).
Qed.

(** A slot holds a socket. *)
Definition slot_holds (dp : qsr_dataplane) (slot : nat) (fd : Z) : Prop :=
  exists f, ft_flows (dp_flows dp) !! slot = Some f /\ f_used f = true /\ f_fd f = fd.

(** What a socket of the set has to read, an event for each datagram. *)
Definition socket_events (tag : Z) (r : readable_socket) (now : Z) : list ready_event :=
  if r is Some recv then read_events tag recv now QSR_UDP_BATCH_SIZE 0 else [].

(** The events of the other loop that stand for the sockets of the set from
    position [p] on: all that a socket has to read when its slot still holds it
    by the time the events before were dispatched, and nothing when not. *)
Inductive arrivals (revents : list readable_socket) (now : Z) : list (nat * Z) -> nat -> qsr_dataplane -> list ready_event -> Prop :=
  | arrivals_end p dp : arrivals revents now [] p dp []
  | arrivals_gone slot fd polled p dp events : ~ slot_holds dp slot fd ->
      arrivals revents now polled (p + 1) dp events -> arrivals revents now ((slot, fd) :: polled) p dp events
  | arrivals_read slot fd polled p dp dp' ev events : slot_holds dp slot fd ->
      dispatch_all aes_128_ctr k dp (socket_events (Z.of_nat slot) (revents_at revents p) now) = Some (dp', ev) ->
      arrivals revents now polled (p + 1) dp' events ->
      arrivals revents now ((slot, fd) :: polled) p dp (socket_events (Z.of_nat slot) (revents_at revents p) now ++ events).

(** All of a turn: the listening socket first. *)
Definition turn_arrivals (dp : qsr_dataplane) (revents : list readable_socket) (now : Z) (events : list ready_event) : Prop :=
  exists dp' ev rest,
    dispatch_all aes_128_ctr k dp (socket_events QSR_EPOLL_DATA_MAIN (revents_at revents 0) now) = Some (dp', ev) /\
    arrivals revents now (poll_set (dp_flows dp)) 1 dp' rest /\
    events = socket_events QSR_EPOLL_DATA_MAIN (revents_at revents 0) now ++ rest.

Lemma slot_holds_iff dp slot fd : rg_ok dp -> slot_holds dp slot fd <->
  exists f, qsr_flow_table_slot (dp_flows dp) slot = Some f /\ f_fd f = fd.
Proof using laws.
  intros Hok. rewrite flow_slot_spec by (by eapply rg_flows). unfold slot_holds. split.
  - intros (f & -> & Hu & Hfd). exists f. cbn [mbind option_bind]. by rewrite Hu.
  - intros (f & Hf & Hfd). destruct (ft_flows (dp_flows dp) !! slot) as [g|]; [|done]. cbn [mbind option_bind] in Hf.
    destruct (f_used g) eqn:Hu; [|done]. injection Hf as ->. by exists f.
Qed.

(** Reading a socket is dispatching its events. *)
Lemma socket_read_dispatch flow r now dp : rg_ok dp -> flow_live flow dp -> socket_ok r -> room_for (socket_reads r) dp ->
  exists dp' ev, match r with Some recv => read_loop aes_128_ctr k flow recv now QSR_UDP_BATCH_SIZE 0 dp | None => Some (dp, []) end = Some (dp', ev) /\
    dispatch_all aes_128_ctr k dp (socket_events (tag_of flow) r now) = Some (dp', ev) /\ ran (socket_reads r) dp dp' ev.
Proof using laws.
  intros Hok Hl Hr Hroom. destruct r as [recv|]; cbn [socket_ok socket_reads socket_events] in *; [|exists dp, []; split_and!; [done..|by apply same]].
  destruct (read_loop_ran flow recv now QSR_UDP_BATCH_SIZE Hr 0 dp Hok Hl Hroom) as (dp' & ev & He & Hran & _). exists dp', ev.
  by rewrite <- read_loop_dispatch.
Qed.

Lemma poll_flows_dispatch revents now polled : Forall socket_ok revents -> forall p dp, rg_ok dp -> room_for (reads_from revents p) dp ->
  exists events, arrivals revents now polled p dp events /\
    poll_flows aes_128_ctr k polled p revents now dp = dispatch_all aes_128_ctr k dp events.
Proof using laws.
  intros Hrev. induction polled as [|[slot fd] polled IH]; intros p dp Hok Hroom; cbn [poll_flows]; [exists []; split; [constructor|done]|].
  rewrite reads_from_step in Hroom. set (n := socket_reads (revents_at revents p)) in *. pose proof (reads_from_nonneg revents (p + 1)) as Hm.
  pose proof (socket_reads_nonneg (revents_at revents p)) as Hn. fold n in Hn. pose proof (revents_at_ok revents p Hrev) as Hso.
  pose proof (slot_holds_iff dp slot fd Hok) as Hslot.
  assert (Hgone : ~ slot_holds dp slot fd -> exists events, arrivals revents now ((slot, fd) :: polled) p dp events /\
    ('(dp0, ev) ← Some (dp, [] : list event); '(dp1, ev') ← poll_flows aes_128_ctr k polled (p + 1) revents now dp0; Some (dp1, ev ++ ev')) =
    dispatch_all aes_128_ctr k dp events).
  { intros Hno. destruct (IH (p + 1)%nat dp Hok) as (l & Hl & He); [apply (room_less (n + reads_from revents (p + 1))); [lia|done]|].
    exists l. split; [by constructor|]. cbn [mbind option_bind]. rewrite He. by destruct (dispatch_all _ _ _ l) as [[]|]. }
  assert (Hread : slot_holds dp slot fd -> exists events, arrivals revents now ((slot, fd) :: polled) p dp events /\
    ('(dp0, ev) ← match revents_at revents p with Some recv => read_loop aes_128_ctr k (Some slot) recv now QSR_UDP_BATCH_SIZE 0 dp | None => Some (dp, []) end;
     '(dp1, ev') ← poll_flows aes_128_ctr k polled (p + 1) revents now dp0; Some (dp1, ev ++ ev')) = dispatch_all aes_128_ctr k dp events).
  { intros Hh. assert (Hl : flow_live (Some slot) dp) by (destruct Hh as (f & Hf & Hu & _); by exists f).
    destruct (socket_read_dispatch (Some slot) (revents_at revents p) now dp Hok Hl Hso) as (dp1 & ev1 & -> & Hd & Hr1).
    { apply (room_less (n + reads_from revents (p + 1))); [subst n; lia|done]. }
    destruct (IH (p + 1)%nat dp1 (rn_ok Hr1)) as (l & Hls & He); [by apply (room_left n _ dp dp1 ev1)|].
    eexists. split; [by eapply arrivals_read|]. cbn [mbind option_bind]. cbn [tag_of] in Hd. rewrite dispatch_all_app, Hd, He. done. }
  destruct (qsr_flow_table_slot (dp_flows dp) slot) as [f|]; [destruct (f_fd f =? fd) eqn:Ef; cbn [negb]; bool_to_prop|].
  - apply Hread, Hslot. by exists f.
  - assert (Hno : ~ slot_holds dp slot fd) by (intros (g & [= <-] & Hfd)%Hslot; done).
    destruct (revents_at revents p); exact (Hgone Hno).
  - assert (Hno : ~ slot_holds dp slot fd) by (intros (g & ? & _)%Hslot; done).
    destruct (revents_at revents p); exact (Hgone Hno).
Qed.

(** A turn of this loop is a turn of the other one in which every event brings one message. *)
Lemma poll_turn_dispatch dp last now revents : rg_ok dp -> Forall socket_ok revents -> room_for (sum_of socket_reads revents) dp ->
  exists events, turn_arrivals dp revents now events /\
    poll_turn aes_128_ctr k dp last (Polled now revents) =
      '(dp', last', go_on, ev) ← loop_turn aes_128_ctr k open getaddrinfo dp last [] (Ready now events);
      Some (dp', last', go_on, sendto_events ev).
Proof using laws.
  intros Hok Hrev Hroom. unfold poll_turn, loop_turn, qsr_runtime_poll, drain_inotify. cbn [drain_loop].
  change (sum_of socket_reads revents) with (reads_from revents 0) in Hroom. rewrite reads_from_step in Hroom. change (0 + 1)%nat with 1%nat in *.
  set (n := socket_reads (revents_at revents 0)) in *. pose proof (reads_from_nonneg revents 1) as Hm.
  pose proof (socket_reads_nonneg (revents_at revents 0)) as Hn. fold n in Hn. pose proof (revents_at_ok revents 0 Hrev) as Hso.
  destruct (socket_read_dispatch None (revents_at revents 0) now dp Hok I Hso) as (dp1 & ev1 & -> & Hd & Hr1).
  { apply (room_less (n + reads_from revents 1)); [subst n; lia|done]. }
  cbn [mbind option_bind tag_of] in *.
  destruct (poll_flows_dispatch revents now (poll_set (dp_flows dp)) Hrev 1 dp1 (rn_ok Hr1)) as (rest & Hrs & Her); [by apply (room_left n _ dp dp1 ev1)|].
  exists (socket_events QSR_EPOLL_DATA_MAIN (revents_at revents 0) now ++ rest). split; [by exists dp1, ev1, rest|]. rewrite Her.
  assert (Hpoll : (if (run_inotify_fd (dp_runtime dp) <? 0) || bool_decide (run_config_path (dp_runtime dp) = None) then Some (dp_runtime dp, [], [])
    else if if run_inotify_fd (dp_runtime dp) <? 0 then false else false then reload_from_path open getaddrinfo (dp_runtime dp)
    else Some (dp_runtime dp, [] : list flow_event, [] : list reload_line)) = Some (dp_runtime dp, [], [])).
  { destruct (_ || _); [done|]. by destruct (_ <? _). }
  rewrite Hpoll. cbn [mbind option_bind]. replace (dp_set_runtime dp (dp_runtime dp)) with dp by (by destruct dp).
  rewrite dispatch_all_app, Hd. cbn [mbind option_bind]. destruct (dispatch_all aes_128_ctr k dp1 rest) as [[dp2 ev2]|]; [|done].
  cbn [mbind option_bind]. destruct (dp_flush dp2) as [dp3 ev3]. cbn [fmap list_fmap]. destruct (_ <=? _).
  - destruct (run_expiry_sweeps dp3 now) as [[dp4 ev4]|]; [|done]. cbn [mbind option_bind app]. by rewrite <- !app_assoc.
  - cbn [mbind option_bind app]. by rewrite <- !app_assoc.
Qed.

(** Only an error of the wait ends the loop. *)
Lemma turn_goes_on dp last reads now events dp' last' go_on ev :
  loop_turn aes_128_ctr k open getaddrinfo dp last reads (Ready now events) = Some (dp', last', go_on, ev) -> go_on = true.
Proof using.
  unfold loop_turn. destruct (qsr_runtime_poll _ _ _ _) as [[[r ev0] lines]|]; [|done]. cbn [mbind option_bind].
  destruct (dispatch_all _ _ _ _) as [[dp2 ev2]|]; [|done]. cbn [mbind option_bind]. destruct (dp_flush dp2) as [dp3 ev3].
  destruct (_ <=? _); [|congruence]. destruct (run_expiry_sweeps _ _) as [[dp4 ev4]|]; [|done]. cbn [mbind option_bind]. congruence.
Qed.
End theory.

(** ** Lemmas: start-up *)

Section start.
Context `{KeyedHash} `{Crypto} `{crypto_output : !CryptoOutput} (aes_128_ctr : list Z -> list Z -> list Z -> option (list Z))
  (k : qsr_dataplane -> kernel) (getaddrinfo : list Z -> Z -> option (list Z)).

Lemma bind_portable_spec o n : forall i, let '(fd, opened, ev) := bind_loop_portable o n i in opened = closed ev ++ held fd.
Proof using.
  induction n as [|n IH]; intros i; cbn [bind_loop_portable]; [done|]. destruct (os_socket o i <? 0) eqn:E; [apply IH|]. bool_to_prop.
  destruct (os_bind o i); [by rewrite held_fd|].
  specialize (IH (i + 1)%nat). destruct (bind_loop_portable o n (i + 1)) as [[fd opened] ev]. cbn. by rewrite IH.
Qed.

(** The listening socket is kept; the runtime has no watch. *)
Definition poll_started (config : qsr_config) (dp : qsr_dataplane) (keep : list Z) : Prop :=
  fresh_start config dp /\ keep = held (run_inotify_fd (dp_runtime dp)) ++ [dp_main_fd dp].

Lemma start_polling_spec o arrays config r fd opened ev : start_ready config r ->
  opened ≡ₚ closed ev ++ held (run_inotify_fd r) ++ held fd -> started (poll_started config) (start_polling o arrays r fd opened ev).
Proof using.
  intros Hr Hp. unfold start_polling.
  destruct (fd <? 0) eqn:Efd; bool_to_prop; [rewrite (held_neg fd), app_nil_r in Hp by lia; by eapply start_gives_up; [|left|..]|].
  rewrite (held_fd fd) in Hp by lia.
  destruct (bool_decide (set_nonblocking _ _ = _)); cbn [negb]; [|eapply start_gives_up; [done|by left|done|balance Hp]].
  destruct (os_calloc_pending o); cbn [negb]; [|eapply start_gives_up; [done|by left|done|balance Hp]].
  destruct arrays; cbn [negb]; [|eapply start_gives_up; [done|by right|done|balance Hp]].
  eexists. split; [split; [by apply start_dataplane|reflexivity]|]. exact Hp.
Qed.

Lemma poll_start_spec o arrays raw config path :
  (forall n sz, os_calloc o n sz = true -> n * sz < 2 ^ 64) -> live_config config ->
  started (poll_started config) (poll_start getaddrinfo o arrays raw config path).
Proof using.
  intros Hcalloc Hlive. apply start_with_spec; [done|done|done|intros n i; by apply bind_portable_spec|intros; by apply start_polling_spec].
Qed.

(** The loop reloads nothing, so any way to read a document serves its contract. *)
Lemma poll_run_spec o arrays raw config path turns : (forall dp, dp_safe dp -> kernel_fresh (k dp) dp) ->
  (forall n sz, os_calloc o n sz = true -> n * sz < 2 ^ 64) -> live_config config ->
  Forall poll_ok turns -> 1 + polls_count turns < 2 ^ 64 ->
  exists status opened ev,
    qsr_udp_run_portable aes_128_ctr k getaddrinfo o arrays raw config path turns = Some (status, opened, ev) /\
    (status = QSR_OK <-> is_Some (maybe inl (poll_start getaddrinfo o arrays raw config path))) /\
    opened_by k (sockets ev) /\ closed (flow_events ev) ≡ₚ opened ++ sockets ev.
Proof using crypto_output.
  intros Hk Hcalloc Hlive Ht Hn. pose proof (poll_start_spec o arrays raw config path Hcalloc Hlive) as Hs.
  unfold qsr_udp_run_portable. destruct (poll_start _ _ _ _ _ _) as [[[dp opened] ev]|[[status opened] ev]]; cbn [started] in Hs.
  2: { destruct Hs as [Hst Hp]. exists status, opened, (FlowEvent <$> ev). rewrite flow_events_fmap, sockets_fmap, app_nil_r.
       split_and!; [done| |constructor|done]. split; [done|by intros [? ?]]. }
  destruct Hs as (keep & ([Hok Hq _ Hf _ Hid _ _] & ->) & Hp).
  destruct (poll_loop_ran (laws := weak_laws (H1 := demo_yaml) (yaml_laws := demo_yaml_laws) aes_128_ctr k Hk demo_open getaddrinfo)
    _ _ _ _ turns Ht dp (os_started o) (ok_safe dp Hok) Hq) as (dp' & ev' & -> & [Hs' Hfix _ _ Hpd Hop _] & Hq'); [split; [lia|done]|].
  cbn [mbind option_bind]. unfold accounts in Hpd. rewrite Hf, app_nil_r in Hpd.
  exists QSR_OK, opened, ((FlowEvent <$> ev) ++ ev' ++ poll_stop dp'). split; [done|]. split; [split; [by eexists|done]|].
  unfold poll_stop. destruct (dp_flush_spec dp' (ds_sender dp' Hs')) as (s & ev2 & -> & _ & _ & He2 & _).
  assert (Hsk : sockets ((FlowEvent <$> ev) ++ ev' ++ sendto_events ev2 ++
      (FlowEvent <$> (qsr_runtime_free (dp_runtime dp')).2) ++ [FlowEvent (CloseFd (dp_main_fd dp'))]) = sockets ev')
    by (rewrite !sockets_app, !sockets_fmap, sendto_events_sockets, (only_sends_sockets ev2) by done; apply app_nil_r).
  cbn [dp_runtime dp_main_fd dp_set_sender]. rewrite Hsk. split; [done|]. apply only_sends_flow in He2.
  pose proof (runtime_free_closes (dp_runtime dp') (ds_flows dp' Hs')) as Hfree. injection Hfix as Hm Hi _.
  rewrite !flow_events_app, !flow_events_fmap, sendto_events_flow, He2, !closed_app. cbn [app]. rewrite Hfree, Hp, <- Hpd.
  rewrite Hm, Hi. change (if 0 <=? _ then _ else []) with (held (run_inotify_fd (dp_runtime dp))).
  cbn. rewrite <- !app_assoc. solve_Permutation.
Qed.
End start.

(** ** Properties *)

Section properties.
Context `{KeyedHash} `{Crypto} `{crypto_output : !CryptoOutput} (aes_128_ctr : list Z -> list Z -> list Z -> option (list Z))
  (k : qsr_dataplane -> kernel).

(** C9: the two platforms behave alike. The poll set is exactly the sockets of
    the live flows. A turn of the portable loop ends, and does what the turn of
    the epoll loop does whose events are those of [turn_arrivals]: each datagram
    the listening socket has to read, up to the size of a batch, as an event of
    its own, then the same for each polled socket in the order of the slots when
    its slot still holds it by then, and nothing of one that was closed or
    replaced. It leaves the same dataplane, sends the same datagrams through the
    same sockets in the same order, each by a call of its own, and opens and
    closes the same descriptors. *)
Theorem portable_turn_simulated `{Yaml} `{!YamlLaws} open getaddrinfo dp last_expire now revents :
  (forall dp, dp_safe dp -> kernel_fresh (k dp) dp) -> dp_safe dp -> queued (dp_sender dp) = [] -> Forall socket_ok revents ->
  ft_next_id (dp_flows dp) + sum_of socket_reads revents < 2 ^ 64 ->
  (forall slot fd, (slot, fd) ∈ poll_set (dp_flows dp) <-> slot_holds dp slot fd) /\
  exists events dp' last' ev ev', turn_arrivals aes_128_ctr k dp revents now events /\
    loop_turn aes_128_ctr k open getaddrinfo dp last_expire [] (Ready now events) = Some (dp', last', true, ev) /\
    poll_turn aes_128_ctr k dp last_expire (Polled now revents) = Some (dp', last', true, ev') /\
    dp_safe dp' /\ queued (dp_sender dp') = [] /\
    sent ev' = sent ev /\ (forall fd l, SendRun fd l ∈ ev' -> length l = 1%nat) /\
    flow_events ev' = flow_events ev /\ sockets ev' = sockets ev.
Proof.
  intros Hk Hs Hq Hrev Hid. split; [intros slot fd; apply poll_set_spec, (ds_flows dp Hs)|].
  pose proof (weak_laws aes_128_ctr k Hk open getaddrinfo) as Hlaws.
  destruct (poll_turn_dispatch (laws := Hlaws) _ _ _ _ dp last_expire now revents Hs Hrev (conj Hid I)) as (events & Hev & He).
  destruct (poll_turn_ran (laws := Hlaws) _ _ _ _ dp last_expire (Polled now revents) Hs Hq Hrev (conj Hid I))
    as (dp' & last' & go_on & ev' & Hp & [Hs' _ _ _ _ _ _] & Hq').
  rewrite Hp in He. destruct (loop_turn _ _ _ _ _ _ _ _) as [[[[dp1 last1] go1] ev]|] eqn:El; [|done]. cbn [mbind option_bind] in He.
  injection He as -> -> -> ->. pose proof (turn_goes_on _ _ _ _ _ _ _ _ _ _ _ _ _ El) as ->.
  exists events, dp1, last1, ev, (sendto_events ev).
  split_and!; [done..|apply sendto_events_sent|apply sendto_events_single|apply sendto_events_flow|apply sendto_events_sockets].
Qed.

(** The portable program: a run started from any configuration in range ends
    whatever arrives, with [QSR_OK] exactly when it started, and closes every
    descriptor it opened, each once. *)
Theorem portable_run_closes getaddrinfo o arrays raw config path turns : (forall dp, dp_safe dp -> kernel_fresh (k dp) dp) ->
  (forall n sz, os_calloc o n sz = true -> n * sz < 2 ^ 64) -> live_config config ->
  Forall poll_ok turns -> 1 + polls_count turns < 2 ^ 64 ->
  exists status opened ev,
    qsr_udp_run_portable aes_128_ctr k getaddrinfo o arrays raw config path turns = Some (status, opened, ev) /\
    (status = QSR_OK <-> is_Some (maybe inl (poll_start getaddrinfo o arrays raw config path))) /\
    opened_by k (sockets ev) /\ closed (flow_events ev) ≡ₚ opened ++ sockets ev.
Proof. intros. by apply poll_run_spec. Qed.

(** The poll set is the sockets of the live flows, and fits into its array. *)
Theorem poll_set_exact flows : flow_wf flows ->
  (length (poll_set flows) <= ft_capacity flows)%nat /\
  forall slot fd, (slot, fd) ∈ poll_set flows <-> exists f, ft_flows flows !! slot = Some f /\ f_used f = true /\ f_fd f = fd.
Proof. intros Hwf. split; [apply poll_set_fits|]. intros slot fd. by apply poll_set_spec. Qed.
End properties.

(** ** Witnesses *)

Section examples.
Local Existing Instance sum_hash.
Local Existing Instances plain_crypto plain_output demo_yaml demo_yaml_laws.

(** The demo datagram is ready on the listening socket, then nothing. *)
Definition demo_revents : list readable_socket :=
  [Some (fun i => if (i =? 0)%nat then RecvDatagram (demo_datagram ++ zeros 300) 1200 (demo_addr 1) 16 else RecvNothing)].

Lemma demo_revents_ok : Forall socket_ok demo_revents.
Proof.
  constructor; [|constructor]. intros i. cbn. destruct (i =? 0)%nat; [|done].
  split_and!; [z_concrete|bytes_concrete|lia|unfold QSR_MAX_DATAGRAM_SIZE; lia|z_concrete|lia|reflexivity].
Qed.

Lemma portable_turn_simulated_witness : exists dp dp' last' ev,
  poll_turn plain_ctr next_kernel dp 0 (Polled 5 demo_revents) = Some (dp', last', true, ev) /\ dp_safe dp'.
Proof.
  destruct demo_dp as (dp & backend & [Hok _ Hid _ Hs _ Hq _ _ Hf Hcap]). exists dp.
  destruct (portable_turn_simulated plain_ctr next_kernel demo_open demo_getaddrinfo dp 0 5 demo_revents
    (fun dp Hs => next_kernel_fresh _ dp (ds_flows dp Hs)) (ok_safe dp Hok) Hq demo_revents_ok)
    as (_ & events & dp' & last' & ev & ev' & _ & _ & He & Hs' & _).
  - rewrite Hf. vm_compute. reflexivity.
  - exists dp', last', ev'. split; [exact He|exact Hs'].
Defined.

Lemma portable_run_closes_witness : exists status opened ev,
  qsr_udp_run_portable plain_ctr next_kernel demo_getaddrinfo demo_os true demo_raw qsr_config_default None [Polled 5 demo_revents] =
    Some (status, opened, ev) /\ closed (flow_events ev) ≡ₚ opened ++ sockets ev.
Proof.
  destruct (portable_run_closes plain_ctr next_kernel demo_getaddrinfo demo_os true demo_raw qsr_config_default None [Polled 5 demo_revents])
    as (status & opened & ev & He & _ & _ & Hp).
  - exact (fun dp Hs => next_kernel_fresh _ dp (ds_flows dp Hs)).
  - exact demo_small_ok.
  - apply config_ok_live, config_ok_default.
  - constructor; [exact demo_revents_ok|constructor].
  - vm_compute. reflexivity.
  - exists status, opened, ev. split; [exact He|exact Hp].
Defined.
End examples.
