(* ===== verification/Main.v ===== *)
(** * The program

    [src/main.c]: the arguments, the seeding of the hash key, the configuration
    and the router. *)

From stdpp Require Import gmap.
From Stdlib Require Import String.
From S2P Require Import Prelude Hash QuicInitial SessionKey Probe SessionTable FlowTable QuicFrames Hostname TlsClientHello RouteTable CidCodec Config LogText QuicCrypto Runtime Sender Pending Upstream Routing Dataplane DataplaneSafety EventLoop Startup.
#[local] Open Scope Z_scope.

Definition status_name (status : qsr_status) : list Z :=
  match status with
  | QSR_OK => str "ok"
  | QSR_ERR_INVALID => str "invalid"
  | QSR_ERR_TRUNCATED => str "truncated"
  | QSR_ERR_UNSUPPORTED => str "unsupported"
  | QSR_ERR_NOT_FOUND => str "not_found"
  | QSR_ERR_FULL => str "full"
  end.

Section main.
Context `{Crypto} `{Yaml} (aes_128_ctr : list Z -> list Z -> list Z -> option (list Z)) (k : qsr_dataplane -> kernel).
Context (open : list Z -> config_source) (getaddrinfo : list Z -> Z -> option (list Z)).

(** The configuration the arguments ask for, with its status, and the path to watch. *)
Definition main_config `{KeyedHash} (argv : list (list Z)) : option (list Z) * (qsr_config * qsr_status) :=
  match argv with
  | [_; config_path] => (Some config_path, qsr_config_load open config_path)
  | _ => (None, (qsr_config_default, QSR_OK))
  end.

(** [main] behind the seeding of the key: the exit status, the descriptors
    start-up was given and the events. *)
Definition main_seeded `{KeyedHash} (o : os) (raw : qsr_runtime) (argv : list (list Z)) (turns : list (list Z * wait_result)) :
    option (Z * list Z * list event) :=
  if (2 <? length argv)%nat then Some (2, [], [])
  else
    let '(config_path, (config, status)) := main_config argv in
    if negb (bool_decide (status = QSR_OK)) then Some (1, [], [])
    else
      '(status, opened, ev) ← qsr_udp_run aes_128_ctr k open getaddrinfo o raw config config_path turns;
      Some (if bool_decide (status = QSR_OK) then 0 else 1, opened, ev).

(** What [main] itself prints before the router runs, and nothing when it runs. *)
Definition main_message `{KeyedHash} (hash_status : qsr_status) (argv : list (list Z)) : list Z :=
  if negb (bool_decide (hash_status = QSR_OK)) then str "failed to seed hash key" ++ [10]
  else if (2 <? length argv)%nat then str "usage: " ++ default [] (argv !! 0%nat) ++ str " [config.yaml]" ++ [10]
  else
    let '(_, (_, status)) := main_config argv in
    if negb (bool_decide (status = QSR_OK)) then str "failed to load config: " ++ status_name status ++ [10] else [].

(** The tables are hashed under the key that [qsr_hash_init] has drawn. *)
Definition main (o : os) (raw : qsr_runtime) (randoms : list getrandom_result) (argv : list (list Z))
    (turns : list (list Z * wait_result)) : option (Z * list Z * list event) :=
  '(st, status, _) ← qsr_hash_init hash_state0 randoms;
  if negb (bool_decide (status = QSR_OK)) then Some (1, [], [])
  else main_seeded (H1 := siphash_keyed (g_hash_key st)) o raw argv turns.
End main.

(** ** Lemmas *)

Section theory.
Context `{KeyedHash} `{Crypto} `{crypto_output : !CryptoOutput} `{Yaml} `{yaml_laws : !YamlLaws}.
Context (aes_128_ctr : list Z -> list Z -> list Z -> option (list Z)) (k : qsr_dataplane -> kernel).
Context (open : list Z -> config_source) (getaddrinfo : list Z -> Z -> option (list Z)).

(** Whatever configuration the program accepts is in range. *)
Lemma main_config_live argv path config : main_config open argv = (path, (config, QSR_OK)) -> live_config config.
Proof using yaml_laws.
  assert (Hd : live_config qsr_config_default) by apply config_ok_live, config_ok_default.
  unfold main_config. destruct argv as [|name [|p [|]]]; try by intros [= _ <-].
  intros [= _ Hc]. by apply config_ok_live, (load_ok open p).
Qed.

Lemma status_name_inj a b : status_name a = status_name b -> a = b.
Proof using. by destruct a, b. Qed.

(** [main] says something of its own exactly when it does not get as far as running the router. *)
Lemma main_message_none argv : main_message open QSR_OK argv = [] <->
  (length argv <= 2)%nat /\ exists path config, main_config open argv = (path, (config, QSR_OK)).
Proof using.
  unfold main_message. rewrite bool_decide_eq_true_2 by done. cbn [negb].
  destruct (2 <? length argv)%nat eqn:El; [apply Nat.ltb_lt in El|apply Nat.ltb_ge in El].
  - split; [|lia]. intros He. apply (f_equal length) in He. by rewrite length_app in He.
  - destruct (main_config open argv) as [path [config status]]. case_bool_decide as Hst; cbn [negb].
    + subst status. split; [|done]. intros _. split; [done|]. by exists path, config.
    + split; [intros He; apply (f_equal length) in He; by rewrite length_app in He|]. intros (_ & p & c & Hc). congruence.
Qed.

(** The program behind the seeding. *)
Record exits (o : os) (raw : qsr_runtime) (argv : list (list Z)) (code : Z) (opened : list Z) (ev : list event) : Prop := {
  ex_code : code = 0 \/ code = 1 \/ code = 2;
  ex_usage : code = 2 <-> (2 < length argv)%nat;
  ex_success : code = 0 <-> (length argv <= 2)%nat /\ exists path config started,
    main_config open argv = (path, (config, QSR_OK)) /\ udp_start getaddrinfo o raw config path = inl started;
  ex_fds : closed (flow_events ev) ≡ₚ opened ++ sockets ev;
  ex_sockets : opened_by k (sockets ev);
}.

Lemma main_seeded_spec o raw argv turns : (forall dp, dp_safe dp -> kernel_fresh (k dp) dp) ->
  (forall n sz, os_calloc o n sz = true -> n * sz < 2 ^ 64) -> Forall (fun t => wait_ok t.2) turns -> 1 + turns_count turns < 2 ^ 64 ->
  exists code opened ev, main_seeded aes_128_ctr k open getaddrinfo o raw argv turns = Some (code, opened, ev) /\
    exits o raw argv code opened ev.
Proof using crypto_output yaml_laws.
  intros Hk Hcalloc Ht Hn. unfold main_seeded.
  assert (Hnone : closed (flow_events []) ≡ₚ [] ++ sockets []) by done. assert (Hby : opened_by k (sockets [])) by constructor.
  destruct (2 <? length argv)%nat eqn:El; [apply Nat.ltb_lt in El|apply Nat.ltb_ge in El].
  { exists 2, [], []. split; [done|]. split; [auto|done|split; [done|lia]|done..]. }
  destruct (main_config open argv) as [path [config status]] eqn:Ec. cbv beta iota zeta.
  case_bool_decide as Hst; cbn [negb].
  2: { exists 1, [], []. split; [done|]. split; [auto|split; [done|lia]| |done..]. split; [done|].
       intros (_ & p & c & st & Hc & _). congruence. }
  subst status. destruct (udp_run_spec aes_128_ctr k open getaddrinfo o raw config path turns Hk Hcalloc
    (main_config_live argv path config Ec) Ht Hn) as (status & opened & ev & -> & Hs & Hop & Hp).
  cbn [mbind option_bind]. eexists _, opened, ev. split; [reflexivity|]. split; [case_bool_decide; auto|case_bool_decide; split; lia| |done|done].
  split.
  - case_bool_decide as Hst; [|done]. intros _. split; [done|]. apply Hs in Hst as [x Hx]. exists path, config.
    destruct (udp_start _ _ _ _ _) as [st|]; [|done]. by exists st.
  - intros (_ & p & c & st & Hc & Hst). rewrite Ec in Hc. injection Hc as <- <-. rewrite bool_decide_eq_true_2; [done|]. apply Hs. rewrite Hst. by eexists.
Qed.
End theory.

(** ** Properties *)

(** C10: the whole program. Once the random source has answered, [main] comes to
    its end whatever arrives and whatever the kernel answers: it exits with 2
    exactly on too many arguments, with 0 exactly when the configuration and
    the start-up succeeded, otherwise with 1; and on every path the descriptors
    closed are exactly those opened - the watch, the listening sockets tried and
    the [epoll] set at the start, and every descriptor [socket] returned to the
    packet handlers, as the events list them - each as often as it was opened.
    The only bound on what arrives is that flow ids, 64 bits wide, do not wrap. *)
Theorem main_exits `{Crypto} `{!CryptoOutput} `{Yaml} `{!YamlLaws} aes_128_ctr k open getaddrinfo o raw randoms argv turns st status rest :
  qsr_hash_init hash_state0 randoms = Some (st, status, rest) ->
  (forall n sz, os_calloc o n sz = true -> n * sz < 2 ^ 64) ->
  let hash := siphash_keyed (g_hash_key st) in
  (forall dp, dp_safe dp -> kernel_fresh (k dp) dp) -> Forall (fun t => wait_ok t.2) turns -> 1 + turns_count turns < 2 ^ 64 ->
  exists code opened ev, main aes_128_ctr k open getaddrinfo o raw randoms argv turns = Some (code, opened, ev) /\
    if bool_decide (status = QSR_OK) then exits k open getaddrinfo o raw argv code opened ev
    else code = 1 /\ opened = [] /\ ev = [].
Proof.
  intros Hr Hcalloc hash Hk Ht Hn. unfold main. rewrite Hr. cbn [mbind option_bind].
  destruct (bool_decide (status = QSR_OK)); cbn [negb]; [|by exists 1, [], []].
  by apply main_seeded_spec.
Qed.

(** ** Witnesses *)

Section examples.
Local Existing Instances plain_crypto plain_output demo_yaml demo_yaml_laws.

Definition demo_randoms : list getrandom_result := [Hash.Interrupted; Got (zeros 10); Got (zeros 6)].

Definition demo_hash : hash_state := {| g_hash_key := zeros 16; g_hash_key_seeded := true |}.

Lemma demo_started : exists dp, udp_start (H := siphash_keyed (zeros 16)) demo_getaddrinfo demo_os demo_raw qsr_config_default None =
  inl (dp, 8, [6; 7; 8], [CloseFd 6]).
Proof. eexists. reflexivity. Qed.

(** Started without a file, handling the demo datagram: it ends with status 0. *)
Lemma main_exits_witness : exists opened ev,
  main plain_ctr next_kernel demo_open demo_getaddrinfo demo_os demo_raw demo_randoms [[113]] demo_turns = Some (0, opened, ev).
Proof.
  destruct (main_exits plain_ctr next_kernel demo_open demo_getaddrinfo demo_os demo_raw demo_randoms [[113]] demo_turns
    demo_hash QSR_OK [] eq_refl demo_small_ok (fun dp Hs => next_kernel_fresh _ dp (ds_flows dp Hs)) demo_turns_ok eq_refl)
    as (code & opened & ev & He & Hx).
  rewrite bool_decide_eq_true_2 in Hx by done. destruct demo_started as [dp Hs].
  assert (code = 0) as ->.
  { apply (ex_success _ _ _ _ _ _ _ _ _ Hx). split; [cbn; lia|]. exists None, qsr_config_default. eexists. split; [done|exact Hs]. }
  exists opened, ev. exact He.
Defined.
End examples.
